(* ===== verification/_CoqProject ===== *)
-Q . S2P
Prelude.v
CppStrings.v
Doubles.v
DoubleText.v
Frame.v
Packet.v
Transport.v
EmulatorPacket.v
LinkState.v
EventQueue.v
Runtime.v
Edge.v
LinkRules.v
EmulatedLink.v
Arp.v
Posix.v
EmuNet.v
EmuTable.v
Topology.v
Parser.v
ParserSpec.v
CoreTheorems.v
TcpData.v
TcpSend.v
TcpSocket.v
TcpManager.v
TcpRun.v
TcpGrow.v
Pattern.v
TcpInv.v
TcpOps.v
TcpSpec.v
TcpFlow.v
TcpSafe.v
TcpHandlers.v
TcpNet.v
TcpStream.v
TcpTheorems.v
Node.v
Apps.v
StackNode.v
NodeFrame.v
NodeRun.v
NodeSpec.v
AppSpec.v
PatternTcp.v
PatternFlow.v
PatternNode.v
PatternTasks.v
TransferStream.v
NodeTheorems.v
Emulator.v
EmuFrame.v
EmuSafe.v
EmuLoop.v
EmuEvents.v
EmuTheorems.v
SimNet.v
Simulator.v
Trawler.v
TrawlerText.v
TrawlerRun.v
TrawlerInv.v
TrawlerOps.v
TrawlerServe.v
TrawlerLoop.v
TrawlerTheorems.v
EmulatedHop.v
ConsoleThread.v
Main.v
SimFrame.v
SimLoop.v
MainTheorems.v
PatternSim.v
PatternEmu.v
PatternWorld.v
SimEvents.v
SimTheorems.v
Findings.v
UnitTests.v
