(* ===== verification/Prelude.v ===== *)
(** * NetBridge: a verification library

    NetBridge is a user-space network stack (nodes with ping, a TCP-like
    transport and a file transfer) that runs in a discrete-event simulator, or as
    one process per node over UDP: the emulators, which a server, the trawler,
    tells of their neighbors.  This library models its C++ code definition by
    definition and proves what each part promises.  This file is the prelude: it
    is followed by the guide.

    ** The program and its model

    A computation is a function from a state to a result and a state ([M]);
    a result is a value or a [fault]: an exception in flight, [std::exit] or a
    signal that ends the process, undefined behaviour (a signed overflow, a null
    pointer, an index outside a vector), or a loop of the model that ran out of
    fuel.  [wp] is the statement that a run ends in a value with a postcondition,
    or in a fault that is listed.  Integers are [Z] with the checks [int] and
    [long] where the code computes in 32 or 64 signed bits, [wrap32] and byte
    splitting where it converts; doubles are the Standard Library's [SpecFloat]
    of 53 bits.  What the operating system answers (clock, datagrams, [send],
    [recv], [accept], lines of the console) comes in as streams or lists, and what
    the program writes is kept.

    - CppStrings.v, Doubles.v, DoubleText.v: what the code uses of the
      language's strings, doubles and conversions ([std::stoi], [std::stod],
      [std::to_string], [%g]) and the tokenizer.
    - Packet.v, Transport.v, EmulatorPacket.v, LinkState.v: the wire formats of
      src/net.
    - EventQueue.v, Runtime.v: src/core, the base class of simulator and
      emulator.  Its virtual functions are the class [Manager]; what an
      implementation owes to the nodes is the class [ManagerLaws].
    - Edge.v, Topology.v: the simulated links of src/sim and the topology,
      with its singleton in a cell; the random generator is a stream of draws.
    - Parser.v, ParserSpec.v: src/sim/commands_parser.cpp over its virtual
      functions (class [ParserOps]), and the grammar it is shown equal to.
    - TcpData.v, TcpSend.v, TcpSocket.v, TcpManager.v: the transport layer of
      src/node.  Sockets live in a store indexed by pointers, so that the
      manager's tables and the applications share them.  The order in which
      the code visits its hash tables is the class [MapOrder], and [Platform] for
      those with integer keys.
    - Node.v, StackNode.v, Apps.v: the node, its commands, and the three tasks
      of the file transfer with the timer they share.
    - SimNet.v, Simulator.v: src/sim/simulator.cpp.  SimNet.v is what the nodes
      see: queue, clock, topology; it is an instance of [Manager].
    - EmulatedLink.v, Arp.v, Posix.v, EmuNet.v, Emulator.v: the emulator of
      src/emu: its links, the text protocol with the trawler, lines and writes on
      sockets, the table of neighbors with what the node sees of the network
      (another instance of [Manager]), the main loop.
    - Trawler.v: src/emu/trawler_service.cpp, src/emu/emulated_node.cpp and the
      hooks of src/sim/trawler_commands_parser.cpp (an instance of [ParserOps]),
      with the trawler's [main].
    - Main.v: src/main.cpp, both modes.
    - ConsoleThread.v: the thread that reads standard input, as a step relation
      of the threads over the object they share, with the condition variable, its
      notifications and spurious wake-ups.

    ** What is proved

    - Frame.v, TcpGrow.v, NodeFrame.v, SimFrame.v, EmuFrame.v: what every
      operation keeps whatever it does, proved rule by rule; among it that the
      fuel of [write] (one step per byte) always lasts.
    - TcpRun.v to TcpHandlers.v: the rules of the transport layer's state, its
      invariant [tm_ok], and the safety and contract of each operation.
      TcpNet.v, TcpStream.v: two managers over a network that loses, repeats
      and reorders, as a transition system; the stream invariant.
      TcpTheorems.v states the results: no fault and no broken invariant from
      any segment, call or timer; what a write, an acknowledgment, a data
      segment, a timeout, SYN, FIN, close and read do on every branch; that
      what is delivered is a prefix of what was accepted.
    - NodeRun.v, NodeSpec.v, AppSpec.v, TransferStream.v, NodeTheorems.v: the
      same for the node: packets, commands, timers, ping, the transfer tasks,
      and that a transfer of compatible buffers is never reported as corrupt.
    - CoreTheorems.v: round trips of the formats, stability of the queue, the
      contract of a link, the topology against an abstract one, in both modes.
    - SimLoop.v, SimEvents.v, SimTheorems.v: the simulator.  Its
      network obeys [ManagerLaws], so that the theorems of the nodes hold in
      it.  [ran] and [turns] say which events a run called, in which order and from
      which state, with their exceptions reported; no exception leaves the loop
      ([unthrown] in Frame.v, NodeFrame.v: which faults a computation cannot
      end in).  Every event is safe; the event loop ends, the clock jumps from
      event to event, every pending event is called; a packet becomes exactly one
      delivery or one count; the parser is the grammar, but for lines in the other
      forms that the README documents; the program returns 1 with a report exactly
      if its arguments are refused.
    - LinkRules.v, EmuTable.v, EmuSafe.v, EmuLoop.v, EmuEvents.v,
      EmuTheorems.v, MainTheorems.v: the emulator.  Its table is a function of
      the trawler's text however that is cut; its network obeys [ManagerLaws]; a
      packet leaves at once or when its link lets it; if the clock does not run
      backwards and links take time, every iteration ends and calls what is due
      ([emu_turn], [emu_turns]); from the command line no exception escapes, and
      what is refused is reported with 1.
    - TrawlerText.v to TrawlerTheorems.v: the trawler.  [entry] is what a node
      should know of another, given the topology and the nodes that are there;
      [told] is what the text written to it makes of its table; [consistent]
      says that they agree.  Each operation is described by the entries it may
      change ([moves]), so that the hooks, a peer that comes and nodes that go
      keep [consistent]; [follows] relates a hook to a step of a script.  The
      results: the tables are right after any run of a sound topology file,
      whatever connects and breaks ([trawled]); the program reports and returns 1
      exactly for a bad start; addresses; only dead nodes leave; and the emulators
      that read the text get the same tables.  EmulatedHop.v
      joins the trawler and two emulators: a packet from one node to the other.
    - Pattern.v to PatternWorld.v: no transfer is corrupted, in a whole run and
      with no bound on times, counters or windows.  All transfers send the same
      sequence of bytes, of which every buffer, segment, packet and frame is
      shown to hold a piece at its place: [stream] and [genuine] in Pattern.v, the
      transport layer's part in PatternTcp.v and PatternFlow.v (segments that
      arrive, and what the tasks call), the node's in PatternNode.v (the
      invariant) and PatternTasks.v.  An environment that delivers what it was
      given is a [Carrier]; both networks are (PatternSim.v, PatternEmu.v).
      PatternSim.v is the result for the
      simulator from the command line, PatternWorld.v that for any number of
      emulators on a network that loses, repeats and reorders.  Both are about
      buffer sizes that are compatible; a run of two others raises the alarm.
    - ConsoleThread.v: lines arrive in order, none is lost unless the thread is
      stopped, no wake-up is lost, and a wait ends.
    - UnitTests.v: the tests of src/test, all of which hold of the model.
    - Findings.v: runs in which the code does not do what it
      should.

    ** Bounds and fuel

    The invariants bound sequence numbers by 2^31 - 2^14 ([SEQ_LIMIT]), times
    by 2^50 milliseconds ([TIME_LIMIT]), the readings of the trawler's clock by
    2^62 ([CLOCK_LIMIT]), congestion windows by 6000 bytes above the acknowledged
    ones; the theorems say under which room an operation keeps them.
    [write_loop] gets one step more than there are bytes, as do the loops of
    [writeAllFd]; the event loop one more than there are events in the queue and
    lines left in the topology file, which is enough because every edge takes
    time and every timer at least a millisecond, so that nothing that runs makes
    another event due except by consuming a line; the emulator's loop over what
    is due one more than there are events.  Theorems about the main loops take
    the input as a list, one element per iteration or connection.

    ** Not modelled

    That a rejected or a dead peer's connection is closed ([::close]) has no effect
    in the model, which gives no connection a use after that; what the node of a
    dead connection records ([tcpFd_], [alive_]) is modelled.
    The system clock, the calls of the operating system themselves (their results
    are the inputs above; a connection that stays open and silent is left out)
    and the time that passes while they wait.  The seeds of the random generators
    are parameters, since the code takes them from [std::random_device].  The
    reading thread of ConsoleThread.v is not joined with the simulator's loop,
    which takes the lines as its input; what the thread does after its
    object is destroyed is left out. *)

From Stdlib Require Export ZArith Lia.
From Stdlib Require Export Strings.Byte.
From stdpp Require Export base list gmap strings.

#[export] Set Default Proof Using "Type".
#[global] Open Scope Z_scope.

(** ** Outcomes of a C++ evaluation *)

(** The exceptions the code throws or catches; each carries its [what()]. *)
Inductive exn : Type :=
| invalid_argument (what : string)
| out_of_range (what : string)
| length_error (what : string)
| runtime_error (what : string)
| bad_function_call.

Definition what (e : exn) : string :=
  match e with
  | invalid_argument w | out_of_range w | length_error w | runtime_error w => w
  | bad_function_call => "bad_function_call"
  end.

(** How an evaluation can end without a value: an exception in flight, a
    call of [std::exit], undefined behaviour of the language, or a loop of the
    model that used up its fuel (which theorems show not to happen). *)
Inductive fault : Type :=
| Thrown (e : exn)
| Exited (code : Z)
| UB
| NoFuel.

Inductive result (A : Type) : Type :=
| Ret (a : A)
| Fault (f : fault).
Arguments Ret {A} a.
Arguments Fault {A} f.

(** A C++ function on a mutable state [S]: the state reached is kept when the
    evaluation throws, as the mutations made before a [throw] are. *)
Definition M (S A : Type) : Type := S -> result A * S.

Definition ret {S A} (a : A) : M S A := fun s => (Ret a, s).

Definition bind {S A B} (m : M S A) (k : A -> M S B) : M S B :=
  fun s =>
    match m s with
    | (Ret a, s') => k a s'
    | (Fault f, s') => (Fault f, s')
    end.

Definition fail {S A} (f : fault) : M S A := fun s => (Fault f, s).

Definition throw {S A} (e : exn) : M S A := fail (Thrown e).

(** [try { m } catch (...) { h }]: only exceptions are caught. *)
Definition try_catch {S A} (m : M S A) (h : exn -> M S A) : M S A :=
  fun s =>
    match m s with
    | (Fault (Thrown e), s') => h e s'
    | r => r
    end.

Definition gets {S A} (f : S -> A) : M S A := fun s => (Ret (f s), s).

Definition modify {S} (f : S -> S) : M S unit := fun s => (Ret tt, f s).

Definition when {S} (b : bool) (m : M S unit) : M S unit :=
  if b then m else ret tt.

(** A constructor call or a pure function that may throw. *)
Definition lift_exn {S A} (r : exn + A) : M S A :=
  match r with
  | inl e => throw e
  | inr a => ret a
  end.

(** An operation on a part of the state: [get_]/[set_] are the part's lens. *)
Definition zoom {S T A} (get_ : S -> T) (set_ : T -> S -> S) (m : M T A) : M S A :=
  fun s => let '(r, t) := m (get_ s) in (r, set_ t s).

Declare Scope nb_scope.
Delimit Scope nb_scope with nb.
Notation "'let!' x ':=' m 'in' k" := (bind m (fun x => k))
  (at level 10, x name, m at level 100, k at level 200,
   format "'[v' 'let!'  x  ':='  m  'in' '/' k ']'") : nb_scope.
Notation "'let!' ' x ':=' m 'in' k" := (bind m (fun x => k))
  (at level 10, x strict pattern, m at level 100, k at level 200,
   format "'[v' 'let!'  ' x  ':='  m  'in' '/' k ']'") : nb_scope.
Notation "m ;; k" := (bind m (fun _ => k))
  (at level 100, k at level 200, right associativity) : nb_scope.
Open Scope nb_scope.

(** ** Laws of the monad and a weakest-precondition calculus *)

Section monad_laws.
Context {S : Type}.

Lemma bind_ret_l {A B} (a : A) (k : A -> M S B) s : bind (ret a) k s = k a s.
Proof. reflexivity. Qed.

Lemma bind_ret_r {A} (m : M S A) s : bind m ret s = m s.
Proof. unfold bind, ret. by destruct (m s) as [[]]. Qed.

Lemma bind_bind {A B C} (m : M S A) (k : A -> M S B) (l : B -> M S C) s :
  bind (bind m k) l s = bind m (fun a => bind (k a) l) s.
Proof. unfold bind. by destruct (m s) as [[] ?]. Qed.

Lemma bind_run {A B} (m : M S A) (k : A -> M S B) s a s' :
  m s = (Ret a, s') -> bind m k s = k a s'.
Proof. unfold bind. by intros ->. Qed.

Lemma bind_run_fault {A B} (m : M S A) (k : A -> M S B) s f s' :
  m s = (Fault f, s') -> bind m k s = (Fault f, s').
Proof. unfold bind. by intros ->. Qed.

Lemma try_run {A} (m : M S A) h s a s' :
  m s = (Ret a, s') -> try_catch m h s = (Ret a, s').
Proof. unfold try_catch. by intros ->. Qed.

Lemma try_run_thrown {A} (m : M S A) h s e s' :
  m s = (Fault (Thrown e), s') -> try_catch m h s = h e s'.
Proof. unfold try_catch. by intros ->. Qed.
End monad_laws.

(** [wp m s Q X]: run from [s], [m] either returns a value and a state in [Q]
    or ends in a fault and a state in [X]. *)
Definition wp {S A} (m : M S A) (s : S) (Q : A -> S -> Prop)
    (X : fault -> S -> Prop) : Prop :=
  match m s with
  | (Ret a, s') => Q a s'
  | (Fault f, s') => X f s'
  end.

Definition no_fault {S} : fault -> S -> Prop := fun _ _ => False.

Section wp_rules.
Context {S : Type}.

Lemma wp_ret {A} (a : A) (s : S) (Q : A -> S -> Prop) X :
  Q a s -> wp (ret a) s Q X.
Proof. done. Qed.

Lemma wp_bind {A B} (m : M S A) (k : A -> M S B) s Q X :
  wp m s (fun a s' => wp (k a) s' Q X) X -> wp (bind m k) s Q X.
Proof. unfold wp, bind. by destruct (m s) as [[] ?]. Qed.

Lemma wp_gets {A} (f : S -> A) s (Q : A -> S -> Prop) X :
  Q (f s) s -> wp (gets f) s Q X.
Proof. done. Qed.

Lemma wp_modify (f : S -> S) s (Q : unit -> S -> Prop) X :
  Q tt (f s) -> wp (modify f) s Q X.
Proof. done. Qed.

Lemma wp_fail {A} f s (Q : A -> S -> Prop) (X : fault -> S -> Prop) :
  X f s -> wp (fail f) s Q X.
Proof. done. Qed.

Lemma wp_when (b : bool) m s (Q : unit -> S -> Prop) X :
  (b = true -> wp m s Q X) -> (b = false -> Q tt s) -> wp (when b m) s Q X.
Proof. destruct b; unfold when; [auto | intros _ H; apply wp_ret; auto]. Qed.

Lemma wp_try {A} (m : M S A) h s Q X :
  wp m s Q (fun f s' =>
    match f with Thrown e => wp (h e) s' Q X | _ => X f s' end) ->
  wp (try_catch m h) s Q X.
Proof. unfold wp, try_catch. by destruct (m s) as [[|[]] ?]. Qed.

Lemma wp_conseq {A} (m : M S A) s (Q Q' : A -> S -> Prop) (X X' : fault -> S -> Prop) :
  wp m s Q X -> (forall a s', Q a s' -> Q' a s') ->
  (forall f s', X f s' -> X' f s') -> wp m s Q' X'.
Proof. unfold wp. destruct (m s) as [[] ?]; auto. Qed.

Lemma wp_and {A} (m : M S A) s (Q Q' : A -> S -> Prop) X :
  wp m s Q X -> wp m s Q' X -> wp m s (fun a s' => Q a s' /\ Q' a s') X.
Proof. unfold wp. destruct (m s) as [[] ?]; auto. Qed.

Lemma wp_run {A} (m : M S A) s (Q : A -> S -> Prop) :
  wp m s Q no_fault -> exists a s', m s = (Ret a, s') /\ Q a s'.
Proof. unfold wp, no_fault. destruct (m s) as [[] ?]; [eauto | done]. Qed.

Lemma run_wp {A} (m : M S A) s (Q : A -> S -> Prop) X a s' :
  m s = (Ret a, s') -> Q a s' -> wp m s Q X.
Proof. unfold wp. by intros ->. Qed.

Lemma wp_eq {A} (m m' : M S A) s (Q : A -> S -> Prop) X :
  m s = m' s -> wp m' s Q X -> wp m s Q X.
Proof. unfold wp. by intros ->. Qed.

Lemma wp_zoom {T A} (g : S -> T) (u : T -> S -> S) (m : M T A) s Q X :
  wp m (g s) (fun a t => Q a (u t s)) (fun f t => X f (u t s)) ->
  wp (zoom g u m) s Q X.
Proof. unfold wp, zoom. by destruct (m (g s)) as [[] ?]. Qed.
End wp_rules.

(** One structural step of symbolic execution. *)
Ltac wp_step :=
  lazymatch goal with
  | |- wp (bind _ _) _ _ _ => apply wp_bind
  | |- wp (ret _) _ _ _ => apply wp_ret
  | |- wp (gets _) _ _ _ => apply wp_gets
  | |- wp (modify _) _ _ _ => apply wp_modify
  | |- wp (fail _) _ _ _ => apply wp_fail
  | |- wp (throw _) _ _ _ => apply wp_fail
  | |- wp (try_catch _ _) _ _ _ => apply wp_try
  | |- wp (zoom _ _ _) _ _ _ => apply wp_zoom
  end; cbv beta.
Ltac wp_go := repeat wp_step.

(** ** Record updates

    [Eta R] rebuilds a record from its projections; [set_field f v r] is the
    record [r] with its field [f] replaced by [v]. *)

Class Eta (R : Type) := eta : R -> R.

Ltac set_field f v r :=
  let R := type of r in
  let inst := constr:(_ : Eta R) in
  let i := (eval cbv delta [eta] in inst) in
  let t := (eval hnf in (i r)) in
  lazymatch (eval pattern (f r) in t) with
  | ?g _ => let t' := (eval cbv beta in (g v)) in exact t'
  end.

(** ** Machine integers

    [int] has 32 bits, [long] and [std::int64_t] have 64. *)

Definition INT_MIN : Z := - 2 ^ 31.
Definition INT_MAX : Z := 2 ^ 31 - 1.
Definition LONG_MIN : Z := - 2 ^ 63.
Definition LONG_MAX : Z := 2 ^ 63 - 1.

Definition in_int (z : Z) : bool := (INT_MIN <=? z) && (z <=? INT_MAX).
Definition in_long (z : Z) : bool := (LONG_MIN <=? z) && (z <=? LONG_MAX).

(** The value of a signed arithmetic expression: overflow is undefined. *)
Definition int {S} (z : Z) : M S Z := if in_int z then ret z else fail UB.
Definition long {S} (z : Z) : M S Z := if in_long z then ret z else fail UB.

(** Signed division truncates; division by zero and [MIN / -1] are undefined. *)
Definition div_long {S} (a b : Z) : M S Z :=
  if decide (b = 0) then fail UB else long (Z.quot a b).
Definition rem_int {S} (a b : Z) : M S Z :=
  if decide (b = 0) then fail UB
  else if in_int (Z.quot a b) then ret (Z.rem a b) else fail UB.

(** [static_cast] to [int] (modular) and to [std::uint8_t]. *)
Definition wrap32 (z : Z) : Z := (z + 2 ^ 31) mod 2 ^ 32 - 2 ^ 31.

Definition u8 (z : Z) : byte :=
  match Byte.of_N (Z.to_N (z mod 256)) with
  | Some b => b
  | None => x00
  end.

(** Integral promotion of a [std::uint8_t]. *)
Definition bZ (b : byte) : Z := Z.of_N (Byte.to_N b).

Lemma in_int_spec z : in_int z = true <-> INT_MIN <= z <= INT_MAX.
Proof. unfold in_int. rewrite andb_true_iff, !Z.leb_le. lia. Qed.

Lemma in_long_spec z : in_long z = true <-> LONG_MIN <= z <= LONG_MAX.
Proof. unfold in_long. rewrite andb_true_iff, !Z.leb_le. lia. Qed.

Lemma int_ret {S} z (s : S) : INT_MIN <= z <= INT_MAX -> int z s = (Ret z, s).
Proof. intros H. unfold int. by rewrite (proj2 (in_int_spec z) H). Qed.

Lemma long_ret {S} z (s : S) : LONG_MIN <= z <= LONG_MAX -> long z s = (Ret z, s).
Proof. intros H. unfold long. by rewrite (proj2 (in_long_spec z) H). Qed.

Lemma wp_int {S} z (s : S) (Q : Z -> S -> Prop) X :
  INT_MIN <= z <= INT_MAX -> Q z s -> wp (int z) s Q X.
Proof. intros H HQ. unfold wp. by rewrite int_ret. Qed.

Lemma wp_long {S} z (s : S) (Q : Z -> S -> Prop) X :
  LONG_MIN <= z <= LONG_MAX -> Q z s -> wp (long z) s Q X.
Proof. intros H HQ. unfold wp. by rewrite long_ret. Qed.

Lemma wrap32_id z : INT_MIN <= z <= INT_MAX -> wrap32 z = z.
Proof. unfold wrap32, INT_MIN, INT_MAX. intros. rewrite Z.mod_small; lia. Qed.

Lemma bZ_range b : 0 <= bZ b < 256.
Proof. unfold bZ. pose proof (Byte.to_N_bounded b). lia. Qed.

Lemma bZ_u8 z : bZ (u8 z) = z mod 256.
Proof.
  unfold bZ, u8.
  pose proof (Z.mod_pos_bound z 256 ltac:(lia)) as Hm.
  destruct (Byte.of_N _) as [b|] eqn:E.
  - apply Byte.to_of_N in E. rewrite E. lia.
  - apply Byte.of_N_None_iff in E. lia.
Qed.

Lemma bZ_u8_small z : 0 <= z < 256 -> bZ (u8 z) = z.
Proof. intros. rewrite bZ_u8. by apply Z.mod_small. Qed.

Lemma u8_bZ b : u8 (bZ b) = b.
Proof.
  unfold u8. rewrite Z.mod_small by apply bZ_range.
  unfold bZ. rewrite N2Z.id. by rewrite Byte.of_to_N.
Qed.

Lemma bZ_inj b c : bZ b = bZ c -> b = c.
Proof. intros H. rewrite <- (u8_bZ b), <- (u8_bZ c). by rewrite H. Qed.

#[export] Instance byte_eq_dec : EqDecision byte := Byte.byte_eq_dec.

#[global] Arguments u8 : simpl never.
#[global] Arguments bZ : simpl never.

(** [static_cast<int>(v.size())]: vectors are shorter than 2^31 elements. *)
Definition vsize {A} (v : list A) : Z := Z.of_nat (length v).

Lemma vsize_nonneg {A} (v : list A) : 0 <= vsize v.
Proof. unfold vsize. lia. Qed.

Lemma vsize_app {A} (v w : list A) : vsize (v ++ w) = vsize v + vsize w.
Proof. unfold vsize. rewrite length_app. lia. Qed.

Lemma vsize_cons {A} (a : A) v : vsize (a :: v) = 1 + vsize v.
Proof. unfold vsize. simpl. lia. Qed.

Lemma vsize_nil {A} : vsize (@nil A) = 0.
Proof. done. Qed.

#[global] Arguments vsize : simpl never.

(** A member function's update in place is an insertion of the new value. *)
Lemma list_alter_insert {A} (f : A -> A) (l : list A) i x :
  l !! i = Some x -> alter f i l = <[i := f x]> l.
Proof.
  intros Hx. apply list_eq. intros j. destruct (decide (j = i)) as [->|Hne].
  - rewrite list_lookup_alter_eq, Hx. cbn. symmetry. apply list_lookup_insert_eq.
    by eapply lookup_lt_Some.
  - by rewrite list_lookup_alter_ne, list_lookup_insert_ne by done.
Qed.

Create HintDb nb.
Create Rewrite HintDb nb_size.
#[export] Hint Rewrite @vsize_app @vsize_cons @vsize_nil : nb_size.
#[export] Hint Resolve vsize_nonneg bZ_range : nb.

(** ** Big-endian 32-bit integers

    The same two idioms occur in every codec of src/net: four pushes of
    [(v >> k) & 0xFF], and [(int32(b0) << 24) | ... | int32(b3)] (in C++17 a
    left shift of a non-negative value converts modulo 2^32). *)

Definition shl32 (b : byte) (k : Z) : Z := wrap32 (Z.shiftl (bZ b) k).

Definition be32_put (v : Z) : list byte :=
  [u8 (Z.land (Z.shiftr v 24) 255); u8 (Z.land (Z.shiftr v 16) 255);
   u8 (Z.land (Z.shiftr v 8) 255); u8 (Z.land v 255)].

Definition be32_get (b0 b1 b2 b3 : byte) : Z :=
  Z.lor (Z.lor (Z.lor (shl32 b0 24) (shl32 b1 16)) (shl32 b2 8)) (bZ b3).

Lemma lor_shiftl_add hi lo n :
  0 <= n -> 0 <= lo < 2 ^ n -> Z.lor (hi * 2 ^ n) lo = hi * 2 ^ n + lo.
Proof.
  intros Hn Hlo. rewrite <- Z.shiftl_mul_pow2 by done.
  assert (Z.land (Z.shiftl hi n) lo = 0) as Hd.
  { apply Z.bits_inj'. intros i Hi. rewrite Z.land_spec, Z.bits_0.
    destruct (decide (i < n)).
    - by rewrite Z.shiftl_spec_low.
    - rewrite andb_false_iff. right.
      rewrite <- (Z.mod_small lo (2 ^ n)) by done.
      apply Z.mod_pow2_bits_high. lia. }
  rewrite <- Z.lxor_lor by done. symmetry. by apply Z.add_nocarry_lxor.
Qed.

(** The signed value of the top byte. *)
Definition top_byte (b : byte) : Z := if bZ b <? 128 then bZ b else bZ b - 256.

Lemma be32_get_sum b0 b1 b2 b3 :
  be32_get b0 b1 b2 b3 =
  ((top_byte b0 * 2 ^ 8 + bZ b1) * 2 ^ 8 + bZ b2) * 2 ^ 8 + bZ b3.
Proof.
  pose proof (bZ_range b0). pose proof (bZ_range b1).
  pose proof (bZ_range b2). pose proof (bZ_range b3).
  unfold be32_get, shl32. rewrite !Z.shiftl_mul_pow2 by lia.
  rewrite (wrap32_id (bZ b1 * _)), (wrap32_id (bZ b2 * _))
    by (unfold INT_MIN, INT_MAX; lia).
  assert (wrap32 (bZ b0 * 2 ^ 24) = top_byte b0 * 2 ^ 24) as ->.
  { unfold wrap32, top_byte. destruct (bZ b0 <? 128) eqn:E.
    - apply Z.ltb_lt in E. rewrite Z.mod_small; lia.
    - apply Z.ltb_ge in E. replace (bZ b0 * 2 ^ 24 + 2 ^ 31)
        with ((bZ b0 * 2 ^ 24 - 2 ^ 31) + 1 * 2 ^ 32) by lia.
      rewrite Z_mod_plus_full, Z.mod_small; lia. }
  rewrite (lor_shiftl_add (top_byte b0) (bZ b1 * 2 ^ 16) 24) by lia.
  replace (top_byte b0 * 2 ^ 24 + bZ b1 * 2 ^ 16)
    with ((top_byte b0 * 2 ^ 8 + bZ b1) * 2 ^ 16) by lia.
  rewrite lor_shiftl_add by lia.
  replace ((top_byte b0 * 2 ^ 8 + bZ b1) * 2 ^ 16 + bZ b2 * 2 ^ 8)
    with (((top_byte b0 * 2 ^ 8 + bZ b1) * 2 ^ 8 + bZ b2) * 2 ^ 8) by lia.
  by rewrite lor_shiftl_add by lia.
Qed.

Lemma be32_get_range b0 b1 b2 b3 : INT_MIN <= be32_get b0 b1 b2 b3 <= INT_MAX.
Proof.
  rewrite be32_get_sum. unfold INT_MIN, INT_MAX, top_byte.
  pose proof (bZ_range b0). pose proof (bZ_range b1).
  pose proof (bZ_range b2). pose proof (bZ_range b3).
  destruct (bZ b0 <? 128) eqn:E; [apply Z.ltb_lt in E | apply Z.ltb_ge in E]; lia.
Qed.

Lemma land_255 v : Z.land v 255 = v mod 2 ^ 8.
Proof. change 255 with (Z.ones 8). by apply Z.land_ones. Qed.

Lemma be32_put_div v :
  be32_put v =
  [u8 (v / 2 ^ 24); u8 (v / 2 ^ 16); u8 (v / 2 ^ 8); u8 v].
Proof.
  assert (forall z, u8 (z mod 2 ^ 8) = u8 z) as Hu.
  { intros z. unfold u8. by rewrite Zmod_mod. }
  unfold be32_put. by rewrite !land_255, !Hu, !Z.shiftr_div_pow2 by lia.
Qed.

Lemma be32_get_put v :
  INT_MIN <= v <= INT_MAX ->
  match be32_put v with
  | [a; b; c; d] => be32_get a b c d = v
  | _ => False
  end.
Proof.
  unfold INT_MIN, INT_MAX. intros Hv. rewrite be32_put_div, be32_get_sum.
  unfold top_byte. rewrite !bZ_u8.
  destruct (_ <? 128) eqn:E; [apply Z.ltb_lt in E | apply Z.ltb_ge in E];
    Z.div_mod_to_equations; lia.
Qed.

Lemma be32_put_get b0 b1 b2 b3 :
  be32_put (be32_get b0 b1 b2 b3) = [b0; b1; b2; b3].
Proof.
  rewrite be32_put_div, be32_get_sum.
  pose proof (bZ_range b0). pose proof (bZ_range b1).
  pose proof (bZ_range b2). pose proof (bZ_range b3).
  assert (top_byte b0 mod 256 = bZ b0) as Ht.
  { unfold top_byte. destruct (bZ b0 <? 128) eqn:E.
    - apply Z.mod_small; lia.
    - replace (bZ b0 - 256) with (bZ b0 + (-1) * 256) by lia.
      rewrite Z_mod_plus_full. by apply Z.mod_small. }
  repeat f_equal; apply bZ_inj; rewrite bZ_u8.
  - rewrite <- Ht. Z.div_mod_to_equations; lia.
  - Z.div_mod_to_equations; lia.
  - Z.div_mod_to_equations; lia.
  - Z.div_mod_to_equations; lia.
Qed.

#[global] Arguments be32_put : simpl never.
#[global] Arguments be32_get : simpl never.

(** ** The interface of the wire formats

    What every codec of src/net promises to the code that sends its packets:
    a well-formed value is read back from the bytes it was packed into. *)

Class WireFormat (T : Type) := {
  wire_ok : T -> Prop;
  wire_pack : T -> list byte;
  wire_unpack : list byte -> option T;
  wire_unpack_pack : forall t, wire_ok t -> wire_unpack (wire_pack t) = Some t
}.

Lemma wire_pack_inj `{WireFormat T} (t t' : T) :
  wire_ok t -> wire_ok t' -> wire_pack t = wire_pack t' -> t = t'.
Proof.
  intros Ht Ht' E. apply wire_unpack_pack in Ht, Ht'. congruence.
Qed.
