(* ===== verification/CppStrings.v ===== *)
(** * Strings of the standard library

    [std::to_string] and stream output of integers, the [stoi] family, the
    byte/character conversions of string_bytes.hpp, and the tokenizer loop that
    three files of the program share. *)

From Stdlib Require Import Strings.Ascii.
From Stdlib Require DecimalString DecimalZ DecimalPos.
From S2P Require Import Prelude.

(** ** Integers to text *)

Definition to_string (z : Z) : string := DecimalString.NilZero.string_of_int (Z.to_int z).

(** The line feed, written as a backslash and an n in the source. *)
Definition newline : string := String "010"%char EmptyString.

(** A line sent to a stream and ended with [std::endl]. *)
Definition endl (s : string) : string := s +:+ newline.

(** ** Text to integers *)

Definition isspace (c : ascii) : bool :=
  match c with
  | " "%char | "009"%char | "010"%char | "011"%char | "012"%char | "013"%char => true
  | _ => false
  end.

Definition digit_of (c : ascii) : option Z :=
  let n := Z.of_N (N_of_ascii c) in
  if (48 <=? n) && (n <=? 57) then Some (n - 48) else None.

Fixpoint skip_spaces (s : string) : string :=
  match s with
  | String c s' => if isspace c then skip_spaces s' else s
  | EmptyString => s
  end.

(** The digits at the head of [s], read after the digits already in [acc]. *)
Fixpoint read_digits (acc : Z) (s : string) : Z :=
  match s with
  | String c s' =>
      match digit_of c with
      | Some d => read_digits (acc * 10 + d) s'
      | None => acc
      end
  | EmptyString => acc
  end.

Definition starts_with_digit (s : string) : bool :=
  match s with
  | String c _ => match digit_of c with Some _ => true | None => false end
  | EmptyString => false
  end.

(** [strtol(s, &end, 10)]: leading white space, an optional sign, then the
    longest run of digits; [None] when there is no digit. *)
Definition strtol (s : string) : option Z :=
  match skip_spaces s with
  | String "-"%char s' => if starts_with_digit s' then Some (- read_digits 0 s') else None
  | String "+"%char s' => if starts_with_digit s' then Some (read_digits 0 s') else None
  | s' => if starts_with_digit s' then Some (read_digits 0 s') else None
  end.

Definition sto (name : string) (in_range : Z -> bool) (s : string) : exn + Z :=
  match strtol s with
  | None => inl (invalid_argument name)
  | Some z => if in_range z then inr z else inl (out_of_range name)
  end.

Definition stoi : string -> exn + Z := sto "stoi" in_int.
Definition stol : string -> exn + Z := sto "stol" in_long.
Definition stoll : string -> exn + Z := sto "stoll" in_long.

(** ** Bytes and characters (include/nb/string_bytes.hpp) *)

Definition stringToBytes (s : string) : list byte := String.list_byte_of_string s.
Definition bytesToString (bs : list byte) : string := String.string_of_list_byte bs.

Lemma bytesToString_stringToBytes s : bytesToString (stringToBytes s) = s.
Proof. apply String.string_of_list_byte_of_string. Qed.

Lemma stringToBytes_bytesToString bs : stringToBytes (bytesToString bs) = bs.
Proof. apply String.list_byte_of_string_of_list_byte. Qed.

Lemma bytesToString_inj bs bs' : bytesToString bs = bytesToString bs' -> bs = bs'.
Proof.
  intros H. rewrite <- (stringToBytes_bytesToString bs), H.
  apply stringToBytes_bytesToString.
Qed.

(** ** The tokenizer loop

    [for (char c : s) if (c == ' ') { out.push_back(cur); cur.clear(); }
    else cur.push_back(c);  out.push_back(cur);] *)

Fixpoint split_loop (cur : string) (s : string) : list string :=
  match s with
  | EmptyString => [cur]
  | String c s' =>
      if Ascii.eqb c " "%char then cur :: split_loop EmptyString s'
      else split_loop (cur +:+ String c EmptyString) s'
  end.

(** [while (!out.empty() && out.back().empty()) out.pop_back();] *)
Fixpoint drop_empty_back (l : list string) : list string :=
  match l with
  | [] => []
  | t :: l' =>
      match drop_empty_back l' with
      | [] => if String.eqb t EmptyString then [] else [t]
      | l'' => t :: l''
      end
  end.

Definition split_trim (s : string) : list string :=
  match drop_empty_back (split_loop EmptyString s) with
  | [] => [EmptyString]
  | l => l
  end.

Fixpoint no_space (s : string) : bool :=
  match s with
  | EmptyString => true
  | String c s' => negb (Ascii.eqb c " "%char) && no_space s'
  end.

(** Visible characters only: neither white space nor a line's end. *)
Fixpoint graphic (s : string) : bool :=
  match s with
  | EmptyString => true
  | String c s' => (33 <=? Z.of_N (N_of_ascii c)) && graphic s'
  end.

(** Tokens with a single space between them. *)
Fixpoint unwords (l : list string) : string :=
  match l with
  | [] => EmptyString
  | [t] => t
  | t :: l' => t +:+ " " +:+ unwords l'
  end.

(** ** Lemmas *)

Lemma string_app_cons c s t : String c s +:+ t = String c (s +:+ t).
Proof. reflexivity. Qed.

Lemma string_app_nil_r s : s +:+ EmptyString = s.
Proof. induction s as [|c s IH]; [done|]. by rewrite string_app_cons, IH. Qed.

Lemma string_app_assoc (s t u : string) : (s +:+ t) +:+ u = s +:+ (t +:+ u).
Proof. induction s as [|c s IH]; [done|]. by rewrite !string_app_cons, IH. Qed.

Lemma split_loop_word cur t :
  no_space t = true -> split_loop cur t = [cur +:+ t].
Proof.
  revert cur. induction t as [|c t IH]; intros cur; cbn.
  - intros _. by rewrite string_app_nil_r.
  - rewrite andb_true_iff, negb_true_iff. intros [-> Ht].
    rewrite IH by done. by rewrite string_app_assoc.
Qed.

Lemma split_loop_cons cur t s :
  no_space t = true ->
  split_loop cur (t +:+ " " +:+ s) = (cur +:+ t) :: split_loop EmptyString s.
Proof.
  revert cur. induction t as [|c t IH]; intros cur; cbn [no_space].
  - intros _. by rewrite string_app_nil_r.
  - rewrite andb_true_iff, negb_true_iff. intros [Hc Ht].
    rewrite string_app_cons. cbn [split_loop]. rewrite Hc.
    rewrite IH by done. by rewrite string_app_assoc.
Qed.

Lemma split_loop_unwords l :
  l <> [] -> Forall (fun t => no_space t = true) l ->
  split_loop EmptyString (unwords l) = l.
Proof.
  induction l as [|t l IH]; [done|]. intros _ Hl.
  apply Forall_cons in Hl as [Ht Hl]. destruct l as [|u l].
  - by apply split_loop_word.
  - change (unwords (t :: u :: l)) with (t +:+ " " +:+ unwords (u :: l)).
    rewrite split_loop_cons by done. f_equal. by apply IH.
Qed.

Lemma drop_empty_back_last l t :
  t <> EmptyString -> drop_empty_back (l ++ [t]) = l ++ [t].
Proof.
  intros Ht. induction l as [|u l IH]; cbn.
  - destruct (String.eqb_spec t EmptyString) as [E|E]; [by destruct Ht | done].
  - rewrite IH. by destruct l.
Qed.

(** The tokens of a line whose last token is not empty are read back. *)
Lemma split_trim_unwords l t :
  t <> EmptyString -> Forall (fun t => no_space t = true) (l ++ [t]) ->
  split_trim (unwords (l ++ [t])) = l ++ [t].
Proof.
  intros Ht Hl. unfold split_trim.
  rewrite split_loop_unwords by (done || by destruct l).
  rewrite drop_empty_back_last by done. by destruct l.
Qed.

(** Printing then reading an integer. *)

Lemma read_digits_pos d acc :
  read_digits (Zpos acc) (DecimalString.NilEmpty.string_of_uint d) =
  Zpos (Pos.of_uint_acc d acc).
Proof.
  revert acc. induction d as [|d IH|d IH|d IH|d IH|d IH|d IH|d IH|d IH|d IH|d IH];
    intros acc; [done|..]; simpl; rewrite <- IH; do 2 f_equal; lia.
Qed.

Lemma read_digits_uint d :
  read_digits 0 (DecimalString.NilEmpty.string_of_uint d) = Z.of_uint d.
Proof.
  unfold Z.of_uint.
  induction d as [|d IH|d IH|d IH|d IH|d IH|d IH|d IH|d IH|d IH|d IH];
    [done|apply IH|..]; apply (read_digits_pos d).
Qed.

Lemma strtol_uint d :
  d <> Decimal.Nil ->
  let s := DecimalString.NilEmpty.string_of_uint d in
  starts_with_digit s = true /\ strtol s = Some (Z.of_uint d).
Proof.
  intros Hd s. subst s. rewrite <- read_digits_uint. by destruct d.
Qed.

Lemma strtol_to_string z : strtol (to_string z) = Some z.
Proof.
  unfold to_string. rewrite <- (DecimalZ.of_to z) at 2.
  destruct z as [|p|p]; [done|..]; simpl;
    pose proof (DecimalPos.Unsigned.to_uint_nonnil p) as Hd;
    pose proof (strtol_uint _ Hd) as [Hs Hv].
  - by destruct (Pos.to_uint p).
  - assert (DecimalString.NilZero.string_of_uint (Pos.to_uint p) =
            DecimalString.NilEmpty.string_of_uint (Pos.to_uint p)) as ->
      by (by destruct (Pos.to_uint p)).
    unfold strtol. simpl. rewrite Hs. by rewrite read_digits_uint.
Qed.

Lemma stoi_to_string z : INT_MIN <= z <= INT_MAX -> stoi (to_string z) = inr z.
Proof.
  intros Hz. unfold stoi, sto. rewrite strtol_to_string.
  by rewrite (proj2 (in_int_spec z) Hz).
Qed.

Lemma stoll_to_string z : LONG_MIN <= z <= LONG_MAX -> stoll (to_string z) = inr z.
Proof.
  intros Hz. unfold stoll, sto. rewrite strtol_to_string.
  by rewrite (proj2 (in_long_spec z) Hz).
Qed.

(** An accepted number is in the range of its type. *)
Lemma stoi_range s z : stoi s = inr z -> INT_MIN <= z <= INT_MAX.
Proof.
  unfold stoi, sto. destruct (strtol s) as [v|]; [|done].
  destruct (in_int v) eqn:E; [|done]. intros [= <-]. by apply in_int_spec.
Qed.

Lemma stoll_range s z : stoll s = inr z -> LONG_MIN <= z <= LONG_MAX.
Proof.
  unfold stoll, sto. destruct (strtol s) as [v|]; [|done].
  destruct (in_long v) eqn:E; [|done]. intros [= <-]. by apply in_long_spec.
Qed.

Lemma to_string_no_space z : no_space (to_string z) = true.
Proof.
  assert (forall d, no_space (DecimalString.NilEmpty.string_of_uint d) = true) as Hu.
  { induction d; simpl; auto. }
  unfold to_string. destruct (Z.to_int z) as [d|d]; simpl; destruct d; done || exact (Hu _).
Qed.

Lemma graphic_app s t : graphic (s +:+ t) = graphic s && graphic t.
Proof. induction s as [|c s IH]; [done|]. rewrite string_app_cons. cbn. by rewrite IH, andb_assoc. Qed.

Lemma graphic_no_space s : graphic s = true -> no_space s = true.
Proof.
  induction s as [|c s IH]; [done|]. cbn [graphic no_space]. intros [Hc Hs]%andb_true_iff.
  rewrite IH, andb_true_r by done. apply negb_true_iff.
  destruct (Ascii.eqb_spec c " ") as [->|]; done.
Qed.

Lemma to_string_graphic z : graphic (to_string z) = true.
Proof.
  assert (forall d, graphic (DecimalString.NilEmpty.string_of_uint d) = true) as Hu.
  { induction d; simpl; auto. }
  unfold to_string. destruct (Z.to_int z) as [d|d]; simpl; destruct d; done || exact (Hu _).
Qed.

Lemma to_string_not_empty z : to_string z <> EmptyString.
Proof. unfold to_string. destruct (Z.to_int z) as [[]|[]]; done. Qed.

#[global] Arguments to_string : simpl never.
