(* ===== verification/Doubles.v ===== *)
(** * [double]

    IEEE-754 binary64 with rounding to nearest even, by the Standard Library's
    executable specification of floating-point arithmetic.  The program uses
    doubles for loss rates, round-trip estimates, the decrease factor of the
    congestion window and the time scale of the simulator. *)

From Stdlib Require Import SpecFloat.
From S2P Require Import Prelude.

Definition double : Type := spec_float.
Definition prec : Z := 53.
Definition emax : Z := 1024.

(** The double nearest to [m * 2^e]; conversions of integers have [e = 0]. *)
Definition dlit (m e : Z) : double := binary_normalize prec emax m e false.
Definition dofZ (z : Z) : double := dlit z 0.

Definition dadd : double -> double -> double := SFadd prec emax.
Definition dsub : double -> double -> double := SFsub prec emax.
Definition dmul : double -> double -> double := SFmul prec emax.
Definition ddiv : double -> double -> double := SFdiv prec emax.
Definition dltb : double -> double -> bool := SFltb.
Definition deqb : double -> double -> bool := SFeqb.
Definition dabs : double -> double := SFabs.

(** [std::floor] followed by a cast to an integer, and the cast alone (towards
    zero); [None] for a value that no integer type represents. *)
Definition dfloor (d : double) : option Z :=
  match d with
  | S754_zero _ => Some 0
  | S754_finite s m e =>
      let v := if s then Zneg m else Zpos m in
      Some (if 0 <=? e then v * 2 ^ e else v / 2 ^ (- e))
  | _ => None
  end.

Definition dtrunc (d : double) : option Z :=
  match d with
  | S754_zero _ => Some 0
  | S754_finite s m e =>
      let v := if s then Zneg m else Zpos m in
      Some (if 0 <=? e then v * 2 ^ e else Z.quot v (2 ^ (- e)))
  | _ => None
  end.

(** [static_cast<int>] / [static_cast<std::int64_t>] of a double: undefined
    when the truncated value is not representable. *)
Definition double_to_int {S} (z : option Z) : M S Z :=
  match z with Some z => int z | None => fail UB end.
Definition double_to_long {S} (z : option Z) : M S Z :=
  match z with Some z => long z | None => fail UB end.

(** ** Exactness of small integers and of halving *)

Definition shl_pos (p : positive) (n : nat) : positive := Nat.iter n xO p.

Lemma shl_pos_S p n : shl_pos p (S n) = xO (shl_pos p n).
Proof. reflexivity. Qed.

Lemma shl_pos_spec p n : Zpos (shl_pos p n) = Zpos p * 2 ^ Z.of_nat n.
Proof.
  induction n as [|n IH]; [by rewrite Z.mul_1_r|].
  rewrite shl_pos_S, Nat2Z.inj_succ, Z.pow_succ_r by lia. lia.
Qed.

Lemma pos_iter_xO p n : Pos.iter xO p n = shl_pos p (Pos.to_nat n).
Proof. by rewrite Pos2Nat.inj_iter. Qed.

Lemma digits2_shl p n :
  Zpos (digits2_pos (shl_pos p n)) = Zpos (digits2_pos p) + Z.of_nat n.
Proof.
  induction n as [|n IH]; [cbn; lia|].
  rewrite shl_pos_S. cbn [digits2_pos]. lia.
Qed.

Lemma iter_pos_Pos_iter {A} (f : A -> A) n x : SpecFloat.iter_pos f n x = Pos.iter f x n.
Proof.
  revert x. induction n as [n IH|n IH|]; intros x; cbn; [|by rewrite !IH|done].
  rewrite !IH, <- !Pos.iter_swap. done.
Qed.

Lemma shr_shl p n :
  Nat.iter n shr_1 (Build_shr_record (Zpos (shl_pos p n)) false false) =
  Build_shr_record (Zpos p) false false.
Proof.
  induction n as [|n IH]; [done|]. rewrite Nat.iter_succ_r. apply IH.
Qed.

Lemma fexp_normal d : -1021 <= d -> fexp prec emax d = d - 53.
Proof. unfold fexp, emin, prec, emax. lia. Qed.

(** A mantissa of [53 + n] digits whose last [n] are zero is rounded exactly. *)
Lemma round_exact p n e :
  Zpos (digits2_pos p) = 53 -> -1000 <= e + Z.of_nat n <= 900 ->
  binary_round_aux prec emax false (Zpos (shl_pos p n)) e loc_Exact =
  S754_finite false p (e + Z.of_nat n).
Proof.
  intros Hd He. unfold binary_round_aux, shr_fexp. cbn [shr_record_of_loc].
  assert (Hz : forall k q, Zdigits2 (Zpos (shl_pos q k)) =
    Zpos (digits2_pos q) + Z.of_nat k) by (intros; apply digits2_shl).
  rewrite Hz, Hd, fexp_normal by lia.
  replace (53 + Z.of_nat n + e - 53 - e) with (Z.of_nat n) by lia.
  assert (shr (Build_shr_record (Zpos (shl_pos p n)) false false) e (Z.of_nat n) =
    (Build_shr_record (Zpos p) false false, e + Z.of_nat n)) as ->.
  { destruct n as [|n]; [by rewrite Z.add_0_r|].
    change (Z.of_nat (S n)) with (Zpos (Pos.of_succ_nat n)).
    unfold shr. rewrite iter_pos_Pos_iter, Pos2Nat.inj_iter.
    rewrite SuccNat2Pos.id_succ. f_equal. apply (shr_shl p (S n)). }
  cbn [loc_of_shr_record shr_m round_nearest_even shr_record_of_loc].
  change (Zdigits2 (Zpos p)) with (Zpos (digits2_pos p)).
  rewrite Hd, fexp_normal by lia.
  replace (_ - _ - _) with 0 by lia. cbn.
  by replace (_ <=? _) with true by (unfold prec, emax; lia).
Qed.

Lemma digits2_bound p : Zpos p < 2 ^ Zpos (digits2_pos p).
Proof.
  induction p as [p IH|p IH|]; cbn [digits2_pos]; [| |done];
    rewrite Pos2Z.inj_succ, Z.pow_succ_r by lia; lia.
Qed.

Lemma digits2_lower p : 2 ^ (Zpos (digits2_pos p) - 1) <= Zpos p.
Proof.
  induction p as [p IH|p IH|]; cbn [digits2_pos]; [| |done];
    rewrite Pos2Z.inj_succ;
    replace (Z.succ (Z.pos (digits2_pos p)) - 1)
      with (Z.succ (Z.pos (digits2_pos p) - 1)) by lia;
    rewrite Z.pow_succ_r by lia; lia.
Qed.

Lemma digits2_small p k : 0 <= k -> Zpos p < 2 ^ k -> Zpos (digits2_pos p) <= k.
Proof.
  intros Hk Hp. pose proof (digits2_lower p) as Hl.
  destruct (Z.le_gt_cases (Zpos (digits2_pos p)) k) as [|Hgt]; [done|].
  assert (2 ^ k <= 2 ^ (Zpos (digits2_pos p) - 1)) by (apply Z.pow_le_mono_r; lia).
  lia.
Qed.

(** Integers below 2^52 are represented exactly, with a full mantissa. *)
Lemma dofZ_exact p :
  Zpos p < 2 ^ 52 ->
  let n := Z.to_nat (53 - Zpos (digits2_pos p)) in
  Zpos (digits2_pos (shl_pos p n)) = 53 /\ (0 < n)%nat /\
  dofZ (Zpos p) = S754_finite false (shl_pos p n) (- Z.of_nat n).
Proof.
  intros Hp n. pose proof (digits2_small p 52 ltac:(lia) Hp) as Hd.
  assert (Hn : Zpos (digits2_pos (shl_pos p n)) = 53) by (rewrite digits2_shl; lia).
  split; [done|]. split; [lia|].
  unfold dofZ, dlit, binary_normalize, binary_round. rewrite fexp_normal by lia.
  unfold shl_align.
  replace (Zpos (digits2_pos p) + 0 - 53 - 0) with (- Z.of_nat n) by lia.
  destruct n as [|k] eqn:Ek; [lia|].
  change (- Z.of_nat (S k)) with (Z.neg (Pos.of_succ_nat k)).
  replace (Zpos (digits2_pos p) + 0 - 53) with (Z.neg (Pos.of_succ_nat k)) by lia.
  rewrite pos_iter_xO, SuccNat2Pos.id_succ.
  rewrite (round_exact (shl_pos p (S k)) 0) by lia. f_equal.
Qed.

(** [std::floor(c * 0.5)] is the integer half of [c]. *)
Lemma dfloor_half c :
  0 <= c < 2 ^ 52 -> dfloor (dmul (dofZ c) (dlit 1 (-1))) = Some (c / 2).
Proof.
  intros Hc. destruct c as [|p|p]; [done| |lia].
  destruct (dofZ_exact p ltac:(lia)) as (Hd & Hn & ->).
  set (n := Z.to_nat _) in *. unfold dmul.
  change (dlit 1 (-1)) with (S754_finite false (shl_pos 1 52) (-53)).
  cbn [SFmul xorb].
  replace (shl_pos p n * shl_pos 1 52)%positive with (shl_pos (shl_pos p n) 52)
    by (apply Pos2Z.inj; rewrite Pos2Z.inj_mul, !shl_pos_spec; lia).
  assert (n <= 52)%nat by lia.
  rewrite round_exact by lia. unfold dfloor.
  change (Z.of_nat 52) with 52.
  replace (- Z.of_nat n + -53 + 52) with (- (Z.of_nat n + 1)) by lia.
  rewrite (proj2 (Z.leb_gt 0 _)) by lia. f_equal.
  rewrite shl_pos_spec, Z.opp_involutive.
  rewrite Z.pow_add_r, Z.mul_comm by lia.
  by rewrite Z.div_mul_cancel_l by lia.
Qed.
