(* ===== verification/DoubleText.v ===== *)
(** * Doubles as text

    [std::to_string(double)] (the format %f), and [std::stod]: what [strtod]
    reads from the front of a string, correctly rounded, and the exceptions
    that [std::stod] makes of its failures. *)

From Stdlib Require Import SpecFloat Strings.Ascii.
From S2P Require Import Prelude CppStrings Doubles.

(** ** Printing *)

(** [num / den] rounded to the nearest integer, ties to even. *)
Definition round_half_even (num den : Z) : Z :=
  let q := num / den in
  match (2 * (num mod den)) ?= den with
  | Lt => q
  | Gt => q + 1
  | Eq => if Z.even q then q else q + 1
  end.

(** Six digits, zeros in front. *)
Definition six_digits (n : Z) : string :=
  match to_string (1000000 + n) with
  | String _ s => s
  | EmptyString => EmptyString
  end.

Definition print_fixed6 (millionths : Z) : string :=
  to_string (millionths / 1000000) +:+ "." +:+ six_digits (millionths mod 1000000).

Definition to_string_double (d : double) : string :=
  match d with
  | S754_zero s => (if s then "-" else EmptyString) +:+ print_fixed6 0
  | S754_infinity s => if s then "-inf" else "inf"
  | S754_nan => "nan"
  | S754_finite s m e =>
      (if s then "-" else EmptyString) +:+
      print_fixed6
        (if 0 <=? e then Zpos m * 2 ^ e * 1000000
         else round_half_even (Zpos m * 1000000) (2 ^ (- e)))
  end.

(** The format %.*g of [snprintf], in the C locale: [prec] significant digits,
    correctly rounded, in plain or exponent notation, without trailing zeros. *)

(** [10^x <= num / den]. *)
Definition pow10_le (x num den : Z) : bool :=
  if 0 <=? x then 10 ^ x * den <=? num else den <=? num * 10 ^ (- x).

(** The exponent of the first digit of [num / den]. *)
Definition log10_floor (num den : Z) : Z :=
  let e := (Z.log2 num - Z.log2 den) * 30103 / 100000 in
  if pow10_le (e + 2) num den then e + 2
  else if pow10_le (e + 1) num den then e + 1
  else if pow10_le e num den then e
  else if pow10_le (e - 1) num den then e - 1
  else e - 2.

(** The digits as a number of [prec] digits, and the exponent of the first. *)
Definition round_digits (prec num den : Z) : Z * Z :=
  let x := log10_floor num den in
  let k := prec - 1 - x in
  let n := if 0 <=? k then round_half_even (num * 10 ^ k) den
           else round_half_even num (den * 10 ^ (- k)) in
  if n =? 10 ^ prec then (10 ^ (prec - 1), x + 1) else (n, x).

Fixpoint strip_zeros (s : string) : string :=
  match s with
  | EmptyString => EmptyString
  | String c s' =>
      match strip_zeros s' with
      | EmptyString => if Ascii.eqb c "0" then EmptyString else String c EmptyString
      | t => String c t
      end
  end.

Definition with_point (whole frac : string) : string :=
  if String.eqb frac EmptyString then whole else whole +:+ "." +:+ frac.

Definition two_digits (n : Z) : string :=
  if n <? 10 then "0" +:+ to_string n else to_string n.

Fixpoint zeros (n : nat) : string :=
  match n with O => EmptyString | S n => String "0" (zeros n) end.

Definition print_digits (prec n x : Z) : string :=
  let ds := to_string n in
  let from k := String.substring k (String.length ds) ds in
  if (x <? -4) || (prec <=? x)
  then
    with_point (String.substring 0 1 ds) (strip_zeros (from 1%nat)) +:+
    "e" +:+ (if x <? 0 then "-" else "+") +:+ two_digits (Z.abs x)
  else if 0 <=? x
  then
    let k := Z.to_nat (x + 1) in
    with_point (String.substring 0 k ds) (strip_zeros (from k))
  else with_point "0" (strip_zeros (zeros (Z.to_nat (- x - 1)) +:+ ds)).

Definition print_g (prec : Z) (d : double) : string :=
  match d with
  | S754_zero s => (if s then "-" else EmptyString) +:+ "0"
  | S754_infinity s => if s then "-inf" else "inf"
  | S754_nan => "nan"
  | S754_finite s m e =>
      let '(num, den) := if 0 <=? e then (Zpos m * 2 ^ e, 1) else (Zpos m, 2 ^ (- e)) in
      let '(n, x) := round_digits prec num den in
      (if s then "-" else EmptyString) +:+ print_digits prec n x
  end.

(** ** Reading *)

Definition digit_in (base : Z) (c : ascii) : option Z :=
  let n := Z.of_N (N_of_ascii c) in
  let d :=
    if (48 <=? n) && (n <=? 57) then n - 48
    else if (97 <=? n) && (n <=? 102) then n - 87
    else if (65 <=? n) && (n <=? 70) then n - 55
    else base in
  if d <? base then Some d else None.

(** Digits with at most one point among them: the digits' value, how many
    stand behind the point, whether there is any digit, and the rest. *)
Fixpoint read_mantissa (base : Z) (dot : bool) (acc frac : Z) (any : bool) (s : string)
    : Z * Z * bool * string :=
  match s with
  | EmptyString => (acc, frac, any, s)
  | String c s' =>
      match digit_in base c with
      | Some d =>
          read_mantissa base dot (acc * base + d) (if dot then frac + 1 else frac) true s'
      | None =>
          if Ascii.eqb c "." && negb dot then read_mantissa base true acc frac any s'
          else (acc, frac, any, s)
      end
  end.

(** An optional exponent: a letter, a sign and digits; without digits there is
    no exponent. *)
Definition read_exponent (lower upper : ascii) (s : string) : Z :=
  match s with
  | String c s' =>
      if Ascii.eqb c lower || Ascii.eqb c upper
      then
        match s' with
        | String "-"%char s'' => - read_digits 0 s''
        | String "+"%char s'' => read_digits 0 s''
        | _ => read_digits 0 s'
        end
      else 0
  | EmptyString => 0
  end.

Definition lower_ascii (c : ascii) : ascii :=
  let n := N_of_ascii c in
  if ((65 <=? n) && (n <=? 90))%N then ascii_of_N (n + 32) else c.

Fixpoint has_prefix_nocase (p s : string) : bool :=
  match p, s with
  | EmptyString, _ => true
  | String a p', String c s' => Ascii.eqb a (lower_ascii c) && has_prefix_nocase p' s'
  | _, _ => false
  end.

(** The double nearest to [num / den], by a quotient with at least 1100 bits
    below the point and a sticky bit. *)
Definition nearest (num den : Z) : double :=
  let k := 1100 + Z.log2 den in
  let n := num * 2 ^ k in
  dlit (2 * (n / den) + (if n mod den =? 0 then 0 else 1)) (- (k + 1)).

(** [errno == ERANGE]: the result overflows, or it is tiny and not exact. *)
Definition range_error (num den : Z) (d : double) : bool :=
  match d with
  | S754_infinity _ => true
  | S754_nan => false
  | S754_zero _ => negb (num =? 0)
  | S754_finite _ m e =>
      (Zpos m * 2 ^ (e + 1074) <? 2 ^ 52) &&
      negb (Zpos m * 2 ^ (e + 1074) * den =? num * 2 ^ 1074)
  end.

(** The magnitude at the front of [s], a ratio, when there is one. *)
Definition read_magnitude (s : string) : option (Z * Z) :=
  let scaled m base ex :=
    if 0 <=? ex then (m * base ^ ex, 1) else (m, base ^ (- ex)) in
  let '(m, frac, any, rest) := read_mantissa 10 false 0 0 false s in
  let '(hm, hfrac, hany, hrest) :=
    match s with
    | String "0"%char (String c s') =>
        if Ascii.eqb (lower_ascii c) "x" then read_mantissa 16 false 0 0 false s'
        else (0, 0, false, s)
    | _ => (0, 0, false, s)
    end in
  if hany then Some (scaled hm 2 (read_exponent "p" "P" hrest - 4 * hfrac))
  else if any then Some (scaled m 10 (read_exponent "e" "E" rest - frac))
  else None.

(** [None]: nothing to convert; otherwise the value and [ERANGE]. *)
Definition strtod (s : string) : option (double * bool) :=
  let '(neg, s') :=
    match skip_spaces s with
    | String "-"%char s' => (true, s')
    | String "+"%char s' => (false, s')
    | s' => (false, s')
    end in
  let sign d := if neg then SFopp d else d in
  if has_prefix_nocase "inf" s' then Some (sign (S754_infinity false), false)
  else if has_prefix_nocase "nan" s' then Some (S754_nan, false)
  else
    match read_magnitude s' with
    | None => None
    | Some (num, den) =>
        let d := nearest num den in
        Some (sign d, range_error num den d)
    end.

Definition stod (s : string) : exn + double :=
  match strtod s with
  | None => inl (invalid_argument "stod")
  | Some (d, erange) => if erange then inl (out_of_range "stod") else inr d
  end.

(** ** Lemmas *)

Example stod_tenth : stod " 0.1x" = inr (S754_finite false 7205759403792794 (-56)).
Proof. vm_compute. reflexivity. Qed.

Example stod_forms :
  map stod ["1e400"; "x"; "0x1p3"; "-2.5e-1"; "5e-324"; "1e-400"; "."; "4.5"] =
  [inl (out_of_range "stod"); inl (invalid_argument "stod"); inr (dofZ 8);
   inr (SFopp (dlit 1 (-2))); inl (out_of_range "stod");
   inl (out_of_range "stod"); inl (invalid_argument "stod"); inr (dlit 9 (-1))].
Proof. vm_compute. reflexivity. Qed.

Example to_string_double_forms :
  map to_string_double [dofZ 0; dlit 1 (-1); ddiv (dofZ 2000) (dofZ 3); SFopp (dlit 5 (-2))] =
  ["0.000000"; "0.500000"; "666.666667"; "-1.250000"].
Proof. vm_compute. reflexivity. Qed.

Example print_g_forms :
  map (print_g 1) [dofZ 0; dlit 1 (-1); dlit 1 (-10); dofZ 1000] = ["0"; "0.5"; "0.001"; "1e+03"] /\
  map (print_g 6) [dofZ 0; dlit 3 (-2); dlit 1 (-20); dofZ 1234567; dofZ 100; dofZ 999999] =
  ["0"; "0.75"; "9.53674e-07"; "1.23457e+06"; "100"; "999999"] /\
  print_g 17 (ddiv (dofZ 1) (dofZ 10)) = "0.10000000000000001" /\
  print_g 3 (dofZ 9996) = "1e+04" /\ print_g 2 (SFopp (dlit 1 (-1))) = "-0.5".
Proof. vm_compute. auto 10. Qed.

(** ** A number with [.0] behind it

    is read as the same number. *)

Lemma shr_scale p e t :
  e < t ->
  shr (Build_shr_record (Zpos p~0~0~0) false false) (e - 3) (t - (e - 3)) =
  shr (Build_shr_record (Zpos p) false false) e (t - e).
Proof.
  intros Ht. replace (t - (e - 3)) with (t - e + 3) by lia.
  destruct (t - e) as [|n|n] eqn:E; try lia. change (Zpos n + 3) with (Zpos (n + 3)).
  unfold shr. rewrite !iter_pos_Pos_iter, Pos.iter_add. f_equal. lia.
Qed.

Lemma fexp_min d : -1074 <= fexp prec emax d.
Proof. unfold fexp, emin, prec, emax. lia. Qed.

Lemma shl_align_none p e t : e < t -> shl_align p e t = (p, e).
Proof. intros Ht. unfold shl_align. by destruct (t - e) eqn:E; [..|lia]. Qed.

(** Scaling by eight, below the smallest exponent of a double. *)
Lemma dlit_scale x e : 0 <= x -> e <= -1100 -> dlit (8 * x) (e - 3) = dlit x e.
Proof.
  intros Hx He. unfold dlit, binary_normalize. destruct x as [|p|p]; [done| |lia].
  change (8 * Zpos p) with (Zpos p~0~0~0). unfold binary_round.
  cbn [digits2_pos]. set (d := digits2_pos p).
  replace (Zpos (Pos.succ (Pos.succ (Pos.succ d))) + (e - 3)) with (Zpos d + e) by lia.
  pose proof (fexp_min (Zpos d + e)).
  rewrite !shl_align_none by lia. unfold binary_round_aux, shr_fexp.
  cbn [shr_record_of_loc Zdigits2 digits2_pos]. fold d.
  replace (Zpos (Pos.succ (Pos.succ (Pos.succ d))) + (e - 3)) with (Zpos d + e) by lia.
  by rewrite shr_scale by lia.
Qed.

Lemma nearest_ten v : 0 <= v -> nearest (v * 10) 10 = nearest v 1.
Proof.
  intros Hv. unfold nearest. cbv zeta. change (Z.log2 10) with 3. change (Z.log2 1) with 0.
  rewrite Z.div_1_r, Z.mod_1_r.
  replace (v * 10 * 2 ^ (1100 + 3)) with (8 * (v * 2 ^ (1100 + 0)) * 10)
    by (change (2 ^ (1100 + 3)) with (8 * 2 ^ (1100 + 0)); lia).
  rewrite Z.div_mul, Z.mod_mul by lia.
  rewrite <- (dlit_scale (2 * (v * 2 ^ (1100 + 0)) + (if 0 =? 0 then 0 else 1))) by (cbn; lia).
  f_equal. change (if 0 =? 0 then 0 else 1) with 0. lia.
Qed.

Lemma range_error_ten v d : range_error (v * 10) 10 d = range_error v 1 d.
Proof.
  destruct d as [s| | |s m e]; cbn; try done.
  - f_equal. apply eq_true_iff_eq. rewrite !Z.eqb_eq. lia.
  - do 2 f_equal. apply eq_true_iff_eq. rewrite !Z.eqb_eq. lia.
Qed.

Fixpoint all_digits (s : string) : bool :=
  match s with
  | EmptyString => true
  | String c s' => match digit_of c with Some _ => all_digits s' | None => false end
  end.

(** A sign, and digits. *)
Definition signed_digits (s : string) : Prop :=
  exists neg ds, s = (if neg : bool then "-" else EmptyString) +:+ ds /\
    all_digits ds = true /\ ds <> EmptyString.

Lemma digit_chars c d :
  digit_of c = Some d ->
  digit_in 10 c = Some d /\ isspace c = false /\ Ascii.eqb c "-" = false /\
  Ascii.eqb c "+" = false /\ Ascii.eqb (lower_ascii c) "x" = false /\
  Ascii.eqb "i" (lower_ascii c) = false /\ Ascii.eqb "n" (lower_ascii c) = false.
Proof.
  destruct c as [[] [] [] [] [] [] [] []]; intros [= <-]; vm_compute; auto 10.
Qed.

Lemma read_mantissa_digits acc frac any s rest :
  all_digits s = true ->
  read_mantissa 10 false acc frac any (s +:+ rest) =
  read_mantissa 10 false (read_digits acc s) frac (any || negb (String.eqb s EmptyString)) rest.
Proof.
  revert acc any. induction s as [|c s IH]; intros acc any Hs; [by rewrite orb_false_r|].
  cbn [all_digits] in Hs. destruct (digit_of c) as [d|] eqn:Hc; [|done].
  destruct (digit_chars _ _ Hc) as (H1 & _). rewrite string_app_cons.
  cbn [read_mantissa read_digits]. rewrite H1, Hc, IH by done. by rewrite !orb_true_r.
Qed.

Lemma read_digits_nonneg acc s : 0 <= acc -> 0 <= read_digits acc s.
Proof.
  revert acc. induction s as [|c s IH]; intros acc Ha; [done|]. cbn [read_digits].
  destruct (digit_of c) as [d|] eqn:Hc; [|done]. apply IH.
  unfold digit_of in Hc. destruct (_ && _) eqn:E; [|done]. injection Hc as <-. lia.
Qed.

(** The text is no hexadecimal number. *)
Definition hex_part (s : string) : Z * Z * bool * string :=
  match s with
  | String "0"%char (String c s') =>
      if Ascii.eqb (lower_ascii c) "x" then read_mantissa 16 false 0 0 false s'
      else (0, 0, false, s)
  | _ => (0, 0, false, s)
  end.

Lemma hex_part_none s :
  (forall c s', s = String "0"%char (String c s') -> Ascii.eqb (lower_ascii c) "x" = false) ->
  hex_part s = (0, 0, false, s).
Proof.
  intros Hs. destruct s as [|c0 [|c s]]; [done| |].
  - by destruct c0 as [[] [] [] [] [] [] [] []].
  - destruct (Ascii.eqb_spec c0 "0") as [->|Hne].
    + cbn. by rewrite (Hs c s).
    + destruct c0 as [[] [] [] [] [] [] [] []]; done.
Qed.

Lemma hex_part_digits ds rest :
  all_digits ds = true -> ds <> EmptyString -> rest = EmptyString \/ rest = ".0" ->
  hex_part (ds +:+ rest) = (0, 0, false, ds +:+ rest).
Proof.
  intros Hd Hne Hr. apply hex_part_none. intros c s' Hs.
  destruct ds as [|c0 [|c1 ds]]; [done| |]; cbn in Hs.
  - destruct Hr as [-> | ->]; [done|]. by injection Hs as _ <- _.
  - injection Hs as _ <- _. cbn [all_digits] in Hd.
    destruct (digit_of c0); [|done]. destruct (digit_of c1) eqn:Hc; [|done].
    apply (digit_chars _ _ Hc).
Qed.

(** The magnitude of digits, with and without [.0]. *)
Lemma read_magnitude_digits ds :
  all_digits ds = true -> ds <> EmptyString ->
  read_magnitude ds = Some (read_digits 0 ds, 1) /\
  read_magnitude (ds +:+ ".0") = Some (read_digits 0 ds * 10, 10).
Proof.
  intros Hd Hne.
  assert (Hn : String.eqb ds EmptyString = false) by (by destruct ds).
  pose proof (read_mantissa_digits 0 0 false ds EmptyString Hd) as H1.
  pose proof (read_mantissa_digits 0 0 false ds ".0" Hd) as H2.
  rewrite Hn, string_app_nil_r in H1. rewrite Hn in H2.
  pose proof (hex_part_digits ds EmptyString Hd Hne ltac:(by left)) as H3.
  pose proof (hex_part_digits ds ".0" Hd Hne ltac:(by right)) as H4.
  rewrite string_app_nil_r in H3. cbn in H1, H2.
  unfold read_magnitude. rewrite H1, H2. unfold hex_part in H3, H4. rewrite H3, H4.
  set (v := read_digits 0 ds). split.
  - change (Some (v * 10 ^ 0, 1) = Some (v, 1)). by rewrite Z.mul_1_r.
  - change (Some (v * 10 + 0, 10 ^ 1) = Some (v * 10, 10)). by rewrite Z.add_0_r.
Qed.

Lemma stod_digits neg ds :
  all_digits ds = true -> ds <> EmptyString ->
  let s := (if neg : bool then "-" else EmptyString) +:+ ds in
  stod (s +:+ ".0") = stod s.
Proof.
  intros Hd Hne s. destruct (read_magnitude_digits ds Hd Hne) as [H1 H2].
  pose proof (read_digits_nonneg 0 ds ltac:(lia)) as Hv.
  assert (Hpre : has_prefix_nocase "inf" ds = false /\ has_prefix_nocase "nan" ds = false /\
    has_prefix_nocase "inf" (ds +:+ ".0") = false /\ has_prefix_nocase "nan" (ds +:+ ".0") = false).
  { destruct ds as [|c ds]; [done|]. cbn [all_digits] in Hd.
    destruct (digit_of c) eqn:Hc; [|done].
    destruct (digit_chars _ _ Hc) as (_ & _ & _ & _ & _ & Hi & Hnn).
    rewrite string_app_cons. cbn [has_prefix_nocase]. by rewrite Hi, Hnn. }
  destruct Hpre as (P1 & P2 & P3 & P4).
  assert (Hs : forall rest, strtod (s +:+ rest) =
    if has_prefix_nocase "inf" (ds +:+ rest) then Some ((if neg then SFopp else id) (S754_infinity false), false)
    else if has_prefix_nocase "nan" (ds +:+ rest) then Some (S754_nan, false)
    else match read_magnitude (ds +:+ rest) with
         | None => None
         | Some (num, den) => Some ((if neg then SFopp else id) (nearest num den),
                                    range_error num den (nearest num den))
         end).
  { intros rest. subst s. unfold strtod. destruct neg; [done|].
    destruct ds as [|c ds]; [done|]. cbn [all_digits] in Hd.
    destruct (digit_of c) eqn:Hc; [|done].
    clear -Hc. destruct c as [[] [] [] [] [] [] [] []]; first [discriminate Hc | reflexivity]. }
  unfold stod. rewrite <- (string_app_nil_r s) at 2. rewrite !Hs.
  rewrite string_app_nil_r, P1, P2, P3, P4, H1, H2.
  by rewrite nearest_ten, range_error_ten by done.
Qed.

(** ** The shape of a printed double *)

Lemma all_digits_graphic s : all_digits s = true -> graphic s = true.
Proof.
  induction s as [|c s IH]; [done|]. cbn [all_digits graphic].
  destruct (digit_of c) eqn:Hc; [|done]. intros Hd. rewrite (IH Hd), andb_true_r.
  unfold digit_of in Hc. destruct (_ && _) eqn:E; [|done]. lia.
Qed.

Lemma substring_digits n m s : all_digits s = true -> all_digits (String.substring n m s) = true.
Proof.
  revert n m. induction s as [|c s IH]; intros [|n] [|m]; cbn; try done;
    destruct (digit_of c); try done; intros Hd; by apply IH.
Qed.

Lemma strip_zeros_digits s : all_digits s = true -> all_digits (strip_zeros s) = true.
Proof.
  induction s as [|c s IH]; [done|]. cbn. destruct (digit_of c) eqn:Hc; [|done].
  intros Hd. specialize (IH Hd). destruct (strip_zeros s); [|cbn; by rewrite Hc].
  destruct (Ascii.eqb c "0"); [done|]. cbn. by rewrite Hc.
Qed.

Lemma all_digits_app s t : all_digits (s +:+ t) = all_digits s && all_digits t.
Proof. induction s as [|c s IH]; [done|]. rewrite string_app_cons. cbn. by destruct (digit_of c). Qed.

Lemma zeros_digits n : all_digits (zeros n) = true.
Proof. by induction n. Qed.

Lemma uint_digits d : all_digits (DecimalString.NilEmpty.string_of_uint d) = true.
Proof. induction d; simpl; auto. Qed.

Lemma to_string_digits n : 0 <= n -> all_digits (to_string n) = true.
Proof.
  intros Hn. unfold to_string. destruct n as [|p|p]; [done| |lia].
  simpl. destruct (Pos.to_uint p); [done|apply uint_digits..].
Qed.

Lemma round_half_even_nonneg num den : 0 <= num -> 0 < den -> 0 <= round_half_even num den.
Proof.
  intros Hn Hd. unfold round_half_even. pose proof (Z.div_pos num den Hn Hd).
  destruct (_ ?= _); [destruct (Z.even _)|..]; lia.
Qed.

Lemma round_digits_nonneg prec num den :
  1 <= prec -> 0 <= num -> 0 < den -> 0 <= (round_digits prec num den).1.
Proof.
  intros Hp Hn Hd. unfold round_digits.
  destruct (_ =? _); cbn; [apply Z.pow_nonneg; lia|].
  destruct (Z.leb_spec 0 (prec - 1 - log10_floor num den)) as [Hk|Hk];
    apply round_half_even_nonneg; try done.
  - pose proof (Z.pow_nonneg 10 (prec - 1 - log10_floor num den)). nia.
  - pose proof (Z.pow_pos_nonneg 10 (- (prec - 1 - log10_floor num den))). nia.
Qed.

(** Visible characters: digits only, or a point or an exponent among them. *)
Definition number_text (s : string) : Prop :=
  graphic s = true /\ s <> EmptyString /\
  ((all_digits s = true) \/ (exists a b, s = a +:+ "." +:+ b) \/ (exists a b, s = a +:+ "e" +:+ b)).

Lemma with_point_text whole frac :
  all_digits whole = true -> whole <> EmptyString -> all_digits frac = true ->
  number_text (with_point whole frac).
Proof.
  intros Hw Hne Hf. unfold with_point. destruct (String.eqb_spec frac EmptyString) as [->|Hnf].
  - split; [by apply all_digits_graphic|]. auto.
  - split; [|split].
    + rewrite !graphic_app, (all_digits_graphic whole), (all_digits_graphic frac) by done. done.
    + by destruct whole.
    + right. left. by exists whole, frac.
Qed.

Lemma two_digits_graphic x : 0 <= x -> graphic (two_digits x) = true.
Proof.
  intros Hx. unfold two_digits. destruct (x <? 10); [cbn|]; apply to_string_graphic.
Qed.

Lemma print_digits_text prec n x : 0 <= n -> number_text (print_digits prec n x).
Proof.
  intros Hn. pose proof (to_string_digits n Hn) as Hd.
  pose proof (to_string_not_empty n) as Hne. unfold print_digits.
  set (ds := to_string n) in *.
  assert (Hsub : forall k, (0 < k)%nat -> String.substring 0 k ds <> EmptyString)
    by (intros [|k] Hk; [lia|]; by destruct ds).
  destruct (_ || _); [|destruct (Z.leb_spec 0 x)].
  - destruct (with_point_text (String.substring 0 1 ds)
      (strip_zeros (String.substring 1 (String.length ds) ds))) as (Hs & Hw & _).
    1: by apply substring_digits. 1: apply Hsub; lia. 1: by apply strip_zeros_digits, substring_digits.
    set (w := with_point _ _) in *. split; [|split].
    + rewrite !graphic_app, Hs, two_digits_graphic by lia. by destruct (x <? 0).
    + by destruct w.
    + right. right. eexists w, _. reflexivity.
  - apply with_point_text; [by apply substring_digits|apply Hsub; lia|].
    by apply strip_zeros_digits, substring_digits.
  - apply with_point_text; [done|done|]. apply strip_zeros_digits.
    by rewrite all_digits_app, zeros_digits.
Qed.
