(* ===== verification/Frame.v ===== *)
(** * What every run of an operation keeps

    [keeps R F m]: from any state, however the run of [m] ends, the state it
    leaves is related by [R] to the one it started in, and a fault it ends in
    is in [F].  The rules follow the structure of an operation, with no
    hypothesis on the state. *)

From S2P Require Import Prelude Doubles.

(** The faults that arithmetic and [throw] cause. *)
Class PlainFaults (F : fault -> Prop) : Prop := {
  pf_thrown : forall x, F (Thrown x);
  pf_ub : F UB
}.

Definition keeps {S} (R : relation S) (F : fault -> Prop) {A} (m : M S A) : Prop :=
  forall s, R s (m s).2 /\ match (m s).1 with Fault f => F f | Ret _ => True end.

Section keeps.
#[local] Set Default Proof Using "All".
Context {S : Type} (R : relation S) `{!PreOrder R} (F : fault -> Prop).

Lemma keeps_ret {A} (a : A) : keeps R F (ret a).
Proof. intros s. by split. Qed.

Lemma keeps_fail {A} f : F f -> keeps R F (fail (A := A) f).
Proof. intros Hf s. by split. Qed.

Lemma keeps_gets {A} (f : S -> A) : keeps R F (gets f).
Proof. intros s. by split. Qed.

Lemma keeps_modify f : (forall s, R s (f s)) -> keeps R F (modify f).
Proof. intros Hf s. by split. Qed.

Lemma keeps_bind {A B} (m : M S A) (k : A -> M S B) :
  keeps R F m -> (forall a, keeps R F (k a)) -> keeps R F (bind m k).
Proof.
  intros Hm Hk s. unfold bind. destruct (Hm s) as [H1 H2].
  destruct (m s) as [[a|f] s']; cbn in *; [|done].
  destruct (Hk a s') as [H3 H4]. split; [by etrans|done].
Qed.

Lemma keeps_try {A} (m : M S A) h :
  keeps R F m -> (forall x, keeps R F (h x)) -> keeps R F (try_catch m h).
Proof.
  intros Hm Hh s. unfold try_catch. destruct (Hm s) as [H1 H2].
  destruct (m s) as [[a|[x| | |]] s']; cbn in *; try done.
  destruct (Hh x s') as [H3 H4]. split; [by etrans|done].
Qed.

Lemma keeps_when (b : bool) m : keeps R F m -> keeps R F (when b m).
Proof. destruct b; [done|intros _; apply keeps_ret]. Qed.

Lemma keeps_zoom {T A} (R' : relation T) (g : S -> T) (u : T -> S -> S) (m : M T A) :
  keeps R' F m -> (forall s t, R' (g s) t -> R s (u t s)) -> keeps R F (zoom g u m).
Proof.
  intros Hm Hu s. unfold zoom. destruct (Hm (g s)) as [H1 H2].
  destruct (m (g s)) as [r t]. cbn in *. split; [by apply Hu|done].
Qed.

Lemma keeps_wp {A} (m : M S A) s (Q : A -> S -> Prop) X :
  keeps R F m -> wp m s Q X ->
  wp m s (fun a s' => Q a s' /\ R s s') (fun f s' => X f s' /\ R s s' /\ F f).
Proof.
  intros Hm. unfold wp. destruct (Hm s) as [H1 H2].
  destruct (m s) as [[a|f] s']; cbn in *; auto.
Qed.

Context {HF : PlainFaults F}.

Lemma keeps_lift {A} (r : exn + A) : keeps R F (lift_exn r).
Proof. destruct r; [apply keeps_fail, HF|apply keeps_ret]. Qed.

Lemma keeps_int z : keeps R F (int z).
Proof. unfold int. case_match; [apply keeps_ret|apply keeps_fail, HF]. Qed.

(** The value of an [int] expression is known behind it. *)
Lemma keeps_bind_int {A} z (k : Z -> M S A) : keeps R F (k z) -> keeps R F (bind (int z) k).
Proof.
  intros Hk s. unfold bind, int. destruct (in_int z); [apply Hk|].
  split; [reflexivity|apply pf_ub].
Qed.

Lemma keeps_long z : keeps R F (long z).
Proof. unfold long. case_match; [apply keeps_ret|apply keeps_fail, HF]. Qed.

Lemma keeps_div_long a b : keeps R F (div_long a b).
Proof. unfold div_long. case_match; [apply keeps_fail, HF|apply keeps_long]. Qed.

Lemma keeps_rem_int a b : keeps R F (rem_int a b).
Proof.
  unfold rem_int. case_match; [apply keeps_fail, HF|].
  case_match; [apply keeps_ret|apply keeps_fail, HF].
Qed.

Lemma keeps_double_int z : keeps R F (double_to_int z).
Proof. unfold double_to_int. case_match; [apply keeps_int|apply keeps_fail, HF]. Qed.

Lemma keeps_double_long z : keeps R F (double_to_long z).
Proof. unfold double_to_long. case_match; [apply keeps_long|apply keeps_fail, HF]. Qed.
End keeps.

(** Another relation or more faults. *)
Lemma keeps_mono {S A} (R R' : relation S) (F F' : fault -> Prop) (m : M S A) :
  (forall s s', R s s' -> R' s s') -> (forall f, F f -> F' f) ->
  keeps R F m -> keeps R' F' m.
Proof.
  intros HR HF Hm s. destruct (Hm s) as [H1 H2]. split; [by apply HR|].
  destruct (m s) as [[] ?]; cbn in *; [done|by apply HF].
Qed.

(** One step through the structure of an operation. *)
Create HintDb frame.
#[export] Hint Resolve keeps_ret keeps_gets keeps_lift keeps_int keeps_long keeps_div_long
  keeps_rem_int keeps_double_int keeps_double_long : frame.

Ltac frame_step :=
  lazymatch goal with
  | |- keeps _ _ (bind (int _) _) => apply keeps_bind_int; [typeclasses eauto..|]
  | |- keeps _ _ (bind _ _) => apply keeps_bind; [typeclasses eauto| |intros ?]
  | |- keeps _ _ (try_catch _ _) => apply keeps_try; [typeclasses eauto| |intros ?]
  | |- keeps _ _ (when _ _) => apply keeps_when; [typeclasses eauto|]
  | |- keeps _ _ (throw _) => apply keeps_fail; [typeclasses eauto|first [apply pf_thrown|apply pf_ub]]
  | |- keeps _ _ (fail _) => apply keeps_fail; [typeclasses eauto|first [apply pf_thrown|apply pf_ub]]
  | |- keeps _ _ (match _ with _ => _ end) => case_match
  | |- keeps _ _ (let '(_, _) := _ in _) => case_match
  | |- keeps _ _ _ => solve [eauto with frame typeclass_instances]
  end.
Ltac frame := repeat first [progress cbv zeta | frame_step].

(** ** No exception leaves an operation *)

Definition unthrown {S A} (m : M S A) : Prop := forall s x, (m s).1 <> Fault (Thrown x).

Section unthrown.
Context {S : Type}.

Lemma unthrown_ret {A} (a : A) : unthrown (S := S) (ret a).
Proof. done. Qed.

Lemma unthrown_gets {A} (f : S -> A) : unthrown (gets f).
Proof. done. Qed.

Lemma unthrown_modify (f : S -> S) : unthrown (modify f).
Proof. done. Qed.

Lemma unthrown_exit {A} code : unthrown (S := S) (fail (A := A) (Exited code)).
Proof. done. Qed.

Lemma unthrown_nofuel {A} : unthrown (S := S) (fail (A := A) NoFuel).
Proof. done. Qed.

Lemma unthrown_ub {A} : unthrown (S := S) (fail (A := A) UB).
Proof. done. Qed.

Lemma unthrown_when (b : bool) (m : M S unit) : unthrown m -> unthrown (when b m).
Proof. by destruct b. Qed.

Lemma unthrown_long z : unthrown (S := S) (long z).
Proof. intros s x. unfold long. by destruct (in_long z). Qed.

Lemma unthrown_int z : unthrown (S := S) (int z).
Proof. intros s x. unfold int. by destruct (in_int z). Qed.

Lemma unthrown_double_long z : unthrown (S := S) (double_to_long z).
Proof. intros s x. unfold double_to_long. destruct z; [apply unthrown_long|done]. Qed.

Lemma unthrown_double_int z : unthrown (S := S) (double_to_int z).
Proof. intros s x. unfold double_to_int. destruct z; [apply unthrown_int|done]. Qed.

Lemma unthrown_bind {A B} (m : M S A) (k : A -> M S B) :
  unthrown m -> (forall a, unthrown (k a)) -> unthrown (bind m k).
Proof.
  intros Hm Hk s x. unfold bind. specialize (Hm s). destruct (m s) as [[a|f] s']; [apply Hk|].
  intros [= ->]. by apply (Hm x).
Qed.

(** Whatever is caught, only the handler matters. *)
Lemma unthrown_try {A} (m : M S A) h : (forall x, unthrown (h x)) -> unthrown (try_catch m h).
Proof.
  intros Hh s x. unfold try_catch. destruct (m s) as [[a|[y| | |]] s']; try done. apply Hh.
Qed.

Lemma unthrown_zoom {T A} (g : S -> T) (u : T -> S -> S) (m : M T A) :
  unthrown m -> unthrown (zoom g u m).
Proof.
  intros Hm s x. unfold zoom. specialize (Hm (g s) x). by destruct (m (g s)) as [r t].
Qed.

Lemma unthrown_fault {A} (m : M S A) s f s' x :
  unthrown m -> m s = (Fault f, s') -> f <> Thrown x.
Proof. intros Hm Hr ->. apply (Hm s x). by rewrite Hr. Qed.

(** Neither an exception nor an exhausted fuel: the run ends as a process does. *)
Definition ended (f : fault) : Prop := f = UB \/ exists code, f = Exited code.

Lemma wp_ended {A} (m : M S A) s (Q : A -> S -> Prop) :
  unthrown m -> wp m s Q (fun f _ => f <> NoFuel) -> wp m s Q (fun f _ => ended f).
Proof.
  intros Hm. unfold wp. specialize (Hm s). destruct (m s) as [[a|[x|code| |]] s']; cbn in *; try done.
  - intros _. by destruct (Hm x).
  - intros _. right. by eexists.
  - by left.
Qed.

(** The run is remembered. *)
Lemma wp_mark {A} (m : M S A) s (Q : A -> S -> Prop) X :
  wp m s Q X -> wp m s (fun a s' => m s = (Ret a, s') /\ Q a s') X.
Proof. unfold wp. by destruct (m s) as [[] ?]. Qed.
End unthrown.

Create HintDb unthrown.
#[export] Hint Resolve unthrown_ret unthrown_gets unthrown_modify unthrown_exit unthrown_nofuel
  unthrown_ub unthrown_long unthrown_int unthrown_double_long unthrown_double_int : unthrown.

Ltac unthrown_step :=
  lazymatch goal with
  | |- unthrown (bind _ _) => apply unthrown_bind; [|intros ?]
  | |- unthrown (try_catch _ _) => apply unthrown_try; intros ?
  | |- unthrown (zoom _ _ _) => apply unthrown_zoom
  | |- unthrown (when _ _) => apply unthrown_when
  | |- unthrown (match _ with _ => _ end) => case_match
  | |- unthrown (let '(_, _) := _ in _) => case_match
  | |- unthrown _ => solve [eauto with unthrown]
  end.
Ltac unthrown := repeat first [progress cbv zeta | unthrown_step].
