(* ===== verification/Packet.v ===== *)
(** * Network-layer packets (src/net/packet.cpp, include/nb/packet.hpp,
      include/nb/protocol.hpp)

    The record, its validity predicate, its throwing constructor and the
    big-endian wire format; [pack] and [unpack] are inverse partial functions
    on the packets the constructor accepts. *)

From S2P Require Import Prelude CppStrings.

(** ** Protocol numbers *)

Definition PING_PKT : Z := 0.
Definition PING_REPLY_PKT : Z := 1.
Definition LINK_INFO_PKT : Z := 2.
Definition NAME_PKT : Z := 3.
Definition TRANSPORT_PKT : Z := 4.

Definition Protocol_isValid (protocol : Z) : bool :=
  (protocol =? PING_PKT) || (protocol =? PING_REPLY_PKT) ||
  (protocol =? LINK_INFO_PKT) || (protocol =? NAME_PKT) ||
  (protocol =? TRANSPORT_PKT).

Definition Protocol_toString (protocol : Z) : string :=
  if protocol =? PING_PKT then "Ping Packet"
  else if protocol =? PING_REPLY_PKT then "Ping Reply Packet"
  else if protocol =? LINK_INFO_PKT then "Link State Packet"
  else if protocol =? NAME_PKT then "Name Packet"
  else if protocol =? TRANSPORT_PKT then "Transport Packet"
  else "Unknown Protocol".

(** ** Packets *)

Definition BROADCAST_ADDRESS : Z := 255.
Definition MAX_ADDRESS : Z := 255.
Definition HEADER_SIZE : Z := 9.
Definition MAX_PACKET_SIZE : Z := 128.
Definition MAX_PAYLOAD_SIZE : Z := MAX_PACKET_SIZE - HEADER_SIZE.
Definition MAX_TTL : Z := 15.

Record Packet : Type := mkPacket {
  dest_ : Z;
  src_ : Z;
  ttl_ : Z;
  protocol_ : Z;
  seq_ : Z;
  payload_ : list byte
}.

Definition validAddress (addr : Z) : bool := (addr <=? MAX_ADDRESS) && (addr >=? 0).

Definition isValid_fields (dest src ttl protocol size : Z) : bool :=
  (dest <=? MAX_ADDRESS) && (dest >=? 0) && validAddress src &&
  Protocol_isValid protocol && (ttl <=? MAX_TTL) && (ttl >=? 0) &&
  (size <=? MAX_PACKET_SIZE).

Definition isValid (p : Packet) : bool :=
  isValid_fields (dest_ p) (src_ p) (ttl_ p) (protocol_ p)
    (vsize (payload_ p) + HEADER_SIZE).

Definition isValidToSend (p : Packet) : bool := isValid p && (ttl_ p >? 0).

Definition setTTL (ttl : Z) (p : Packet) : Packet :=
  mkPacket (dest_ p) (src_ p) ttl (protocol_ p) (seq_ p) (payload_ p).

(** The constructor. *)
Definition new_Packet (dest src ttl protocol seq : Z) (payload : list byte)
    : exn + Packet :=
  if negb (isValid_fields dest src ttl protocol (vsize payload + HEADER_SIZE))
  then inl (invalid_argument "Arguments passed to constructor of Packet are invalid")
  else inr (mkPacket dest src ttl protocol seq payload).

Definition pack (p : Packet) : list byte :=
  [u8 (dest_ p); u8 (src_ p); u8 (ttl_ p); u8 (protocol_ p);
   u8 (vsize (payload_ p) + HEADER_SIZE)]
  ++ be32_put (seq_ p) ++ payload_ p.

Definition unpack (data : list byte) : option Packet :=
  match data with
  | d0 :: d1 :: d2 :: d3 :: d4 :: d5 :: d6 :: d7 :: d8 :: payload =>
      let dest := bZ d0 in
      let src := bZ d1 in
      let ttl := bZ d2 in
      let protocol := bZ d3 in
      let packetLength := bZ d4 in
      let seq := be32_get d5 d6 d7 d8 in
      if negb (HEADER_SIZE + vsize payload =? packetLength) then None
      else
        match new_Packet dest src ttl protocol seq payload with
        | inl _ => None
        | inr p => Some p
        end
  | _ => None
  end.

Definition toString (p : Packet) : string :=
  "Packet: " +:+ to_string (src_ p) +:+ "->" +:+ to_string (dest_ p) +:+
  " protocol: " +:+ to_string (protocol_ p) +:+
  " TTL: " +:+ to_string (ttl_ p) +:+
  " seq: " +:+ to_string (seq_ p) +:+
  " contents: " +:+ bytesToString (payload_ p).

(** ** Lemmas *)

(** The fields of a C++ object have the range of their type; a constructed
    packet moreover satisfies [isValid]. *)
Definition packet_ok (p : Packet) : Prop :=
  isValid p = true /\ INT_MIN <= seq_ p <= INT_MAX.

Lemma Protocol_isValid_spec protocol :
  Protocol_isValid protocol = true <-> 0 <= protocol <= 4.
Proof.
  unfold Protocol_isValid, PING_PKT, PING_REPLY_PKT, LINK_INFO_PKT, NAME_PKT,
    TRANSPORT_PKT. lia.
Qed.

Lemma isValid_fields_spec dest src ttl protocol sz :
  isValid_fields dest src ttl protocol sz = true <->
  0 <= dest <= 255 /\ 0 <= src <= 255 /\ 0 <= ttl <= 15 /\
  0 <= protocol <= 4 /\ sz <= 128.
Proof.
  unfold isValid_fields, validAddress, MAX_ADDRESS, MAX_TTL, MAX_PACKET_SIZE.
  rewrite !andb_true_iff, Protocol_isValid_spec. lia.
Qed.

Lemma isValid_spec p :
  isValid p = true <->
  0 <= dest_ p <= 255 /\ 0 <= src_ p <= 255 /\ 0 <= ttl_ p <= 15 /\
  0 <= protocol_ p <= 4 /\ vsize (payload_ p) <= 119.
Proof.
  unfold isValid, HEADER_SIZE. rewrite isValid_fields_spec. lia.
Qed.

Lemma new_Packet_inr dest src ttl protocol seq payload :
  isValid_fields dest src ttl protocol (vsize payload + HEADER_SIZE) = true ->
  new_Packet dest src ttl protocol seq payload =
  inr (mkPacket dest src ttl protocol seq payload).
Proof. unfold new_Packet. by intros ->. Qed.

Lemma new_Packet_spec dest src ttl protocol seq payload p :
  new_Packet dest src ttl protocol seq payload = inr p <->
  p = mkPacket dest src ttl protocol seq payload /\ isValid p = true.
Proof.
  unfold new_Packet, isValid. split.
  - destruct (isValid_fields _ _ _ _ _) eqn:E; [|done]. intros [= <-]. auto.
  - intros [-> Hv]. cbn in Hv. by rewrite Hv.
Qed.

Lemma packet_pack_length p : vsize (pack p) = HEADER_SIZE + vsize (payload_ p).
Proof. unfold pack, HEADER_SIZE, be32_put. autorewrite with nb_size. lia. Qed.

Lemma packet_unpack_pack p : packet_ok p -> unpack (pack p) = Some p.
Proof.
  intros [Hv Hs]. pose proof (proj1 (isValid_spec p) Hv) as Hr.
  pose proof (vsize_nonneg (payload_ p)).
  pose proof (be32_get_put (seq_ p) Hs) as Hb. unfold be32_put in Hb.
  unfold pack, be32_put. cbn [app unpack].
  rewrite Hb, !bZ_u8_small by (unfold HEADER_SIZE; lia).
  rewrite Z.add_comm, Z.eqb_refl. cbn [negb].
  rewrite new_Packet_inr by done. by destruct p.
Qed.

Lemma packet_unpack_sound data p : unpack data = Some p -> pack p = data /\ packet_ok p.
Proof.
  intros H. do 9 (destruct data as [|? data]; [done|]). cbn [unpack] in H.
  destruct (_ =? _) eqn:Hl in H; [|done]. cbn [negb] in H. apply Z.eqb_eq in Hl.
  destruct (new_Packet _ _ _ _ _ _) as [|q] eqn:Hn in H; [done|].
  injection H as ->. apply new_Packet_spec in Hn as [-> Hv].
  split.
  - unfold pack. cbn. rewrite be32_put_get, !u8_bZ. cbn [app].
    by rewrite Z.add_comm, Hl, u8_bZ.
  - split; [done|]. apply be32_get_range.
Qed.

#[export] Instance Packet_wire : WireFormat Packet := {|
  wire_ok := packet_ok;
  wire_pack := pack;
  wire_unpack := unpack;
  wire_unpack_pack := packet_unpack_pack
|}.

#[global] Arguments pack : simpl never.
