(* ===== verification/Transport.v ===== *)
(** * Transport segments (src/net/transport.cpp, include/nb/transport.hpp)

    A segment travels as the payload of a [Packet]; its size limit is the
    packet's payload limit. *)

From S2P Require Import Prelude Packet.

Definition MAX_PACKET_SIZE : Z := Packet.MAX_PAYLOAD_SIZE.
Definition HEADER_SIZE : Z := 12.
Definition MAX_PAYLOAD_SIZE : Z := MAX_PACKET_SIZE - HEADER_SIZE.
Definition MAX_PORT_NUM : Z := 255.

Definition SYN : Z := 0.
Definition ACK : Z := 1.
Definition FIN : Z := 2.
Definition DATA : Z := 3.

Record Transport : Type := mkTransport {
  srcPort_ : Z;
  destPort_ : Z;
  type_ : Z;
  window_ : Z;
  seqNum_ : Z;
  payload_ : list byte
}.

(** The constructor. *)
Definition new_Transport (srcPort destPort type window seqNum : Z)
    (payload : list byte) : exn + Transport :=
  if (srcPort <? 0) || (srcPort >? MAX_PORT_NUM) ||
     (destPort <? 0) || (destPort >? MAX_PORT_NUM) ||
     (type <? SYN) || (type >? DATA) ||
     (vsize payload >? MAX_PAYLOAD_SIZE)
  then inl (invalid_argument "Illegal arguments given to Transport packet")
  else inr (mkTransport srcPort destPort type window seqNum payload).

(** [writeBigEndian32] appends [be32_put v] to its output vector. *)
Definition writeBigEndian32 (out : list byte) (v : Z) : list byte :=
  out ++ be32_put v.

Definition pack (t : Transport) : list byte :=
  let out := [u8 (srcPort_ t); u8 (destPort_ t); u8 (type_ t)] in
  let out := writeBigEndian32 out (window_ t) in
  let out := writeBigEndian32 out (seqNum_ t) in
  let out := out ++ [u8 (HEADER_SIZE + vsize (payload_ t))] in
  out ++ payload_ t.

Definition unpack (data : list byte) : option Transport :=
  match data with
  | d0 :: d1 :: d2 :: d3 :: d4 :: d5 :: d6 :: d7 :: d8 :: d9 :: d10 :: d11 :: rest =>
      let srcPort := bZ d0 in
      let destPort := bZ d1 in
      let type := bZ d2 in
      let window := be32_get d3 d4 d5 d6 in
      let seqNum := be32_get d7 d8 d9 d10 in
      let packetLength := bZ d11 in
      let payloadLen := packetLength - HEADER_SIZE in
      if (payloadLen <? 0) || negb (HEADER_SIZE + payloadLen =? vsize data)
      then None
      else
        let payload := take (Z.to_nat payloadLen) rest in
        match new_Transport srcPort destPort type window seqNum payload with
        | inl _ => None
        | inr t => Some t
        end
  | _ => None
  end.

(** ** Lemmas *)

Definition transport_ok (t : Transport) : Prop :=
  (0 <= srcPort_ t <= MAX_PORT_NUM /\ 0 <= destPort_ t <= MAX_PORT_NUM /\
   SYN <= type_ t <= DATA /\ vsize (payload_ t) <= MAX_PAYLOAD_SIZE) /\
  INT_MIN <= window_ t <= INT_MAX /\ INT_MIN <= seqNum_ t <= INT_MAX.

Lemma new_Transport_inr srcPort destPort type window seqNum payload :
  0 <= srcPort <= MAX_PORT_NUM -> 0 <= destPort <= MAX_PORT_NUM ->
  SYN <= type <= DATA -> vsize payload <= MAX_PAYLOAD_SIZE ->
  new_Transport srcPort destPort type window seqNum payload =
  inr (mkTransport srcPort destPort type window seqNum payload).
Proof.
  intros H1 H2 H3 H4. unfold new_Transport.
  by replace (_ || _) with false by (unfold MAX_PORT_NUM, SYN, DATA in *; lia).
Qed.

Lemma new_Transport_spec srcPort destPort type window seqNum payload t :
  new_Transport srcPort destPort type window seqNum payload = inr t <->
  t = mkTransport srcPort destPort type window seqNum payload /\
  0 <= srcPort <= MAX_PORT_NUM /\ 0 <= destPort <= MAX_PORT_NUM /\
  SYN <= type <= DATA /\ vsize payload <= MAX_PAYLOAD_SIZE.
Proof.
  split.
  - unfold new_Transport. destruct (_ || _) eqn:E; [done|]. intros [= <-].
    split; [done|]. unfold MAX_PORT_NUM, SYN, DATA in *. lia.
  - intros (-> & ? & ? & ? & ?). by apply new_Transport_inr.
Qed.

Lemma transport_pack_length t : vsize (pack t) = HEADER_SIZE + vsize (payload_ t).
Proof.
  unfold pack, writeBigEndian32, HEADER_SIZE, be32_put.
  autorewrite with nb_size. lia.
Qed.

(** A segment always fits in a packet. *)
Lemma pack_fits t : transport_ok t -> vsize (pack t) <= Packet.MAX_PAYLOAD_SIZE.
Proof.
  intros [(_ & _ & _ & H) _]. rewrite transport_pack_length.
  unfold MAX_PAYLOAD_SIZE, MAX_PACKET_SIZE in H. lia.
Qed.

Lemma transport_unpack_pack t : transport_ok t -> unpack (pack t) = Some t.
Proof.
  intros [(H1 & H2 & H3 & H4) [Hw Hs]].
  pose proof (vsize_nonneg (payload_ t)).
  pose proof (be32_get_put _ Hw) as Bw. pose proof (be32_get_put _ Hs) as Bs.
  pose proof (transport_pack_length t) as Hl.
  unfold MAX_PORT_NUM, SYN, DATA, MAX_PAYLOAD_SIZE, MAX_PACKET_SIZE,
    Packet.MAX_PAYLOAD_SIZE, Packet.MAX_PACKET_SIZE, Packet.HEADER_SIZE,
    HEADER_SIZE in *.
  unfold pack, writeBigEndian32 in *. unfold be32_put in *. cbn [app] in *.
  cbn [unpack]. unfold HEADER_SIZE in *. rewrite Bw, Bs, Hl, !bZ_u8_small by lia.
  replace (12 + vsize (payload_ t) - 12) with (vsize (payload_ t)) by lia.
  rewrite Z.eqb_refl. replace (vsize (payload_ t) <? 0) with false by lia.
  cbn [orb negb]. unfold vsize at 1. rewrite Nat2Z.id, take_ge by done.
  rewrite new_Transport_inr
    by (unfold MAX_PORT_NUM, SYN, DATA, MAX_PAYLOAD_SIZE, MAX_PACKET_SIZE,
        Packet.MAX_PAYLOAD_SIZE, Packet.MAX_PACKET_SIZE, Packet.HEADER_SIZE,
        HEADER_SIZE; lia).
  by destruct t.
Qed.

Lemma transport_unpack_sound data t : unpack data = Some t -> pack t = data /\ transport_ok t.
Proof.
  intros H. do 12 (destruct data as [|? data]; [done|]). cbn [unpack] in H.
  destruct (_ || _) eqn:Hl in H; [done|].
  apply orb_false_iff in Hl as [Hn Hl]. apply negb_false_iff, Z.eqb_eq in Hl.
  apply Z.ltb_ge in Hn. autorewrite with nb_size in Hl.
  destruct (new_Transport _ _ _ _ _ _) as [|q] eqn:E in H; [done|].
  injection H as ->. apply new_Transport_spec in E as (-> & Hr).
  unfold HEADER_SIZE in Hl.
  assert (Z.to_nat (bZ b10 - HEADER_SIZE) = length data) as Hlen
    by (unfold vsize in Hl; unfold HEADER_SIZE; lia).
  rewrite Hlen, take_ge in * by done.
  split.
  - unfold pack, writeBigEndian32. cbn. rewrite !be32_put_get, !u8_bZ. cbn [app].
    unfold HEADER_SIZE. replace (12 + vsize data) with (bZ b10) by lia.
    by rewrite u8_bZ.
  - split; [exact Hr|]. cbn. split; apply be32_get_range.
Qed.

#[export] Instance Transport_wire : WireFormat Transport := {|
  wire_ok := transport_ok;
  wire_pack := pack;
  wire_unpack := unpack;
  wire_unpack_pack := transport_unpack_pack
|}.

#[global] Arguments pack : simpl never.
