(* ===== verification/EmulatorPacket.v ===== *)
(** * UDP framing of the emulator (src/net/emulator_packet.cpp,
      include/nb/emulator_packet.hpp) *)

From S2P Require Import Prelude Packet.

Definition HEADER_SIZE : Z := 3.
Definition MAX_PACKET_SIZE : Z := Packet.MAX_PACKET_SIZE + HEADER_SIZE.

Record EmulatorPacket : Type := mkEmulatorPacket {
  destAddr_ : Z;
  srcAddr_ : Z;
  payload_ : list byte
}.

(** The constructor checks the size only. *)
Definition new_EmulatorPacket (destAddr srcAddr : Z) (payload : list byte)
    : exn + EmulatorPacket :=
  if HEADER_SIZE + vsize payload >? MAX_PACKET_SIZE
  then inl (invalid_argument "Payload is too big")
  else inr (mkEmulatorPacket destAddr srcAddr payload).

Definition pack (p : EmulatorPacket) : list byte :=
  [u8 (destAddr_ p); u8 (srcAddr_ p); u8 (HEADER_SIZE + vsize (payload_ p))]
  ++ payload_ p.

(** Unlike the other codecs, bytes after the announced length are ignored. *)
Definition unpack (data : list byte) : option EmulatorPacket :=
  match data with
  | d0 :: d1 :: d2 :: rest =>
      let destAddr := bZ d0 in
      let srcAddr := bZ d1 in
      let packetLength := bZ d2 in
      let payloadLen := packetLength - HEADER_SIZE in
      if (payloadLen <? 0) || (HEADER_SIZE + payloadLen >? vsize data)
      then None
      else
        let payload := take (Z.to_nat payloadLen) rest in
        match new_EmulatorPacket destAddr srcAddr payload with
        | inl _ => None
        | inr p => Some p
        end
  | _ => None
  end.

(** ** Lemmas *)

Definition emulator_packet_ok (p : EmulatorPacket) : Prop :=
  0 <= destAddr_ p <= 255 /\ 0 <= srcAddr_ p <= 255 /\
  HEADER_SIZE + vsize (payload_ p) <= MAX_PACKET_SIZE.

Lemma new_EmulatorPacket_inr destAddr srcAddr payload :
  HEADER_SIZE + vsize payload <= MAX_PACKET_SIZE ->
  new_EmulatorPacket destAddr srcAddr payload =
  inr (mkEmulatorPacket destAddr srcAddr payload).
Proof. unfold new_EmulatorPacket. intros. by replace (_ >? _) with false by lia. Qed.

Lemma new_EmulatorPacket_spec destAddr srcAddr payload p :
  new_EmulatorPacket destAddr srcAddr payload = inr p <->
  p = mkEmulatorPacket destAddr srcAddr payload /\
  HEADER_SIZE + vsize payload <= MAX_PACKET_SIZE.
Proof.
  split.
  - unfold new_EmulatorPacket. destruct (_ >? _) eqn:E; [done|].
    intros [= <-]. split; [done|lia].
  - intros [-> H]. by apply new_EmulatorPacket_inr.
Qed.

Lemma emulator_pack_length p : vsize (pack p) = HEADER_SIZE + vsize (payload_ p).
Proof. unfold pack, HEADER_SIZE. autorewrite with nb_size. lia. Qed.

(** The frame is read back whatever follows it in the datagram. *)
Lemma emulator_unpack_pack_app p rest :
  emulator_packet_ok p -> unpack (pack p ++ rest) = Some p.
Proof.
  intros (H1 & H2 & H3). pose proof (vsize_nonneg (payload_ p)).
  pose proof (vsize_nonneg rest).
  unfold MAX_PACKET_SIZE, Packet.MAX_PACKET_SIZE in H3.
  unfold pack. cbn [app unpack]. unfold HEADER_SIZE in *.
  rewrite !bZ_u8_small by lia. autorewrite with nb_size.
  replace (_ || _) with false by lia.
  replace (Z.to_nat (3 + vsize (payload_ p) - 3)) with (length (payload_ p))
    by (unfold vsize; lia).
  rewrite take_app_length. rewrite new_EmulatorPacket_inr.
  - by destruct p.
  - unfold MAX_PACKET_SIZE, Packet.MAX_PACKET_SIZE, HEADER_SIZE. lia.
Qed.

Lemma emulator_unpack_pack p : emulator_packet_ok p -> unpack (pack p) = Some p.
Proof. intros H. rewrite <- (app_nil_r (pack p)). by apply emulator_unpack_pack_app. Qed.

Lemma emulator_unpack_sound data p :
  unpack data = Some p ->
  exists rest, data = pack p ++ rest /\ emulator_packet_ok p.
Proof.
  intros H. do 3 (destruct data as [|? data]; [done|]). cbn [unpack] in H.
  destruct (_ || _) eqn:Hl in H; [done|].
  apply orb_false_iff in Hl as [Hn Hl]. apply Z.ltb_ge in Hn.
  autorewrite with nb_size in Hl. unfold HEADER_SIZE in *.
  destruct (new_EmulatorPacket _ _ _) as [|q] eqn:E in H; [done|].
  injection H as ->. apply new_EmulatorPacket_spec in E as [-> Hs].
  assert (vsize (take (Z.to_nat (bZ b1 - 3)) data) = bZ b1 - 3) as Ht.
  { unfold vsize in *. rewrite length_take. lia. }
  exists (drop (Z.to_nat (bZ b1 - 3)) data). split.
  - unfold pack, HEADER_SIZE. cbn. rewrite Ht.
    replace (3 + (bZ b1 - 3)) with (bZ b1) by lia.
    by rewrite !u8_bZ, take_drop.
  - pose proof (bZ_range b). pose proof (bZ_range b0).
    unfold emulator_packet_ok. cbn. unfold HEADER_SIZE in *. lia.
Qed.

#[export] Instance EmulatorPacket_wire : WireFormat EmulatorPacket := {|
  wire_ok := emulator_packet_ok;
  wire_pack := pack;
  wire_unpack := unpack;
  wire_unpack_pack := emulator_unpack_pack
|}.

#[global] Arguments pack : simpl never.
