(* ===== verification/LinkState.v ===== *)
(** * Link-state payloads (src/net/link_state.cpp, include/nb/link_state.hpp) *)

From S2P Require Import Prelude Packet.

Definition MAX_NEIGHBORS : Z := Packet.MAX_PAYLOAD_SIZE.

Record LinkState : Type := mkLinkState { neighbors_ : list byte }.

(** The public constructor stores one byte per neighbor address. *)
Definition new_LinkState (neighbors : list Z) : exn + LinkState :=
  if vsize neighbors >? MAX_NEIGHBORS
  then inl (invalid_argument "Number of neighbors is greater than max allowed")
  else inr (mkLinkState (map u8 neighbors)).

Definition getNeighbors (l : LinkState) : list Z := map bZ (neighbors_ l).

Definition pack (l : LinkState) : list byte := neighbors_ l.

Definition unpack (data : list byte) : option LinkState :=
  if vsize data >? MAX_NEIGHBORS then None else Some (mkLinkState data).

(** ** Lemmas *)

Definition link_state_ok (l : LinkState) : Prop := vsize (neighbors_ l) <= MAX_NEIGHBORS.

Lemma link_state_unpack_pack l : link_state_ok l -> unpack (pack l) = Some l.
Proof.
  unfold unpack, pack, link_state_ok. intros H.
  replace (_ >? _) with false by lia. by destruct l.
Qed.

(** A list of addresses that the constructor accepts survives the trip through
    the wire exactly when every address is an 8-bit value. *)
Lemma neighbors_roundtrip neighbors :
  Forall (fun n => 0 <= n <= MAX_ADDRESS) neighbors ->
  vsize neighbors <= MAX_NEIGHBORS ->
  match new_LinkState neighbors with
  | inl _ => False
  | inr l => option_map getNeighbors (unpack (pack l)) = Some neighbors
  end.
Proof.
  intros Hn Hs. unfold new_LinkState. replace (_ >? _) with false by lia.
  rewrite link_state_unpack_pack; cbn.
  - unfold getNeighbors. cbn. f_equal. rewrite map_map.
    induction Hn as [|n l Hn Hl IH]; [done|]. cbn. unfold MAX_ADDRESS in Hn.
    rewrite bZ_u8_small by lia. f_equal. apply IH.
    unfold vsize in *. cbn in Hs. lia.
  - unfold link_state_ok, vsize in *. cbn. by rewrite length_map.
Qed.

#[export] Instance LinkState_wire : WireFormat LinkState := {|
  wire_ok := link_state_ok;
  wire_pack := pack;
  wire_unpack := unpack;
  wire_unpack_pack := link_state_unpack_pack
|}.
