(* ===== verification/EventQueue.v ===== *)
(** * The event queue (src/core/ordered_event_queue.cpp,
      include/nb/ordered_event_queue.hpp, include/nb/scheduled_event.hpp)

    A list of (time, callback) pairs kept sorted by time; an event with the
    time of others goes after them.  Callbacks are data of a type [C] the
    client chooses ([std::function] values are named, not called, here);
    [None] is the empty [std::function]. *)

From Stdlib Require Import Sorting.Sorted Sorting.Permutation.
From S2P Require Import Prelude.

Section queue.
Context {C : Type}.

Record ScheduledEvent : Type := mkEvent {
  timeToOccur : Z;
  callback : option C
}.

Definition OrderedEventQueue : Type := list ScheduledEvent.

Fixpoint addEvent (event : ScheduledEvent) (events_ : OrderedEventQueue)
    : OrderedEventQueue :=
  match events_ with
  | [] => [event]
  | it :: rest =>
      if timeToOccur event <? timeToOccur it
      then event :: it :: rest
      else it :: addEvent event rest
  end.

Definition getNextEvent (events_ : OrderedEventQueue) : option ScheduledEvent :=
  match events_ with
  | [] => None
  | ev :: _ => Some ev
  end.

(** [front] and [pop_front] of an empty list are undefined. *)
Definition removeNextEvent : M OrderedEventQueue ScheduledEvent :=
  fun events_ =>
    match events_ with
    | [] => (Fault UB, [])
    | ev :: rest => (Ret ev, rest)
    end.

Definition queue_empty (events_ : OrderedEventQueue) : bool :=
  match events_ with [] => true | _ => false end.

(** One after the other. *)
Definition add_all (evs : list ScheduledEvent) (q : OrderedEventQueue) : OrderedEventQueue :=
  fold_left (fun q ev => addEvent ev q) evs q.

(** ** Order *)

Definition ev_le (a b : ScheduledEvent) : Prop := timeToOccur a <= timeToOccur b.

(** The queue invariant. *)
Definition queue_ok (q : OrderedEventQueue) : Prop := StronglySorted ev_le q.

(** The events of time [t], in queue order. *)
Definition at_time (t : Z) (q : OrderedEventQueue) : OrderedEventQueue :=
  List.filter (fun e => timeToOccur e =? t) q.

Lemma queue_ok_nil : queue_ok [].
Proof. constructor. Qed.

Lemma queue_ok_tail e q : queue_ok (e :: q) -> queue_ok q.
Proof. by intros H; inversion H. Qed.

Lemma addEvent_perm e q : Permutation (addEvent e q) (e :: q).
Proof.
  induction q as [|x q IH]; cbn; [done|].
  destruct (_ <? _); [done|]. rewrite IH. apply perm_swap.
Qed.

Lemma addEvent_length e q : length (addEvent e q) = S (length q).
Proof. by rewrite (Permutation_length (addEvent_perm e q)). Qed.

Lemma addEvent_ok e q : queue_ok q -> queue_ok (addEvent e q).
Proof.
  unfold queue_ok. induction 1 as [|x q Hq IH Hx]; cbn.
  - repeat constructor.
  - destruct (Z.ltb_spec (timeToOccur e) (timeToOccur x)) as [H|H].
    + repeat constructor; auto.
      * unfold ev_le. lia.
      * eapply List.Forall_impl; [|done]. unfold ev_le. intros. lia.
    + constructor; [done|].
      eapply Permutation_Forall; [symmetry; apply addEvent_perm|].
      by constructor.
Qed.

(** In a sorted queue the new event goes behind every event that is not
    later and in front of every event that is. *)
Lemma addEvent_split e q :
  queue_ok q ->
  exists before after,
    q = before ++ after /\ addEvent e q = before ++ e :: after /\
    Forall (fun x => ev_le x e) before /\
    Forall (fun x => timeToOccur e < timeToOccur x) after.
Proof.
  unfold queue_ok. induction 1 as [|x q Hq IH Hx]; cbn.
  - exists [], []. auto.
  - destruct (Z.ltb_spec (timeToOccur e) (timeToOccur x)) as [H|H].
    + exists [], (x :: q). repeat split; auto. constructor; [done|].
      eapply List.Forall_impl; [|done]. unfold ev_le. intros. lia.
    + destruct IH as (b & a & -> & -> & Hb & Ha).
      exists (x :: b), a. repeat split; auto.
Qed.

Lemma at_time_app t q q' : at_time t (q ++ q') = at_time t q ++ at_time t q'.
Proof. apply List.filter_app. Qed.

Lemma at_time_cons t e q :
  at_time t (e :: q) = (if timeToOccur e =? t then [e] else []) ++ at_time t q.
Proof. unfold at_time. cbn. by destruct (_ =? _). Qed.

Lemma at_time_none t q :
  Forall (fun x => timeToOccur x <> t) q -> at_time t q = [].
Proof.
  unfold at_time. induction 1 as [|x q Hx Hq IH]; cbn; [done|].
  by rewrite (proj2 (Z.eqb_neq _ _) Hx).
Qed.

Lemma addEvent_at_time e q t :
  queue_ok q ->
  at_time t (addEvent e q) =
  at_time t q ++ (if timeToOccur e =? t then [e] else []).
Proof.
  intros Hq. destruct (addEvent_split e q Hq) as (b & a & -> & -> & Hb & Ha).
  rewrite !at_time_app, at_time_cons.
  destruct (Z.eqb_spec (timeToOccur e) t) as [<-|Hne]; cbn.
  - rewrite (at_time_none _ a); [by rewrite !app_nil_r|].
    eapply List.Forall_impl; [|done]. cbn. lia.
  - by rewrite app_nil_r.
Qed.

(** A sorted queue is determined by its events of each time. *)
Lemma queue_ok_unique q q' :
  queue_ok q -> queue_ok q' -> (forall t, at_time t q = at_time t q') -> q = q'.
Proof.
  intros Hq. revert q'. induction Hq as [|x q Hq IH Hx]; intros q' Hq' Ht.
  - destruct q' as [|y q']; [done|]. specialize (Ht (timeToOccur y)).
    cbn in Ht. by rewrite Z.eqb_refl in Ht.
  - destruct q' as [|y q'].
    { specialize (Ht (timeToOccur x)). cbn in Ht. by rewrite Z.eqb_refl in Ht. }
    inversion Hq' as [|? ? Hq2 Hy]; subst.
    assert (timeToOccur x = timeToOccur y) as Hxy.
    { assert (forall u v p w, timeToOccur u < timeToOccur v ->
        Forall (ev_le v) p -> at_time (timeToOccur u) (u :: w) =
        at_time (timeToOccur u) (v :: p) -> False) as Hno.
      { intros u v p w Huv Hp E. rewrite (at_time_none _ (v :: p)) in E.
        - cbn in E. by rewrite Z.eqb_refl in E.
        - constructor; [lia|]. eapply List.Forall_impl; [|done].
          unfold ev_le. intros. lia. }
      destruct (Ztrichotomy (timeToOccur x) (timeToOccur y)) as [H|[H|H]].
      - destruct (Hno x y q' q H Hy). apply Ht.
      - done.
      - destruct (Hno y x q q' ltac:(lia) Hx). by rewrite Ht. }
    assert (x = y) as ->.
    { specialize (Ht (timeToOccur x)). cbn in Ht.
      rewrite Hxy, Z.eqb_refl in Ht. by injection Ht. }
    f_equal. apply IH; [done|]. intros t. specialize (Ht t). cbn in Ht.
    destruct (_ =? t); [by injection Ht|done].
Qed.

(** ** The events whose time has come *)

Definition due (now : Z) (q : list ScheduledEvent) : nat :=
  length (filter (fun ev => timeToOccur ev <= now) q).

Lemma due_length now q : (due now q <= length q)%nat.
Proof. apply length_filter. Qed.

Lemma due_cons now ev (q : list ScheduledEvent) :
  due now (ev :: q) = ((if decide (timeToOccur ev <= now)%Z then 1 else 0) + due now q)%nat.
Proof. unfold due. rewrite filter_cons. by case_decide. Qed.

Lemma due_add now ev q :
  due now (addEvent ev q) =
  ((if decide (timeToOccur ev <= now)%Z then 1 else 0) + due now q)%nat.
Proof.
  rewrite <- due_cons. unfold due.
  apply Permutation_length, filter_Permutation, addEvent_perm.
Qed.

Lemma due_head now ev q : timeToOccur ev <= now -> due now (ev :: q) = S (due now q).
Proof. intros Hev. rewrite due_cons. by rewrite decide_True. Qed.

Lemma add_all_ok evs q : queue_ok q -> queue_ok (add_all evs q).
Proof. revert q. induction evs as [|ev evs IH]; intros q Hq; [done|]. by apply IH, addEvent_ok. Qed.

Lemma add_all_in (ev : ScheduledEvent) evs q : ev ∈ q -> ev ∈ add_all evs q.
Proof.
  revert q. induction evs as [|e evs IH]; intros q Hq; [done|]. apply IH.
  apply list_elem_of_In, (Permutation_in _ (Permutation_sym (addEvent_perm e q))).
  right. by apply list_elem_of_In.
Qed.

Lemma add_all_Forall (P : ScheduledEvent -> Prop) evs q :
  Forall P evs -> Forall P q -> Forall P (add_all evs q).
Proof.
  intros Hf. revert q. induction Hf as [|ev evs Hev Hevs IH]; intros q Hq; [done|].
  apply IH. eapply Permutation_Forall; [symmetry; apply addEvent_perm|]. by constructor.
Qed.

Lemma add_all_due now evs q :
  Forall (fun ev => now < timeToOccur ev) evs -> due now (add_all evs q) = due now q.
Proof.
  intros Hf. revert q. induction Hf as [|ev evs Hev Hevs IH]; intros q; [done|].
  change (add_all (ev :: evs) q) with (add_all evs (addEvent ev q)).
  rewrite IH, due_add, decide_False by lia. done.
Qed.

(** Behind an event that is still to come no event has come. *)
Lemma later_of_head (ev : ScheduledEvent) rest t :
  queue_ok (ev :: rest) -> t < timeToOccur ev ->
  Forall (fun x => t < timeToOccur x) (ev :: rest).
Proof.
  intros Hq Ht. inversion Hq as [|? ? _ Hall]; subst. constructor; [done|].
  eapply List.Forall_impl; [|exact Hall]. unfold ev_le. intros. lia.
Qed.
End queue.
Arguments ScheduledEvent C : clear implicits.
Arguments OrderedEventQueue C : clear implicits.

#[export] Hint Resolve queue_ok_nil addEvent_ok : nb.

(** ** What a loop over the queue calls

    [drained s l s']: as long as the first event of the queue is due, it is
    taken out and called; the events called are [l], in this order, and the call
    of each returns; then nothing is due.  What was called is the specification of
    the event loops of both managers. *)

Section drained.
Context {S C : Type} (queue : S -> @OrderedEventQueue C) (drop : @OrderedEventQueue C -> S -> S).
Context (limit : S -> Z) (call : @ScheduledEvent C -> M S unit).

Inductive drained : S -> list (@ScheduledEvent C) -> S -> Prop :=
| drained_none s :
    (forall ev, head (queue s) = Some ev -> limit s < timeToOccur ev) -> drained s [] s
| drained_event s ev rest s1 l s2 :
    queue s = ev :: rest -> timeToOccur ev <= limit s -> call ev (drop rest s) = (Ret tt, s1) ->
    drained s1 l s2 -> drained s (ev :: l) s2.
End drained.
