(* ===== verification/Runtime.v ===== *)
(** * The runtime manager (src/core/runtime_manager.cpp,
      include/nb/runtime_manager.hpp) and the console

    First the interface the nodes program against ([RuntimeManager]'s virtual
    functions), as a class of operations on an environment [E] and a class of
    the laws its clients rely on; then the state and operations of the base
    class itself. *)

From S2P Require Import Prelude CppStrings Packet EventQueue.

(** ** Console output *)

Inductive output : Type :=
| Cout (s : string)
| Cerr (s : string).

(** What was written so far, oldest first. *)
Definition Console : Type := list output.

(** ** Timer callbacks

    The lambdas that nodes hand to the manager, named: each captures the node
    (by its address) or one of its tasks. *)

Inductive NodeTimer : Type :=
| PingTimedOut (node : Z)
| RetransmissionTick (node : Z)
| TaskTick (node : Z) (task : nat).

(** ** The interface to the nodes *)

Class Manager (E : Type) := {
  mgr_now : M E Z;
  mgr_sendPkt : Z -> Z -> list byte -> M E bool;
  mgr_addTimer : Z -> Z -> NodeTimer -> M E unit;
  mgr_emit : output -> M E unit
}.

(** The bytes that [sendPkt] accepts: a packet that [unpack]s, between valid
    addresses, with hops left. *)
Definition sendable (from to : Z) (pkt : list byte) : Prop :=
  validAddress from = true /\ validAddress to = true /\
  vsize pkt <= MAX_PACKET_SIZE /\
  exists p, unpack pkt = Some p /\ isValidToSend p = true.

(** Times are below this bound, so that their arithmetic stays in 64 bits. *)
Definition TIME_LIMIT : Z := 2 ^ 50.

(** A packet on its way: sender, next hop, bytes. *)
Definition datagram : Type := Z * Z * list byte.

(** What an environment promises.  [mgr_ok] is its invariant; [mgr_sends e l e']
    says that between [e] and [e'] the packets [l] were handed over, in this
    order; [mgr_fault] are the faults it may end in by itself (such as the
    overflow of a counter), none of them an exception. *)
Class ManagerLaws (E : Type) `{Manager E} := {
  mgr_ok : E -> Prop;
  mgr_sends : E -> list datagram -> E -> Prop;
  mgr_fault : fault -> E -> Prop;
  mgr_sends_refl : forall e, mgr_sends e [] e;
  mgr_sends_trans : forall e1 e2 e3 l l',
    mgr_sends e1 l e2 -> mgr_sends e2 l' e3 -> mgr_sends e1 (l ++ l') e3;
  mgr_fault_exn : forall x e, ~ mgr_fault (Thrown x) e;
  mgr_now_ok : forall e, mgr_ok e ->
    wp mgr_now e (fun t e' => 0 <= t <= TIME_LIMIT /\ mgr_ok e' /\ mgr_sends e [] e')
      mgr_fault;
  mgr_sendPkt_ok : forall from to pkt e, mgr_ok e -> sendable from to pkt ->
    wp (mgr_sendPkt from to pkt) e
      (fun _ e' => mgr_ok e' /\ mgr_sends e [(from, to, pkt)] e') mgr_fault;
  mgr_addTimer_ok : forall node delta cb e, mgr_ok e -> 0 < delta <= TIME_LIMIT ->
    wp (mgr_addTimer node delta cb) e (fun _ e' => mgr_ok e' /\ mgr_sends e [] e')
      mgr_fault;
  mgr_emit_ok : forall o e, mgr_ok e ->
    wp (mgr_emit o) e (fun _ e' => mgr_ok e' /\ mgr_sends e [] e') mgr_fault
}.

(** [e] becomes [e'], still in order, and [l] was sent. *)
Definition sends `{ManagerLaws E} (e : E) (l : list datagram) (e' : E) : Prop :=
  mgr_ok e' /\ mgr_sends e l e'.

Section sends.
Context `{ManagerLaws E}.

Lemma sends_refl e : mgr_ok e -> sends e [] e.
Proof. split; [done|apply mgr_sends_refl]. Qed.

Lemma sends_ok e l e' : sends e l e' -> mgr_ok e'.
Proof. by intros []. Qed.

Lemma sends_app e1 e2 e3 l l' : sends e1 l e2 -> sends e2 l' e3 -> sends e1 (l ++ l') e3.
Proof. intros [_ H1] [H2 H3]. split; [done|]. by eapply mgr_sends_trans. Qed.

Lemma sends_nil_l e1 e2 e3 l : sends e1 [] e2 -> sends e2 l e3 -> sends e1 l e3.
Proof. apply (sends_app _ _ _ []). Qed.

Lemma sends_nil_r e1 e2 e3 l : sends e1 l e2 -> sends e2 [] e3 -> sends e1 l e3.
Proof. intros. rewrite <- (app_nil_r l). by eapply sends_app. Qed.
End sends.
#[export] Hint Resolve sends_refl sends_ok sends_nil_l sends_nil_r : nb.

(** ** The base class *)

Section base.
Context {C : Type}.

Record RuntimeManager : Type := mkRuntimeManager {
  sortedEvents_ : OrderedEventQueue C;
  pktsSent_ : Z;
  pktsDropped_ : Z;
  pktsLost_ : Z;
  startMs_ : Z;
  (* the lines std::getline has still to deliver, when a file is open *)
  commandFile_ : option (list string)
}.

#[global] Instance eta_RuntimeManager : Eta RuntimeManager := fun r =>
  mkRuntimeManager (sortedEvents_ r) (pktsSent_ r) (pktsDropped_ r)
    (pktsLost_ r) (startMs_ r) (commandFile_ r).

Definition set_sortedEvents (v : OrderedEventQueue C) (r : RuntimeManager)
  : RuntimeManager := ltac:(set_field sortedEvents_ v r).
Definition set_pktsSent (v : Z) (r : RuntimeManager)
  : RuntimeManager := ltac:(set_field pktsSent_ v r).
Definition set_pktsDropped (v : Z) (r : RuntimeManager)
  : RuntimeManager := ltac:(set_field pktsDropped_ v r).
Definition set_pktsLost (v : Z) (r : RuntimeManager)
  : RuntimeManager := ltac:(set_field pktsLost_ v r).
Definition set_commandFile (v : option (list string)) (r : RuntimeManager)
  : RuntimeManager := ltac:(set_field commandFile_ v r).

Definition new_RuntimeManager (startMicros : Z) : RuntimeManager :=
  mkRuntimeManager [] 0 0 0 (Z.quot startMicros 1000) None.

(** [++pktsDropped_], [++pktsLost_]. *)
Definition packetDropped : M RuntimeManager unit :=
  let! n := gets pktsDropped_ in
  let! n' := int (n + 1) in
  modify (set_pktsDropped n').

Definition packetLost : M RuntimeManager unit :=
  let! n := gets pktsLost_ in
  let! n' := int (n + 1) in
  modify (set_pktsLost n').

(** [None] is a file that cannot be opened. *)
Definition setCommandFile (file : option (list string)) : M RuntimeManager Z :=
  match file with
  | None => ret (-1)
  | Some lines => modify (set_commandFile (Some lines)) ;; ret 0
  end.

Definition sendPkt (from to : Z) (pkt : list byte) : M RuntimeManager bool :=
  if (vsize pkt >? MAX_PACKET_SIZE) || negb (validAddress to) ||
     negb (validAddress from)
  then throw (invalid_argument "Invalid pkt or address in sendPkt")
  else
    match unpack pkt with
    | Some unpacked =>
        if negb (isValidToSend unpacked)
        then throw (invalid_argument "Invalid pkt content or TTL in sendPkt")
        else
          let! n := gets pktsSent_ in
          let! n' := int (n + 1) in
          modify (set_pktsSent n') ;;
          ret true
    | None => throw (invalid_argument "Invalid pkt content or TTL in sendPkt")
    end.

Definition addEvent_ (ev : ScheduledEvent C) : M RuntimeManager unit :=
  modify (fun r => set_sortedEvents (addEvent ev (sortedEvents_ r)) r).

Definition addTimerAt (tMs : Z) (cb : option C) : M RuntimeManager unit :=
  match cb with
  | None => ret tt
  | Some _ =>
      let! t := long (tMs * 1000) in
      addEvent_ (mkEvent t cb)
  end.

(** [now] is the value of the virtual function [now()]. *)
Definition addTimer (now deltaMs : Z) (cb : option C) : M RuntimeManager unit :=
  let! t := long (now + deltaMs) in
  addTimerAt t cb.

Definition addEventAtMicros (timeMicros : Z) (cb : option C)
    : M RuntimeManager unit :=
  match cb with
  | None => ret tt
  | Some _ =>
      if timeMicros <? 0 then ret tt else addEvent_ (mkEvent timeMicros cb)
  end.

(** The report that [stop] prints before it exits the process. *)
Definition stop_report (now : Z) (r : RuntimeManager) : list output :=
  [Cerr ("NetBridge exiting after time: " +:+ to_string (now - startMs_ r) +:+
         " msec." +:+ newline +:+
         "Number of packets sent: " +:+ to_string (pktsSent_ r) +:+ newline);
   Cerr (endl ("Number of packets dropped: " +:+ to_string (pktsDropped_ r)));
   Cerr (endl ("Number of packets lost: " +:+ to_string (pktsLost_ r)))].

(** [readCommandFile], in a client's state [S] that holds the manager, with
    the client's [now()] and the parser's [parseLine]. *)
Section command_file.
Context {S : Type} (get_rm : S -> RuntimeManager)
  (set_rm : RuntimeManager -> S -> S)
  (now : M S Z) (parseLine : string -> Z -> M S Z).

Definition readCommandFile (deferTill : Z) : M S Z :=
  let! file := gets (fun s => commandFile_ (get_rm s)) in
  let! due :=
    match file with
    | None => ret false
    | Some _ =>
        let! n := now in
        let! t := long (n * 1000) in
        ret (deferTill <=? t)
    end in
  match due, file with
  | true, Some (line :: rest) =>
      modify (fun s => set_rm (set_commandFile (Some rest) (get_rm s)) s) ;;
      let! n := now in
      let! t := long (n * 1000) in
      let! r := parseLine line t in
      ret (Z.max r 0)
  | true, Some [] =>
      modify (fun s => set_rm (set_commandFile None (get_rm s)) s) ;;
      ret (-1)
  | _, None => ret (-1)
  | false, Some _ => ret deferTill
  end.
End command_file.
End base.
Arguments RuntimeManager C : clear implicits.

(** ** Lemmas *)

(** The counters of a run of fewer than 2^31 packets. *)
Definition counters_ok {C} (r : RuntimeManager C) : Prop :=
  0 <= pktsSent_ r < INT_MAX /\ 0 <= pktsDropped_ r < INT_MAX /\
  0 <= pktsLost_ r < INT_MAX.

(** The base class accepts exactly the [sendable] packets and counts them. *)
Lemma sendPkt_sendable {C} from to pkt (r : RuntimeManager C) :
  sendable from to pkt -> 0 <= pktsSent_ r < INT_MAX ->
  sendPkt from to pkt r = (Ret true, set_pktsSent (pktsSent_ r + 1) r).
Proof.
  intros (Hf & Ht & Hs & p & Hu & Hv) Hn. unfold sendPkt.
  rewrite Hf, Ht, Hu, Hv. replace (vsize pkt >? MAX_PACKET_SIZE) with false by lia.
  cbn [negb orb]. unfold gets, bind. rewrite int_ret by (unfold INT_MIN; lia). done.
Qed.

Lemma sendPkt_rejects {C} from to pkt (r : RuntimeManager C) :
  0 <= pktsSent_ r < INT_MAX -> ~ sendable from to pkt ->
  exists w, sendPkt from to pkt r = (Fault (Thrown (invalid_argument w)), r).
Proof.
  intros Hn Hs. unfold sendPkt.
  destruct (_ || _) eqn:E; [by eexists|].
  apply orb_false_iff in E as [E Ef]. apply orb_false_iff in E as [E Et].
  apply negb_false_iff in Ef, Et.
  destruct (unpack pkt) as [p|] eqn:Hu; [|by eexists].
  destruct (isValidToSend p) eqn:Hv; [|by eexists].
  destruct Hs. unfold sendable. repeat split; [done|done|lia|eauto].
Qed.
