(* ===== verification/Edge.v ===== *)
(** * Edges: bandwidth, delay, buffering and loss (src/sim/edge.cpp,
      include/nb/edge.hpp, include/nb/edge_options.hpp)

    An edge paces the packets of each of its two directions separately.  The
    random draws of its generator are the elements of a stream the edge holds;
    nothing is assumed of them. *)

From S2P Require Import Prelude CppStrings Doubles Packet Runtime.

(** ** Options *)

Record EdgeOptions : Type := mkEdgeOptions {
  lossRate : double;
  delayMs : Z;
  bwBytesPerSec : Z;
  bufferingMs : Z
}.

Definition default_EdgeOptions : EdgeOptions := mkEdgeOptions (dofZ 0) 1 10000 250.

#[export] Instance eta_EdgeOptions : Eta EdgeOptions := fun o =>
  mkEdgeOptions (lossRate o) (delayMs o) (bwBytesPerSec o) (bufferingMs o).

Definition setLossRate (r : double) (o : EdgeOptions) : EdgeOptions :=
  ltac:(set_field lossRate r o).
Definition setDelay (d : Z) (o : EdgeOptions) : EdgeOptions :=
  ltac:(set_field delayMs d o).
Definition setBW (bw : Z) (o : EdgeOptions) : EdgeOptions :=
  ltac:(set_field bwBytesPerSec bw o).
Definition setBT (bt : Z) (o : EdgeOptions) : EdgeOptions :=
  ltac:(set_field bufferingMs bt o).

(** ** The random generator: the draws still to come *)

Definition Rng : Type := nat -> double.

(** ** Edges *)

Record Edge : Type := mkEdge {
  a_ : Z;
  b_ : Z;
  live_ : bool;
  nextSendTimeA_ : Z;
  nextSendTimeB_ : Z;
  options_ : EdgeOptions;
  rng_ : Rng
}.

#[export] Instance eta_Edge : Eta Edge := fun e =>
  mkEdge (a_ e) (b_ e) (live_ e) (nextSendTimeA_ e) (nextSendTimeB_ e)
    (options_ e) (rng_ e).

Definition setState (live : bool) (e : Edge) : Edge := ltac:(set_field live_ live e).
Definition setOptions (o : EdgeOptions) (e : Edge) : Edge := ltac:(set_field options_ o e).
Definition set_nextSendTimeA (t : Z) (e : Edge) : Edge := ltac:(set_field nextSendTimeA_ t e).
Definition set_nextSendTimeB (t : Z) (e : Edge) : Edge := ltac:(set_field nextSendTimeB_ t e).
Definition set_rng (r : Rng) (e : Edge) : Edge := ltac:(set_field rng_ r e).

(** The constructor; [rng] is the seeded generator. *)
Definition new_Edge (a b : Z) (options : EdgeOptions) (rng : Rng) : Edge :=
  mkEdge a b true 0 0 options rng.

Definition isEdge (e : Edge) (a b : Z) : bool :=
  ((a_ e =? a) && (b_ e =? b)) || ((a_ e =? b) && (b_ e =? a)).

(** The reference [sendTime]: the direction's next free time. *)
Definition sendTime (src : Z) (e : Edge) : Z :=
  if src =? a_ e then nextSendTimeA_ e else nextSendTimeB_ e.
Definition set_sendTime (src t : Z) (e : Edge) : Edge :=
  if src =? a_ e then set_nextSendTimeA t e else set_nextSendTimeB t e.

(** Microseconds a packet of [size] bytes keeps the link busy. *)
Definition transmission {S} (size bw : Z) : M S Z :=
  let! bits := long (size * 1000000) in
  div_long bits bw.

Section schedule.
Context {C : Type}.

Definition on_edge {A} (m : M Edge A) : M (Edge * RuntimeManager C) A :=
  zoom fst (fun e s => (e, s.2)) m.
Definition on_manager {A} (m : M (RuntimeManager C) A)
  : M (Edge * RuntimeManager C) A := zoom snd (fun r s => (s.1, r)) m.

(** [unit_(rng_)] *)
Definition draw : M Edge double :=
  let! r := gets rng_ in
  modify (set_rng (fun n => r (S n))) ;;
  ret (r O).

Definition schedulePkt (src size nowMicros : Z)
    : M (Edge * RuntimeManager C) Z :=
  if size >? MAX_PACKET_SIZE
  then throw (invalid_argument
         ("Packet size must be less than Packet.MAX_PACKET_SIZE. Size = " +:+
          to_string size))
  else
    let! e := gets fst in
    if negb (src =? a_ e) && negb (src =? b_ e)
    then throw (invalid_argument "Src specified is not part of this edge")
    else
      let currentPktSendTime := Z.max nowMicros (sendTime src e) in
      let! busy := transmission size (bwBytesPerSec (options_ e)) in
      let! finishTime := long (currentPktSendTime + busy) in
      let! backlog := long (finishTime - nowMicros) in
      let! limit := long (bufferingMs (options_ e) * 1000) in
      if backlog >? limit
      then on_manager packetDropped ;; ret (-1)
      else
        on_edge (modify (set_sendTime src finishTime)) ;;
        let! lost :=
          if negb (live_ e) then ret true
          else
            let! u := on_edge draw in
            ret (dltb u (lossRate (options_ e))) in
        if lost
        then on_manager packetLost ;; ret (-1)
        else
          let! delay := long (delayMs (options_ e) * 1000) in
          long (finishTime + delay).
End schedule.

(** ** The behaviour of [schedulePkt] *)

(** Options for which the time arithmetic neither divides by zero nor leaves
    64 bits. *)
Definition options_ok (o : EdgeOptions) : Prop :=
  0 < bwBytesPerSec o <= INT_MAX /\ 0 <= delayMs o <= TIME_LIMIT /\
  0 <= bufferingMs o <= TIME_LIMIT.

(** The time arithmetic of the edge stays below this bound. *)
Definition EDGE_TIME_LIMIT : Z := 2 ^ 61.

Definition edge_ok (e : Edge) : Prop :=
  options_ok (options_ e) /\
  0 <= nextSendTimeA_ e <= EDGE_TIME_LIMIT /\ 0 <= nextSendTimeB_ e <= EDGE_TIME_LIMIT.

(** What the call decides, as a pure function of the edge. *)
Definition busy_time (size : Z) (e : Edge) : Z :=
  (size * 1000000) / bwBytesPerSec (options_ e).

Definition finish_time (src size nowMicros : Z) (e : Edge) : Z :=
  Z.max nowMicros (sendTime src e) + busy_time size e.

Definition overflows (src size nowMicros : Z) (e : Edge) : bool :=
  finish_time src size nowMicros e - nowMicros >? bufferingMs (options_ e) * 1000.

Definition loses (e : Edge) : bool :=
  negb (live_ e) || dltb (rng_ e O) (lossRate (options_ e)).

(** The edge after a packet was put on it. *)
Definition occupied (src size nowMicros : Z) (e : Edge) : Edge :=
  let e' := set_sendTime src (finish_time src size nowMicros e) e in
  if live_ e then set_rng (fun n => rng_ e (S n)) e' else e'.

Definition schedule_spec {C} (src size nowMicros : Z) (e : Edge)
    (r : RuntimeManager C) : Z * (Edge * RuntimeManager C) :=
  if overflows src size nowMicros e
  then (-1, (e, set_pktsDropped (pktsDropped_ r + 1) r))
  else if loses e
  then (-1, (occupied src size nowMicros e, set_pktsLost (pktsLost_ r + 1) r))
  else (finish_time src size nowMicros e + delayMs (options_ e) * 1000,
        (occupied src size nowMicros e, r)).

Lemma transmission_run {S} size bw (s : S) :
  0 <= size <= MAX_PACKET_SIZE -> 0 < bw ->
  transmission size bw s = (Ret ((size * 1000000) / bw), s).
Proof.
  unfold MAX_PACKET_SIZE. intros Hs Hb. unfold transmission, bind.
  rewrite long_ret by (unfold LONG_MIN, LONG_MAX; lia).
  unfold div_long. rewrite decide_False by lia.
  rewrite Z.quot_div_nonneg by lia.
  assert (0 <= size * 1000000 / bw <= size * 1000000).
  { split; [apply Z.div_pos; lia|]. apply Z.div_le_upper_bound; nia. }
  apply long_ret. unfold LONG_MIN, LONG_MAX. lia.
Qed.

Lemma busy_time_range size e :
  0 <= size <= MAX_PACKET_SIZE -> options_ok (options_ e) ->
  0 <= busy_time size e <= 128000000.
Proof.
  unfold MAX_PACKET_SIZE, options_ok, busy_time. intros Hs (Hb & _).
  split; [apply Z.div_pos; lia|]. apply Z.div_le_upper_bound; nia.
Qed.

Lemma sendTime_range src e : edge_ok e -> 0 <= sendTime src e <= EDGE_TIME_LIMIT.
Proof. unfold edge_ok, sendTime. intros (_ & ? & ?). by destruct (_ =? _). Qed.

(** On an edge with sane options the call never throws, never divides by zero
    and never overflows; it does what [schedule_spec] says. *)
Lemma schedulePkt_run {C} src size nowMicros e (r : RuntimeManager C) :
  edge_ok e -> counters_ok r -> 0 <= size <= MAX_PACKET_SIZE ->
  src = a_ e \/ src = b_ e -> 0 <= nowMicros <= EDGE_TIME_LIMIT ->
  schedulePkt src size nowMicros (e, r) =
  (Ret (schedule_spec src size nowMicros e r).1,
   (schedule_spec src size nowMicros e r).2).
Proof.
  intros He Hr Hs Hsrc Hnow.
  pose proof (sendTime_range src e He). pose proof (busy_time_range size e Hs (proj1 He)).
  destruct He as ((Hbw & Hd & Hbt) & _). destruct Hr as (_ & Hr1 & Hr2). unfold INT_MAX in Hr1, Hr2.
  unfold schedulePkt. replace (size >? MAX_PACKET_SIZE) with false by lia.
  unfold bind at 1. cbn [gets fst].
  replace (negb _ && negb _) with false by lia. unfold EDGE_TIME_LIMIT, TIME_LIMIT in *.
  erewrite bind_run; [|apply transmission_run; lia].
  fold (busy_time size e). fold (finish_time src size nowMicros e).
  assert (0 <= finish_time src size nowMicros e <= 2 ^ 61 + 128000000)
    by (unfold finish_time; lia).
  do 3 (erewrite bind_run; [|apply long_ret; unfold LONG_MIN, LONG_MAX; lia]).
  unfold schedule_spec, overflows. destruct (_ >? _) eqn:Eo.
  { unfold bind, on_manager, zoom, packetDropped, bind, gets. cbn.
    by rewrite int_ret by (unfold INT_MIN, INT_MAX; lia). }
  unfold loses, occupied. erewrite bind_run; [|reflexivity].
  assert (Hrng : rng_ (set_sendTime src (finish_time src size nowMicros e) e) = rng_ e)
    by (unfold set_sendTime; by destruct (_ =? _)).
  destruct (live_ e); cbn [negb orb].
  - erewrite bind_run; [|reflexivity]. cbn. rewrite Hrng.
    destruct (dltb _ _).
    + unfold bind, on_manager, zoom, packetLost, bind, gets. cbn.
      by rewrite int_ret by (unfold INT_MIN, INT_MAX; lia).
    + do 2 (try (erewrite bind_run; [|apply long_ret; unfold LONG_MIN, LONG_MAX; lia])).
      by rewrite long_ret by (unfold LONG_MIN, LONG_MAX; lia).
  - erewrite bind_run; [|reflexivity].
    unfold bind, on_manager, zoom, packetLost, bind, gets. cbn.
    by rewrite int_ret by (unfold INT_MIN, INT_MAX; lia).
Qed.

(** ** Properties of a direction *)

Lemma sendTime_occupied src size now e :
  sendTime src (occupied src size now e) = finish_time src size now e.
Proof.
  unfold occupied, set_sendTime, sendTime.
  destruct (live_ e), (src =? a_ e) eqn:E; cbn; by rewrite E.
Qed.

Lemma sendTime_occupied_other src src' size now e :
  (src =? a_ e) <> (src' =? a_ e) ->
  sendTime src' (occupied src size now e) = sendTime src' e.
Proof.
  unfold occupied, set_sendTime, sendTime.
  destruct (live_ e), (src =? a_ e), (src' =? a_ e) eqn:E; cbn; by rewrite ?E.
Qed.

Lemma options_occupied src size now e : options_ (occupied src size now e) = options_ e.
Proof. unfold occupied, set_sendTime. by destruct (live_ e), (_ =? _). Qed.

Lemma edge_ok_occupied src size now e :
  edge_ok e -> 0 <= size <= MAX_PACKET_SIZE -> 0 <= now <= EDGE_TIME_LIMIT ->
  overflows src size now e = false -> 
  now + bufferingMs (options_ e) * 1000 <= EDGE_TIME_LIMIT ->
  edge_ok (occupied src size now e).
Proof.
  intros He Hs Hn Ho Hb. pose proof (busy_time_range size e Hs (proj1 He)).
  pose proof (sendTime_range src e He).
  assert (0 <= finish_time src size now e <= EDGE_TIME_LIMIT).
  { unfold overflows in Ho. unfold finish_time in *. lia. }
  destruct He as (Ho' & Ha & Hb').
  unfold occupied, set_sendTime, edge_ok.
  destruct (live_ e), (_ =? _); cbn; auto.
Qed.
