(* ===== verification/LinkRules.v ===== *)
(** * What a link keeps

    The rules of [schedulePkt] that need no more than the link: it keeps the
    manager's queue and its own options, a packet arrives later than it was
    sent, and in the invariant of the link the one fault is the overflow of a
    packet counter. *)

From S2P Require Import Prelude CppStrings Doubles Frame Packet EventQueue Runtime Edge.

(** ** What every call keeps *)

(** An edge that takes time: a bandwidth, and a delay of a millisecond. *)
Definition tame_options (o : EdgeOptions) : Prop := 0 < bwBytesPerSec o /\ 1 <= delayMs o.

(** Everything but an exhausted fuel. *)
Definition has_fuel (f : fault) : Prop := f <> NoFuel.

#[export] Instance has_fuel_plain : PlainFaults has_fuel.
Proof. by split. Qed.

Lemma wp_long_any {S} z (s : S) (Q : Z -> S -> Prop) (X : fault -> S -> Prop) :
  (in_long z = true -> Q z s) -> X UB s -> wp (long z) s Q X.
Proof. intros HQ HX. unfold wp, long. destruct (in_long z); [by apply HQ|done]. Qed.

Lemma wp_double_long_any {S} z (s : S) (Q : Z -> S -> Prop) (X : fault -> S -> Prop) :
  (forall v, Q v s) -> X UB s -> wp (double_to_long z) s Q X.
Proof.
  intros HQ HX. unfold double_to_long. destruct z; [|done]. by apply wp_long_any.
Qed.

Lemma wp_int_any {S} z (s : S) (Q : Z -> S -> Prop) (X : fault -> S -> Prop) :
  (in_int z = true -> Q z s) -> X UB s -> wp (int z) s Q X.
Proof. intros HQ HX. unfold wp, int. destruct (in_int z); [by apply HQ|done]. Qed.

Lemma wp_bind_any {S A B} (m : M S A) (k : A -> M S B) s (Q : B -> S -> Prop) X :
  (forall a s', wp (k a) s' Q X) -> (forall f s', X f s') -> wp (bind m k) s Q X.
Proof. intros Hk HX. unfold wp, bind. destruct (m s) as [[a|f] s']; [apply Hk|apply HX]. Qed.

(** The manager behind an edge keeps its queue and its open file. *)
Definition rm_same {C} (r r' : RuntimeManager C) : Prop :=
  sortedEvents_ r' = sortedEvents_ r /\ commandFile_ r' = commandFile_ r.

Definition schedule_rel {C} (s s' : Edge * RuntimeManager C) : Prop :=
  options_ s'.1 = options_ s.1 /\ a_ s'.1 = a_ s.1 /\ b_ s'.1 = b_ s.1 /\
  live_ s'.1 = live_ s.1 /\ rm_same s.2 s'.2.

#[export] Instance schedule_rel_preorder {C} : PreOrder (schedule_rel (C := C)).
Proof.
  split.
  - by intros s.
  - intros s1 s2 s3 (O1 & A1 & B1 & L1 & Q1 & F1) (O2 & A2 & B2 & L2 & Q2 & F2). repeat split; congruence.
Qed.

Lemma rm_keeps_zoom {C A} (m : M (RuntimeManager C) A) :
  keeps rm_same has_fuel m -> keeps (schedule_rel (C := C)) has_fuel (on_manager m).
Proof. intros Hm. eapply keeps_zoom; [apply _|exact Hm|]. intros s t Ht. by split. Qed.

Definition edge_same (e e' : Edge) : Prop :=
  options_ e' = options_ e /\ a_ e' = a_ e /\ b_ e' = b_ e /\ live_ e' = live_ e.

#[export] Instance edge_same_preorder : PreOrder edge_same.
Proof.
  split.
  - by intros e.
  - intros e1 e2 e3 (O1 & A1 & B1 & L1) (O2 & A2 & B2 & L2). repeat split; congruence.
Qed.

Lemma edge_keeps_zoom {C A} (m : M Edge A) :
  keeps edge_same has_fuel m ->
  keeps (schedule_rel (C := C)) has_fuel (on_edge m).
Proof.
  intros Hm. eapply keeps_zoom; [apply _|exact Hm|]. intros s t (Ho & Ha & Hb & Hl). by split.
Qed.

#[export] Instance rm_same_preorder {C} : PreOrder (rm_same (C := C)).
Proof.
  split.
  - by intros r.
  - intros r1 r2 r3 [] []. split; congruence.
Qed.

Lemma packetDropped_keeps {C} : keeps (rm_same (C := C)) has_fuel packetDropped.
Proof. unfold packetDropped. frame. apply keeps_modify; [apply _|]. by intros r. Qed.

Lemma packetLost_keeps {C} : keeps (rm_same (C := C)) has_fuel packetLost.
Proof. unfold packetLost. frame. apply keeps_modify; [apply _|]. by intros r. Qed.

Lemma schedulePkt_keeps {C} src size nowMicros :
  keeps (schedule_rel (C := C)) has_fuel (schedulePkt src size nowMicros).
Proof.
  unfold schedulePkt, transmission. frame.
  - apply rm_keeps_zoom, packetDropped_keeps.
  - apply edge_keeps_zoom, keeps_modify; [apply _|]. intros e. unfold set_sendTime. by case_match.
  - apply edge_keeps_zoom. unfold draw. frame. apply keeps_modify; [apply _|]. by intros e.
  - apply rm_keeps_zoom, packetLost_keeps.
Qed.

(** A packet that arrives does so after no less than the delay. *)
Lemma schedulePkt_delay {C} src size nowMicros e (r : RuntimeManager C) :
  0 < bwBytesPerSec (options_ e) -> 0 <= size ->
  wp (schedulePkt src size nowMicros) (e, r)
    (fun at_ _ => at_ = -1 \/ nowMicros + delayMs (options_ e) * 1000 <= at_) (fun _ _ => True).
Proof.
  intros Hb Hs. unfold schedulePkt. case_match; [done|]. apply wp_bind, wp_gets. cbn [fst].
  case_match; [done|]. unfold transmission. apply wp_bind, wp_bind, wp_long_any; [intros _|done].
  unfold div_long. rewrite decide_False by lia.
  pose proof (Z.quot_pos (size * 1000000) (bwBytesPerSec (options_ e)) ltac:(lia) Hb).
  apply wp_long_any; [intros _|done]. do 3 (apply wp_bind, wp_long_any; [intros _|done]).
  case_match; apply wp_bind_any; [|done| |done]; intros _ s1; [by left|].
  apply wp_bind_any; [|done]. intros lost s2. case_match.
  - apply wp_bind_any; [|done]. by left.
  - apply wp_bind, wp_long_any; [intros _|done]. apply wp_long_any; [intros _|done]. right. lia.
Qed.

Lemma schedulePkt_later {C} src size nowMicros e (r : RuntimeManager C) :
  tame_options (options_ e) -> 0 <= size ->
  wp (schedulePkt src size nowMicros) (e, r) (fun at_ _ => at_ = -1 \/ nowMicros < at_)
    (fun _ _ => True).
Proof.
  intros [Hb Hd] Hs. eapply wp_conseq; [by apply schedulePkt_delay| |done].
  intros at_ s [->|Hat]; [by left|right]. lia.
Qed.

(** The base class's own check of a packet. *)
Lemma base_sendPkt_keeps {C} from to pkt : keeps (rm_same (C := C)) has_fuel (Runtime.sendPkt from to pkt).
Proof.
  unfold Runtime.sendPkt. frame. apply keeps_modify; [apply _|]. by intros r.
Qed.

(** ** What a call needs *)

Definition MICROS_LIMIT : Z := TIME_LIMIT * 1000.

Definition in_count (z : Z) : Prop := 0 <= z <= INT_MAX.

Definition counts_ok {C} (r : RuntimeManager C) : Prop :=
  in_count (pktsSent_ r) /\ in_count (pktsDropped_ r) /\ in_count (pktsLost_ r).

(** The counters of what is sent, dropped and lost have 32 bits. *)
Definition count_full {C} (r : RuntimeManager C) : Prop :=
  pktsSent_ r = INT_MAX \/ pktsDropped_ r = INT_MAX \/ pktsLost_ r = INT_MAX.

(** ** Counters *)

Lemma wp_count {C} (get : RuntimeManager C -> Z) (put : Z -> RuntimeManager C -> RuntimeManager C)
    r (Q : unit -> RuntimeManager C -> Prop) X :
  in_count (get r) -> (get r < INT_MAX -> Q tt (put (get r + 1) r)) ->
  (get r = INT_MAX -> X UB r) ->
  wp (let! n := gets get in let! n' := int (n + 1) in modify (put n')) r Q X.
Proof.
  intros Hr HQ HX. apply wp_bind, wp_gets, wp_bind. unfold in_count in Hr.
  destruct (decide (get r = INT_MAX)) as [Hm|Hm].
  - unfold wp, int. rewrite Hm. change (in_int (INT_MAX + 1)) with false. by apply HX.
  - apply wp_int; [unfold INT_MIN; lia|]. apply wp_modify, HQ. lia.
Qed.

(** ** Edges *)

Lemma edge_ok_kept src size now e :
  edge_ok e -> 0 <= size <= MAX_PACKET_SIZE -> 0 <= now <= MICROS_LIMIT ->
  overflows src size now e = false -> edge_ok (occupied src size now e).
Proof.
  intros He Hs Hn Ho. apply edge_ok_occupied; try done.
  - unfold MICROS_LIMIT, EDGE_TIME_LIMIT, TIME_LIMIT in *. lia.
  - destruct He as [(_ & _ & Hb) _].
    unfold MICROS_LIMIT, EDGE_TIME_LIMIT, TIME_LIMIT in *. lia.
Qed.

(** A packet is put on an edge: the edge stays sane, the counters in range, the
    queue as it was. *)
Lemma wp_schedulePkt {C} src size now e (r : RuntimeManager C) :
  edge_ok e -> counts_ok r -> 0 <= size <= MAX_PACKET_SIZE -> src = a_ e \/ src = b_ e ->
  0 <= now <= MICROS_LIMIT ->
  wp (schedulePkt src size now) (e, r)
    (fun at_ s => edge_ok s.1 /\ counts_ok s.2 /\ -1 <= at_ <= 2 ^ 62 /\ rm_same r s.2)
    (fun f s => f = UB /\ edge_ok s.1 /\ counts_ok s.2 /\ count_full s.2).
Proof.
  intros He (Hc1 & Hc2 & Hc3) Hs Hsrc Hn.
  assert (Hn' : 0 <= now <= EDGE_TIME_LIMIT)
    by (unfold MICROS_LIMIT, EDGE_TIME_LIMIT, TIME_LIMIT in *; lia).
  pose proof (sendTime_range src e He) as Hst. pose proof (busy_time_range size e Hs (proj1 He)) as Hbu.
  pose proof He as [(Hbw & Hd & Hbt) _]. unfold EDGE_TIME_LIMIT, TIME_LIMIT in *.
  unfold schedulePkt. replace (size >? MAX_PACKET_SIZE) with false by lia.
  apply wp_bind, wp_gets. cbn [fst]. replace (negb _ && negb _) with false by lia.
  apply wp_bind. eapply run_wp; [apply transmission_run; lia|]. fold (busy_time size e).
  fold (finish_time src size now e).
  assert (Hfin : 0 <= finish_time src size now e <= 2 ^ 61 + 128000000)
    by (unfold finish_time; lia).
  do 3 (apply wp_bind, wp_long; [unfold LONG_MIN, LONG_MAX; lia|]).
  fold (overflows src size now e). destruct (overflows src size now e) eqn:Ho.
  { apply wp_bind, wp_zoom. apply (wp_count pktsDropped_ set_pktsDropped); [done| |].
    - intros Hlt. apply wp_ret. split; [done|]. split; [|done].
      split; [done|]. split; [|done]. cbn in *. unfold in_count in *. lia.
    - intros Hm. split; [done|]. split; [done|]. split; [done|]. right. by left. }
  apply wp_bind, wp_zoom, wp_modify. cbn [fst snd].
  set (e1 := set_sendTime _ _ _).
  assert (He1 : edge_ok e1 /\ edge_ok (set_rng (fun n => rng_ e1 (S n)) e1)).
  { pose proof (edge_ok_kept src size now e He Hs Hn Ho) as Hk. unfold occupied in Hk.
    fold e1 in Hk. destruct (live_ e); (split; exact Hk). }
  apply wp_bind. 
  eapply (wp_conseq _ _ (fun _ s => edge_ok s.1 /\ s.2 = r) _ no_fault); [| |by intros].
  { destruct (negb (live_ e)); [apply wp_ret; split; [apply He1|done]|].
    apply wp_bind, wp_zoom, wp_bind, wp_gets, wp_bind, wp_modify, wp_ret, wp_ret.
    split; [apply He1|done]. }
  intros lost [e2 r2] [He2 Hr2]. cbn [fst snd] in He2, Hr2. subst r2. destruct lost.
  - apply wp_bind, wp_zoom. apply (wp_count pktsLost_ set_pktsLost); [done| |].
    + intros Hlt. apply wp_ret. split; [done|]. split; [|done].
      split; [done|]. split; [done|]. cbn in *. unfold in_count in *. lia.
    + intros Hm. split; [done|]. split; [done|]. split; [done|]. right. by right.
  - apply wp_bind, wp_long; [unfold LONG_MIN, LONG_MAX; lia|].
    apply wp_long; [unfold LONG_MIN, LONG_MAX; lia|]. split; [done|]. split; [done|].
    split; [lia|done].
Qed.
