(* ===== verification/EmulatedLink.v ===== *)
(** * The link of the emulator (src/emu/emulated_link.cpp)

    One direction of a link that is always up.  It is shown to be what the
    simulator's edge is in that direction, whose rules it takes over. *)

From S2P Require Import Prelude CppStrings Doubles Frame Packet EventQueue Runtime Edge LinkRules.

Record EmulatedLink : Type := mkEmulatedLink {
  link_options_ : EdgeOptions;
  nextSendTime_ : Z;
  link_rng_ : Rng
}.

#[export] Instance eta_EmulatedLink : Eta EmulatedLink := fun l =>
  mkEmulatedLink (link_options_ l) (nextSendTime_ l) (link_rng_ l).

Definition set_nextSendTime (t : Z) (l : EmulatedLink) : EmulatedLink :=
  ltac:(set_field nextSendTime_ t l).
Definition set_link_rng (r : Rng) (l : EmulatedLink) : EmulatedLink := ltac:(set_field link_rng_ r l).

(** The constructor; [rng] is the seeded generator. *)
Definition new_EmulatedLink (options : EdgeOptions) (rng : Rng) : EmulatedLink :=
  mkEmulatedLink options 0 rng.

Section schedule.
Context {C : Type}.

Definition on_link {A} (m : M EmulatedLink A) : M (EmulatedLink * RuntimeManager C) A :=
  zoom fst (fun l s => (l, s.2)) m.

Definition of_manager {A} (m : M (RuntimeManager C) A) : M (EmulatedLink * RuntimeManager C) A :=
  zoom snd (fun r s => (s.1, r)) m.

(** [unit_(rng_)] *)
Definition link_draw : M EmulatedLink double :=
  let! r := gets link_rng_ in
  modify (set_link_rng (fun n => r (S n))) ;;
  ret (r O).

Definition link_schedulePkt (size nowMicros : Z) : M (EmulatedLink * RuntimeManager C) Z :=
  let! l := gets fst in
  let currentPktSendTime := Z.max nowMicros (nextSendTime_ l) in
  let! busy := transmission size (bwBytesPerSec (link_options_ l)) in
  let! finishTime := long (currentPktSendTime + busy) in
  let! backlog := long (finishTime - nowMicros) in
  let! limit := long (bufferingMs (link_options_ l) * 1000) in
  if backlog >? limit
  then of_manager packetDropped ;; ret (-1)
  else
    on_link (modify (set_nextSendTime finishTime)) ;;
    let! u := on_link link_draw in
    if dltb u (lossRate (link_options_ l))
    then of_manager packetLost ;; ret (-1)
    else
      let! delay := long (delayMs (link_options_ l) * 1000) in
      long (finishTime + delay).

(** ** A live edge, from its first end *)

Definition as_edge (l : EmulatedLink) : Edge :=
  mkEdge 0 1 true (nextSendTime_ l) 0 (link_options_ l) (link_rng_ l).

Definition of_edge (e : Edge) : EmulatedLink :=
  mkEmulatedLink (options_ e) (nextSendTimeA_ e) (rng_ e).

Lemma of_as_edge l : of_edge (as_edge l) = l.
Proof. by destruct l. Qed.

Lemma link_schedulePkt_edge size now l (r : RuntimeManager C) :
  size <= MAX_PACKET_SIZE ->
  link_schedulePkt size now (l, r) =
  let '(res, (e, r')) := schedulePkt 0 size now (as_edge l, r) in (res, (of_edge e, r')).
Proof.
  intros Hs. unfold link_schedulePkt, schedulePkt.
  replace (size >? MAX_PACKET_SIZE) with false by lia.
  unfold transmission, div_long, on_link, of_manager, on_edge, on_manager, zoom, link_draw, draw,
    packetDropped, packetLost, bind, gets, modify.
  cbn [fst as_edge a_ b_ options_ sendTime Z.eqb]. cbn [negb andb].
  unfold long, int.
  repeat (match goal with
          | |- context [in_long ?z] => destruct (in_long z)
          | |- context [decide ?P] => destruct (decide P)
          | |- context [?x >? ?y] => destruct (x >? y)
          | |- context [in_int ?z] => destruct (in_int z)
          | |- context [dltb ?x ?y] => destruct (dltb x y)
          end; cbn); destruct l; reflexivity.
Qed.

(** Rules of the edge for the link. *)
Lemma wp_link_edge size now l (r : RuntimeManager C) Q X :
  size <= MAX_PACKET_SIZE ->
  wp (schedulePkt 0 size now) (as_edge l, r)
    (fun t s => Q t (of_edge s.1, s.2)) (fun f s => X f (of_edge s.1, s.2)) ->
  wp (link_schedulePkt size now) (l, r) Q X.
Proof.
  intros Hs. unfold wp. rewrite link_schedulePkt_edge by done.
  by destruct (schedulePkt _ _ _ _) as [[t|f] [e r']].
Qed.

(** The invariant: an edge in its invariant. *)
Definition link_ok (l : EmulatedLink) : Prop := edge_ok (as_edge l).

Lemma of_edge_ok e : edge_ok e -> link_ok (of_edge e).
Proof. intros (Ho & Ha & Hb). split; [done|]. split; [done|]. cbn. unfold EDGE_TIME_LIMIT. lia. Qed.

Lemma new_link_ok o g : options_ok o -> link_ok (new_EmulatedLink o g).
Proof. intros Ho. split; [done|]. cbn. unfold EDGE_TIME_LIMIT. lia. Qed.

Lemma wp_link_schedulePkt size now l (r : RuntimeManager C) :
  link_ok l -> counts_ok r -> 0 <= size <= MAX_PACKET_SIZE -> 0 <= now <= MICROS_LIMIT ->
  wp (link_schedulePkt size now) (l, r)
    (fun t s => link_ok s.1 /\ counts_ok s.2 /\ -1 <= t <= 2 ^ 62 /\ rm_same r s.2)
    (fun f s => f = UB /\ link_ok s.1 /\ counts_ok s.2 /\ count_full s.2).
Proof.
  intros Hl Hr Hs Hn. apply wp_link_edge; [lia|].
  eapply wp_conseq; [apply (wp_schedulePkt 0); [exact Hl|done|done|by left|done]| |].
  - intros t [e r'] (He & Hc & Hsame). split; [by apply of_edge_ok|done].
  - intros f [e r'] (-> & He & Hc & Hf). split; [done|]. split; [by apply of_edge_ok|done].
Qed.

Lemma link_schedulePkt_later size now l (r : RuntimeManager C) :
  tame_options (link_options_ l) -> 0 <= size <= MAX_PACKET_SIZE ->
  wp (link_schedulePkt size now) (l, r) (fun t _ => t = -1 \/ now < t) (fun _ _ => True).
Proof. intros Ho Hs. apply wp_link_edge; [lia|]. apply schedulePkt_later; [exact Ho|lia]. Qed.

(** What a link keeps. *)
Definition link_rel (s s' : EmulatedLink * RuntimeManager C) : Prop :=
  link_options_ s'.1 = link_options_ s.1 /\ rm_same s.2 s'.2.

Lemma link_schedulePkt_keeps size now l (r : RuntimeManager C) :
  size <= MAX_PACKET_SIZE ->
  link_rel (l, r) (link_schedulePkt size now (l, r)).2 /\
  match (link_schedulePkt size now (l, r)).1 with Ret _ => True | Fault f => has_fuel f end.
Proof.
  intros Hs. rewrite link_schedulePkt_edge by done.
  destruct (schedulePkt_keeps (C := C) 0 size now (as_edge l, r)) as [(Ho & _ & _ & _ & Hr) Hf].
  destruct (schedulePkt _ _ _ _) as [res [e r']]. by split.
Qed.

(** On a sane link nothing faults; what happens, in full. *)
Lemma link_schedulePkt_run size now l (r : RuntimeManager C) :
  link_ok l -> counters_ok r -> 0 <= size <= MAX_PACKET_SIZE -> 0 <= now <= EDGE_TIME_LIMIT ->
  let s := schedule_spec 0 size now (as_edge l) r in
  link_schedulePkt size now (l, r) = (Ret s.1, (of_edge s.2.1, s.2.2)).
Proof.
  intros Hl Hr Hs Hn. cbv zeta. rewrite link_schedulePkt_edge by lia.
  rewrite schedulePkt_run by (try done; by left). by destruct (schedule_spec _ _ _ _ _) as [? []].
Qed.
End schedule.
