(* ===== verification/Arp.v ===== *)
(** * The commands between the trawler and its nodes
      (src/emu/trawler_node_arp_commands.cpp)

    One line of text each: a neighbor with the end point of its datagrams and,
    when there is a link to emulate, the options of the link. *)

From Stdlib Require Import SpecFloat Strings.Ascii.
From S2P Require Import Prelude CppStrings Doubles DoubleText Runtime Edge.

Record AddNeighborResult : Type := mkAddNeighbor {
  nodeId : Z;
  ipAddress : string;
  port : Z;
  options : option EdgeOptions
}.

Definition splitSpace (s : string) : list string := split_trim s.

(** ** Doubles in the format of Java *)

(** [s.find(c) != std::string::npos] *)
Fixpoint has_char (c : ascii) (s : string) : bool :=
  match s with
  | EmptyString => false
  | String c' s' => Ascii.eqb c' c || has_char c s'
  end.

(** The precisions from [prec] on, [n] of them, until the text is read back. *)
Fixpoint shortest_loop (n : nat) (prec : Z) (s : string) (d : double) : string :=
  match n with
  | O => s
  | S n =>
      let s := print_g prec d in
      match stod s with
      | inl _ => shortest_loop n (prec + 1) s d
      | inr back => if deqb back d then s else shortest_loop n (prec + 1) s d
      end
  end.

(** [".0"] behind a number with neither a point nor an exponent. *)
Definition with_dot (s : string) : string :=
  let hasDot := has_char "." s in
  let hasExp := has_char "e" s || has_char "E" s in
  if negb hasDot && negb hasExp then s +:+ ".0" else s.

Definition javaDouble (d : double) : string :=
  match d with
  | S754_nan => "NaN"
  | S754_infinity neg => if neg then "-Infinity" else "Infinity"
  | _ => with_dot (shortest_loop 17 1 EmptyString d)
  end.

(** ** Writing *)

Definition addNeighbor (nodeId : Z) (ipAddress : string) (port : Z) : string :=
  "add " +:+ to_string nodeId +:+ " " +:+ ipAddress +:+ " " +:+ to_string port.

Definition addNeighborOptions (nodeId : Z) (ipAddress : string) (port : Z) (o : EdgeOptions)
    : string :=
  addNeighbor nodeId ipAddress port +:+
  " lossRate " +:+ javaDouble (lossRate o) +:+
  " delay " +:+ to_string (delayMs o) +:+
  " bw " +:+ to_string (bwBytesPerSec o) +:+
  " bt " +:+ to_string (bufferingMs o).

Definition removeNeighbor (nodeId : Z) : string := "remove " +:+ to_string nodeId.

Definition reset_command : string := "reset".

(** ** Reading *)

(** A conversion inside the [try] block whose handler returns [nullopt]. *)
Definition or_none {A} (r : exn + A) : option A :=
  match r with inr a => Some a | inl _ => None end.

Definition receiveAddNeighborOptions (cmd : string) : option AddNeighborResult :=
  match splitSpace cmd with
  | [k; id; ip; prt; kl; loss; kd; delay; kb; bw; kt; bt] =>
      if String.eqb k "add" && String.eqb kl "lossRate" && String.eqb kd "delay" &&
         String.eqb kb "bw" && String.eqb kt "bt"
      then
        id ← or_none (stoi id);
        prt ← or_none (stoi prt);
        loss ← or_none (stod loss);
        delay ← or_none (stoll delay);
        bw ← or_none (stoi bw);
        bt ← or_none (stoll bt);
        Some (mkAddNeighbor id ip prt
          (Some (setBT bt (setBW bw (setDelay delay (setLossRate loss default_EdgeOptions))))))
      else None
  | _ => None
  end.

Definition receiveAddNeighbor (cmd : string) : option AddNeighborResult :=
  match receiveAddNeighborOptions cmd with
  | Some r => Some r
  | None =>
      match splitSpace cmd with
      | [k; id; ip; prt] =>
          if String.eqb k "add"
          then
            id ← or_none (stoi id);
            prt ← or_none (stoi prt);
            Some (mkAddNeighbor id ip prt None)
          else None
      | _ => None
      end
  end.

(** [-1] when it is no such command. *)
Definition receiveRemoveNeighbor (cmd : string) : Z :=
  match splitSpace cmd with
  | [k; id] =>
      if String.eqb k "remove"
      then match stoi id with inr id => id | inl _ => -1 end
      else -1
  | _ => -1
  end.

Definition receiveReset (cmd : string) : bool := String.eqb cmd "reset".

(** ** Doubles survive *)

Lemma has_char_app c s t : has_char c (s +:+ t) = has_char c s || has_char c t.
Proof. induction s as [|c' s IH]; [done|]. rewrite string_app_cons. cbn. by rewrite IH, orb_assoc. Qed.

(** A double that is a number. *)
Definition is_number (d : double) : bool :=
  match d with S754_zero _ | S754_finite _ _ _ => true | _ => false end.

Lemma print_g_text prec d :
  1 <= prec -> is_number d = true ->
  exists neg t, print_g prec d = (if neg : bool then "-" else EmptyString) +:+ t /\ number_text t.
Proof.
  intros Hp Hd. destruct d as [neg| | |neg m e]; try done.
  - exists neg, "0". split; [done|]. split; [done|]. split; [done|]. by left.
  - unfold print_g. set (nd := if 0 <=? e then _ else _).
    assert (Hnd : 0 <= nd.1 /\ 0 < nd.2).
    { unfold nd. destruct (Z.leb_spec 0 e); cbn; [|split; [lia|apply Z.pow_pos_nonneg; lia]].
      pose proof (Z.pow_nonneg 2 e). lia. }
    destruct nd as [num den]. cbn in Hnd.
    pose proof (round_digits_nonneg prec num den Hp (proj1 Hnd) (proj2 Hnd)) as Hn.
    destruct (round_digits prec num den) as [n x]. cbn in Hn. exists neg. eexists.
    split; [reflexivity|]. by apply print_digits_text.
Qed.

(** Printed with a point, it is read as without. *)
Lemma stod_with_dot prec d :
  1 <= prec -> is_number d = true -> stod (with_dot (print_g prec d)) = stod (print_g prec d).
Proof.
  intros Hp Hd. destruct (print_g_text prec d Hp Hd) as (neg & t & -> & _ & Hne & Ht).
  unfold with_dot. destruct Ht as [Ht|[(a & b & ->)|(a & b & ->)]].
  - destruct (_ && _); [|done]. by apply stod_digits.
  - rewrite !has_char_app. cbn [has_char]. by rewrite !orb_true_r.
  - rewrite !has_char_app. cbn [has_char Ascii.eqb]. by rewrite !orb_true_r, andb_false_r.
Qed.

Lemma with_dot_word prec d :
  1 <= prec -> is_number d = true ->
  graphic (with_dot (print_g prec d)) = true /\ with_dot (print_g prec d) <> EmptyString.
Proof.
  intros Hp Hd. destruct (print_g_text prec d Hp Hd) as (neg & t & -> & Hs & Hne & _).
  assert (graphic ((if neg then "-" else EmptyString) +:+ t) = true) as H1
    by (rewrite graphic_app, Hs; by destruct neg).
  assert ((if neg then "-" else EmptyString) +:+ t <> EmptyString) as H2
    by (destruct neg; [done|by destruct t]).
  unfold with_dot. destruct (_ && _); [|done]. split.
  - by rewrite graphic_app, H1.
  - by destruct neg, t.
Qed.

(** The text with [prec] digits is read as [d]. *)
Definition reads_back (d : double) (prec : Z) : bool :=
  match stod (print_g prec d) with inr back => deqb back d | inl _ => false end.

(** At most 17 digits suffice. *)
Definition short_decimal (d : double) : bool :=
  existsb (reads_back d) (map (fun i => 1 + Z.of_nat i) (seq 0 17)).

Lemma shortest_loop_in n prec s d :
  exists p, (shortest_loop n prec s d = print_g p d \/ shortest_loop n prec s d = s) /\ prec <= p.
Proof.
  revert prec s. induction n as [|n IH]; intros prec s; cbn [shortest_loop].
  { exists prec. split; [by right|lia]. }
  assert (Hrec : exists p, (shortest_loop n (prec + 1) (print_g prec d) d = print_g p d \/
    shortest_loop n (prec + 1) (print_g prec d) d = s) /\ prec <= p).
  { destruct (IH (prec + 1) (print_g prec d)) as (p & [Hl|Hl] & Hp).
    - exists p. split; [by left|lia].
    - exists prec. split; [by left|lia]. }
  destruct (stod _); [exact Hrec|]. destruct (deqb _ _); [|exact Hrec].
  exists prec. split; [by left|lia].
Qed.

Lemma shortest_loop_reads n prec s d :
  existsb (reads_back d) (map (fun i => prec + Z.of_nat i) (seq 0 n)) = true ->
  exists p, prec <= p /\ shortest_loop n prec s d = print_g p d /\ reads_back d p = true.
Proof.
  revert prec s. induction n as [|n IH]; intros prec s; [done|].
  cbn [seq map existsb]. rewrite Z.add_0_r, <- seq_shift, map_map. intros He.
  assert (Hrec : reads_back d prec = false -> exists p, prec <= p /\
    shortest_loop n (prec + 1) (print_g prec d) d = print_g p d /\ reads_back d p = true).
  { intros Hf. rewrite Hf in He. cbn in He.
    destruct (IH (prec + 1) (print_g prec d)) as (p & Hp & H1 & H2).
    - erewrite map_ext; [exact He|]. intros i. cbn. lia.
    - exists p. split; [lia|done]. }
  cbn [shortest_loop]. unfold reads_back in Hrec at 1. destruct (stod _) as [x|back] eqn:Hb; [by apply Hrec|].
  destruct (deqb back d) eqn:Hd; [|by apply Hrec].
  exists prec. split; [lia|]. split; [done|]. unfold reads_back. by rewrite Hb.
Qed.

(** Equal in C++, and not a zero: equal. *)
Lemma deqb_finite b s m e :
  deqb b (S754_finite s m e) = true -> b = S754_finite s m e.
Proof.
  unfold deqb, SFeqb, SFcompare. destruct b as [[]|[]| |[] m' e']; try done; destruct s; try done;
    destruct (Z.compare_spec e' e) as [->|?|?]; try done;
    change (Pos.compare_cont Eq m' m) with (Pos.compare m' m);
    destruct (Pos.compare_spec m' m) as [->|?|?]; done.
Qed.

(** The losses that survive: the special values, and the numbers of which 17
    digits are enough. *)
Definition loss_text_ok (d : double) : bool :=
  match d with S754_finite _ _ _ => short_decimal d | _ => true end.

Lemma javaDouble_read d : loss_text_ok d = true -> stod (javaDouble d) = inr d.
Proof.
  destruct d as [[]|[]| |s m e]; intros Hs; [vm_compute; reflexivity..|].
  cbn [loss_text_ok] in Hs. unfold short_decimal in Hs.
  apply (shortest_loop_reads 17 1 EmptyString) in Hs as (p & Hp & Hl & Hr).
  unfold javaDouble. rewrite Hl, stod_with_dot by done. unfold reads_back in Hr.
  destruct (stod (print_g p _)) as [x|back]; [done|]. by apply deqb_finite in Hr as ->.
Qed.

Lemma shortest_loop_some n prec s d :
  exists p, prec <= p /\ shortest_loop (S n) prec s d = print_g p d.
Proof.
  cbn [shortest_loop].
  assert (Hrest : exists p, prec <= p /\
    shortest_loop n (prec + 1) (print_g prec d) d = print_g p d).
  { destruct (shortest_loop_in n (prec + 1) (print_g prec d) d) as (p & [Hl|Hl] & Hp).
    - exists p. split; [lia|done].
    - by exists prec. }
  destruct (stod _) as [x|back]; [done|]. destruct (deqb back d); [by exists prec|done].
Qed.

Lemma javaDouble_word d : graphic (javaDouble d) = true /\ javaDouble d <> EmptyString.
Proof.
  destruct d as [[]|[]| |s m e];
    [split; [vm_compute; reflexivity|vm_compute; congruence]..|].
  unfold javaDouble.
  destruct (shortest_loop_some 16 1 EmptyString (S754_finite s m e)) as (p & Hp & ->).
  by apply with_dot_word.
Qed.

(** ** The commands survive *)

Definition word (s : string) : Prop := graphic s = true /\ s <> EmptyString.

Lemma to_string_is_word z : word (to_string z).
Proof. split; [apply to_string_graphic|apply to_string_not_empty]. Qed.

Lemma javaDouble_is_word d : word (javaDouble d).
Proof. apply javaDouble_word. Qed.

Lemma split_words l : l <> [] -> Forall word l -> splitSpace (unwords l) = l.
Proof.
  intros Hne Hl. destruct (exists_last Hne) as (l' & t & ->). apply split_trim_unwords.
  - apply Forall_app in Hl as [_ Ht]. by inversion Ht as [|? ? []].
  - eapply List.Forall_impl; [|exact Hl]. intros s [Hs _]. by apply graphic_no_space.
Qed.

Definition add_words (nodeId : Z) (ipAddress : string) (port : Z) : list string :=
  ["add"; to_string nodeId; ipAddress; to_string port].

Definition option_words (o : EdgeOptions) : list string :=
  ["lossRate"; javaDouble (lossRate o); "delay"; to_string (delayMs o);
   "bw"; to_string (bwBytesPerSec o); "bt"; to_string (bufferingMs o)].

Lemma addNeighbor_words id ip prt : addNeighbor id ip prt = unwords (add_words id ip prt).
Proof. reflexivity. Qed.

Lemma addNeighborOptions_words id ip prt o :
  addNeighborOptions id ip prt o = unwords (add_words id ip prt ++ option_words o).
Proof.
  unfold addNeighborOptions, addNeighbor. rewrite !string_app_assoc. reflexivity.
Qed.

Lemma removeNeighbor_words id : removeNeighbor id = unwords ["remove"; to_string id].
Proof. reflexivity. Qed.

Lemma const_word s : graphic s && negb (String.eqb s EmptyString) = true -> word s.
Proof.
  intros [Hg Hn]%andb_true_iff. split; [done|]. by destruct s.
Qed.

Ltac arp_words :=
  unfold add_words, option_words; cbn [app];
  repeat first [apply List.Forall_nil | apply List.Forall_cons];
  first [assumption | apply to_string_is_word | apply javaDouble_is_word
        | apply const_word; reflexivity].

Lemma add_words_ok id ip prt : word ip -> Forall word (add_words id ip prt).
Proof. intros Hip. arp_words. Qed.

Lemma option_words_ok id ip prt o :
  word ip -> Forall word (add_words id ip prt ++ option_words o).
Proof. intros Hip. arp_words. Qed.

(** What the commands can say of a neighbor. *)
Definition neighbor_ok (id : Z) (ip : string) (prt : Z) : Prop :=
  INT_MIN <= id <= INT_MAX /\ word ip /\ INT_MIN <= prt <= INT_MAX.

Definition options_text_ok (o : EdgeOptions) : Prop :=
  loss_text_ok (lossRate o) = true /\ LONG_MIN <= delayMs o <= LONG_MAX /\
  INT_MIN <= bwBytesPerSec o <= INT_MAX /\ LONG_MIN <= bufferingMs o <= LONG_MAX.

(** The numbers of the options are in the ranges of their types. *)
Definition options_range (o : EdgeOptions) : Prop :=
  LONG_MIN <= delayMs o <= LONG_MAX /\ INT_MIN <= bwBytesPerSec o <= INT_MAX /\
  LONG_MIN <= bufferingMs o <= LONG_MAX.

(** Everything is read as it was but the loss rate, which is what its text is
    read as. *)
Lemma receive_add_link id ip prt o :
  neighbor_ok id ip prt -> options_range o ->
  receiveAddNeighbor (addNeighborOptions id ip prt o) =
  match stod (javaDouble (lossRate o)) with
  | inr loss => Some (mkAddNeighbor id ip prt (Some (setLossRate loss o)))
  | inl _ => None
  end.
Proof.
  intros (Hid & Hip & Hport) (Hd & Hb & Ht).
  assert (Hs : splitSpace (addNeighborOptions id ip prt o) =
    add_words id ip prt ++ option_words o)
    by (rewrite addNeighborOptions_words; apply split_words; [done|by apply option_words_ok]).
  unfold receiveAddNeighbor, receiveAddNeighborOptions. rewrite Hs.
  cbn [add_words option_words app]. cbn [String.eqb Ascii.eqb Bool.eqb andb].
  rewrite !stoi_to_string, !stoll_to_string by done.
  cbn [or_none mbind option_bind]. by destruct (stod _), o.
Qed.

Lemma receive_add_options id ip prt o :
  neighbor_ok id ip prt -> options_text_ok o ->
  receiveAddNeighbor (addNeighborOptions id ip prt o) = Some (mkAddNeighbor id ip prt (Some o)).
Proof.
  intros Hn (Hl & Ho). rewrite receive_add_link, javaDouble_read by done. by destruct o.
Qed.

(** The rates in percent. *)
Definition percent (k : Z) : double := ddiv (dofZ k) (dofZ 100).

Lemma percent_read k : 0 <= k <= 100 -> stod (javaDouble (percent k)) = inr (percent k).
Proof.
  intros Hk. set (ks := map Z.of_nat (seq 0 101)).
  assert (Hall : map (fun k => stod (javaDouble (percent k))) ks = map (fun k => inr (percent k)) ks)
    by (vm_compute; reflexivity).
  apply (f_equal (fun l => l !! Z.to_nat k)) in Hall. rewrite !list_lookup_fmap in Hall.
  unfold ks in Hall. rewrite list_lookup_fmap, lookup_seq_lt in Hall by lia. cbn in Hall.
  rewrite Z2Nat.id in Hall by lia. by injection Hall.
Qed.

Lemma receive_add id ip prt :
  neighbor_ok id ip prt ->
  receiveAddNeighbor (addNeighbor id ip prt) = Some (mkAddNeighbor id ip prt None).
Proof.
  intros (Hid & Hip & Hport).
  assert (Hs : splitSpace (addNeighbor id ip prt) = add_words id ip prt)
    by (rewrite addNeighbor_words; apply split_words; [done|by apply add_words_ok]).
  unfold receiveAddNeighbor, receiveAddNeighborOptions. rewrite Hs.
  cbn [add_words]. cbn [String.eqb Ascii.eqb Bool.eqb andb].
  by rewrite !stoi_to_string by done.
Qed.

Lemma receive_remove id :
  INT_MIN <= id <= INT_MAX -> receiveRemoveNeighbor (removeNeighbor id) = id.
Proof.
  intros Hid.
  assert (Hs : splitSpace (removeNeighbor id) = ["remove"; to_string id])
    by (rewrite removeNeighbor_words; apply split_words; [done|arp_words]).
  unfold receiveRemoveNeighbor. rewrite Hs. cbn [String.eqb Ascii.eqb Bool.eqb].
  by rewrite stoi_to_string.
Qed.

(** ** No command is taken for another *)

Lemma add_no_other id ip prt :
  word ip ->
  receiveReset (addNeighbor id ip prt) = false /\ receiveRemoveNeighbor (addNeighbor id ip prt) = -1.
Proof.
  intros Hip. split; [done|]. unfold receiveRemoveNeighbor.
  by rewrite addNeighbor_words, split_words by (try done; by apply add_words_ok).
Qed.

Lemma add_options_no_other id ip prt o :
  word ip ->
  receiveReset (addNeighborOptions id ip prt o) = false /\
  receiveRemoveNeighbor (addNeighborOptions id ip prt o) = -1.
Proof.
  intros Hip. split; [done|]. unfold receiveRemoveNeighbor.
  by rewrite addNeighborOptions_words, split_words by (try done; by apply option_words_ok).
Qed.

Lemma remove_no_add id :
  receiveReset (removeNeighbor id) = false /\ receiveAddNeighbor (removeNeighbor id) = None.
Proof.
  split; [done|]. unfold receiveAddNeighbor, receiveAddNeighborOptions.
  rewrite removeNeighbor_words, split_words; [done|done|]. arp_words.
Qed.
