(* ===== verification/Posix.v ===== *)
(** * What emulator and trawler share of the operating system's interface

    The platform's hash tables and addresses, lines in a stream of text, and the
    loop that writes all of a text to a connection. *)

From Stdlib Require Import Strings.Ascii.
From S2P Require Import Prelude CppStrings.

(** The order in which the library visits a hash table of integers, and the
    texts that [inet_pton] takes for an address. *)
Class Platform := {
  int_order : forall {A}, gmap Z A -> list (Z * A);
  int_order_perm : forall {A} (m : gmap Z A), int_order m ≡ₚ map_to_list m;
  inet_pton : string -> bool
}.

(** ** Lines *)

(** The text before the first line feed, and the text behind it. *)
Fixpoint split_line (s : string) : option (string * string) :=
  match s with
  | EmptyString => None
  | String c s' =>
      if Ascii.eqb c "010" then Some (EmptyString, s')
      else
        match split_line s' with
        | Some (line, rest) => Some (String c line, rest)
        | None => None
        end
  end.

(** [if (!line.empty() && line.back() == '\r') line.pop_back();] *)
Fixpoint chomp (s : string) : string :=
  match s with
  | EmptyString => EmptyString
  | String c EmptyString => if Ascii.eqb c "013" then EmptyString else s
  | String c s' => String c (chomp s')
  end.

(** ** Writing to a connection

    [::send] reports how many bytes it took, or an error; [put] is the effect of
    taking them. *)

Section write.
Context {S : Type} (send_result : M S Z) (put : string -> M S unit).

Definition skip (n : nat) (s : string) : string := String.substring n (String.length s) s.

Fixpoint write_all_loop (fuel : nat) (data : string) : M S bool :=
  match fuel with
  | O => fail NoFuel
  | Datatypes.S fuel =>
      if String.eqb data EmptyString then ret true
      else
        let! n := send_result in
        if n <=? 0 then ret false
        else
          put (String.substring 0 (Z.to_nat n) data) ;;
          write_all_loop fuel (skip (Z.to_nat n) data)
  end.

(** Each round takes a byte at least. *)
Definition write_all (data : string) : M S bool :=
  write_all_loop (Datatypes.S (String.length data)) data.
End write.
