(* ===== verification/EmuNet.v ===== *)
(** * The emulated network (the sending half of src/emu/emulator.cpp)

    What the one node of an emulator sees: the manager's queue and counters, the
    table of neighbors that the trawler's commands keep up to date, and the
    links behind it.  What the operating system will return (readings of the
    clock, what the trawler's connection has to read, results of [sendto]) and
    the seeds of the random generators are streams in the state; what is handed
    to the operating system is recorded. *)

From Stdlib Require Import Strings.Ascii.
From S2P Require Import Prelude CppStrings Doubles DoubleText Packet EmulatorPacket EventQueue Runtime Edge EmulatedLink Arp Posix.

(** One call of [recv] on the trawler's connection, which does not block. *)
Inductive Recv : Type :=
| Data (bytes : string)
| WouldBlock
| RecvFailed
| Closed.

(** ** The state *)

Record EmulatorARPData : Type := mkARPData {
  arp_ip : string;
  arp_port : Z;
  arp_link : option EmulatedLink
}.

Inductive EmuEvent : Type :=
| EmuCallback (cb : NodeTimer)
| PhysicalSend (pkt : list byte) (ip : string) (port : Z).

(** A datagram given to the operating system. *)
Definition UdpOut : Type := list byte * string * Z.

Record EmuNet : Type := mkEmuNet {
  emu_rm : RuntimeManager EmuEvent;
  arp_ : gmap Z EmulatorARPData;
  trawlerBuf_ : string;
  clock_ : nat -> Z;
  feed_ : nat -> list Recv;
  sendto_ : nat -> option string;
  emu_seeds : nat -> Rng;
  sent_ : list UdpOut;
  emu_out : Console
}.

#[export] Instance eta_EmuNet : Eta EmuNet := fun e =>
  mkEmuNet (emu_rm e) (arp_ e) (trawlerBuf_ e) (clock_ e) (feed_ e) (sendto_ e) (emu_seeds e)
    (sent_ e) (emu_out e).

Definition set_emu_rm (v : RuntimeManager EmuEvent) (e : EmuNet) : EmuNet :=
  ltac:(set_field emu_rm v e).
Definition set_arp (v : gmap Z EmulatorARPData) (e : EmuNet) : EmuNet := ltac:(set_field arp_ v e).
Definition set_trawlerBuf (v : string) (e : EmuNet) : EmuNet := ltac:(set_field trawlerBuf_ v e).
Definition set_clock (v : nat -> Z) (e : EmuNet) : EmuNet := ltac:(set_field clock_ v e).
Definition set_feed (v : nat -> list Recv) (e : EmuNet) : EmuNet := ltac:(set_field feed_ v e).
Definition set_sendto (v : nat -> option string) (e : EmuNet) : EmuNet :=
  ltac:(set_field sendto_ v e).
Definition set_emu_seeds (v : nat -> Rng) (e : EmuNet) : EmuNet := ltac:(set_field emu_seeds v e).
Definition set_sent (v : list UdpOut) (e : EmuNet) : EmuNet := ltac:(set_field sent_ v e).
Definition set_emu_out (v : Console) (e : EmuNet) : EmuNet := ltac:(set_field emu_out v e).

Definition emu_base {A} (m : M (RuntimeManager EmuEvent) A) : M EmuNet A :=
  zoom emu_rm set_emu_rm m.

Definition emu_emit (o : output) : M EmuNet unit :=
  modify (fun e => set_emu_out (emu_out e ++ [o]) e).

(** The next element of a stream. *)
Definition next {A} (get : EmuNet -> nat -> A) (set : (nat -> A) -> EmuNet -> EmuNet)
    : M EmuNet A :=
  let! s := gets get in
  modify (set (fun n => s (S n))) ;;
  ret (s O).

Definition clockMicros : M EmuNet Z := next clock_ set_clock.

Definition now : M EmuNet Z :=
  let! t := clockMicros in
  ret (Z.quot t 1000).

(** ** The table of neighbors *)

(** The loop of reads: what one round of calls returns until it ends. *)
Fixpoint drain_loop (reads : list Recv) : M EmuNet unit :=
  match reads with
  | Data bytes :: reads =>
      modify (fun e => set_trawlerBuf (trawlerBuf_ e +:+ bytes) e) ;;
      drain_loop reads
  | Closed :: _ => emu_emit (Cerr (endl "Trawler socket closed")) ;; fail (Exited 1)
  | RecvFailed :: _ | WouldBlock :: _ | [] => ret tt
  end.

(** A new entry; a link gets a generator of its own. *)
Definition new_entry (ip : string) (prt : Z) (o : option EdgeOptions) : M EmuNet EmulatorARPData :=
  match o with
  | None => ret (mkARPData ip prt None)
  | Some o =>
      let! g := next emu_seeds set_emu_seeds in
      ret (mkARPData ip prt (Some (new_EmulatedLink o g)))
  end.

Definition arp_line (line : string) : M EmuNet unit :=
  if String.eqb line EmptyString then ret tt
  else if receiveReset line then modify (set_arp ∅)
  else
    let rm := receiveRemoveNeighbor line in
    if rm >=? 0 then modify (fun e => set_arp (delete rm (arp_ e)) e)
    else
      match receiveAddNeighbor line with
      | Some add =>
          if validAddress (nodeId add)
          then
            let! entry := new_entry (ipAddress add) (port add) (options add) in
            modify (fun e => set_arp (<[nodeId add := entry]> (arp_ e)) e)
          else emu_emit (Cerr (endl ("Unrecognized command from trawler: " +:+ line)))
      | None => emu_emit (Cerr (endl ("Unrecognized command from trawler: " +:+ line)))
      end.

Fixpoint lines_loop (fuel : nat) : M EmuNet unit :=
  match fuel with
  | O => fail NoFuel
  | S fuel =>
      let! buf := gets trawlerBuf_ in
      match split_line buf with
      | None => ret tt
      | Some (line, rest) =>
          modify (set_trawlerBuf rest) ;;
          arp_line (chomp line) ;;
          lines_loop fuel
      end
  end.

Definition refreshARP : M EmuNet unit :=
  let! reads := next feed_ set_feed in
  drain_loop reads ;;
  let! buf := gets trawlerBuf_ in
  lines_loop (S (String.length buf)).

(** ** Sending *)

Section sending.
Context `{Platform}.

(** [htons] keeps 16 bits of the port. *)
Definition physicalSend (pkt : list byte) (ip : string) (udpPort : Z) : M EmuNet unit :=
  if negb (inet_pton ip)
  then emu_emit (Cerr (endl ("inet_pton failed for " +:+ ip)))
  else
    modify (fun e => set_sent (sent_ e ++ [(pkt, ip, udpPort mod 2 ^ 16)]) e) ;;
    let! error := next sendto_ set_sendto in
    match error with
    | Some message => emu_emit (Cerr (endl ("sendto() failed: " +:+ message)))
    | None => ret tt
    end.

(** [data.link->schedulePkt(...)] of the entry of [destAddr]. *)
Definition link_call {A} (destAddr : Z) (m : M (EmulatedLink * RuntimeManager EmuEvent) A)
    : M EmuNet A :=
  fun e =>
    match arp_ e !! destAddr with
    | Some (mkARPData ip prt (Some l)) =>
        let '(r, (l', rm')) := m (l, emu_rm e) in
        (r, set_arp (<[destAddr := mkARPData ip prt (Some l')]> (arp_ e)) (set_emu_rm rm' e))
    | _ => (Fault UB, e)
    end.

(** [usecFraction] rounds the time up to a millisecond. *)
Definition round_up_ms {S} (t : Z) : M S Z :=
  let usecFraction := Z.rem t 1000 in
  if negb (usecFraction =? 0) then long (t + (1000 - usecFraction)) else ret t.

Definition emu_schedulePkt (pkt : list byte) (destAddr : Z) : M EmuNet unit :=
  let! arp := gets arp_ in
  match arp !! destAddr with
  | None => ret tt
  | Some data =>
      match arp_link data with
      | None => physicalSend pkt (arp_ip data) (arp_port data)
      | Some _ =>
          let size := vsize pkt - EmulatorPacket.HEADER_SIZE in
          let size := if size <? 0 then vsize pkt else size in
          let! currentTime := clockMicros in
          let! timeToDeliver := link_call destAddr (link_schedulePkt size currentTime) in
          if timeToDeliver =? -1 then ret tt
          else
            let! timeToDeliver := round_up_ms timeToDeliver in
            emu_base (addEventAtMicros timeToDeliver
              (Some (PhysicalSend pkt (arp_ip data) (arp_port data))))
      end
  end.

(** The loop over the table. *)
Fixpoint broadcast_arp (pkt : list byte) (neighbors : list (Z * EmulatorARPData))
    : M EmuNet unit :=
  match neighbors with
  | [] => ret tt
  | (dest, _) :: neighbors => emu_schedulePkt pkt dest ;; broadcast_arp pkt neighbors
  end.

Definition sendPkt (from to : Z) (pkt : list byte) : M EmuNet bool :=
  emu_base (Runtime.sendPkt from to pkt) ;;
  refreshARP ;;
  let! epkt := lift_exn (new_EmulatorPacket to from pkt) in
  let payload := EmulatorPacket.pack epkt in
  if vsize payload =? 0 then ret false
  else
    try_catch
      (let! arp := gets arp_ in
       if to =? BROADCAST_ADDRESS
       then broadcast_arp payload (int_order arp) ;; ret true
       else if bool_decide (is_Some (arp !! to))
       then emu_schedulePkt payload to ;; ret true
       else
         emu_emit (Cerr (endl ("Node " +:+ to_string to +:+ " is not a neighbor of node " +:+
                               to_string from))) ;;
         ret false)
      (fun x =>
       emu_emit (Cerr (endl ("Exception while trying to send to node: " +:+ to_string to +:+
                             ". Exception: " +:+ what x))) ;;
       ret false).

#[export] Instance EmuNet_manager : Manager EmuNet := {|
  mgr_now := now;
  mgr_sendPkt := sendPkt;
  mgr_addTimer node delta cb :=
    let! t := now in
    emu_base (addTimer t delta (Some (EmuCallback cb)));
  mgr_emit := emu_emit
|}.
End sending.
