(* ===== verification/EmuTable.v ===== *)
(** * The table of neighbors as text makes it

    However the trawler's text is cut into pieces by the network, the emulator
    executes its complete lines in order and keeps the rest: its table is a
    function of the text. *)

From Stdlib Require Import Strings.Ascii.
From S2P Require Import Prelude CppStrings Doubles DoubleText Packet EventQueue Runtime Edge EmulatedLink Arp Posix EmuNet.

(** ** The lines of a text *)

Fixpoint lines_of (s : string) : list string :=
  match s with
  | EmptyString => []
  | String c s' =>
      if Ascii.eqb c "010" then EmptyString :: lines_of s'
      else
        match lines_of s' with
        | [] => []
        | line :: lines => String c line :: lines
        end
  end.

(** What stands behind the last line feed. *)
Fixpoint tail_of (s : string) : string :=
  match s with
  | EmptyString => EmptyString
  | String c s' =>
      if Ascii.eqb c "010" then tail_of s'
      else match lines_of s' with [] => s | _ => tail_of s' end
  end.

Lemma tail_of_none s : lines_of s = [] -> tail_of s = s.
Proof.
  destruct s as [|c s]; [done|]. cbn. destruct (Ascii.eqb c "010"); [done|].
  by destruct (lines_of s).
Qed.

Lemma split_line_lines s :
  match split_line s with
  | None => lines_of s = []
  | Some (line, rest) => lines_of s = line :: lines_of rest /\ tail_of s = tail_of rest /\
      (String.length rest < String.length s)%nat
  end.
Proof.
  induction s as [|c s IH]; [done|]. cbn. destruct (Ascii.eqb c "010"); [cbn; auto|].
  destruct (split_line s) as [[line rest]|].
  - destruct IH as (-> & -> & Hl). cbn. auto.
  - by rewrite IH.
Qed.

Lemma lines_of_app s t : lines_of (s +:+ t) = lines_of s ++ lines_of (tail_of s +:+ t).
Proof.
  induction s as [|c s IH]; [done|]. rewrite string_app_cons. cbn [lines_of tail_of].
  destruct (Ascii.eqb c "010") eqn:Hc; [cbn; by rewrite IH|].
  rewrite IH. destruct (lines_of s) as [|line lines] eqn:Hs; [|done].
  rewrite (tail_of_none s) by done. rewrite string_app_cons. cbn [lines_of app]. by rewrite Hc.
Qed.

Lemma tail_of_app s t : tail_of (s +:+ t) = tail_of (tail_of s +:+ t).
Proof.
  induction s as [|c s IH]; [done|]. rewrite string_app_cons. cbn [tail_of].
  destruct (Ascii.eqb c "010") eqn:Hc; [exact IH|].
  destruct (lines_of s) as [|line lines] eqn:Hs.
  - rewrite string_app_cons. cbn [tail_of]. by rewrite Hc.
  - rewrite lines_of_app, Hs. cbn [app]. by rewrite IH.
Qed.

Lemma lines_of_tail s : lines_of (tail_of s) = [].
Proof.
  induction s as [|c s IH]; [done|]. cbn [tail_of].
  destruct (Ascii.eqb c "010") eqn:Hc; [done|].
  destruct (lines_of s) as [|line lines] eqn:Hs; [|done]. cbn [lines_of]. by rewrite Hc, Hs.
Qed.

Lemma tail_of_tail s : tail_of (tail_of s) = tail_of s.
Proof. apply tail_of_none, lines_of_tail. Qed.

(** ** A line *)

Definition arp_step (line : string) (e : EmuNet) : EmuNet := (arp_line line e).2.

Lemma arp_line_run line e : arp_line line e = (Ret tt, arp_step line e).
Proof.
  unfold arp_step, arp_line. destruct (String.eqb line _); [done|].
  destruct (receiveReset line); [done|]. destruct (_ >=? 0); [done|].
  destruct (receiveAddNeighbor line) as [add|]; [|done].
  destruct (validAddress _); [|done]. unfold new_entry. by destruct (options add).
Qed.

(** What is abstract in the table: end points, and options of links. *)
Definition Neighbors : Type := gmap Z (string * Z * option EdgeOptions).

Definition neighbor_of (d : EmulatorARPData) : string * Z * option EdgeOptions :=
  (arp_ip d, arp_port d, link_options_ <$> arp_link d).

Definition table (e : EmuNet) : Neighbors := neighbor_of <$> arp_ e.

Definition table_step (line : string) (t : Neighbors) : Neighbors :=
  if String.eqb line EmptyString then t
  else if receiveReset line then ∅
  else if receiveRemoveNeighbor line >=? 0 then delete (receiveRemoveNeighbor line) t
  else
    match receiveAddNeighbor line with
    | Some add =>
        if validAddress (nodeId add)
        then <[nodeId add := (ipAddress add, port add, options add)]> t
        else t
    | None => t
    end.

Definition read_table (lines : list string) (t : Neighbors) : Neighbors :=
  fold_left (fun t line => table_step (chomp line) t) lines t.

(** What a line leaves alone. *)
Record line_kept (e e' : EmuNet) : Prop := {
  lk_rm : emu_rm e' = emu_rm e;
  lk_buf : trawlerBuf_ e' = trawlerBuf_ e;
  lk_clock : clock_ e' = clock_ e;
  lk_feed : feed_ e' = feed_ e;
  lk_sendto : sendto_ e' = sendto_ e;
  lk_sent : sent_ e' = sent_ e
}.

#[export] Instance line_kept_preorder : PreOrder line_kept.
Proof.
  split.
  - by constructor.
  - intros e1 e2 e3 [] []. constructor; congruence.
Qed.

Lemma arp_step_spec line e :
  line_kept e (arp_step line e) /\ table (arp_step line e) = table_step line (table e).
Proof.
  unfold arp_step, arp_line, table_step. destruct (String.eqb line _); [by split|].
  destruct (receiveReset line); [split; [done|by apply fmap_empty]|].
  destruct (_ >=? 0); [split; [done|by apply fmap_delete]|].
  destruct (receiveAddNeighbor line) as [add|]; [|by split].
  destruct (validAddress _); [|by split]. unfold new_entry.
  destruct (options add) as [o|]; (split; [done|]); unfold table; cbn; by rewrite fmap_insert.
Qed.

(** A line does not see the text behind it. *)
Lemma arp_step_buf b line e :
  arp_step line (set_trawlerBuf b e) = set_trawlerBuf b (arp_step line e).
Proof.
  unfold arp_step, arp_line. destruct (String.eqb line _); [done|].
  destruct (receiveReset line); [done|]. destruct (_ >=? 0); [done|].
  destruct (receiveAddNeighbor line) as [add|]; [|done].
  destruct (validAddress _); [|done]. unfold new_entry. by destruct (options add).
Qed.

Definition arp_steps (lines : list string) (e : EmuNet) : EmuNet :=
  fold_left (fun e line => arp_step (chomp line) e) lines e.

Lemma arp_steps_buf b lines e :
  arp_steps lines (set_trawlerBuf b e) = set_trawlerBuf b (arp_steps lines e).
Proof.
  revert e. induction lines as [|line lines IH]; intros e; [done|].
  cbn. rewrite arp_step_buf. apply IH.
Qed.

Lemma arp_steps_spec lines e :
  line_kept e (arp_steps lines e) /\ table (arp_steps lines e) = read_table lines (table e).
Proof.
  revert e. induction lines as [|line lines IH]; intros e; [by split|].
  destruct (arp_step_spec (chomp line) e) as [K1 T1]. destruct (IH (arp_step (chomp line) e)) as [K2 T2].
  split; [by etrans|]. cbn. rewrite <- T1. exact T2.
Qed.

(** ** All the lines *)

Lemma lines_loop_run fuel e :
  (String.length (trawlerBuf_ e) < fuel)%nat ->
  lines_loop fuel e =
  (Ret tt, set_trawlerBuf (tail_of (trawlerBuf_ e)) (arp_steps (lines_of (trawlerBuf_ e)) e)).
Proof.
  revert e. induction fuel as [|fuel IH]; intros e Hf; [lia|]. cbn [lines_loop].
  pose proof (split_line_lines (trawlerBuf_ e)) as Hs. unfold bind at 1, gets.
  destruct (split_line (trawlerBuf_ e)) as [[line rest]|].
  - destruct Hs as (Hl & Ht & Hlen). unfold bind at 1, modify. unfold bind.
    rewrite arp_line_run. rewrite IH; rewrite arp_step_buf; cbn [trawlerBuf_ set_trawlerBuf]; [|lia].
    rewrite Hl, Ht, arp_steps_buf. done.
  - rewrite Hs, tail_of_none by done. by destruct e.
Qed.

(** What one round of reads adds to the text, and whether the connection is
    still there. *)
Fixpoint drained (reads : list Recv) : string :=
  match reads with Data bytes :: reads => bytes +:+ drained reads | _ => EmptyString end.

Fixpoint closes (reads : list Recv) : bool :=
  match reads with
  | Data _ :: reads => closes reads
  | Closed :: _ => true
  | _ => false
  end.

Lemma drain_loop_run reads e :
  drain_loop reads e =
  let e' := set_trawlerBuf (trawlerBuf_ e +:+ drained reads) e in
  if closes reads
  then (Fault (Exited 1), set_emu_out (emu_out e ++ [Cerr (endl "Trawler socket closed")]) e')
  else (Ret tt, e').
Proof.
  revert e. induction reads as [|[bytes| | |] reads IH]; intros e; cbn [drain_loop drained closes].
  - rewrite string_app_nil_r. by destruct e.
  - unfold bind, modify. rewrite IH. cbn. rewrite string_app_assoc. by destruct (closes reads).
  - rewrite string_app_nil_r. by destruct e.
  - rewrite string_app_nil_r. by destruct e.
  - rewrite string_app_nil_r. by destruct e.
Qed.

(** The network after a refresh. *)
Definition refreshed (e : EmuNet) : EmuNet :=
  let text := trawlerBuf_ e +:+ drained (feed_ e O) in
  set_trawlerBuf (tail_of text)
    (arp_steps (lines_of text) (set_feed (fun n => feed_ e (S n)) e)).

Lemma refreshARP_run e :
  closes (feed_ e O) = false -> refreshARP e = (Ret tt, refreshed e).
Proof.
  intros Hc. unfold refreshARP, next, bind, gets, modify, ret. rewrite drain_loop_run, Hc. cbv beta iota zeta.
  rewrite lines_loop_run by lia. cbn [trawlerBuf_ set_trawlerBuf].
  unfold refreshed. cbv zeta. rewrite arp_steps_buf. done.
Qed.

Lemma refreshed_spec e :
  table (refreshed e) = read_table (lines_of (trawlerBuf_ e +:+ drained (feed_ e O))) (table e) /\
  trawlerBuf_ (refreshed e) = tail_of (trawlerBuf_ e +:+ drained (feed_ e O)) /\
  feed_ (refreshed e) = (fun n => feed_ e (S n)).
Proof.
  unfold refreshed. cbv zeta. set (text := _ +:+ _).
  destruct (arp_steps_spec (lines_of text) (set_feed (fun n => feed_ e (S n)) e)) as [K T].
  split; [exact T|]. split; [done|]. apply K.
Qed.

Lemma refreshARP_closed e :
  closes (feed_ e O) = true ->
  exists e', refreshARP e = (Fault (Exited 1), e') /\ emu_rm e' = emu_rm e /\
    clock_ e' = clock_ e /\ arp_ e' = arp_ e /\ sent_ e' = sent_ e.
Proof.
  intros Hc. unfold refreshARP, next, bind, gets, modify, ret. rewrite drain_loop_run, Hc.
  cbv beta iota zeta. eexists. split; [reflexivity|]. by split.
Qed.

(** ** What the text still to come may say *)

(** The first [n] rounds of reads. *)
Fixpoint rounds (f : nat -> list Recv) (n : nat) : string :=
  match n with
  | O => EmptyString
  | S n => drained (f O) +:+ rounds (fun i => f (S i)) n
  end.

Definition fed (e : EmuNet) (n : nat) : string := trawlerBuf_ e +:+ rounds (feed_ e) n.

(** The options that a line gives to a link. *)
Definition line_options (P : EdgeOptions -> Prop) (line : string) : Prop :=
  match receiveAddNeighbor (chomp line) with
  | Some add => match options add with Some o => P o | None => True end
  | None => True
  end.

Definition feed_ok (P : EdgeOptions -> Prop) (e : EmuNet) : Prop :=
  forall n, Forall (line_options P) (lines_of (fed e n)).

Definition links_ok (Q : EmulatedLink -> Prop) (e : EmuNet) : Prop :=
  map_Forall (fun _ d => match arp_link d with Some l => Q l | None => True end) (arp_ e).

Lemma feed_ok_refreshed P e :
  feed_ok P e ->
  Forall (line_options P) (lines_of (trawlerBuf_ e +:+ drained (feed_ e O))) /\
  feed_ok P (refreshed e).
Proof.
  intros Hf. destruct (refreshed_spec e) as (_ & Hb & Hfeed). split.
  - pose proof (Hf 1%nat) as H1. unfold fed in H1. cbn [rounds] in H1.
    by rewrite string_app_nil_r in H1.
  - intros n. specialize (Hf (S n)). unfold fed in *. rewrite Hb, Hfeed.
    cbn [rounds] in Hf. rewrite <- string_app_assoc, lines_of_app in Hf.
    by apply Forall_app in Hf as [_ Hf].
Qed.

Section links.
Context (P : EdgeOptions -> Prop) (Q : EmulatedLink -> Prop)
  (HQ : forall o g, P o -> Q (new_EmulatedLink o g)).
#[local] Set Default Proof Using "Type*".

Lemma arp_step_links line e :
  line_options P line -> links_ok Q e -> links_ok Q (arp_step (chomp line) e).
Proof.
  unfold line_options, arp_step, arp_line. intros Hl He. destruct (String.eqb _ _); [done|].
  destruct (receiveReset _); [apply map_Forall_empty|].
  destruct (_ >=? 0); [by apply map_Forall_delete|].
  destruct (receiveAddNeighbor _) as [add|]; [|done].
  destruct (validAddress _); [|done]. unfold new_entry.
  destruct (options add) as [o|]; cbn; apply map_Forall_insert_2; cbn; auto.
Qed.

Lemma arp_steps_links lines e :
  Forall (line_options P) lines -> links_ok Q e -> links_ok Q (arp_steps lines e).
Proof.
  intros Hl. revert e. induction Hl as [|line lines Hline Hl IH]; intros e He; [done|].
  apply IH. by apply arp_step_links.
Qed.

Lemma links_ok_refreshed e : feed_ok P e -> links_ok Q e -> links_ok Q (refreshed e).
Proof.
  intros Hf He. destruct (feed_ok_refreshed P e Hf) as [Hl _]. unfold refreshed. cbv zeta.
  change (links_ok Q (arp_steps (lines_of (trawlerBuf_ e +:+ drained (feed_ e O)))
    (set_feed (fun n => feed_ e (S n)) e))). by apply arp_steps_links.
Qed.
End links.

(** ** Round after round *)

Fixpoint refresh_rounds (n : nat) : M EmuNet unit :=
  match n with
  | O => ret tt
  | S n => refreshARP ;; refresh_rounds n
  end.

Lemma fed_refreshed e n :
  fed e (S n) = (trawlerBuf_ e +:+ drained (feed_ e O)) +:+ rounds (fun i => feed_ e (S i)) n /\
  fed (refreshed e) n =
    tail_of (trawlerBuf_ e +:+ drained (feed_ e O)) +:+ rounds (fun i => feed_ e (S i)) n.
Proof.
  destruct (refreshed_spec e) as (_ & Hb & Hfeed). unfold fed. rewrite Hb, Hfeed. split; [|done].
  cbn [rounds]. by rewrite string_app_assoc.
Qed.

Lemma refreshed_kept e :
  emu_rm (refreshed e) = emu_rm e /\ sent_ (refreshed e) = sent_ e /\
  clock_ (refreshed e) = clock_ e.
Proof.
  destruct (arp_steps_spec (lines_of (trawlerBuf_ e +:+ drained (feed_ e O)))
    (set_feed (fun n => feed_ e (S n)) e)) as [[Hr _ Hc _ _ Hs] _]. by split.
Qed.

Lemma refresh_rounds_run n e :
  trawlerBuf_ e = tail_of (trawlerBuf_ e) ->
  (forall k, (k < n)%nat -> closes (feed_ e k) = false) ->
  exists e', refresh_rounds n e = (Ret tt, e') /\
    table e' = read_table (lines_of (fed e n)) (table e) /\
    trawlerBuf_ e' = tail_of (fed e n) /\ emu_rm e' = emu_rm e /\ sent_ e' = sent_ e.
Proof.
  revert e. induction n as [|n IH]; intros e Hbuf Hc.
  - exists e. unfold fed. cbn [rounds]. rewrite string_app_nil_r. split; [done|].
    split; [|done]. by rewrite Hbuf, lines_of_tail.
  - cbn [refresh_rounds]. erewrite bind_run; [|by apply refreshARP_run, Hc; lia].
    destruct (refreshed_spec e) as (Ht & Hb & Hfeed). destruct (refreshed_kept e) as (Hr & Hs & _).
    destruct (IH (refreshed e)) as (e' & He' & Ht' & Hb' & Hr' & Hs').
    + by rewrite Hb, tail_of_tail.
    + intros k Hk. rewrite Hfeed. apply Hc. lia.
    + exists e'. split; [done|]. destruct (fed_refreshed e n) as [-> F2].
      rewrite F2 in Ht', Hb'. split; [|split; [|split; congruence]].
      * rewrite Ht', Ht, (lines_of_app (_ +:+ drained _)). unfold read_table. by rewrite fold_left_app.
      * by rewrite Hb', (tail_of_app (_ +:+ drained _)).
Qed.
