(* ===== verification/Topology.v ===== *)
(** * The topology (src/sim/topology.cpp, include/nb/topology.hpp)

    A vector of edges and a set of failed nodes behind a process-wide
    singleton.  [Edge*] is an index into the vector, whose elements are never
    removed.  An abstract topology maps an unordered pair of nodes to its
    state and options; every operation is shown to act on it as its name
    says. *)

From S2P Require Import Prelude CppStrings Doubles Packet Runtime Edge.

Record Topology : Type := mkTopology {
  edges_ : list Edge;
  failedNodes_ : gset Z;
  allToAll_ : bool
}.

(** A method of [Topology] runs on the object, the seeds that
    [std::random_device] will give to new edges, and the console. *)
Record TopoSt : Type := mkTopoSt {
  this_ : Topology;
  seeds_ : nat -> Rng;
  tout_ : Console
}.

#[export] Instance eta_Topology : Eta Topology := fun t =>
  mkTopology (edges_ t) (failedNodes_ t) (allToAll_ t).
#[export] Instance eta_TopoSt : Eta TopoSt := fun s =>
  mkTopoSt (this_ s) (seeds_ s) (tout_ s).

Definition set_edges (v : list Edge) (t : Topology) : Topology := ltac:(set_field edges_ v t).
Definition set_failedNodes (v : gset Z) (t : Topology) : Topology :=
  ltac:(set_field failedNodes_ v t).
Definition set_this (v : Topology) (s : TopoSt) : TopoSt := ltac:(set_field this_ v s).
Definition set_seeds (v : nat -> Rng) (s : TopoSt) : TopoSt := ltac:(set_field seeds_ v s).
Definition set_tout (v : Console) (s : TopoSt) : TopoSt := ltac:(set_field tout_ v s).

Definition topo_get {A} (f : Topology -> A) : M TopoSt A := gets (fun s => f (this_ s)).
Definition topo_put (f : Topology -> Topology) : M TopoSt unit :=
  modify (fun s => set_this (f (this_ s)) s).
Definition topo_print (o : output) : M TopoSt unit :=
  modify (fun s => set_tout (tout_ s ++ [o]) s).

(** [std::make_unique<Edge>(a, b, options)] pushed to the vector: a fresh
    generator, and the index of the new edge. *)
Definition push_edge (a b : Z) (options : EdgeOptions) : M TopoSt nat :=
  let! seeds := gets seeds_ in
  modify (set_seeds (fun n => seeds (S n))) ;;
  let! edges := topo_get edges_ in
  topo_put (set_edges (edges ++ [new_Edge a b options (seeds O)])) ;;
  ret (length edges).

Fixpoint find_edge (a b : Z) (edges : list Edge) : option nat :=
  match edges with
  | [] => None
  | e :: rest => if isEdge e a b then Some O else S <$> find_edge a b rest
  end.

Definition getEdge (a b : Z) : M TopoSt (option nat) :=
  let! edges := topo_get edges_ in
  match find_edge a b edges with
  | Some i => ret (Some i)
  | None =>
      let! all := topo_get allToAll_ in
      if all
      then let! i := push_edge a b default_EdgeOptions in ret (Some i)
      else ret None
  end.

Definition isNodeAlive_ (node : Z) (t : Topology) : bool :=
  negb (bool_decide (node ∈ failedNodes_ t)).

Definition deref_edge (i : nat) : M TopoSt Edge :=
  let! edges := topo_get edges_ in
  match edges !! i with Some e => ret e | None => fail UB end.

Definition update_edge (i : nat) (f : Edge -> Edge) : M TopoSt unit :=
  let! e := deref_edge i in
  topo_put (fun t => set_edges (<[i := f e]> (edges_ t)) t).

Definition getLiveEdge (a b : Z) : M TopoSt (option nat) :=
  let! e := getEdge a b in
  match e with
  | None => ret None
  | Some i =>
      let! edge := deref_edge i in
      let! aliveA := topo_get (isNodeAlive_ a) in
      let! aliveB := topo_get (isNodeAlive_ b) in
      if negb (live_ edge) || negb aliveA || negb aliveB
      then ret None else ret (Some i)
  end.

Definition newEdge (a b : Z) (options : EdgeOptions) : M TopoSt unit :=
  let! e := getEdge a b in
  match e with
  | Some i => update_edge i (setOptions options)
  | None => push_edge a b options ;; ret tt
  end.

Definition changeEdge (a b : Z) (state : bool) : M TopoSt bool :=
  let! e := getEdge a b in
  match e with
  | Some i => update_edge i (setState state) ;; ret true
  | None =>
      topo_print (Cerr (endl ("No edge exists between " +:+ to_string a +:+ " and " +:+
                        to_string b))) ;;
      ret false
  end.

Definition failEdge (a b : Z) : M TopoSt bool := changeEdge a b false.
Definition restartEdge (a b : Z) : M TopoSt bool := changeEdge a b true.

Definition failNode (a : Z) : M TopoSt unit :=
  topo_put (fun t => set_failedNodes ({[a]} ∪ failedNodes_ t) t).
Definition restartNode (a : Z) : M TopoSt unit :=
  topo_put (fun t => set_failedNodes (failedNodes_ t ∖ {[a]}) t).

(** ** The singleton *)

Record TopoCell : Type := mkTopoCell {
  instancePtr : option Topology;
  cell_seeds : nat -> Rng;
  cell_out : Console
}.

(** [Topology::instance(allToAll)] followed by a method call on it. *)
Definition with_instance {A} (allToAll : bool) (m : M TopoSt A) : M TopoCell A :=
  fun c =>
    let t := match instancePtr c with
             | Some t => t
             | None => mkTopology [] ∅ allToAll
             end in
    let '(r, s) := m (mkTopoSt t (cell_seeds c) (cell_out c)) in
    (r, mkTopoCell (Some (this_ s)) (seeds_ s) (tout_ s)).

Definition reset : M TopoCell unit :=
  modify (fun c => mkTopoCell None (cell_seeds c) (cell_out c)).

(** ** The abstract topology *)

Definition lookup_edge (a b : Z) (t : Topology) : option Edge :=
  match find_edge a b (edges_ t) with
  | Some i => edges_ t !! i
  | None => None
  end.

(** What the topology says of a pair of nodes. *)
Definition view (t : Topology) (a b : Z) : option (bool * EdgeOptions) :=
  (fun e => (live_ e, options_ e)) <$> lookup_edge a b t.

Definition same_pair (a b x y : Z) : Prop := (a = x /\ b = y) \/ (a = y /\ b = x).

#[export] Instance same_pair_dec a b x y : Decision (same_pair a b x y).
Proof. unfold same_pair. apply _. Defined.

(** At most one edge per unordered pair of nodes. *)
Definition topo_ok (t : Topology) : Prop :=
  forall i j e e', edges_ t !! i = Some e -> edges_ t !! j = Some e' ->
    isEdge e (a_ e') (b_ e') = true -> i = j.

(** ** Lemmas *)

Lemma isEdge_spec e a b :
  isEdge e a b = true <-> same_pair (a_ e) (b_ e) a b.
Proof. unfold isEdge, same_pair. lia. Qed.

Lemma isEdge_sym e a b : isEdge e a b = isEdge e b a.
Proof. unfold isEdge. lia. Qed.

Lemma isEdge_same e a b x y :
  isEdge e a b = true -> isEdge e x y = bool_decide (same_pair a b x y).
Proof.
  rewrite isEdge_spec. intros H. apply eq_true_iff_eq.
  rewrite isEdge_spec, bool_decide_eq_true. unfold same_pair in *. lia.
Qed.

Lemma find_edge_sym a b l : find_edge a b l = find_edge b a l.
Proof. induction l as [|e l IH]; cbn; [done|]. by rewrite isEdge_sym, IH. Qed.

Lemma find_edge_pair a b x y l :
  same_pair a b x y -> find_edge a b l = find_edge x y l.
Proof. intros [[-> ->]|[-> ->]]; [done|apply find_edge_sym]. Qed.

Lemma find_edge_Some a b l i :
  find_edge a b l = Some i -> exists e, l !! i = Some e /\ isEdge e a b = true.
Proof.
  revert i. induction l as [|e l IH]; intros i; cbn; [done|].
  destruct (isEdge e a b) eqn:E.
  - intros [= <-]. by exists e.
  - intros (j & Hj & ->)%fmap_Some. destruct (IH j Hj) as (e' & ? & ?). by exists e'.
Qed.

Lemma find_edge_None a b l :
  find_edge a b l = None -> forall i e, l !! i = Some e -> isEdge e a b = false.
Proof.
  induction l as [|e l IH]; cbn; [done|]. destruct (isEdge e a b) eqn:E; [done|].
  intros Hn%fmap_None [|i] e'; cbn; [congruence|]. by apply IH.
Qed.

Lemma find_edge_app a b l l' :
  find_edge a b (l ++ l') =
  match find_edge a b l with
  | Some i => Some i
  | None => (fun i => (length l + i)%nat) <$> find_edge a b l'
  end.
Proof.
  induction l as [|e l IH]; cbn.
  - by destruct (find_edge a b l').
  - destruct (isEdge e a b); [done|]. rewrite IH.
    destruct (find_edge a b l), (find_edge a b l'); done.
Qed.

(** An update that keeps the end points keeps every search. *)
Lemma find_edge_insert a b l i e e' :
  l !! i = Some e -> a_ e' = a_ e -> b_ e' = b_ e ->
  find_edge a b (<[i := e']> l) = find_edge a b l.
Proof.
  intros Hi Ha Hb. revert i Hi.
  induction l as [|x l IH]; intros [|i] Hi; cbn in *; [done|done| |].
  - injection Hi as ->. unfold isEdge. by rewrite Ha, Hb.
  - by rewrite IH.
Qed.

(** ** Effect of the operations on the abstract topology *)

Lemma lookup_edge_insert t i e e' x y a b :
  topo_ok t -> find_edge a b (edges_ t) = Some i -> edges_ t !! i = Some e ->
  a_ e' = a_ e -> b_ e' = b_ e ->
  lookup_edge x y (set_edges (<[i := e']> (edges_ t)) t) =
  if decide (same_pair a b x y) then Some e' else lookup_edge x y t.
Proof.
  intros Hok Hf Hi Ha Hb. unfold lookup_edge. cbn.
  rewrite (find_edge_insert x y _ i e e') by done.
  destruct (decide (same_pair a b x y)) as [Hp|Hp].
  - rewrite <- (find_edge_pair a b x y) by done. rewrite Hf.
    apply list_lookup_insert_eq. by eapply lookup_lt_Some.
  - destruct (find_edge x y (edges_ t)) as [j|] eqn:Hj; [|done].
    apply list_lookup_insert_ne. intros ->.
    apply find_edge_Some in Hf as (e1 & H1 & E1). apply find_edge_Some in Hj as (e2 & H2 & E2).
    assert (e1 = e2) as -> by congruence.
    rewrite (isEdge_same e2 a b x y E1), bool_decide_eq_true in E2. done.
Qed.

Lemma lookup_edge_push t a b x y e :
  find_edge a b (edges_ t) = None -> isEdge e a b = true ->
  lookup_edge x y (set_edges (edges_ t ++ [e]) t) =
  if decide (same_pair a b x y) then Some e else lookup_edge x y t.
Proof.
  intros Hn He. unfold lookup_edge. cbn. rewrite find_edge_app. cbn.
  rewrite (isEdge_same e a b x y He).
  destruct (decide (same_pair a b x y)) as [Hp|Hp].
  - rewrite (bool_decide_eq_true_2 _ Hp), <- (find_edge_pair a b x y), Hn by done.
    cbn. rewrite Nat.add_0_r. by rewrite list_lookup_middle.
  - rewrite (bool_decide_eq_false_2 _ Hp). cbn.
    destruct (find_edge x y (edges_ t)) as [j|] eqn:Hj; [|done].
    apply find_edge_Some in Hj as (e' & Hj & _).
    apply lookup_app_l. by eapply lookup_lt_Some.
Qed.

Lemma topo_ok_insert t i e e' :
  topo_ok t -> edges_ t !! i = Some e -> a_ e' = a_ e -> b_ e' = b_ e ->
  topo_ok (set_edges (<[i := e']> (edges_ t)) t).
Proof.
  intros Hok Hi Ha Hb j k x y Hj Hk Hxy. cbn in Hj, Hk.
  rewrite list_lookup_insert in Hj, Hk.
  assert (forall n z, (if decide (i = n /\ (i < length (edges_ t))%nat) then Some e'
      else edges_ t !! n) = Some z ->
      exists z0, edges_ t !! n = Some z0 /\ a_ z = a_ z0 /\ b_ z = b_ z0) as Hback.
  { intros n z Hn. case_decide as Hd; [|by exists z].
    destruct Hd as [-> _]. injection Hn as <-. by exists e. }
  destruct (Hback _ _ Hj) as (x0 & ? & Hxa & Hxb).
  destruct (Hback _ _ Hk) as (y0 & ? & Hya & Hyb).
  eapply Hok; [done|done|]. unfold isEdge in *. by rewrite <- Hxa, <- Hxb, <- Hya, <- Hyb.
Qed.

Lemma topo_ok_push t a b e :
  topo_ok t -> find_edge a b (edges_ t) = None -> a_ e = a -> b_ e = b ->
  topo_ok (set_edges (edges_ t ++ [e]) t).
Proof.
  intros Hok Hn Ha Hb i j x y Hi Hj Hxy. cbn in Hi, Hj.
  pose proof (find_edge_None _ _ _ Hn) as Hno.
  apply lookup_app_Some in Hi as [Hi|[Hi1 Hi]], Hj as [Hj|[Hj1 Hj]].
  - by eapply Hok.
  - apply list_lookup_singleton_Some in Hj as [Hj <-].
    rewrite Ha, Hb in Hxy. by rewrite (Hno _ _ Hi) in Hxy.
  - apply list_lookup_singleton_Some in Hi as [Hi <-].
    specialize (Hno _ _ Hj). unfold isEdge in *. lia.
  - apply list_lookup_singleton_Some in Hi as [Hi _], Hj as [Hj _]. lia.
Qed.

(** ** The operations *)

(** Of a search: it returns the edge of the pair; only an all-to-all topology
    is changed by it, when the pair has no edge yet. *)
Lemma getEdge_run a b s :
  getEdge a b s =
  match find_edge a b (edges_ (this_ s)) with
  | Some i => (Ret (Some i), s)
  | None =>
      if allToAll_ (this_ s)
      then (Ret (Some (length (edges_ (this_ s)))),
            set_this (set_edges (edges_ (this_ s) ++
                [new_Edge a b default_EdgeOptions (seeds_ s O)]) (this_ s))
              (set_seeds (fun n => seeds_ s (S n)) s))
      else (Ret None, s)
  end.
Proof.
  unfold getEdge, topo_get, bind, gets. destruct (find_edge _ _ _); [done|].
  by destruct (allToAll_ _).
Qed.

Lemma update_edge_run i f s e :
  edges_ (this_ s) !! i = Some e ->
  update_edge i f s =
  (Ret tt, set_this (set_edges (<[i := f e]> (edges_ (this_ s))) (this_ s)) s).
Proof.
  intros Hi. unfold update_edge, deref_edge, topo_get, bind, gets. rewrite Hi. done.
Qed.

(** [newEdge] gives the pair the options, on a new live edge or on the edge
    the pair has, and touches no other pair. *)
Lemma newEdge_run a b o s :
  allToAll_ (this_ s) = false -> topo_ok (this_ s) ->
  exists s', newEdge a b o s = (Ret tt, s') /\ topo_ok (this_ s') /\
    failedNodes_ (this_ s') = failedNodes_ (this_ s) /\
    allToAll_ (this_ s') = false /\
    forall x y, view (this_ s') x y =
      if decide (same_pair a b x y)
      then Some (match view (this_ s) a b with Some (l, _) => l | None => true end, o)
      else view (this_ s) x y.
Proof.
  intros Hall Hok. unfold newEdge. unfold bind at 1. rewrite getEdge_run, Hall.
  destruct (find_edge a b _) as [i|] eqn:Hf.
  - destruct (find_edge_Some _ _ _ _ Hf) as (e & Hi & He).
    erewrite update_edge_run by done. eexists. split; [done|]. cbn [this_ set_this].
    split; [by eapply topo_ok_insert|]. do 2 (split; [done|]). intros x y.
    unfold view. erewrite lookup_edge_insert by done.
    case_decide; [|done]. unfold lookup_edge. by rewrite Hf, Hi.
  - eexists. split; [reflexivity|]. cbn.
    split; [by eapply topo_ok_push|]. do 2 (split; [done|]). intros x y.
    unfold view. erewrite (lookup_edge_push _ a b);
      [|done|apply isEdge_spec; left; done].
    case_decide; [|done]. unfold lookup_edge at 1. by rewrite Hf.
Qed.

(** [failEdge] and [restartEdge] change the state of the pair's edge only; a
    pair with no edge is reported and [false] returned. *)
Lemma changeEdge_run a b state s :
  allToAll_ (this_ s) = false -> topo_ok (this_ s) ->
  exists s', changeEdge a b state s =
      (Ret (bool_decide (is_Some (view (this_ s) a b))), s') /\
    topo_ok (this_ s') /\
    failedNodes_ (this_ s') = failedNodes_ (this_ s) /\
    allToAll_ (this_ s') = false /\
    forall x y, view (this_ s') x y =
      if decide (same_pair a b x y)
      then (fun v => (state, snd v)) <$> view (this_ s) a b
      else view (this_ s) x y.
Proof.
  intros Hall Hok. unfold changeEdge. unfold bind at 1. rewrite getEdge_run, Hall.
  destruct (find_edge a b _) as [i|] eqn:Hf.
  - destruct (find_edge_Some _ _ _ _ Hf) as (e & Hi & He).
    assert (Hv : view (this_ s) a b = Some (live_ e, options_ e))
      by (unfold view, lookup_edge; by rewrite Hf, Hi).
    unfold bind. erewrite update_edge_run by done. rewrite Hv. cbn.
    eexists. split; [done|]. cbn [this_ set_this].
    split; [by eapply topo_ok_insert|]. do 2 (split; [done|]). intros x y.
    unfold view at 1. erewrite lookup_edge_insert by done. by case_decide.
  - assert (Hv : view (this_ s) a b = None)
      by (unfold view, lookup_edge; by rewrite Hf).
    unfold bind, topo_print, modify, ret. rewrite Hv. eexists. split; [done|]. cbn.
    split; [done|]. do 2 (split; [done|]). intros x y. case_decide as Hp; [|done].
    unfold view, lookup_edge. by rewrite <- (find_edge_pair a b x y), Hf by done.
Qed.

(** [getLiveEdge] returns the pair's edge exactly when the edge and both its
    ends are up. *)
Lemma getLiveEdge_run a b s :
  allToAll_ (this_ s) = false ->
  getLiveEdge a b s =
  (Ret (match view (this_ s) a b with
        | Some (true, _) =>
            if isNodeAlive_ a (this_ s) && isNodeAlive_ b (this_ s)
            then find_edge a b (edges_ (this_ s)) else None
        | _ => None
        end), s).
Proof.
  intros Hall. unfold getLiveEdge. unfold bind at 1. rewrite getEdge_run, Hall.
  unfold view, lookup_edge.
  destruct (find_edge a b _) as [i|] eqn:Hf; [|done].
  destruct (find_edge_Some _ _ _ _ Hf) as (e & Hi & He).
  unfold deref_edge, topo_get, bind, gets. rewrite Hi. cbn.
  by destruct (live_ e), (isNodeAlive_ a (this_ s)), (isNodeAlive_ b (this_ s)).
Qed.
