(* ===== verification/Parser.v ===== *)
(** * The command language (src/sim/commands_parser.cpp,
      include/nb/commands_parser.hpp)

    One line at a time: comments, [edge], [fail], [restart], [echo], [time],
    and, through virtual functions, [exit] and commands to nodes.  The virtual
    functions and the console are a class of operations on the state [S] of the
    program the parser is part of.  An open file is the list of the lines
    [std::getline] has still to deliver. *)

From Stdlib Require Import Strings.Ascii.
From S2P Require Import Prelude CppStrings Doubles DoubleText Runtime Edge.

(** The virtual functions that every parser has, and [std::cout] / [std::cerr]. *)
Class CommandOps (S : Type) := {
  p_emit : output -> M S unit;
  exitCmd : list string -> M S unit;
  parseNodeCmd : list string -> M S unit
}.

(** The hooks of the topology's commands. *)
Class ParserOps (S : Type) := {
  #[global] parser_commands :: CommandOps S;
  createNewEdge : Z -> Z -> EdgeOptions -> M S unit;
  failEdgeHook : Z -> Z -> M S bool;
  failNodeHook : Z -> M S unit;
  restartEdgeHook : Z -> Z -> M S bool;
  restartNodeHook : Z -> M S unit
}.

Definition splitSpaces (line : string) : list string := split_trim line.

(** [cmd[0]]; [splitSpaces] never returns an empty vector. *)
Definition cmd_name (cmd : list string) : string := default EmptyString (cmd !! 0%nat).

Definition is_cmd (name : string) (cmd : list string) : bool := String.eqb (cmd_name cmd) name.

Definition skipLine (line : string) : bool :=
  if String.eqb line EmptyString then true
  else
    let cmd := splitSpaces line in
    String.prefix "//" (cmd_name cmd) || String.prefix "#" (cmd_name cmd).

(** [os << arr[i] << ' '] for each element, then a line feed. *)
Fixpoint str_array (arr : list string) : string :=
  match arr with
  | [] => newline
  | s :: rest => s +:+ " " +:+ str_array rest
  end.

(** [cmd.at(i)]. *)
Definition at_ (cmd : list string) (i : nat) : exn + string :=
  match cmd !! i with
  | Some s => inr s
  | None => inl (out_of_range "vector::_M_range_check")
  end.

(** [for (...) { msg += cmd[i]; msg += ' '; }] *)
Definition append_words (words : list string) : string :=
  fold_left (fun msg s => msg +:+ s +:+ " ") words EmptyString.

(** [if (!msg.empty()) msg.pop_back();] *)
Definition pop_back (s : string) : string := String.substring 0 (pred (String.length s)) s.

(** ** The commands of every parser *)

Section commands.
Context {S : Type} `{CommandOps S}.

Definition printStrArray (os : string -> output) (arr : list string) : M S unit :=
  p_emit (os (str_array arr)).

(** [try { ... } catch (...)]: the report of a command that does not parse. *)
Definition or_report (message : string) (cmd : list string) (m : M S unit) : M S unit :=
  try_catch m (fun _ => p_emit (Cerr message) ;; printStrArray Cerr cmd).

Definition echo (cmd : list string) : M S bool :=
  if negb (is_cmd "echo" cmd) then ret false
  else printStrArray Cout (drop 1 cmd) ;; ret true.

Definition parseTime (cmd : list string) (nowMicros : Z) : M S Z :=
  if negb (is_cmd "time" cmd) then ret (-1)
  else
    try_catch
      (let! first := lift_exn (at_ cmd 1) in
       if String.eqb first "+"
       then
         let! second := lift_exn (at_ cmd 2) in
         let! v := lift_exn (stoll second) in
         let! micros := long (v * 1000) in
         long (nowMicros + micros)
       else
         let! v := lift_exn (stoll first) in
         long (v * 1000))
      (fun _ =>
       p_emit (Cerr "Error parsing time command: ") ;;
       printStrArray Cerr cmd ;;
       ret (-1)).

Definition parseCommonCmds (cmd : list string) (nowMicros : Z) : M S Z :=
  exitCmd cmd ;;
  let! echoed := echo cmd in
  if echoed then ret (-1)
  else
    let! deferTill := parseTime cmd nowMicros in
    (if (deferTill =? -1) && negb (is_cmd "time" cmd) then parseNodeCmd cmd else ret tt) ;;
    ret deferTill.
End commands.

(** ** The commands of the topology *)

Section parser.
Context {S : Type} `{ParserOps S}.

(** [std::stoi(cmd[i])] and its like, of an index below the size. *)
Definition conv {A} (parse : string -> exn + A) (cmd : list string) (i : nat) : M S A :=
  match cmd !! i with Some s => lift_exn (parse s) | None => fail UB end.

(** One option of [edge]: the keyword at [i], the value behind it. *)
Definition edge_option {A} (present : bool) (name : string) (i : nat)
    (parse : string -> exn + A) (set : A -> EdgeOptions -> EdgeOptions)
    (cmd : list string) (o : EdgeOptions) : M S EdgeOptions :=
  if present && bool_decide (cmd !! i = Some name)
  then let! v := conv parse cmd (1 + i) in ret (set v o)
  else ret o.

(** The switch over the size; the cases fall through from the longest. *)
Definition edge_args (cmd : list string) : M S (Z * Z * EdgeOptions) :=
  let size := length cmd in
  if bool_decide (size ∈ [11; 9; 7; 5; 3]%nat)
  then
    let! o := edge_option (Nat.leb 11 size) "bt" 9 stoll setBT cmd default_EdgeOptions in
    let! o := edge_option (Nat.leb 9 size) "bw" 7 stoi setBW cmd o in
    let! o := edge_option (Nat.leb 7 size) "delay" 5 stoll setDelay cmd o in
    let! o := edge_option (Nat.leb 5 size) "lossRate" 3 stod setLossRate cmd o in
    let! a := conv stoi cmd 1 in
    let! b := conv stoi cmd 2 in
    ret (a, b, o)
  else throw (runtime_error "bad edge cmd").

Definition parseEdge (cmd : list string) : M S bool :=
  if negb (is_cmd "edge" cmd) then ret false
  else
    or_report "Error parsing edge command: " cmd
      (let! '(a, b, o) := edge_args cmd in createNewEdge a b o) ;;
    ret true.

(** What [parseFail] and [parseRestart] share: the hooks of one or two nodes. *)
Definition parse_link_cmd (name : string) (edge_hook : Z -> Z -> M S bool)
    (node_hook : Z -> M S unit) (cmd : list string) : M S bool :=
  if negb (is_cmd name cmd) then ret false
  else
    or_report ("Error parsing " +:+ name +:+ " command: ") cmd
      (let! sa := lift_exn (at_ cmd 1) in
       let! a := lift_exn (stoi sa) in
       let! b := match cmd !! 2%nat with
                 | Some sb => lift_exn (stoi sb)
                 | None => ret (-1)
                 end in
       if negb (b =? -1)
       then
         let! found := edge_hook a b in
         if negb found
         then p_emit (Cerr (endl ("No edge exists between node " +:+ to_string a +:+
                                  " and node " +:+ to_string b)))
         else ret tt
       else node_hook a) ;;
    ret true.

Definition parseFail (cmd : list string) : M S bool :=
  parse_link_cmd "fail" failEdgeHook failNodeHook cmd.

Definition parseRestart (cmd : list string) : M S bool :=
  parse_link_cmd "restart" restartEdgeHook restartNodeHook cmd.

Definition parseLine (line : string) (nowMicros : Z) : M S Z :=
  if skipLine line then ret (-1)
  else
    let cmd := splitSpaces line in
    let! edge := parseEdge cmd in
    if edge then ret (-1)
    else
      let! fail := parseFail cmd in
      if fail then ret (-1)
      else
        let! restart := parseRestart cmd in
        if restart then ret (-1) else parseCommonCmds cmd nowMicros.

(** [reader_], a part of the state. *)
Section reader.
Context (get_reader : S -> option (list string))
  (set_reader : option (list string) -> S -> S).

(** The loop of [parseRemainder] over the lines left. *)
Fixpoint remainder_loop (lines : list string) (nowMicros : Z) : M S Z :=
  match lines with
  | [] => ret (-1)
  | line :: rest =>
      modify (set_reader (Some rest)) ;;
      let! deferTill := parseLine line nowMicros in
      if deferTill =? -1 then remainder_loop rest nowMicros else ret deferTill
  end.

Definition parseRemainder (nowMicros : Z) : M S Z :=
  let! reader := gets get_reader in
  match reader with
  | None => ret (-1)
  | Some lines => remainder_loop lines nowMicros
  end.

(** [file] is what opening [filename] gives. *)
Definition parseFile (filename : string) (file : option (list string)) (nowMicros : Z)
    : M S Z :=
  match file with
  | None =>
      modify (set_reader None) ;;
      throw (runtime_error ("Could not open topo/command file: " +:+ filename))
  | Some lines =>
      modify (set_reader (Some lines)) ;;
      parseRemainder nowMicros
  end.
End reader.
End parser.
