(* ===== verification/ParserSpec.v ===== *)
(** * The grammar of the command language

    An abstract syntax of the commands, a parser that reads a line into it in
    one piece, and what each command does in terms of the virtual functions.
    The parser of the code, which tries one command after the other and reads
    the arguments by their positions, is shown equal to reading and then
    executing. *)

From Stdlib Require Import Strings.Ascii.
From S2P Require Import Prelude CppStrings Doubles DoubleText Frame Runtime Edge Parser.

Inductive Command : Type :=
| Skip
| EdgeCmd (a b : Z) (o : EdgeOptions)
| FailEdge (a b : Z)
| FailNode (a : Z)
| RestartEdge (a b : Z)
| RestartNode (a : Z)
| Echo
| TimeAt (ms : Z)
| TimeAfter (ms : Z)
| BadTime
| Malformed (name : string)
| Other.

(** ** Reading *)

Definition arg {A} (r : exn + A) : option A := match r with inr a => Some a | inl _ => None end.

(** The options in their order: a keyword and how its value is read.  A pair
    with another keyword in its place is ignored. *)
Definition edge_fields : list (string * (string -> EdgeOptions -> option EdgeOptions)) :=
  [("lossRate", fun v o => (fun x => setLossRate x o) <$> arg (stod v));
   ("delay", fun v o => (fun x => setDelay x o) <$> arg (stoll v));
   ("bw", fun v o => (fun x => setBW x o) <$> arg (stoi v));
   ("bt", fun v o => (fun x => setBT x o) <$> arg (stoll v))].

Fixpoint read_fields (fields : list (string * (string -> EdgeOptions -> option EdgeOptions)))
    (words : list string) (o : EdgeOptions) : option EdgeOptions :=
  match words, fields with
  | [], _ => Some o
  | k :: v :: words, (name, read) :: fields =>
      o' ← (if decide (k = name) then read v o else Some o); read_fields fields words o'
  | _, _ => None
  end.

Definition read_edge (args : list string) : option (Z * Z * EdgeOptions) :=
  match args with
  | a :: b :: words =>
      a ← arg (stoi a); b ← arg (stoi b);
      o ← read_fields edge_fields words default_EdgeOptions;
      Some (a, b, o)
  | _ => None
  end.

(** Two nodes, or one: what follows them is not read, and [-1] is no node. *)
Definition read_link (args : list string) : option (Z * Z) :=
  match args with
  | [] => None
  | [a] => (fun a => (a, -1)) <$> arg (stoi a)
  | a :: b :: _ => a ← arg (stoi a); b ← arg (stoi b); Some (a, b)
  end.

Definition link_command (name : string) (edge : Z -> Z -> Command) (node : Z -> Command)
    (ends : option (Z * Z)) : Command :=
  match ends with
  | Some (a, b) => if b =? -1 then node a else edge a b
  | None => Malformed name
  end.

(** A time in milliseconds, and whether it counts from now. *)
Definition read_time (args : list string) : option (bool * Z) :=
  match args with
  | [] => None
  | a :: rest =>
      if decide (a = "+")
      then match rest with b :: _ => (fun v => (true, v)) <$> arg (stoll b) | [] => None end
      else (fun v => (false, v)) <$> arg (stoll a)
  end.

Definition read_words (cmd : list string) : Command :=
  match cmd with
  | [] => Other
  | name :: args =>
      if decide (name = "edge")
      then match read_edge args with Some (a, b, o) => EdgeCmd a b o | None => Malformed name end
      else if decide (name = "fail") then link_command name FailEdge FailNode (read_link args)
      else if decide (name = "restart")
      then link_command name RestartEdge RestartNode (read_link args)
      else if decide (name = "echo") then Echo
      else if decide (name = "time")
      then match read_time args with
           | Some (true, ms) => TimeAfter ms
           | Some (false, ms) => TimeAt ms
           | None => BadTime
           end
      else Other
  end.

Definition read_command (line : string) : Command :=
  if skipLine line then Skip else read_words (splitSpaces line).

(** ** Executing *)

Section exec.
Context {S : Type} `{ParserOps S}.

Definition report_malformed (name : string) (cmd : list string) : M S unit :=
  p_emit (Cerr ("Error parsing " +:+ name +:+ " command: ")) ;; printStrArray Cerr cmd.

(** A command whose hook may throw. *)
Definition guarded (name : string) (cmd : list string) (m : M S unit) : M S unit :=
  try_catch m (fun _ => report_malformed name cmd).

(** A command on a link: its hook, and the report that there is no such link. *)
Definition on_link (name : string) (hook : Z -> Z -> M S bool) (cmd : list string) (a b : Z)
    : M S unit :=
  guarded name cmd
    (let! found := hook a b in
     if negb found
     then p_emit (Cerr (endl ("No edge exists between node " +:+ to_string a +:+
                              " and node " +:+ to_string b)))
     else ret tt).

Definition exec (cmd : list string) (c : Command) (nowMicros : Z) : M S Z :=
  match c with
  | Skip => ret (-1)
  | EdgeCmd a b o => guarded "edge" cmd (createNewEdge a b o) ;; ret (-1)
  | FailEdge a b => on_link "fail" failEdgeHook cmd a b ;; ret (-1)
  | FailNode a => guarded "fail" cmd (failNodeHook a) ;; ret (-1)
  | RestartEdge a b => on_link "restart" restartEdgeHook cmd a b ;; ret (-1)
  | RestartNode a => guarded "restart" cmd (restartNodeHook a) ;; ret (-1)
  | Malformed name => report_malformed name cmd ;; ret (-1)
  | Echo => exitCmd cmd ;; printStrArray Cout (drop 1 cmd) ;; ret (-1)
  | TimeAt ms => exitCmd cmd ;; long (ms * 1000)
  | TimeAfter ms =>
      exitCmd cmd ;;
      let! micros := long (ms * 1000) in
      long (nowMicros + micros)
  | BadTime => exitCmd cmd ;; report_malformed "time" cmd ;; ret (-1)
  | Other => exitCmd cmd ;; parseNodeCmd cmd ;; ret (-1)
  end.

(** ** The parser reads, then executes *)

(** A computation that leaves the state alone: it gives the value, or throws. *)
Definition comes_to {A} (m : M S A) (s : S) (r : option A) : Prop :=
  match r with
  | Some a => m s = (Ret a, s)
  | None => exists x, m s = (Fault (Thrown x), s)
  end.

Lemma comes_to_bind {A B} (m : M S A) (k : A -> M S B) s r f :
  comes_to m s r -> (forall a, comes_to (k a) s (f a)) -> comes_to (bind m k) s (r ≫= f).
Proof.
  intros Hm Hk. destruct r as [a|]; cbn in Hm.
  - specialize (Hk a). unfold comes_to. rewrite (bind_run _ _ _ _ _ Hm). exact Hk.
  - destruct Hm as [x Hm]. exists x. by apply bind_run_fault.
Qed.

Lemma comes_to_lift {A} (r : exn + A) s : comes_to (lift_exn r) s (arg r).
Proof. destruct r as [x|a]; [by exists x|done]. Qed.

Lemma comes_to_conv {A} (parse : string -> exn + A) cmd i v s :
  cmd !! i = Some v -> comes_to (conv parse cmd i) s (arg (parse v)).
Proof. intros Hv. unfold conv. rewrite Hv. apply comes_to_lift. Qed.

Definition field {A} (name : string) (parse : string -> exn + A)
    (set : A -> EdgeOptions -> EdgeOptions) (k v : string) (o : EdgeOptions)
    : option EdgeOptions :=
  if decide (k = name) then (fun x => set x o) <$> arg (parse v) else Some o.

Lemma comes_to_option {A} name i (parse : string -> exn + A) set cmd o s k v :
  cmd !! i = Some k -> cmd !! (1 + i)%nat = Some v ->
  comes_to (edge_option true name i parse set cmd o) s (field name parse set k v o).
Proof.
  intros Hk Hv. unfold edge_option, field. cbn [andb]. rewrite Hk.
  destruct (decide (k = name)) as [->|Hn].
  - rewrite bool_decide_eq_true_2 by done.
    replace ((fun x => set x o) <$> arg (parse v)) with (a ← arg (parse v); Some (set a o))
      by (by destruct (arg (parse v))).
    apply comes_to_bind; [by apply comes_to_conv|done].
  - by rewrite bool_decide_eq_false_2 by congruence.
Qed.

Lemma comes_to_absent {A} name i (parse : string -> exn + A) set cmd o s :
  comes_to (edge_option false name i parse set cmd o) s (Some o).
Proof. done. Qed.

Lemma comes_to_ends (a b : string) cmd (o : EdgeOptions) s :
  comes_to (let! x := conv stoi ("edge" :: a :: b :: cmd) 1 in
            let! y := conv stoi ("edge" :: a :: b :: cmd) 2 in ret (x, y, o)) s
    (x ← arg (stoi a); y ← arg (stoi b); Some (x, y, o)).
Proof.
  apply comes_to_bind; [by apply comes_to_conv|]. intros x.
  apply comes_to_bind; [by apply comes_to_conv|]. done.
Qed.

(** The switch falls through from the last option to the first; the grammar
    reads them from the first to the last. *)
Ltac edge_switch :=
  repeat first
    [ apply comes_to_ends
    | apply comes_to_bind;
        [first [by apply comes_to_option | by apply comes_to_absent]|intros ?; cbv beta] ].

Ltac edge_values :=
  unfold field; cbn [read_edge read_fields edge_fields];
  repeat match goal with |- context [arg ?r] => destruct (arg r); cbn end;
  repeat case_decide; try reflexivity.

Ltac edge_valid :=
  lazymatch goal with
  | |- comes_to ?m ?s ?r =>
      let H := fresh in
      assert (H : forall r', comes_to m s r' -> r' = r -> comes_to m s r) by (by intros r' ? <-);
      eapply H; [unfold edge_args; cbn -[bind conv edge_option ret]; edge_switch|edge_values]
  end.

Ltac edge_invalid :=
  lazymatch goal with
  | |- comes_to ?m ?s ?r => replace r with (@None (Z * Z * EdgeOptions)); [by eexists|edge_values]
  end.

Lemma edge_args_comes_to args s : comes_to (edge_args ("edge" :: args)) s (read_edge args).
Proof.
  destruct args as [|a [|b args]]; [edge_invalid|edge_invalid|].
  destruct args as [|k1 [|v1 args]]; [edge_valid|edge_invalid|].
  destruct args as [|k2 [|v2 args]]; [edge_valid|edge_invalid|].
  destruct args as [|k3 [|v3 args]]; [edge_valid|edge_invalid|].
  destruct args as [|k4 [|v4 args]]; [edge_valid|edge_invalid|].
  destruct args as [|k5 [|v5 args]]; [edge_valid|edge_invalid..].
Qed.

Lemma guarded_bind {A} name cmd (m : M S A) k s r :
  comes_to m s r ->
  guarded name cmd (bind m k) s =
  match r with Some a => guarded name cmd (k a) s | None => report_malformed name cmd s end.
Proof.
  unfold guarded, comes_to, try_catch. destruct r as [a|].
  - intros Hm. by rewrite (bind_run _ _ _ _ _ Hm).
  - intros [x Hm]. by rewrite (bind_run_fault _ _ _ _ _ Hm).
Qed.

Lemma bind_left {A B} (m m' : M S A) (k : A -> M S B) s :
  m s = m' s -> bind m k s = bind m' k s.
Proof. unfold bind. by intros ->. Qed.

Lemma parseEdge_reads args s :
  parseEdge ("edge" :: args) s =
  bind (match read_edge args with
        | Some (a, b, o) => guarded "edge" ("edge" :: args) (createNewEdge a b o)
        | None => report_malformed "edge" ("edge" :: args)
        end) (fun _ => ret true) s.
Proof.
  apply bind_left. etrans; [exact (guarded_bind "edge" _ _ _ _ _ (edge_args_comes_to args s))|].
  by destruct (read_edge args) as [[[a b] o]|].
Qed.

(** The second node of a command on links, if there is one. *)
Lemma second_comes_to args (a : string) s :
  comes_to (match (a :: args) !! 1%nat with
            | Some sb => lift_exn (stoi sb)
            | None => ret (-1)
            end) s (match args with sb :: _ => arg (stoi sb) | [] => Some (-1) end).
Proof. destruct args as [|sb args]; [done|]. apply comes_to_lift. Qed.

Lemma read_link_cons a args :
  read_link (a :: args) =
  (a ← arg (stoi a); b ← match args with sb :: _ => arg (stoi sb) | [] => Some (-1) end;
   Some (a, b)).
Proof. destruct args as [|sb args]; cbn; [by destruct (stoi a)|done]. Qed.

Lemma link_cmd_reads name edge_hook node_hook args s :
  parse_link_cmd name edge_hook node_hook (name :: args) s =
  bind (match read_link args with
        | Some (a, b) =>
            if b =? -1 then guarded name (name :: args) (node_hook a)
            else on_link name edge_hook (name :: args) a b
        | None => report_malformed name (name :: args)
        end) (fun _ => ret true) s.
Proof.
  unfold parse_link_cmd, is_cmd, cmd_name. cbn [lookup list_lookup default].
  rewrite String.eqb_refl. cbn [negb]. apply bind_left.
  change (or_report ("Error parsing " +:+ name +:+ " command: ")) with (guarded name).
  destruct args as [|sa args]; [done|].
  rewrite (guarded_bind _ _ _ _ s (Some sa)) by done.
  rewrite (guarded_bind _ _ _ _ s _ (comes_to_lift _ s)), read_link_cons.
  destruct (stoi sa) as [x|a]; cbn [arg mbind option_bind]; [done|].
  rewrite (guarded_bind _ _ _ _ s _ (second_comes_to args sa s)).
  destruct (match args with [] => _ | _ => _ end) as [b|]; cbn [mbind option_bind]; [|done].
  by destruct (b =? -1).
Qed.

Lemma try_long z h (s : S) : try_catch (long z) h s = long z s.
Proof. unfold long. by destruct (in_long z). Qed.

Definition time_of (nowMicros : Z) (t : option (bool * Z)) (cmd : list string) : M S Z :=
  match t with
  | Some (true, ms) => let! micros := long (ms * 1000) in long (nowMicros + micros)
  | Some (false, ms) => long (ms * 1000)
  | None => report_malformed "time" cmd ;; ret (-1)
  end.

Lemma parseTime_reads args nowMicros s :
  parseTime ("time" :: args) nowMicros s =
  time_of nowMicros (read_time args) ("time" :: args) s.
Proof.
  unfold parseTime. change (negb _) with false. cbn iota. set (h := fun _ : exn => _).
  assert (Hh : forall x, h x s = time_of nowMicros None ("time" :: args) s)
    by (intros x; symmetry; apply bind_bind).
  destruct args as [|a rest]; [exact (Hh _)|].
  unfold try_catch at 1. rewrite (bind_run _ _ s a s) by done. cbn [read_time].
  destruct (String.eqb_spec a "+") as [->|Ha].
  - rewrite decide_True by done. destruct rest as [|b rest]; [exact (Hh _)|].
    rewrite (bind_run _ _ s b s) by done.
    destruct (stoll b) as [x|v]; [exact (Hh x)|]. cbn. unfold bind, ret, long.
    destruct (in_long (v * 1000)); cbn; [|done]. by destruct (in_long (nowMicros + v * 1000)).
  - rewrite decide_False by done. destruct (stoll a) as [x|v]; [exact (Hh x)|]. cbn.
    unfold bind, ret, long. by destruct (in_long (v * 1000)).
Qed.

Lemma split_trim_cons line : exists name args, split_trim line = name :: args.
Proof. unfold split_trim. destruct (drop_empty_back _) as [|t l]; by eexists _, _. Qed.

Lemma is_cmd_cons name w args : is_cmd name (w :: args) = bool_decide (w = name).
Proof.
  unfold is_cmd. cbn. destruct (String.eqb_spec w name);
    [by rewrite bool_decide_eq_true_2|by rewrite bool_decide_eq_false_2].
Qed.

Lemma bind_reads {A B C} (m : M S A) (m' : M S C) a (k : A -> M S B) s :
  m s = bind m' (fun _ => ret a) s -> bind m k s = bind m' (fun _ => k a) s.
Proof. intros Hm. rewrite (bind_left _ _ k s Hm). apply bind_bind. Qed.

Lemma not_cmd name w args : w <> name -> is_cmd name (w :: args) = false.
Proof. intros Hw. rewrite is_cmd_cons. by apply bool_decide_eq_false_2. Qed.

Lemma bind_ext {A B} (m : M S A) (k k' : A -> M S B) s :
  (forall a s', k a s' = k' a s') -> bind m k s = bind m k' s.
Proof. intros Hk. unfold bind. destruct (m s) as [[] ?]; [apply Hk|done]. Qed.

Lemma parseCommonCmds_exec name args nowMicros s :
  name <> "edge" -> name <> "fail" -> name <> "restart" ->
  parseCommonCmds (name :: args) nowMicros s =
  exec (name :: args) (read_words (name :: args)) nowMicros s.
Proof.
  intros H1 H2 H3. cbn [read_words]. do 3 rewrite decide_False by done.
  unfold parseCommonCmds, echo. rewrite !is_cmd_cons.
  destruct (decide (name = "echo")) as [->|H4].
  { apply bind_ext. intros _ s1. apply (bind_bind (printStrArray _ _)). }
  rewrite bool_decide_eq_false_2 by done. cbn [negb].
  destruct (decide (name = "time")) as [->|H5].
  - transitivity (bind (exitCmd ("time" :: args)) (fun _ =>
      time_of nowMicros (read_time args) ("time" :: args)) s).
    + apply bind_ext. intros _ s1. change (bind (ret false) _ s1) with
        (bind (parseTime ("time" :: args) nowMicros) (fun d =>
           (if (d =? -1) && false then parseNodeCmd ("time" :: args) else ret tt) ;; ret d) s1).
      rewrite (bind_left _ _ _ _ (parseTime_reads args nowMicros s1)).
      etrans; [|apply bind_ret_r]. apply bind_ext. intros d s2. by rewrite andb_false_r.
    + by destruct (read_time args) as [[[] ms]|].
  - rewrite bool_decide_eq_false_2 by done. apply bind_ext. intros _ s1.
    unfold parseTime. rewrite not_cmd by done. done.
Qed.

(** The parser of the code reads a line as the grammar does and does what the
    command says. *)
Lemma parseLine_exec line nowMicros s :
  parseLine line nowMicros s = exec (splitSpaces line) (read_command line) nowMicros s.
Proof.
  unfold parseLine, read_command. destruct (skipLine line); [done|].
  unfold splitSpaces. destruct (split_trim_cons line) as (name & args & ->).
  destruct (decide (name = "edge")) as [->|He].
  { rewrite (bind_reads _ _ _ _ s (parseEdge_reads args s)). cbn.
    by destruct (read_edge args) as [[[a b] o]|]. }
  unfold parseEdge at 1. rewrite not_cmd by done. cbn [negb].
  change (bind (ret false) ?k s) with (k false s). cbv beta iota.
  destruct (decide (name = "fail")) as [->|Hf].
  { unfold parseFail. rewrite (bind_reads _ _ _ _ s (link_cmd_reads _ _ _ args s)). cbn.
    destruct (read_link args) as [[a b]|]; [|done]. cbn. by destruct (b =? -1). }
  unfold parseFail at 1, parse_link_cmd at 1. rewrite not_cmd by done. cbn [negb].
  change (bind (ret false) ?k s) with (k false s). cbv beta iota.
  destruct (decide (name = "restart")) as [->|Hr].
  { unfold parseRestart. rewrite (bind_reads _ _ _ _ s (link_cmd_reads _ _ _ args s)). cbn.
    destruct (read_link args) as [[a b]|]; [|done]. cbn. by destruct (b =? -1). }
  unfold parseRestart at 1, parse_link_cmd at 1. rewrite not_cmd by done.
  by apply parseCommonCmds_exec.
Qed.
End exec.

(** ** Printing *)

(** The words of a command; [n] is the number of options an edge command has,
    [loss] the text of its loss rate. *)
Definition edge_words (loss : string) (a b : Z) (o : EdgeOptions) : list string :=
  ["edge"; to_string a; to_string b; "lossRate"; loss; "delay"; to_string (delayMs o);
   "bw"; to_string (bwBytesPerSec o); "bt"; to_string (bufferingMs o)].

Definition print_command (n : nat) (loss : string) (c : Command) : list string :=
  match c with
  | EdgeCmd a b o => take (3 + 2 * n) (edge_words loss a b o)
  | FailEdge a b => ["fail"; to_string a; to_string b]
  | FailNode a => ["fail"; to_string a]
  | RestartEdge a b => ["restart"; to_string a; to_string b]
  | RestartNode a => ["restart"; to_string a]
  | TimeAt ms => ["time"; to_string ms]
  | TimeAfter ms => ["time"; "+"; to_string ms]
  | _ => []
  end.

(** [z] is an [int], a [long]. *)
Definition is_int (z : Z) : Prop := INT_MIN <= z <= INT_MAX.
Definition is_long (z : Z) : Prop := LONG_MIN <= z <= LONG_MAX.

(** ** What is read is well typed *)

Definition options_typed (o : EdgeOptions) : Prop :=
  (lossRate o = lossRate default_EdgeOptions \/ exists text, stod text = inr (lossRate o)) /\
  is_long (delayMs o) /\ is_int (bwBytesPerSec o) /\ is_long (bufferingMs o).

(** Arguments fit into the types of the hooks; a link has a second node. *)
Definition command_typed (c : Command) : Prop :=
  match c with
  | EdgeCmd a b o => is_int a /\ is_int b /\ options_typed o
  | FailEdge a b | RestartEdge a b => is_int a /\ is_int b /\ b <> -1
  | FailNode a | RestartNode a => is_int a
  | TimeAt ms | TimeAfter ms => is_long ms
  | Malformed name => name ∈ ["edge"; "fail"; "restart"]
  | Skip | Echo | BadTime | Other => True
  end.

Lemma arg_some {A} (r : exn + A) a : arg r = Some a -> r = inr a.
Proof. destruct r; [done|]. by intros [= ->]. Qed.

Lemma default_typed : options_typed default_EdgeOptions.
Proof. split; [by left|]. unfold is_long, is_int, LONG_MIN, LONG_MAX, INT_MIN, INT_MAX. cbn. lia. Qed.

Lemma edge_fields_typed :
  Forall (fun f => forall v o o', options_typed o -> f.2 v o = Some o' -> options_typed o')
    edge_fields.
Proof.
  unfold edge_fields. repeat apply List.Forall_cons; try apply List.Forall_nil; cbn;
    intros v o o' (Hl & Hd & Hb & Ht) Hf; apply fmap_Some in Hf as (x & Hx%arg_some & ->);
    (split; [|split; [|split]]); cbn; try done.
  - right. by exists v.
  - by apply stoll_range in Hx.
  - by apply stoi_range in Hx.
  - by apply stoll_range in Hx.
Qed.

Lemma read_fields_typed fields words o o' :
  Forall (fun f => forall v o o', options_typed o -> f.2 v o = Some o' -> options_typed o') fields ->
  options_typed o -> read_fields fields words o = Some o' -> options_typed o'.
Proof.
  intros Hf. revert words o. induction Hf as [|[name read] fields Hr Hf IH]; intros words o Ho.
  - destruct words as [|k [|v words]]; cbn; [by intros [= <-]|done|done].
  - destruct words as [|k [|v words]]; cbn; [by intros [= <-]|done|].
    intros (o1 & H1 & H2)%bind_Some. apply (IH words o1); [|done].
    destruct (decide (k = name)); [by apply (Hr v o)|by injection H1 as <-].
Qed.

Lemma read_link_typed args a b : read_link args = Some (a, b) -> is_int a /\ is_int b.
Proof.
  destruct args as [|sa [|sb args]]; cbn; [done|..].
  - intros (x & Hx%arg_some%stoi_range & [= -> ->])%fmap_Some. split; [done|].
    unfold is_int, INT_MIN, INT_MAX. lia.
  - intros (x & Hx%arg_some%stoi_range & (y & Hy%arg_some%stoi_range & [= <- <-])%bind_Some)%bind_Some.
    done.
Qed.

Lemma link_command_typed name edge node ends :
  name ∈ ["edge"; "fail"; "restart"] ->
  (forall a b, is_int a -> is_int b -> b <> -1 -> command_typed (edge a b)) ->
  (forall a, is_int a -> command_typed (node a)) ->
  (forall a b, ends = Some (a, b) -> is_int a /\ is_int b) ->
  command_typed (link_command name edge node ends).
Proof.
  intros Hname He Hn Hends. destruct ends as [[a b]|]; cbn [link_command]; [|exact Hname].
  destruct (Hends a b eq_refl) as [Ha Hb]. destruct (Z.eqb_spec b (-1)); auto.
Qed.

Lemma read_time_typed args rel ms : read_time args = Some (rel, ms) -> is_long ms.
Proof.
  destruct args as [|a rest]; cbn; [done|]. destruct (decide (a = "+")).
  - destruct rest as [|b rest]; [done|].
    by intros (x & Hx%arg_some%stoll_range & [= -> ->])%fmap_Some.
  - by intros (x & Hx%arg_some%stoll_range & [= -> ->])%fmap_Some.
Qed.

Lemma read_words_typed cmd : command_typed (read_words cmd).
Proof.
  destruct cmd as [|name args]; [done|]. cbn [read_words].
  destruct (decide (name = "edge")) as [->|_].
  { destruct (read_edge args) as [[[a b] o]|] eqn:He; [|by apply list_elem_of_here].
    destruct args as [|sa [|sb words]]; [done..|]. cbn [read_edge] in He.
    apply bind_Some in He as (x & Hx%arg_some%stoi_range & He).
    apply bind_Some in He as (y & Hy%arg_some%stoi_range & He).
    apply bind_Some in He as (o' & Ho & [= <- <- <-]). split; [done|]. split; [done|].
    by eapply read_fields_typed; [apply edge_fields_typed|apply default_typed|]. }
  destruct (decide (name = "fail")) as [->|_].
  { apply link_command_typed; [by apply list_elem_of_further, list_elem_of_here|done|done|].
    apply read_link_typed. }
  destruct (decide (name = "restart")) as [->|_].
  { apply link_command_typed; [by do 2 apply list_elem_of_further; apply list_elem_of_here|done|done|].
    apply read_link_typed. }
  destruct (decide (name = "echo")); [done|]. destruct (decide (name = "time")); [|done].
  destruct (read_time args) as [[[] ms]|] eqn:Ht; [by apply read_time_typed in Ht..|done].
Qed.

Lemma read_command_typed line : command_typed (read_command line).
Proof. unfold read_command. destruct (skipLine line); [done|]. apply read_words_typed. Qed.

(** The options that are not written are the default ones. *)
Definition defaults_from (n : nat) (o : EdgeOptions) : Prop :=
  ((n < 1)%nat -> lossRate o = lossRate default_EdgeOptions) /\
  ((n < 2)%nat -> delayMs o = delayMs default_EdgeOptions) /\
  ((n < 3)%nat -> bwBytesPerSec o = bwBytesPerSec default_EdgeOptions) /\
  ((n < 4)%nat -> bufferingMs o = bufferingMs default_EdgeOptions).

Definition printable (n : nat) (loss : string) (c : Command) : Prop :=
  match c with
  | EdgeCmd a b o =>
      is_int a /\ is_int b /\ (n <= 4)%nat /\ defaults_from n o /\
      stod loss = inr (lossRate o) /\ no_space loss = true /\ loss <> EmptyString /\
      is_long (delayMs o) /\ is_int (bwBytesPerSec o) /\ is_long (bufferingMs o)
  | FailEdge a b | RestartEdge a b => is_int a /\ is_int b /\ b <> -1
  | FailNode a | RestartNode a => is_int a
  | TimeAt ms | TimeAfter ms => is_long ms
  | _ => False
  end.

(** A command of at least two words, none empty and none with a space. *)
Lemma read_command_words name args :
  name <> EmptyString -> String.prefix "//" name = false -> String.prefix "#" name = false ->
  Forall (fun t => no_space t = true /\ t <> EmptyString) (name :: args) -> 
  read_command (unwords (name :: args)) = read_words (name :: args).
Proof.
  intros Hne H1 H2 Hw. assert (Hs : splitSpaces (unwords (name :: args)) = name :: args).
  { destruct (exists_last (l := name :: args) ltac:(done)) as (l & t & Hl).
    rewrite Hl in *. apply split_trim_unwords.
    - apply Forall_app in Hw as [_ Hw]. by inversion Hw as [|? ? []].
    - eapply List.Forall_impl; [|exact Hw]. by intros ? []. }
  unfold read_command, skipLine. rewrite Hs. cbv zeta.
  change (cmd_name (name :: args)) with name.
  destruct (String.eqb_spec (unwords (name :: args)) EmptyString) as [E|_].
  - by rewrite E in Hs; injection Hs as <- <-.
  - by rewrite H1, H2.
Qed.

Lemma to_string_word z : no_space (to_string z) = true /\ to_string z <> EmptyString.
Proof. split; [apply to_string_no_space|apply to_string_not_empty]. Qed.

Lemma to_string_not_plus z : to_string z <> "+".
Proof. intros E. pose proof (strtol_to_string z) as H. rewrite E in H. done. Qed.

Lemma EdgeOptions_eq o o' :
  lossRate o = lossRate o' -> delayMs o = delayMs o' -> bwBytesPerSec o = bwBytesPerSec o' ->
  bufferingMs o = bufferingMs o' -> o = o'.
Proof. destruct o, o'. cbn. congruence. Qed.

Ltac words_ok :=
  repeat first [apply List.Forall_nil | apply List.Forall_cons]; first [done | apply to_string_word].

(** The options of an edge command of [n] options. *)
Lemma read_fields_words n loss o :
  (n <= 4)%nat -> defaults_from n o -> stod loss = inr (lossRate o) ->
  is_long (delayMs o) -> is_int (bwBytesPerSec o) -> is_long (bufferingMs o) ->
  read_fields edge_fields (drop 3 (take (3 + 2 * n) (edge_words loss 0 0 o))) default_EdgeOptions =
  Some o.
Proof.
  intros Hn (D1 & D2 & D3 & D4) Hl Hd Hb Ht.
  do 5 (destruct n as [|n];
    [cbn -[to_string decide];
     repeat (rewrite decide_True by done; rewrite ?Hl, ?stoll_to_string, ?stoi_to_string by done;
             cbn -[to_string decide]);
     f_equal; symmetry; apply EdgeOptions_eq;
     first [reflexivity | apply D1; lia | apply D2; lia | apply D3; lia | apply D4; lia]|]).
  lia.
Qed.

Ltac read_simple :=
  cbn [print_command]; rewrite read_command_words; [|done..|words_ok];
  cbn [read_words read_link read_time];
  repeat first [rewrite decide_True by done | rewrite decide_False by (done || apply to_string_not_plus)];
  rewrite ?stoi_to_string, ?stoll_to_string by done; cbn;
  try match goal with |- context [?b =? -1] => destruct (Z.eqb_spec b (-1)) end; done.

(** Every printable command is read back from its line. *)
Lemma read_print n loss c :
  printable n loss c -> read_command (unwords (print_command n loss c)) = c.
Proof.
  destruct c as [|a b o|a b|a|a b|a| |ms|ms| |name|]; try done; intros Hp; cbn [printable] in Hp.
  - destruct Hp as (Ha & Hb & Hn & Hdef & Hl & Hsp & Hne & Hd & Hbw & Hbt).
    cbn [print_command edge_words Nat.add take]. rewrite read_command_words; [|done..|].
    + cbn [read_words]. rewrite decide_True by done. cbn [read_edge].
      rewrite !stoi_to_string by done. cbn [arg mbind option_bind].
      pose proof (read_fields_words n loss o Hn Hdef Hl Hd Hbw Hbt) as Hf.
      cbn [edge_words Nat.add take drop] in Hf. rewrite drop_0 in Hf. by rewrite Hf.
    + repeat apply List.Forall_cons; [done|apply to_string_word..|].
      apply Forall_take. words_ok.
  - destruct Hp as (Ha & Hb & Hne). read_simple.
  - read_simple.
  - destruct Hp as (Ha & Hb & Hne). read_simple.
  - read_simple.
  - read_simple.
  - read_simple.
Qed.
