(* ===== verification/CoreTheorems.v ===== *)
(** * Theorems about the wire formats, the event queue and the simulated links *)

From Stdlib Require Import Sorting.Sorted Sorting.Permutation.
From S2P Require Import Prelude CppStrings Doubles Packet Transport EmulatorPacket LinkState EventQueue Runtime Edge Topology.

(** ** Wire formats *)

(** [Packet::pack] and [Packet::unpack] are inverse to each other: the byte
    strings that [unpack] accepts are exactly the images of the valid packets,
    and it returns the packet that was packed. *)
Lemma packet_codec (data : list byte) (p : Packet) :
  Packet.unpack data = Some p <-> packet_ok p /\ data = Packet.pack p.
Proof.
  split.
  - intros H. by apply packet_unpack_sound in H as [<- ?].
  - intros [Hp ->]. by apply packet_unpack_pack.
Qed.

(** The same of transport segments: every field, the signed 32-bit window
    and sequence number included, survives, and nothing else decodes. *)
Lemma transport_codec (data : list byte) (t : Transport) :
  Transport.unpack data = Some t <-> transport_ok t /\ data = Transport.pack t.
Proof.
  split.
  - intros H. by apply transport_unpack_sound in H as [<- ?].
  - intros [Ht ->]. by apply transport_unpack_pack.
Qed.

(** An emulator frame is read back from the front of a datagram, whatever
    follows it, and every datagram that decodes starts with the frame. *)
Lemma emulator_codec (data : list byte) (p : EmulatorPacket) :
  EmulatorPacket.unpack data = Some p <->
  emulator_packet_ok p /\ exists rest, data = EmulatorPacket.pack p ++ rest.
Proof.
  split.
  - intros H. by apply emulator_unpack_sound in H as (rest & -> & ?); eauto.
  - intros [Hp [rest ->]]. by apply emulator_unpack_pack_app.
Qed.

(** C39: The wire formats.  For packets, transport segments and emulator frames,
    [pack] and [unpack] are inverse to each other: the byte strings that [unpack]
    accepts are exactly the images of the valid values (a frame may be followed
    by anything), and it returns the value that was packed, with every field, the
    signed 32-bit window and sequence number included. *)
Theorem wire_codecs (data : list byte) :
  (forall p, Packet.unpack data = Some p <-> packet_ok p /\ data = Packet.pack p) /\
  (forall t, Transport.unpack data = Some t <-> transport_ok t /\ data = Transport.pack t) /\
  (forall f, EmulatorPacket.unpack data = Some f <->
     emulator_packet_ok f /\ exists rest, data = EmulatorPacket.pack f ++ rest).
Proof.
  split; [apply packet_codec|]. split; [apply transport_codec|apply emulator_codec].
Qed.

(** A segment packed into a packet and back: a transport segment of legal
    size always fits in a packet, and unwrapping the packet's bytes twice gives
    it back. *)
Theorem segment_in_packet (dest src seq : Z) (t : Transport) :
  transport_ok t -> 0 <= dest <= 255 -> 0 <= src <= 255 -> INT_MIN <= seq <= INT_MAX ->
  exists p, new_Packet dest src MAX_TTL TRANSPORT_PKT seq (Transport.pack t) = inr p /\
    vsize (Packet.pack p) <= 128 /\
    (q ← Packet.unpack (Packet.pack p); Transport.unpack (Packet.payload_ q)) = Some t.
Proof.
  intros Ht Hd Hs Hq. pose proof (pack_fits t Ht) as Hf.
  unfold Packet.MAX_PAYLOAD_SIZE, Packet.MAX_PACKET_SIZE, Packet.HEADER_SIZE in Hf.
  set (p := mkPacket dest src MAX_TTL TRANSPORT_PKT seq (Transport.pack t)).
  assert (Hv : isValid p = true).
  { apply isValid_spec. cbn. unfold MAX_TTL, TRANSPORT_PKT. lia. }
  exists p. split; [|split].
  - by apply new_Packet_spec.
  - rewrite packet_pack_length. unfold Packet.HEADER_SIZE. cbn. lia.
  - rewrite packet_unpack_pack by (by split). cbn. by apply transport_unpack_pack.
Qed.

Lemma segment_in_packet_witness :
  exists p, new_Packet 2 1 MAX_TTL TRANSPORT_PKT 0
      (Transport.pack (mkTransport 30 21 DATA 0 (-7) (stringToBytes "abc"))) = inr p /\
    vsize (Packet.pack p) <= 128 /\
    (q ← Packet.unpack (Packet.pack p); Transport.unpack (Packet.payload_ q)) =
      Some (mkTransport 30 21 DATA 0 (-7) (stringToBytes "abc")).
Proof. apply segment_in_packet; repeat split; vm_compute; congruence. Defined.

(** A list of at most 119 addresses survives the link-state payload. *)
Theorem link_state_codec (neighbors : list Z) :
  Forall (fun n => 0 <= n <= MAX_ADDRESS) neighbors -> vsize neighbors <= 119 ->
  exists l, new_LinkState neighbors = inr l /\
    getNeighbors <$> LinkState.unpack (LinkState.pack l) = Some neighbors.
Proof.
  intros Hn Hs. pose proof (neighbors_roundtrip neighbors Hn Hs) as Hr.
  destruct (new_LinkState neighbors) as [|l]; [done|]. by exists l.
Qed.

Lemma link_state_codec_witness :
  exists l, new_LinkState [3; 255; 0] = inr l /\
    getNeighbors <$> LinkState.unpack (LinkState.pack l) = Some [3; 255; 0].
Proof.
  apply link_state_codec; [|vm_compute; congruence].
  repeat constructor; vm_compute; congruence.
Defined.

(** ** The event queue *)

(** The queue is a stable priority queue: after any sequence of insertions
    it holds exactly the inserted events, sorted by time, and the events of one
    time come out in the order they were inserted. *)
Theorem queue_stable {C} (evs : list (ScheduledEvent C)) :
  let q := fold_left (fun q e => addEvent e q) evs [] in
  queue_ok q /\ Permutation q evs /\ forall t, at_time t q = at_time t evs.
Proof.
  assert (Hgen : forall q0 : OrderedEventQueue C, queue_ok q0 ->
    let q := fold_left (fun q e => addEvent e q) evs q0 in
    queue_ok q /\ Permutation q (q0 ++ evs) /\
    forall t, at_time t q = at_time t (q0 ++ evs)).
  { induction evs as [|e evs IH]; intros q0 Hq0; cbv zeta; cbn [fold_left].
    - by rewrite app_nil_r.
    - specialize (IH (addEvent e q0) (addEvent_ok _ _ Hq0)).
      cbv zeta in IH. destruct IH as (H1 & H2 & H3).
      split; [done|]. split.
      + rewrite H2, addEvent_perm. cbn. apply Permutation_middle.
      + intros t. rewrite (H3 t), !at_time_app, addEvent_at_time, at_time_cons by done.
        by rewrite app_assoc. }
  apply (Hgen [] queue_ok_nil).
Qed.

(** [removeNextEvent] of a sorted queue takes an event that no remaining
    event precedes and leaves a sorted queue; on an empty queue it is undefined. *)
Theorem queue_remove {C} (q : OrderedEventQueue C) :
  queue_ok q ->
  match removeNextEvent q with
  | (Ret e, rest) => getNextEvent q = Some e /\ q = e :: rest /\ queue_ok rest /\
      Forall (fun x => timeToOccur e <= timeToOccur x) rest
  | (Fault f, _) => q = [] /\ f = UB
  end.
Proof.
  intros Hq. destruct q as [|e rest]; [done|]. cbn. inversion Hq; subst. auto.
Qed.

Lemma queue_remove_witness :
  match removeNextEvent (addEvent (mkEvent 3 (Some true))
                           [mkEvent 3 (Some false); mkEvent 9 None]) with
  | (Ret e, rest) =>
      getNextEvent (addEvent (mkEvent 3 (Some true))
                     [mkEvent 3 (Some false); mkEvent 9 None]) = Some e /\
      addEvent (mkEvent 3 (Some true)) [mkEvent 3 (Some false); mkEvent 9 None] = e :: rest /\
      queue_ok rest /\ Forall (fun x => timeToOccur e <= timeToOccur x) rest
  | (Fault f, _) => addEvent (mkEvent 3 (Some true))
      [mkEvent 3 (Some false); mkEvent 9 None] = [] /\ f = UB
  end.
Proof.
  apply queue_remove, addEvent_ok. repeat constructor; vm_compute; congruence.
Defined.

(** ** Links *)

(** Putting a packet on a link: a packet that would wait longer than the
    link buffers is dropped and the link is unchanged; any other occupies its
    direction until [max(now, free) + size / bandwidth], the other direction
    being untouched; it is lost if the link is down or the random draw is below
    the loss rate (but it occupied the link), and otherwise arrives one
    propagation delay after it was sent.  Exactly one counter grows, by one,
    for each packet that does not arrive. *)
Theorem schedule_contract {C} (src size now : Z) (e : Edge) (r : RuntimeManager C) :
  edge_ok e -> counters_ok r -> 0 <= size <= 128 -> src = a_ e \/ src = b_ e ->
  0 <= now <= EDGE_TIME_LIMIT ->
  let busy := size * 1000000 / bwBytesPerSec (options_ e) in
  let finish := Z.max now (sendTime src e) + busy in
  exists res e' r', schedulePkt src size now (e, r) = (Ret res, (e', r')) /\
    pktsSent_ r' = pktsSent_ r /\ options_ e' = options_ e /\
    (forall other, (other =? a_ e) <> (src =? a_ e) -> sendTime other e' = sendTime other e) /\
    if finish - now >? bufferingMs (options_ e) * 1000
    then res = -1 /\ e' = e /\ pktsDropped_ r' = pktsDropped_ r + 1 /\
      pktsLost_ r' = pktsLost_ r
    else sendTime src e' = finish /\ pktsDropped_ r' = pktsDropped_ r /\
      if negb (live_ e) || dltb (rng_ e O) (lossRate (options_ e))
      then res = -1 /\ pktsLost_ r' = pktsLost_ r + 1
      else res = finish + delayMs (options_ e) * 1000 /\ pktsLost_ r' = pktsLost_ r.
Proof.
  intros He Hr Hs Hsrc Hn busy finish.
  pose proof (schedulePkt_run src size now e r He Hr Hs Hsrc Hn) as Hrun.
  unfold schedule_spec, overflows, loses in Hrun.
  change (finish_time src size now e) with finish in Hrun.
  destruct (finish - now >? _).
  { eexists _, _, _. split; [exact Hrun|]. cbn. auto 10. }
  destruct (_ || _); eexists _, _, _; (split; [exact Hrun|]); cbn;
    (split; [done|]); (split; [apply options_occupied|]);
    (split; [intros other Ho; apply sendTime_occupied_other; congruence|]);
    rewrite sendTime_occupied; auto.
Qed.

Definition sample_edge : Edge := new_Edge 1 2 default_EdgeOptions (fun _ => dofZ 0).
Definition sample_manager : RuntimeManager unit := new_RuntimeManager 0.

Lemma schedule_contract_witness :
  exists res e' r', schedulePkt 1 100 500 (sample_edge, sample_manager) = (Ret res, (e', r')) /\
    pktsSent_ r' = 0 /\ options_ e' = default_EdgeOptions /\
    (forall other, (other =? 1) <> true -> sendTime other e' = sendTime other sample_edge) /\
    (sendTime 1 e' = 10500 /\ pktsDropped_ r' = 0 /\ (res = 11500 /\ pktsLost_ r' = 0)).
Proof.
  apply (schedule_contract 1 100 500 sample_edge sample_manager);
    [repeat split; vm_compute; congruence..|by left|split; vm_compute; congruence].
Defined.

(** A link never carries two packets of one direction at once: of two
    packets that are accepted one after the other, the second arrives at least
    its own transmission time after the first. *)
Theorem link_serial {C} (src size1 size2 now1 now2 t1 t2 : Z) (e1 e2 e3 : Edge)
    (r1 r2 r3 : RuntimeManager C) :
  edge_ok e1 -> edge_ok e2 -> counters_ok r1 -> counters_ok r2 ->
  0 <= size1 <= 128 -> 0 <= size2 <= 128 -> src = a_ e1 \/ src = b_ e1 ->
  0 <= now1 <= EDGE_TIME_LIMIT -> 0 <= now2 <= EDGE_TIME_LIMIT ->
  schedulePkt src size1 now1 (e1, r1) = (Ret t1, (e2, r2)) -> t1 <> -1 ->
  schedulePkt src size2 now2 (e2, r2) = (Ret t2, (e3, r3)) -> t2 <> -1 ->
  t1 + size2 * 1000000 / bwBytesPerSec (options_ e1) <= t2.
Proof.
  intros He1 He2 Hr1 Hr2 Hs1 Hs2 Hsrc Hn1 Hn2 H1 Ht1 H2 Ht2.
  rewrite schedulePkt_run in H1 by done. unfold schedule_spec in H1.
  destruct (overflows _ _ _ e1); [injection H1; congruence|].
  destruct (loses e1); [injection H1; congruence|]. cbn in H1.
  injection H1 as <- <- <-.
  assert (Hab : a_ (occupied src size1 now1 e1) = a_ e1 /\
    b_ (occupied src size1 now1 e1) = b_ e1)
    by (unfold occupied, set_sendTime; by destruct (live_ e1), (_ =? _)).
  rewrite schedulePkt_run in H2 by (try done; destruct Hab as [-> ->]; done).
  unfold schedule_spec in H2.
  destruct (overflows _ _ _ (occupied _ _ _ _)); [injection H2; congruence|].
  destruct (loses (occupied _ _ _ _)); [injection H2; congruence|]. cbn in H2.
  injection H2 as <- <- <-. unfold finish_time at 2, busy_time.
  rewrite sendTime_occupied, options_occupied. lia.
Qed.

Lemma link_serial_witness :
  11500 + 50 * 1000000 / bwBytesPerSec (options_ sample_edge) <= 16500.
Proof.
  eapply (link_serial 1 100 50 500 700 11500 16500 sample_edge _ _ sample_manager);
    [| | | | | |left; reflexivity| | |vm_compute; reflexivity| |vm_compute; reflexivity|];
    try (repeat split; vm_compute; congruence); lia.
Defined.

(** ** The topology *)

(** The operations of a topology, and what each does to an abstract topology:
    the state and the options of every unordered pair of nodes, and the set of
    nodes that failed. *)
Inductive topo_op : Type :=
| OpNewEdge (a b : Z) (options : EdgeOptions)
| OpFailEdge (a b : Z)
| OpRestartEdge (a b : Z)
| OpFailNode (a : Z)
| OpRestartNode (a : Z)
| OpGetLiveEdge (a b : Z).

Definition run_op (op : topo_op) : M TopoSt bool :=
  match op with
  | OpNewEdge a b o => newEdge a b o ;; ret true
  | OpFailEdge a b => failEdge a b
  | OpRestartEdge a b => restartEdge a b
  | OpFailNode a => failNode a ;; ret true
  | OpRestartNode a => restartNode a ;; ret true
  | OpGetLiveEdge a b =>
      let! r := getLiveEdge a b in ret (match r with Some _ => true | None => false end)
  end.

Record AbsTopo : Type := mkAbs {
  links : Z -> Z -> option (bool * EdgeOptions);
  down : gset Z
}.

Definition set_link (a b : Z) (v : option (bool * EdgeOptions)) (t : AbsTopo) : AbsTopo :=
  mkAbs (fun x y => if decide (same_pair a b x y) then v else links t x y) (down t).

Definition abs_op (op : topo_op) (t : AbsTopo) : bool * AbsTopo :=
  match op with
  | OpNewEdge a b o =>
      (true, set_link a b (Some (default true (fst <$> links t a b), o)) t)
  | OpFailEdge a b =>
      (bool_decide (is_Some (links t a b)),
       set_link a b (prod_map (fun _ => false) id <$> links t a b) t)
  | OpRestartEdge a b =>
      (bool_decide (is_Some (links t a b)),
       set_link a b (prod_map (fun _ => true) id <$> links t a b) t)
  | OpFailNode a => (true, mkAbs (links t) ({[a]} ∪ down t))
  | OpRestartNode a => (true, mkAbs (links t) (down t ∖ {[a]}))
  | OpGetLiveEdge a b =>
      (default false (fst <$> links t a b) &&
       bool_decide (a ∉ down t) && bool_decide (b ∉ down t), t)
  end.

(** What the topology says of a pair: in an all-to-all topology a pair that has
    no edge yet is linked with the default options. *)
Definition link_at (t : Topology) (a b : Z) : option (bool * EdgeOptions) :=
  match view t a b with
  | Some v => Some v
  | None => if allToAll_ t then Some (true, default_EdgeOptions) else None
  end.

(** The abstraction relation, in both modes. *)
Record represents (s : TopoSt) (t : AbsTopo) : Prop := {
  rep_ok : topo_ok (this_ s);
  rep_links : forall a b, link_at (this_ s) a b = links t a b;
  rep_down : failedNodes_ (this_ s) = down t
}.

(** The failed nodes and the mode are as before, and so are the links, but for
    one pair. *)
Record linked (a b : Z) (v : option (bool * EdgeOptions)) (t t' : Topology) : Prop := {
  ln_ok : topo_ok t';
  ln_failed : failedNodes_ t' = failedNodes_ t;
  ln_all : allToAll_ t' = allToAll_ t;
  ln_links : forall x y, link_at t' x y =
    if decide (same_pair a b x y) then v else link_at t x y
}.

Lemma represents_linked s s' t a b v :
  represents s t -> linked a b v (this_ s) (this_ s') -> represents s' (set_link a b v t).
Proof.
  intros [_ Hl Hd] [Hok Hf _ Hv]. constructor; [done| |cbn; congruence].
  intros x y. rewrite Hv. cbn. by case_decide.
Qed.

Lemma link_at_pair a b x y t : same_pair a b x y -> link_at t a b = link_at t x y.
Proof. intros Hp. unfold link_at, view, lookup_edge. by rewrite (find_edge_pair a b x y). Qed.

Lemma linked_refl a b t : topo_ok t -> linked a b (link_at t a b) t t.
Proof. constructor; [done..|]. intros x y. case_decide; [by rewrite (link_at_pair a b x y)|done]. Qed.

Lemma linked_trans a b v v' t1 t2 t3 : linked a b v t1 t2 -> linked a b v' t2 t3 -> linked a b v' t1 t3.
Proof.
  intros [O1 F1 A1 L1] [O2 F2 A2 L2]. constructor; [done|congruence..|]. intros x y. rewrite L2.
  case_decide as Hp; [done|]. by rewrite L1, decide_False.
Qed.

Lemma push_linked a b o seed t :
  topo_ok t -> find_edge a b (edges_ t) = None ->
  linked a b (Some (true, o)) t (set_edges (edges_ t ++ [new_Edge a b o seed]) t).
Proof.
  intros Hok Hf. constructor; [by eapply topo_ok_push|done..|]. intros x y. unfold link_at, view.
  rewrite (lookup_edge_push t a b x y); [|done|apply isEdge_spec; by left]. by case_decide.
Qed.

(** A search makes no difference to the links. *)
Lemma getEdge_links a b s :
  topo_ok (this_ s) ->
  exists r s', getEdge a b s = (Ret r, s') /\ linked a b (link_at (this_ s) a b) (this_ s) (this_ s') /\
    match r with
    | Some i => find_edge a b (edges_ (this_ s')) = Some i /\
        exists e, edges_ (this_ s') !! i = Some e /\ link_at (this_ s) a b = Some (live_ e, options_ e)
    | None => link_at (this_ s) a b = None /\ find_edge a b (edges_ (this_ s')) = None
    end.
Proof.
  intros Hok. rewrite getEdge_run. pose proof (linked_refl a b (this_ s) Hok) as Hrefl.
  destruct (find_edge a b _) as [i|] eqn:Hf.
  - do 2 eexists. split; [reflexivity|]. split; [done|]. split; [done|].
    destruct (find_edge_Some _ _ _ _ Hf) as (e & Hi & _). exists e. split; [done|].
    unfold link_at, view, lookup_edge. by rewrite Hf, Hi.
  - assert (Hl : link_at (this_ s) a b = if allToAll_ (this_ s) then Some (true, default_EdgeOptions) else None)
      by (unfold link_at, view, lookup_edge; by rewrite Hf).
    destruct (allToAll_ (this_ s)) eqn:Ha; do 2 eexists; (split; [reflexivity|]); [|by split].
    rewrite Hl. cbn [this_ set_this set_seeds eta_TopoSt]. split; [by apply push_linked|].
    cbn [edges_ set_edges eta_Topology]. split.
    + rewrite find_edge_app, Hf. cbn.
      replace (isEdge _ a b) with true by (symmetry; apply isEdge_spec; by left).
      cbn. by rewrite Nat.add_0_r.
    + eexists. split; [by apply list_lookup_middle|done].
Qed.

Lemma update_linked a b i e f s :
  topo_ok (this_ s) -> find_edge a b (edges_ (this_ s)) = Some i -> edges_ (this_ s) !! i = Some e ->
  a_ (f e) = a_ e -> b_ (f e) = b_ e ->
  exists s', update_edge i f s = (Ret tt, s') /\
    linked a b (Some (live_ (f e), options_ (f e))) (this_ s) (this_ s').
Proof.
  intros Hok Hf Hi Ha Hb. erewrite update_edge_run by done. eexists. split; [reflexivity|].
  cbn [this_ set_this eta_TopoSt]. constructor; [by eapply topo_ok_insert|done..|]. intros x y.
  unfold link_at, view. erewrite (lookup_edge_insert _ i e (f e) x y a b) by done. by case_decide.
Qed.

Lemma newEdge_links a b o s :
  topo_ok (this_ s) ->
  exists s', newEdge a b o s = (Ret tt, s') /\
    linked a b (Some (default true (fst <$> link_at (this_ s) a b), o)) (this_ s) (this_ s').
Proof.
  intros Hok. unfold newEdge. destruct (getEdge_links a b s Hok) as (r & s1 & Hr & L1 & Hi).
  erewrite bind_run by exact Hr. pose proof (ln_ok _ _ _ _ _ L1) as Hok1. destruct r as [i|].
  - destruct Hi as (Hf & e & He & ->).
    destruct (update_linked a b i e (setOptions o) s1 Hok1 Hf He eq_refl eq_refl) as (s' & Hu & L2).
    exists s'. split; [done|]. by eapply linked_trans.
  - destruct Hi as [-> Hf]. eexists. split; [reflexivity|]. eapply linked_trans; [done|].
    by apply push_linked.
Qed.

Lemma changeEdge_links a b state s :
  topo_ok (this_ s) ->
  exists s', changeEdge a b state s = (Ret (bool_decide (is_Some (link_at (this_ s) a b))), s') /\
    linked a b (prod_map (fun _ => state) id <$> link_at (this_ s) a b) (this_ s) (this_ s').
Proof.
  intros Hok. unfold changeEdge. destruct (getEdge_links a b s Hok) as (r & s1 & Hr & L1 & Hi).
  erewrite bind_run by exact Hr. pose proof (ln_ok _ _ _ _ _ L1) as Hok1. destruct r as [i|].
  - destruct Hi as (Hf & e & He & Hl). rewrite Hl in *.
    destruct (update_linked a b i e (setState state) s1 Hok1 Hf He eq_refl eq_refl) as (s' & Hu & L2).
    exists s'. split; [by erewrite bind_run by exact Hu|]. by eapply linked_trans.
  - destruct Hi as [Hl _]. rewrite Hl in *. eexists. split; [reflexivity|]. done.
Qed.

Lemma getLiveEdge_links a b s :
  topo_ok (this_ s) ->
  exists r s', getLiveEdge a b s = (Ret r, s') /\ linked a b (link_at (this_ s) a b) (this_ s) (this_ s') /\
    bool_decide (is_Some r) = default false (fst <$> link_at (this_ s) a b) &&
      bool_decide (a ∉ failedNodes_ (this_ s)) && bool_decide (b ∉ failedNodes_ (this_ s)).
Proof.
  intros Hok. unfold getLiveEdge. destruct (getEdge_links a b s Hok) as (r & s1 & Hr & L1 & Hi).
  erewrite bind_run by exact Hr. destruct r as [i|].
  - destruct Hi as (Hf & e & He & Hl). rewrite Hl in *. unfold deref_edge, topo_get, isNodeAlive_, bind, gets, ret. rewrite He.
    rewrite (ln_failed _ _ _ _ _ L1), !bool_decide_not. cbn [fmap option_fmap option_map fst default].
    destruct (live_ e), (bool_decide (a ∈ _)), (bool_decide (b ∈ _)); by do 2 eexists.
  - destruct Hi as [Hl _]. rewrite Hl in *. by do 2 eexists.
Qed.

(** C36: The topology implements the abstract one, in both modes; in an
    all-to-all topology every pair is linked from the start, with the default
    options, although its edge is only made when it is asked for.  Each operation
    on the vector of edges and the set of failed nodes returns what the abstract
    operation returns and leads to the state it leads to.  In particular an edge
    is the same in both directions, an operation on one pair touches no other, a
    failed edge keeps its options, and traffic passes exactly when the edge and
    both its ends are up. *)
Theorem topology_refines (op : topo_op) (s : TopoSt) (t : AbsTopo) :
  represents s t ->
  exists s', run_op op s = (Ret (abs_op op t).1, s') /\ represents s' (abs_op op t).2 /\
    allToAll_ (this_ s') = allToAll_ (this_ s).
Proof.
  intros Hrep. destruct Hrep as [Hok Hl Hd]. assert (Hrep : represents s t) by done.
  destruct op as [a b o|a b|a b|a|a|a b]; cbn [run_op abs_op fst snd].
  - destruct (newEdge_links a b o s Hok) as (s' & Hrun & L). exists s'.
    rewrite (bind_run _ _ _ _ _ Hrun). rewrite Hl in L. split; [done|]. split; [by eapply represents_linked|apply L].
  - destruct (changeEdge_links a b false s Hok) as (s' & Hrun & L). exists s'. rewrite Hl in Hrun, L.
    split; [exact Hrun|]. split; [by eapply represents_linked|apply L].
  - destruct (changeEdge_links a b true s Hok) as (s' & Hrun & L). exists s'. rewrite Hl in Hrun, L.
    split; [exact Hrun|]. split; [by eapply represents_linked|apply L].
  - eexists. split; [reflexivity|]. split; [|done]. constructor; cbn; [done|exact Hl|by rewrite Hd].
  - eexists. split; [reflexivity|]. split; [|done]. constructor; cbn; [done|exact Hl|by rewrite Hd].
  - destruct (getLiveEdge_links a b s Hok) as (r & s' & Hrun & L & Hr). exists s'.
    rewrite (bind_run _ _ _ _ _ Hrun). rewrite Hl, Hd in Hr. rewrite <- Hr. split; [by destruct r|].
    split; [|apply L]. destruct L as [L1 L2 L3 L4]. constructor; [done| |congruence]. intros x y.
    rewrite L4. destruct (decide (same_pair a b x y)) as [Hp|_]; [|apply Hl]. rewrite (link_at_pair a b x y) by done. apply Hl.
Qed.

(** An all-to-all topology in which nothing has been asked for. *)
Definition sample_topo : TopoSt :=
  mkTopoSt (mkTopology [] ∅ true) (fun _ _ => dofZ 0) [].

Lemma topology_refines_witness :
  exists s', run_op (OpFailEdge 1 2) sample_topo = (Ret true, s') /\
    represents s' (set_link 1 2 (Some (false, default_EdgeOptions))
      (mkAbs (fun _ _ => Some (true, default_EdgeOptions)) ∅)) /\
    allToAll_ (this_ s') = true.
Proof.
  apply (topology_refines (OpFailEdge 1 2) sample_topo
    (mkAbs (fun _ _ => Some (true, default_EdgeOptions)) ∅)).
  constructor; [|done..]. intros i j e e' He. cbn in He. by rewrite lookup_nil in He.
Defined.

(** ** The runtime manager *)

(** [sendPkt] accepts exactly the packets that a node may send, the ones
    that decode, between valid addresses, with hops left; it counts each and
    rejects every other with an exception that leaves the manager as it was. *)
Theorem sendPkt_contract {C} (from to : Z) (pkt : list byte) (r : RuntimeManager C) :
  0 <= pktsSent_ r < INT_MAX ->
  (sendable from to pkt /\
   sendPkt from to pkt r = (Ret true, set_pktsSent (pktsSent_ r + 1) r)) \/
  (~ sendable from to pkt /\
   exists w, sendPkt from to pkt r = (Fault (Thrown (invalid_argument w)), r)).
Proof.
  intros Hn. destruct (sendPkt from to pkt r) as [res r'] eqn:Hrun.
  destruct (decide (validAddress from = true)) as [Hf|Hf];
    [destruct (decide (validAddress to = true)) as [Ht|Ht];
      [destruct (decide (vsize pkt <= Packet.MAX_PACKET_SIZE)) as [Hs|Hs];
        [destruct (Packet.unpack pkt) as [p|] eqn:Hu;
          [destruct (isValidToSend p) eqn:Hv|]|]|]|].
  1: { assert (Hsend : sendable from to pkt) by (repeat split; eauto).
       left. split; [done|]. rewrite <- Hrun. by apply sendPkt_sendable. }
  all: right; assert (Hns : ~ sendable from to pkt)
    by (intros (? & ? & ? & q & Hq & ?); first [done|congruence]);
    (split; [done|]); rewrite <- Hrun; by apply sendPkt_rejects.
Qed.

Lemma sendPkt_contract_witness :
  (sendable 1 2 (Packet.pack (mkPacket 2 1 15 0 0 [])) /\
   sendPkt 1 2 (Packet.pack (mkPacket 2 1 15 0 0 [])) sample_manager =
     (Ret true, set_pktsSent 1 sample_manager)) \/
  (~ sendable 1 2 (Packet.pack (mkPacket 2 1 15 0 0 [])) /\
   exists w, sendPkt 1 2 (Packet.pack (mkPacket 2 1 15 0 0 [])) sample_manager =
     (Fault (Thrown (invalid_argument w)), sample_manager)).
Proof. apply (sendPkt_contract 1 2 _ sample_manager). vm_compute. split; congruence. Defined.
