(* ===== verification/TcpData.v ===== *)
(** * The state of the transport layer (include/nb/tcp_socket.hpp,
      include/nb/tcp_manager.hpp)

    A [TcpManager] owns its sockets ([allSockets_], never shrunk), so a
    [TcpSocket*] is an index into that list and the three tables hold indices:
    the aliasing of the program is kept.  Every method runs on the pair of the
    manager and the environment [E] behind [manager_]. *)

From S2P Require Import Prelude CppStrings Doubles Packet Transport Runtime.

(** ** Constants *)

Definition RECV_BUF_CAP : Z := 32 * 1024.
Definition SEND_BUF_CAP : Z := 32 * 1024.
Definition ALPHA : double := dlit 1 (-3).
Definition BETA : double := dlit 1 (-2).
Definition RTO_INITIAL_MS : Z := 1000.
Definition RTO_MIN_MS : Z := 1.
Definition RTO_MAX_MS : Z := 64000.
Definition INITIAL_CWND_BYTES : Z := Transport.MAX_PAYLOAD_SIZE.
Definition CWND_MIN_BYTES : Z := Transport.MAX_PAYLOAD_SIZE.
Definition AIMD_MD_FACTOR : double := dlit 1 (-1).
Definition RETRANS_TICK_MS : Z := 10.

(** ** Sockets *)

Inductive State : Type := CLOSED | LISTEN | SYN_SENT | ESTABLISHED | SHUTDOWN.

#[export] Instance State_eq_dec : EqDecision State.
Proof. solve_decision. Defined.

Record OutstandingSeg : Type := mkSeg {
  seqStart : Z;
  len : Z;
  data : list byte;
  firstSentAtMs : Z;
  retransmitted : bool
}.

Definition set_retransmitted (s : OutstandingSeg) : OutstandingSeg :=
  mkSeg (seqStart s) (len s) (data s) (firstSentAtMs s) true.

(** [TcpSocket*]; [nullptr] is [None] where a pointer may be null. *)
Abbreviation ptr := nat (only parsing).

Record TcpSocket : Type := mkSocket {
  timeoutCount : Z;
  state_ : State;
  localPort_ : Z;
  remoteAddr_ : Z;
  remotePort_ : Z;
  backlog_ : Z;
  pendingConnQueue_ : list ptr;
  sndUna_ : Z;
  sndNxt_ : Z;
  rcvNxt_ : Z;
  recvBuf_ : list byte;
  recvBufUsed_ : Z;
  synSeq_ : Z;
  finSeq_ : Z;
  estRTTms_ : double;
  devRTTms_ : double;
  hasEstRTT_ : bool;
  peerFinReceived_ : bool;
  outstanding_ : list OutstandingSeg;
  nextRtoDeadlineMs_ : Z;
  rtoMs_ : Z;
  rwnd_ : Z;
  cwnd_ : Z
}.

(** The constructor: the member initializers of the class and of the .cpp. *)
Definition new_TcpSocket : TcpSocket := {|
  timeoutCount := 0;
  state_ := CLOSED;
  localPort_ := -1; remoteAddr_ := -1; remotePort_ := -1;
  backlog_ := 0; pendingConnQueue_ := [];
  sndUna_ := 0; sndNxt_ := 0; rcvNxt_ := 0;
  recvBuf_ := []; recvBufUsed_ := 0;
  synSeq_ := -1; finSeq_ := -1;
  estRTTms_ := dofZ RTO_INITIAL_MS; devRTTms_ := dofZ 0; hasEstRTT_ := false;
  peerFinReceived_ := false;
  outstanding_ := []; nextRtoDeadlineMs_ := 0; rtoMs_ := RTO_INITIAL_MS;
  rwnd_ := RECV_BUF_CAP; cwnd_ := INITIAL_CWND_BYTES
|}.

#[export] Instance eta_TcpSocket : Eta TcpSocket := fun s =>
  mkSocket (timeoutCount s) (state_ s) (localPort_ s) (remoteAddr_ s)
    (remotePort_ s) (backlog_ s) (pendingConnQueue_ s) (sndUna_ s) (sndNxt_ s)
    (rcvNxt_ s) (recvBuf_ s) (recvBufUsed_ s) (synSeq_ s) (finSeq_ s)
    (estRTTms_ s) (devRTTms_ s) (hasEstRTT_ s) (peerFinReceived_ s)
    (outstanding_ s) (nextRtoDeadlineMs_ s) (rtoMs_ s) (rwnd_ s) (cwnd_ s).

Definition set_timeoutCount (v : Z) (s : TcpSocket) : TcpSocket := ltac:(set_field timeoutCount v s).
Definition set_state (v : State) (s : TcpSocket) : TcpSocket := ltac:(set_field state_ v s).
Definition set_localPort (v : Z) (s : TcpSocket) : TcpSocket := ltac:(set_field localPort_ v s).
Definition set_remoteAddr (v : Z) (s : TcpSocket) : TcpSocket := ltac:(set_field remoteAddr_ v s).
Definition set_remotePort (v : Z) (s : TcpSocket) : TcpSocket := ltac:(set_field remotePort_ v s).
Definition set_backlog (v : Z) (s : TcpSocket) : TcpSocket := ltac:(set_field backlog_ v s).
Definition set_pendingConnQueue (v : list ptr) (s : TcpSocket) : TcpSocket := ltac:(set_field pendingConnQueue_ v s).
Definition set_sndUna (v : Z) (s : TcpSocket) : TcpSocket := ltac:(set_field sndUna_ v s).
Definition set_sndNxt (v : Z) (s : TcpSocket) : TcpSocket := ltac:(set_field sndNxt_ v s).
Definition set_rcvNxt (v : Z) (s : TcpSocket) : TcpSocket := ltac:(set_field rcvNxt_ v s).
Definition set_recvBuf (v : list byte) (s : TcpSocket) : TcpSocket := ltac:(set_field recvBuf_ v s).
Definition set_recvBufUsed (v : Z) (s : TcpSocket) : TcpSocket := ltac:(set_field recvBufUsed_ v s).
Definition set_synSeq (v : Z) (s : TcpSocket) : TcpSocket := ltac:(set_field synSeq_ v s).
Definition set_finSeq (v : Z) (s : TcpSocket) : TcpSocket := ltac:(set_field finSeq_ v s).
Definition set_estRTTms (v : double) (s : TcpSocket) : TcpSocket := ltac:(set_field estRTTms_ v s).
Definition set_devRTTms (v : double) (s : TcpSocket) : TcpSocket := ltac:(set_field devRTTms_ v s).
Definition set_hasEstRTT (v : bool) (s : TcpSocket) : TcpSocket := ltac:(set_field hasEstRTT_ v s).
Definition set_peerFinReceived (v : bool) (s : TcpSocket) : TcpSocket := ltac:(set_field peerFinReceived_ v s).
Definition set_outstanding (v : list OutstandingSeg) (s : TcpSocket) : TcpSocket := ltac:(set_field outstanding_ v s).
Definition set_nextRtoDeadlineMs (v : Z) (s : TcpSocket) : TcpSocket := ltac:(set_field nextRtoDeadlineMs_ v s).
Definition set_rtoMs (v : Z) (s : TcpSocket) : TcpSocket := ltac:(set_field rtoMs_ v s).
Definition set_rwnd (v : Z) (s : TcpSocket) : TcpSocket := ltac:(set_field rwnd_ v s).
Definition set_cwnd (v : Z) (s : TcpSocket) : TcpSocket := ltac:(set_field cwnd_ v s).

(** ** Inline accessors of the class *)

Definition isConnectionPending (s : TcpSocket) : bool := bool_decide (state_ s = SYN_SENT).
Definition isClosed (s : TcpSocket) : bool := bool_decide (state_ s = CLOSED).
Definition isConnected (s : TcpSocket) : bool := bool_decide (state_ s = ESTABLISHED).
Definition isClosurePending (s : TcpSocket) : bool := bool_decide (state_ s = SHUTDOWN).

Definition getRecvBufAvailable (s : TcpSocket) : Z := RECV_BUF_CAP - recvBufUsed_ s.
Definition getBytesInFlight (s : TcpSocket) : Z := sndNxt_ s - sndUna_ s.
Definition effectiveWindow (s : TcpSocket) : Z := Z.min (rwnd_ s) (cwnd_ s).
Definition senderWindowHasCapacity (s : TcpSocket) : bool :=
  getBytesInFlight s <? effectiveWindow s.
Definition hasOutstanding (s : TcpSocket) : bool :=
  match outstanding_ s with [] => false | _ => true end.

(** [setRwnd] stores [max(0, v)]. *)
Definition setRwnd (v : Z) (s : TcpSocket) : TcpSocket := set_rwnd (Z.max 0 v) s.

(** ** The manager *)

Record ConnKey : Type := mkKey {
  key_remoteAddr : Z;
  key_remotePort : Z;
  key_localPort : Z
}.

#[export] Instance ConnKey_eq_dec : EqDecision ConnKey.
Proof. solve_decision. Defined.

#[export] Instance ConnKey_countable : Countable ConnKey.
Proof.
  refine (inj_countable'
    (fun k => (key_remoteAddr k, key_remotePort k, key_localPort k))
    (fun p => mkKey p.1.1 p.1.2 p.2) _).
  by intros [].
Defined.

Record TcpManager : Type := mkTcpManager {
  addr_ : Z;
  allSockets_ : list TcpSocket;
  listenersByPort_ : gmap Z ptr;
  synPendingByKey_ : gmap ConnKey ptr;
  establishedByKey_ : gmap ConnKey ptr
}.

Definition new_TcpManager (addr : Z) : TcpManager := mkTcpManager addr [] ∅ ∅ ∅.

#[export] Instance eta_TcpManager : Eta TcpManager := fun t =>
  mkTcpManager (addr_ t) (allSockets_ t) (listenersByPort_ t)
    (synPendingByKey_ t) (establishedByKey_ t).

Definition set_allSockets (v : list TcpSocket) (t : TcpManager) : TcpManager :=
  ltac:(set_field allSockets_ v t).
Definition set_listenersByPort (v : gmap Z ptr) (t : TcpManager) : TcpManager :=
  ltac:(set_field listenersByPort_ v t).
Definition set_synPendingByKey (v : gmap ConnKey ptr) (t : TcpManager) : TcpManager :=
  ltac:(set_field synPendingByKey_ v t).
Definition set_establishedByKey (v : gmap ConnKey ptr) (t : TcpManager) : TcpManager :=
  ltac:(set_field establishedByKey_ v t).

(** The order in which a loop visits an [std::unordered_map] is the library's
    choice: some enumeration of the map. *)
Class MapOrder := {
  map_order : gmap ConnKey ptr -> list (ConnKey * ptr);
  map_order_perm : forall m, map_order m ≡ₚ map_to_list m
}.

(** ** Access to the state *)

Section access.
Context {E : Type}.

Definition tget {A} (f : TcpManager -> A) : M (TcpManager * E) A :=
  gets (fun s => f s.1).
Definition tmodify (f : TcpManager -> TcpManager) : M (TcpManager * E) unit :=
  modify (fun s => (f s.1, s.2)).
Definition env {A} (m : M E A) : M (TcpManager * E) A :=
  zoom snd (fun e s => (s.1, e)) m.

(** [*sk], undefined for a pointer to no socket. *)
Definition deref (sk : ptr) : M (TcpManager * E) TcpSocket :=
  let! socks := tget allSockets_ in
  match socks !! sk with Some s => ret s | None => fail UB end.

(** A change of the socket's members. *)
Definition upd (sk : ptr) (f : TcpSocket -> TcpSocket) : M (TcpManager * E) unit :=
  deref sk ;;
  tmodify (fun t => set_allSockets (alter f sk (allSockets_ t)) t).
End access.
