(* ===== verification/TcpSend.v ===== *)
(** * What the transport layer sends (the outgoing helpers, registration hooks
      and socket creation of src/node/tcp_manager.cpp)

    Each helper builds a segment, wraps it in a packet, hands it to the
    environment and writes one trace character; an exception on the way is
    logged and turned into [false]. *)

From S2P Require Import Prelude CppStrings Packet Transport Runtime TcpData.

Section send.
Context {E : Type} `{Manager E}.

Definition cout (s : string) : M (TcpManager * E) unit := env (mgr_emit (Cout s)).

(** [StackNode::logError]: the node has the manager's address. *)
Definition logError (s : string) : M (TcpManager * E) unit :=
  let! addr := tget addr_ in
  env (mgr_emit (Cerr (endl ("Node " +:+ to_string addr +:+ ": " +:+ s)))).

Definition managerNowMs : M (TcpManager * E) Z := env mgr_now.

Definition socket : M (TcpManager * E) ptr :=
  let! socks := tget allSockets_ in
  tmodify (set_allSockets (socks ++ [new_TcpSocket])) ;;
  ret (length socks).

Definition sendSyn (sk : ptr) (destAddr destPort : Z) : M (TcpManager * E) bool :=
  try_catch
    (let! sock := deref sk in
     let! syn := lift_exn (new_Transport (localPort_ sock) destPort SYN 0
                             (synSeq_ sock) []) in
     let! addr := tget addr_ in
     let! pkt := lift_exn (new_Packet destAddr addr MAX_TTL TRANSPORT_PKT 0
                             (Transport.pack syn)) in
     env (mgr_sendPkt addr destAddr (Packet.pack pkt)) ;;
     cout "S" ;;
     ret true)
    (fun e =>
     logError ("Failed to send SYN: " +:+ what e) ;;
     ret false).

Definition sendFin (sk : ptr) (destAddr destPort : Z) : M (TcpManager * E) bool :=
  try_catch
    (let! sock := deref sk in
     let! fin := lift_exn (new_Transport (localPort_ sock) destPort FIN 0
                             (finSeq_ sock) []) in
     let! addr := tget addr_ in
     let! pkt := lift_exn (new_Packet destAddr addr MAX_TTL TRANSPORT_PKT 0
                             (Transport.pack fin)) in
     env (mgr_sendPkt addr destAddr (Packet.pack pkt)) ;;
     cout "F" ;;
     ret true)
    (fun e =>
     logError ("Failed to send FIN: " +:+ what e) ;;
     ret false).

Definition sendData (sk : ptr) (destAddr destPort seqNum : Z)
    (payload : list byte) (retransmitted : bool) : M (TcpManager * E) bool :=
  try_catch
    (let! sock := deref sk in
     let! data := lift_exn (new_Transport (localPort_ sock) destPort DATA 0
                              seqNum payload) in
     let! addr := tget addr_ in
     let! pkt := lift_exn (new_Packet destAddr addr MAX_TTL TRANSPORT_PKT 0
                             (Transport.pack data)) in
     env (mgr_sendPkt addr destAddr (Packet.pack pkt)) ;;
     cout (if retransmitted then "!" else ".") ;;
     ret true)
    (fun e =>
     logError ("Failed to send DATA: " +:+ what e) ;;
     ret false).

Definition sendAck (srcPort destAddr destPort ackNum : Z) (advances : bool)
    (window : Z) : M (TcpManager * E) bool :=
  try_catch
    (let! ack := lift_exn (new_Transport srcPort destPort ACK window ackNum []) in
     let! addr := tget addr_ in
     let! pkt := lift_exn (new_Packet destAddr addr MAX_TTL TRANSPORT_PKT 0
                             (Transport.pack ack)) in
     env (mgr_sendPkt addr destAddr (Packet.pack pkt)) ;;
     cout (if advances then ":" else "?") ;;
     ret true)
    (fun e =>
     logError ("Failed to send ACK: " +:+ what e) ;;
     ret false).

Definition sendFinFromPorts (srcPort destAddr destPort : Z)
    : M (TcpManager * E) bool :=
  try_catch
    (let! fin := lift_exn (new_Transport srcPort destPort FIN 0 0 []) in
     let! addr := tget addr_ in
     let! pkt := lift_exn (new_Packet destAddr addr MAX_TTL TRANSPORT_PKT 0
                             (Transport.pack fin)) in
     env (mgr_sendPkt addr destAddr (Packet.pack pkt)) ;;
     cout "F" ;;
     ret true)
    (fun e =>
     logError ("Failed to send FIN: " +:+ what e) ;;
     ret false).

Definition registerListener (sk : ptr) (localPort : Z) : M (TcpManager * E) unit :=
  tmodify (fun t => set_listenersByPort (<[localPort := sk]> (listenersByPort_ t)) t).

Definition registerSynPending (sk : ptr) (remoteAddr remotePort : Z)
    : M (TcpManager * E) unit :=
  let! sock := deref sk in
  let k := mkKey remoteAddr remotePort (localPort_ sock) in
  tmodify (fun t => set_synPendingByKey (<[k := sk]> (synPendingByKey_ t)) t).

Definition registerEstablished (sk : ptr) (remoteAddr remotePort : Z)
    : M (TcpManager * E) unit :=
  let! sock := deref sk in
  let k := mkKey remoteAddr remotePort (localPort_ sock) in
  tmodify (fun t => set_establishedByKey (<[k := sk]> (establishedByKey_ t)) t).

(** The three erase-while-iterating loops keep the entries of other sockets. *)
Definition unregisterSocket (sk : ptr) : M (TcpManager * E) unit :=
  tmodify (fun t => set_listenersByPort
    (filter (fun kv => kv.2 <> sk) (listenersByPort_ t)) t) ;;
  tmodify (fun t => set_synPendingByKey
    (filter (fun kv => kv.2 <> sk) (synPendingByKey_ t)) t) ;;
  tmodify (fun t => set_establishedByKey
    (filter (fun kv => kv.2 <> sk) (establishedByKey_ t)) t).
End send.
