(* ===== verification/TcpSocket.v ===== *)
(** * Socket operations (src/node/tcp_socket.cpp)

    The methods of [TcpSocket] on a socket of the manager, in the order of the
    source file.  A [const std::uint8_t*] argument is the vector it points
    into, or [None] for a null pointer; an access outside the vector is
    undefined. *)

From S2P Require Import Prelude CppStrings Doubles Packet Transport Runtime TcpData TcpSend.

(** [std::vector<uint8_t>(buf + pos, buf + pos + n)]. *)
Definition slice {S} (buf : list byte) (pos n : Z) : M S (list byte) :=
  if (0 <=? pos) && (0 <=? n) && (pos + n <=? vsize buf)
  then ret (take (Z.to_nat n) (drop (Z.to_nat pos) buf))
  else fail UB.

Section ops.
Context {E : Type} `{Manager E}.

Definition bind_ (sk : ptr) (localPort : Z) : M (TcpManager * E) Z :=
  upd sk (set_localPort localPort) ;;
  ret 0.

Definition listen (sk : ptr) (backlog : Z) : M (TcpManager * E) Z :=
  let! s := deref sk in
  if negb (bool_decide (state_ s = CLOSED)) then ret (-1)
  else
    upd sk (set_state LISTEN) ;;
    upd sk (set_backlog backlog) ;;
    registerListener sk (localPort_ s) ;;
    ret 0.

Definition accept (sk : ptr) : M (TcpManager * E) (option ptr) :=
  let! s := deref sk in
  if negb (bool_decide (state_ s = LISTEN)) then ret None
  else
    match pendingConnQueue_ s with
    | [] => ret None
    | conn :: rest =>
        upd sk (set_pendingConnQueue rest) ;;
        let! c := deref conn in
        when (negb (bool_decide (state_ c = CLOSED)))
          (upd conn (set_state ESTABLISHED)) ;;
        ret (Some conn)
    end.

Definition connect (sk : ptr) (destAddr destPort : Z) : M (TcpManager * E) Z :=
  let! s := deref sk in
  if (localPort_ s <? 0) || (destPort <? 0) || (destPort >? MAX_PORT_NUM)
  then ret (-1)
  else
    upd sk (set_remoteAddr destAddr) ;;
    upd sk (set_remotePort destPort) ;;
    upd sk (set_synSeq (sndNxt_ s)) ;;
    let! ok := sendSyn sk destAddr destPort in
    if negb ok then ret (-1)
    else
      registerSynPending sk destAddr destPort ;;
      upd sk (set_state SYN_SENT) ;;
      ret 0.

Definition onRelease (sk : ptr) : M (TcpManager * E) unit := unregisterSocket sk.

Definition release (sk : ptr) : M (TcpManager * E) unit :=
  let! s := deref sk in
  if bool_decide (state_ s = CLOSED) then ret tt
  else
    onRelease sk ;;
    upd sk (set_pendingConnQueue []) ;;
    upd sk (set_backlog 0) ;;
    upd sk (set_remoteAddr (-1)) ;;
    upd sk (set_remotePort (-1)) ;;
    upd sk (set_localPort (-1)) ;;
    upd sk (set_state CLOSED).

Definition maybeSendFinOnDrain (sk : ptr) : M (TcpManager * E) unit :=
  let! s := deref sk in
  if negb (bool_decide (state_ s = SHUTDOWN)) then ret tt
  else if finSeq_ s >=? 0 then ret tt
  else if hasOutstanding s then ret tt
  else
    upd sk (set_finSeq (sndNxt_ s)) ;;
    let! ok := sendFin sk (remoteAddr_ s) (remotePort_ s) in
    when (negb ok) (release sk).

Definition close (sk : ptr) : M (TcpManager * E) unit :=
  let! s := deref sk in
  match state_ s with
  | CLOSED => ret tt
  | LISTEN | SYN_SENT => upd sk (set_state CLOSED)
  | ESTABLISHED => upd sk (set_state SHUTDOWN) ;; maybeSendFinOnDrain sk
  | SHUTDOWN => ret tt
  end.

Definition pushOutstanding (sk : ptr) (seg : OutstandingSeg)
    : M (TcpManager * E) unit :=
  upd sk (fun s => set_outstanding (outstanding_ s ++ [seg]) s).

(** The [while (len > 0)] loop of [write]: [inl r] is the [return r] inside
    the loop, [inr totalWritten] its normal end. *)
Fixpoint write_loop (fuel : nat) (sk : ptr) (buf : list byte)
    (pos len totalWritten : Z) : M (TcpManager * E) (Z + Z) :=
  match fuel with
  | O => fail NoFuel
  | S fuel =>
      if len <=? 0 then ret (inr totalWritten)
      else
        let! s := deref sk in
        let! flight := int (sndNxt_ s - sndUna_ s) in
        let eff := effectiveWindow s in
        if flight >=? eff then ret (inr totalWritten)
        else
          let! space := int (eff - flight) in
          let chunk := Z.min len (Z.min space Transport.MAX_PAYLOAD_SIZE) in
          if chunk <=? 0 then ret (inr totalWritten)
          else
            let! payload := slice buf pos chunk in
            let seqStart := sndNxt_ s in
            let! ok := sendData sk (remoteAddr_ s) (remotePort_ s) seqStart
                         payload false in
            if negb ok then ret (inl (-1))
            else
              let! now := managerNowMs in
              pushOutstanding sk (mkSeg seqStart chunk payload now false) ;;
              let! s' := deref sk in
              let! sndNxt := int (sndNxt_ s' + chunk) in
              upd sk (set_sndNxt sndNxt) ;;
              let! pos' := int (pos + chunk) in
              let! totalWritten' := int (totalWritten + chunk) in
              let! len' := int (len - chunk) in
              write_loop fuel sk buf pos' len' totalWritten'
  end.

Definition write (sk : ptr) (buf : option (list byte)) (pos len : Z)
    : M (TcpManager * E) Z :=
  let! s := deref sk in
  match buf with
  | None => ret (-1)
  | Some bytes =>
      if negb (bool_decide (state_ s = ESTABLISHED)) || (pos <? 0) || (len <? 0)
      then ret (-1)
      else if len =? 0 then ret 0
      else
        let wasIdle := negb (hasOutstanding s) in
        let! r := write_loop (S (Z.to_nat len)) sk bytes pos len 0 in
        match r with
        | inl early => ret early
        | inr totalWritten =>
            when (wasIdle && (totalWritten >? 0))
              (let! now := managerNowMs in
               let! s' := deref sk in
               let! deadline := long (now + rtoMs_ s') in
               upd sk (set_nextRtoDeadlineMs deadline)) ;;
            ret totalWritten
        end
  end.

(** [for (i = 0; i < n; ++i) { buf[pos + i] = recvBuf_.front();
    recvBuf_.pop_front(); }] on the vector [buf] and the deque. *)
Fixpoint read_loop (n : nat) (pos : nat) (buf recvBuf : list byte)
    : option (list byte * list byte) :=
  match n with
  | O => Some (buf, recvBuf)
  | S n' =>
      match recvBuf with
      | [] => None
      | b :: recvBuf' =>
          if decide (pos < length buf)%nat
          then read_loop n' (S pos) (<[pos := b]> buf) recvBuf'
          else None
      end
  end.

(** [read] returns its count and the caller's vector after the call. *)
Definition read (sk : ptr) (buf : option (list byte)) (pos len : Z)
    : M (TcpManager * E) (Z * option (list byte)) :=
  let! s := deref sk in
  match buf with
  | None => ret (-1, None)
  | Some bytes =>
      if (negb (bool_decide (state_ s = ESTABLISHED)) &&
          negb (bool_decide (state_ s = SHUTDOWN))) ||
         (pos <? 0) || (len <? 0)
      then ret (-1, Some bytes)
      else if (len =? 0) || (recvBufUsed_ s =? 0)
      then
        when (peerFinReceived_ s && (recvBufUsed_ s =? 0))
          (upd sk (set_state CLOSED)) ;;
        ret (0, Some bytes)
      else
        let n := Z.min len (recvBufUsed_ s) in
        match read_loop (Z.to_nat n) (Z.to_nat pos) bytes (recvBuf_ s) with
        | None => fail UB
        | Some (bytes', recvBuf') =>
            upd sk (set_recvBuf recvBuf') ;;
            let! used := int (recvBufUsed_ s - n) in
            upd sk (set_recvBufUsed used) ;;
            when (peerFinReceived_ s && (used =? 0))
              (upd sk (set_state CLOSED)) ;;
            ret (n, Some bytes')
        end
  end.

Definition initAccepted (sk : ptr) (localPort remoteAddr remotePort : Z)
    : M (TcpManager * E) unit :=
  upd sk (set_localPort localPort) ;;
  upd sk (set_remoteAddr remoteAddr) ;;
  upd sk (set_remotePort remotePort) ;;
  upd sk (set_sndUna 1) ;;
  upd sk (set_sndNxt 1) ;;
  upd sk (set_rcvNxt 1) ;;
  upd sk (set_cwnd INITIAL_CWND_BYTES) ;;
  upd sk (set_state ESTABLISHED).

Definition enqueueAccepted (sk child : ptr) : M (TcpManager * E) unit :=
  let! s := deref sk in
  when (vsize (pendingConnQueue_ s) <? backlog_ s)
    (upd sk (set_pendingConnQueue (pendingConnQueue_ s ++ [child]))).

Definition markEstablished (sk : ptr) : M (TcpManager * E) unit :=
  let! s := deref sk in
  when (negb (bool_decide (state_ s = CLOSED)))
    (upd sk (set_sndUna 1) ;;
     upd sk (set_sndNxt 1) ;;
     upd sk (set_rcvNxt 1) ;;
     upd sk (set_cwnd INITIAL_CWND_BYTES) ;;
     upd sk (set_peerFinReceived false) ;;
     upd sk (set_state ESTABLISHED)).

Definition markClosed (sk : ptr) : M (TcpManager * E) unit :=
  upd sk (set_state CLOSED).

Definition markPeerFinReceived (sk : ptr) : M (TcpManager * E) unit :=
  upd sk (set_peerFinReceived true) ;;
  let! s := deref sk in
  when (bool_decide (state_ s = ESTABLISHED)) (upd sk (set_state SHUTDOWN)).

Definition appendToRecvBuf (sk : ptr) (payload : list byte) (pos len : Z)
    : M (TcpManager * E) Z :=
  let! s := deref sk in
  if len <=? 0 then ret 0
  else
    let! space := int (RECV_BUF_CAP - recvBufUsed_ s) in
    let n := Z.min len space in
    let! bytes := slice payload pos (Z.max 0 n) in
    upd sk (set_recvBuf (recvBuf_ s ++ bytes)) ;;
    let! used := int (recvBufUsed_ s + n) in
    upd sk (set_recvBufUsed used) ;;
    ret n.

Definition additiveIncreaseCwnd (sk : ptr) : M (TcpManager * E) unit :=
  let! s := deref sk in
  let base := Z.max (cwnd_ s) CWND_MIN_BYTES in
  let inc := Z.max 1 (Z.quot (Transport.MAX_PAYLOAD_SIZE *
                              Transport.MAX_PAYLOAD_SIZE) base) in
  let! cwnd := int (cwnd_ s + inc) in
  upd sk (set_cwnd cwnd).

Definition multiplicativeDecreaseCwnd (sk : ptr) : M (TcpManager * E) unit :=
  let! s := deref sk in
  let! half := double_to_int (dfloor (dmul (dofZ (cwnd_ s)) AIMD_MD_FACTOR)) in
  upd sk (set_cwnd (Z.max CWND_MIN_BYTES half)).

(** The loop of [popAckedThrough] on the deque. *)
Fixpoint pop_loop {S} (ackNum : Z) (segs : list OutstandingSeg)
    (lastPopped : option OutstandingSeg)
    : M S (list OutstandingSeg * option OutstandingSeg) :=
  match segs with
  | [] => ret ([], lastPopped)
  | head :: rest =>
      let! seqEnd := int (seqStart head + len head) in
      if seqEnd <=? ackNum
      then pop_loop ackNum rest (Some head)
      else ret (segs, lastPopped)
  end.

Definition popAckedThrough (sk : ptr) (ackNum : Z)
    : M (TcpManager * E) (option OutstandingSeg) :=
  let! s := deref sk in
  let! '(segs, lastPopped) := pop_loop ackNum (outstanding_ s) None in
  upd sk (set_outstanding segs) ;;
  upd sk (set_sndUna ackNum) ;;
  match segs with
  | [] => upd sk (set_nextRtoDeadlineMs 0)
  | _ =>
      let! now := managerNowMs in
      let! deadline := long (now + rtoMs_ s) in
      upd sk (set_nextRtoDeadlineMs deadline)
  end ;;
  ret lastPopped.

Definition onSampleRTT (sk : ptr) (sampleMs : Z) : M (TcpManager * E) unit :=
  let! s := deref sk in
  if negb (hasEstRTT_ s)
  then
    upd sk (set_estRTTms (dofZ sampleMs)) ;;
    upd sk (set_devRTTms (ddiv (dofZ sampleMs) (dofZ 2))) ;;
    upd sk (set_hasEstRTT true)
  else
    let sample := dofZ sampleMs in
    let oldEstRTT := estRTTms_ s in
    upd sk (set_estRTTms (dadd (dmul (dsub (dofZ 1) ALPHA) (estRTTms_ s))
                               (dmul ALPHA sample))) ;;
    upd sk (set_devRTTms (dadd (dmul (dsub (dofZ 1) BETA) (devRTTms_ s))
                               (dmul BETA (dabs (dsub sample oldEstRTT))))).

Definition doubleRto (sk : ptr) : M (TcpManager * E) unit :=
  let! s := deref sk in
  let! twice := long (rtoMs_ s * 2) in
  upd sk (set_rtoMs (Z.min twice RTO_MAX_MS)).
End ops.
