(* ===== verification/TcpManager.v ===== *)
(** * Dispatch, retransmission and the four segment handlers
      (src/node/tcp_manager.cpp) *)

From S2P Require Import Prelude CppStrings Doubles Packet Transport Runtime TcpData TcpSend TcpSocket.

Section handlers.
Context {E : Type} `{Manager E} `{MapOrder}.

(** The inner loop of [retransmissionTick] over the socket's deque: [segs]
    is what the iterator has still to visit, [i] its position. *)
Fixpoint resend_loop (sk : ptr) (i : nat) (segs : list OutstandingSeg)
    : M (TcpManager * E) unit :=
  match segs with
  | [] => ret tt
  | seg :: rest =>
      let! sock := deref sk in
      sendData sk (remoteAddr_ sock) (remotePort_ sock) (seqStart seg)
        (data seg) true ;;
      upd sk (fun s => set_outstanding
                         (alter set_retransmitted i (outstanding_ s)) s) ;;
      resend_loop sk (S i) rest
  end.

Definition tick_socket (now : Z) (sk : ptr) : M (TcpManager * E) unit :=
  let! sock := deref sk in
  if negb (hasOutstanding sock) then ret tt
  else
    let deadline := nextRtoDeadlineMs_ sock in
    if (deadline =? 0) || (now <? deadline) then ret tt
    else
      let! n := int (timeoutCount sock + 1) in
      upd sk (set_timeoutCount n) ;;
      doubleRto sk ;;
      multiplicativeDecreaseCwnd sk ;;
      resend_loop sk 0 (outstanding_ sock) ;;
      let! sock' := deref sk in
      let! deadline' := long (now + rtoMs_ sock') in
      upd sk (set_nextRtoDeadlineMs deadline').

Fixpoint tick_loop (now : Z) (entries : list (ConnKey * ptr))
    : M (TcpManager * E) unit :=
  match entries with
  | [] => ret tt
  | kv :: rest => tick_socket now kv.2 ;; tick_loop now rest
  end.

Definition retransmissionTick : M (TcpManager * E) unit :=
  let! now := managerNowMs in
  let! est := tget establishedByKey_ in
  tick_loop now (map_order est) ;;
  let! addr := tget addr_ in
  env (mgr_addTimer addr RETRANS_TICK_MS (RetransmissionTick addr)).

Definition start : M (TcpManager * E) unit :=
  let! addr := tget addr_ in
  env (mgr_addTimer addr RETRANS_TICK_MS (RetransmissionTick addr)).

Definition onSyn (srcAddr : Z) (syn : Transport) : M (TcpManager * E) unit :=
  let localPort := destPort_ syn in
  let remotePort := srcPort_ syn in
  let! listeners := tget listenersByPort_ in
  match listeners !! localPort with
  | None =>
      sendFinFromPorts localPort srcAddr remotePort ;;
      ret tt
  | Some listener =>
      let! child := socket in
      initAccepted child localPort srcAddr remotePort ;;
      enqueueAccepted listener child ;;
      registerEstablished child srcAddr remotePort ;;
      let! ackNum := int (seqNum_ syn + 1) in
      let! c := deref child in
      sendAck localPort srcAddr remotePort ackNum true (getRecvBufAvailable c) ;;
      ret tt
  end.

(** The last part of [onAck]: an acknowledgment for a connection that is
    open or closing. *)
Definition onAck_established (sk : ptr) (ack : Transport)
    : M (TcpManager * E) unit :=
  let! s := deref sk in
  let ackNum := seqNum_ ack in
  let sndUna := sndUna_ s in
  let sndNxt := sndNxt_ s in
  if ackNum >? sndNxt then cout "?"
  else
    upd sk (setRwnd (window_ ack)) ;;
    if ackNum <=? sndUna then cout "?"
    else
      let! popped := popAckedThrough sk ackNum in
      additiveIncreaseCwnd sk ;;
      match popped with
      | Some seg =>
          if negb (retransmitted seg)
          then
            let! now := managerNowMs in
            let! sampleRTT := long (now - firstSentAtMs seg) in
            onSampleRTT sk sampleRTT
          else ret tt
      | None => ret tt
      end ;;
      maybeSendFinOnDrain sk ;;
      cout ":".

Definition onAck (srcAddr : Z) (ack : Transport) : M (TcpManager * E) unit :=
  let key := mkKey srcAddr (srcPort_ ack) (destPort_ ack) in
  let! pendings := tget synPendingByKey_ in
  match pendings !! key with
  | Some pending =>
      let! p := deref pending in
      let! expectedAck := int (synSeq_ p + 1) in
      if seqNum_ ack =? expectedAck
      then
        upd pending (setRwnd (window_ ack)) ;;
        markEstablished pending ;;
        tmodify (fun t => set_synPendingByKey
                            (delete key (synPendingByKey_ t)) t) ;;
        registerEstablished pending srcAddr (srcPort_ ack) ;;
        cout ":"
      else cout "?"
  | None =>
      let! est := tget establishedByKey_ in
      match est !! key with
      | None => cout "?"
      | Some established =>
          let! s := deref established in
          let! finAcked :=
            if isClosurePending s && (finSeq_ s >=? 0)
            then let! expectedAck := int (finSeq_ s + 1) in
                 ret (seqNum_ ack =? expectedAck)
            else ret false in
          if finAcked
          then
            markClosed established ;;
            tmodify (fun t => set_establishedByKey
                                (delete key (establishedByKey_ t)) t) ;;
            cout ":"
          else if isConnected s || isClosurePending s
          then onAck_established established ack
          else cout "?"
      end
  end.

Definition onFin (srcAddr : Z) (fin : Transport) : M (TcpManager * E) unit :=
  let key := mkKey srcAddr (srcPort_ fin) (destPort_ fin) in
  let! est := tget establishedByKey_ in
  match est !! key with
  | Some established =>
      markPeerFinReceived established ;;
      let! ackNum := int (seqNum_ fin + 1) in
      let! s := deref established in
      sendAck (destPort_ fin) srcAddr (srcPort_ fin) ackNum true
        (getRecvBufAvailable s) ;;
      ret tt
  | None =>
      let! pendings := tget synPendingByKey_ in
      match pendings !! key with
      | Some pending =>
          tmodify (fun t => set_synPendingByKey
                              (delete key (synPendingByKey_ t)) t) ;;
          markClosed pending
      | None => ret tt
      end
  end.

Definition onData (srcAddr : Z) (seg : Transport) : M (TcpManager * E) unit :=
  let key := mkKey srcAddr (srcPort_ seg) (destPort_ seg) in
  let! est := tget establishedByKey_ in
  match est !! key with
  | None => ret tt
  | Some established =>
      let! s := deref established in
      if negb (isConnected s || isClosurePending s) then ret tt
      else
        let segSeq := seqNum_ seg in
        let payload := payload_ seg in
        let segLen := vsize payload in
        if segLen =? 0
        then
          sendAck (localPort_ s) srcAddr (srcPort_ seg) (rcvNxt_ s) false
            (getRecvBufAvailable s) ;;
          ret tt
        else if segSeq =? rcvNxt_ s
        then
          let avail := getRecvBufAvailable s in
          if avail <? segLen
          then
            cout "!" ;;
            sendAck (localPort_ s) srcAddr (srcPort_ seg) (rcvNxt_ s) false
              (getRecvBufAvailable s) ;;
            ret tt
          else
            let! accepted := appendToRecvBuf established payload 0 segLen in
            let! rcvNxt := int (rcvNxt_ s + accepted) in
            upd established (set_rcvNxt rcvNxt) ;;
            cout "." ;;
            let! s' := deref established in
            sendAck (localPort_ s') srcAddr (srcPort_ seg) (rcvNxt_ s') true
              (getRecvBufAvailable s') ;;
            ret tt
        else
          cout "!" ;;
          sendAck (localPort_ s) srcAddr (srcPort_ seg) (rcvNxt_ s) false
            (getRecvBufAvailable s) ;;
          ret tt
  end.

Definition receiveTransport (srcAddr : Z) (transport : Transport)
    : M (TcpManager * E) unit :=
  let type := type_ transport in
  if type =? SYN then cout "S" ;; onSyn srcAddr transport
  else if type =? ACK then onAck srcAddr transport
  else if type =? FIN then cout "F" ;; onFin srcAddr transport
  else if type =? DATA then onData srcAddr transport
  else ret tt.
End handlers.
