(* ===== verification/TcpRun.v ===== *)
(** * Symbolic execution of the transport layer

    Rules for the state accesses and for the five sending helpers.  All five
    are instances of one function, [transmit]; against the laws of the
    environment it never faults and leaves the manager as it was. *)

From S2P Require Import Prelude CppStrings Doubles Packet Transport Runtime TcpData TcpSend TcpSocket.

(** ** Sockets in the manager *)

Definition sock_at (sk : ptr) (s : TcpSocket) (t : TcpManager) : Prop :=
  allSockets_ t !! sk = Some s.

Definition put_sock (sk : ptr) (s : TcpSocket) (t : TcpManager) : TcpManager :=
  set_allSockets (<[sk := s]> (allSockets_ t)) t.

Lemma put_sock_at sk s s' t : sock_at sk s t -> sock_at sk s' (put_sock sk s' t).
Proof.
  unfold sock_at, put_sock. cbn. intros Hs. apply list_lookup_insert_eq.
  by eapply lookup_lt_Some.
Qed.

Lemma put_sock_ne sk sk' s s' t :
  sk <> sk' -> sock_at sk s (put_sock sk' s' t) <-> sock_at sk s t.
Proof. unfold sock_at, put_sock. cbn. intros. by rewrite list_lookup_insert_ne. Qed.

Lemma put_sock_put sk s s' t : put_sock sk s' (put_sock sk s t) = put_sock sk s' t.
Proof.
  unfold put_sock. destruct t. cbn. unfold set_allSockets. cbn. f_equal.
  apply list_insert_insert_eq.
Qed.

Lemma put_sock_id sk s t : sock_at sk s t -> put_sock sk s t = t.
Proof.
  unfold sock_at, put_sock. destruct t. cbn. unfold set_allSockets. cbn.
  intros. by rewrite list_insert_id.
Qed.

Lemma addr_put sk s t : addr_ (put_sock sk s t) = addr_ t.
Proof. done. Qed.
Lemma listeners_put sk s t : listenersByPort_ (put_sock sk s t) = listenersByPort_ t.
Proof. done. Qed.
Lemma pending_put sk s t : synPendingByKey_ (put_sock sk s t) = synPendingByKey_ t.
Proof. done. Qed.
Lemma established_put sk s t : establishedByKey_ (put_sock sk s t) = establishedByKey_ t.
Proof. done. Qed.
Lemma sockets_put sk s t : allSockets_ (put_sock sk s t) = <[sk := s]> (allSockets_ t).
Proof. done. Qed.

#[global] Opaque put_sock.
Create Rewrite HintDb tcp.
#[export] Hint Rewrite addr_put listeners_put pending_put established_put
  put_sock_put : tcp.
#[export] Hint Resolve put_sock_at : nb.

Section run.
Context {E : Type}.
Implicit Types (t : TcpManager) (e : E) (s : TcpSocket).

Lemma deref_run sk s t e : sock_at sk s t -> deref sk (t, e) = (Ret s, (t, e)).
Proof. unfold sock_at, deref, tget, bind, gets. cbn. by intros ->. Qed.

Lemma upd_run sk s f t e :
  sock_at sk s t -> upd sk f (t, e) = (Ret tt, (put_sock sk (f s) t, e)).
Proof.
  intros Hs. unfold upd, bind. rewrite (deref_run _ _ _ _ Hs).
  unfold tmodify, modify. cbn. do 2 f_equal. Transparent put_sock.
  unfold put_sock. f_equal. by apply list_alter_insert.
  Opaque put_sock.
Qed.

Lemma wp_deref sk s t e (Q : TcpSocket -> TcpManager * E -> Prop) X :
  sock_at sk s t -> Q s (t, e) -> wp (deref sk) (t, e) Q X.
Proof. intros Hs HQ. unfold wp. by rewrite (deref_run _ _ _ _ Hs). Qed.

Lemma wp_upd sk s f t e (Q : unit -> TcpManager * E -> Prop) X :
  sock_at sk s t -> Q tt (put_sock sk (f s) t, e) -> wp (upd sk f) (t, e) Q X.
Proof. intros Hs HQ. unfold wp. by rewrite (upd_run _ _ _ _ _ Hs). Qed.

Lemma wp_tget {A} (f : TcpManager -> A) t e (Q : A -> TcpManager * E -> Prop) X :
  Q (f t) (t, e) -> wp (tget f) (t, e) Q X.
Proof. done. Qed.

Lemma wp_tmodify f t e (Q : unit -> TcpManager * E -> Prop) X :
  Q tt (f t, e) -> wp (tmodify f) (t, e) Q X.
Proof. done. Qed.

Lemma wp_env {A} (m : M E A) t e (Q : A -> TcpManager * E -> Prop) X :
  wp m e (fun a e' => Q a (t, e')) (fun f e' => X f (t, e')) ->
  wp (env m) (t, e) Q X.
Proof. intros Hm. unfold env. by apply wp_zoom. Qed.
End run.

(** ** One function behind the sending helpers *)

Section transmit.
Context {E : Type} `{Manager E}.

Definition transmit (seg : exn + Transport) (destAddr : Z) (trace err : string)
    : M (TcpManager * E) bool :=
  try_catch
    (let! t := lift_exn seg in
     let! addr := tget addr_ in
     let! pkt := lift_exn (new_Packet destAddr addr MAX_TTL TRANSPORT_PKT 0
                             (Transport.pack t)) in
     env (mgr_sendPkt addr destAddr (Packet.pack pkt)) ;;
     cout trace ;;
     ret true)
    (fun e =>
     logError (err +:+ what e) ;;
     ret false).

Lemma sendSyn_transmit sk destAddr destPort s t (e : E) :
  sock_at sk s t ->
  sendSyn sk destAddr destPort (t, e) =
  transmit (new_Transport (localPort_ s) destPort SYN 0 (synSeq_ s) []) destAddr
    "S" "Failed to send SYN: " (t, e).
Proof.
  intros Hs. unfold sendSyn, transmit, try_catch. erewrite bind_run; [done|].
  by apply deref_run.
Qed.

Lemma sendFin_transmit sk destAddr destPort s t (e : E) :
  sock_at sk s t ->
  sendFin sk destAddr destPort (t, e) =
  transmit (new_Transport (localPort_ s) destPort FIN 0 (finSeq_ s) []) destAddr
    "F" "Failed to send FIN: " (t, e).
Proof.
  intros Hs. unfold sendFin, transmit, try_catch. erewrite bind_run; [done|].
  by apply deref_run.
Qed.

Lemma sendData_transmit sk destAddr destPort seq payload (re : bool) s t (e : E) :
  sock_at sk s t ->
  sendData sk destAddr destPort seq payload re (t, e) =
  transmit (new_Transport (localPort_ s) destPort DATA 0 seq payload) destAddr
    (if re then "!" else ".") "Failed to send DATA: " (t, e).
Proof.
  intros Hs. unfold sendData, transmit, try_catch. erewrite bind_run; [done|].
  by apply deref_run.
Qed.

Lemma sendAck_transmit srcPort destAddr destPort ackNum (adv : bool) window :
  sendAck srcPort destAddr destPort ackNum adv window =
  transmit (new_Transport srcPort destPort ACK window ackNum []) destAddr
    (if adv then ":" else "?") "Failed to send ACK: ".
Proof. done. Qed.

Lemma sendFinFromPorts_transmit srcPort destAddr destPort :
  sendFinFromPorts srcPort destAddr destPort =
  transmit (new_Transport srcPort destPort FIN 0 0 []) destAddr
    "F" "Failed to send FIN: ".
Proof. done. Qed.

(** The packet that carries a segment from [addr] to [dest]. *)
Definition tcp_packet (addr dest : Z) (seg : Transport) : Packet :=
  mkPacket dest addr MAX_TTL TRANSPORT_PKT 0 (Transport.pack seg).

Lemma tcp_packet_new addr dest seg :
  0 <= addr <= 255 -> 0 <= dest <= 255 -> transport_ok seg ->
  new_Packet dest addr MAX_TTL TRANSPORT_PKT 0 (Transport.pack seg) =
    inr (tcp_packet addr dest seg) /\
  packet_ok (tcp_packet addr dest seg).
Proof.
  intros Ha Hd Hseg. pose proof (pack_fits seg Hseg) as Hf.
  unfold Packet.MAX_PAYLOAD_SIZE, Packet.MAX_PACKET_SIZE, Packet.HEADER_SIZE in Hf.
  assert (Hv : isValid (tcp_packet addr dest seg) = true).
  { apply isValid_spec. cbn. unfold MAX_TTL, TRANSPORT_PKT. lia. }
  split.
  - by apply new_Packet_spec.
  - split; [done|]. cbn. unfold INT_MIN, INT_MAX. lia.
Qed.

Lemma tcp_packet_sendable addr dest seg :
  0 <= addr <= 255 -> 0 <= dest <= 255 -> transport_ok seg ->
  sendable addr dest (Packet.pack (tcp_packet addr dest seg)).
Proof.
  intros Ha Hd Hseg. destruct (tcp_packet_new addr dest seg) as [_ Hok]; [done..|].
  pose proof (pack_fits seg Hseg) as Hf. split; [|split; [|split]].
  - unfold validAddress, MAX_ADDRESS. lia.
  - unfold validAddress, MAX_ADDRESS. lia.
  - rewrite packet_pack_length. cbn.
    unfold Packet.MAX_PAYLOAD_SIZE in Hf. lia.
  - exists (tcp_packet addr dest seg). split; [by apply packet_unpack_pack|].
    unfold isValidToSend. by rewrite (proj1 Hok).
Qed.

(** What [transmit] does with a well-formed segment between valid addresses,
    in any environment that accepts sendable packets. *)
Lemma transmit_run seg dest trace err t (e : E) :
  0 <= addr_ t <= 255 -> 0 <= dest <= 255 -> transport_ok seg ->
  transmit (inr seg) dest trace err (t, e) =
  try_catch (env (mgr_sendPkt (addr_ t) dest
                    (Packet.pack (tcp_packet (addr_ t) dest seg))) ;;
             cout trace ;; ret true)
    (fun x => logError (err +:+ what x) ;; ret false) (t, e).
Proof.
  intros Ha Hd Hseg. unfold transmit, try_catch.
  destruct (tcp_packet_new (addr_ t) dest seg) as [Hn _]; [done..|].
  unfold bind at 1. cbn [lift_exn ret]. unfold bind at 1. cbn [tget gets fst].
  unfold bind at 1. by rewrite Hn.
Qed.

Context `{!ManagerLaws E}.

(** The only faults are the environment's own. *)
Definition env_fault : fault -> TcpManager * E -> Prop := fun f s => mgr_fault f s.2.

Lemma wp_emit o t e (Q : unit -> TcpManager * E -> Prop) :
  mgr_ok e -> (forall e', sends e [] e' -> Q tt (t, e')) ->
  wp (env (mgr_emit o)) (t, e) Q env_fault.
Proof.
  intros He HQ. apply wp_env.
  eapply wp_conseq; [by apply mgr_emit_ok| |by intros].
  intros [] e' He'. by apply HQ.
Qed.

Lemma wp_cout str t e (Q : unit -> TcpManager * E -> Prop) :
  mgr_ok e -> (forall e', sends e [] e' -> Q tt (t, e')) ->
  wp (cout str) (t, e) Q env_fault.
Proof. apply wp_emit. Qed.

Lemma wp_now t e (Q : Z -> TcpManager * E -> Prop) :
  mgr_ok e ->
  (forall n e', sends e [] e' -> 0 <= n <= TIME_LIMIT -> Q n (t, e')) ->
  wp managerNowMs (t, e) Q env_fault.
Proof.
  intros He HQ. apply wp_env.
  eapply wp_conseq; [by apply mgr_now_ok| |by intros].
  intros n e' [Hn He']. by apply HQ.
Qed.

Lemma wp_addTimer node delta cb t e (Q : unit -> TcpManager * E -> Prop) :
  mgr_ok e -> 0 < delta <= TIME_LIMIT -> (forall e', sends e [] e' -> Q tt (t, e')) ->
  wp (env (mgr_addTimer node delta cb)) (t, e) Q env_fault.
Proof.
  intros He Hd HQ. apply wp_env.
  eapply wp_conseq; [by apply mgr_addTimer_ok| |by intros].
  intros [] e' He'. by apply HQ.
Qed.

Lemma wp_logError str t e (Q : unit -> TcpManager * E -> Prop) :
  mgr_ok e -> (forall e', sends e [] e' -> Q tt (t, e')) ->
  wp (logError str) (t, e) Q env_fault.
Proof. intros He HQ. apply wp_bind, wp_tget. by apply wp_emit. Qed.

Lemma wp_try_env {A} (m : M (TcpManager * E) A) h s Q :
  wp m s Q (fun f s' =>
    match f with Thrown e => wp (h e) s' Q env_fault | _ => env_fault f s' end) ->
  wp (try_catch m h) s Q env_fault.
Proof. apply wp_try. Qed.

(** The datagram that carries a segment. *)
Definition tcp_datagram (addr dest : Z) (seg : Transport) : datagram :=
  (addr, dest, Packet.pack (tcp_packet addr dest seg)).

(** A well-formed segment to a valid address is sent. *)
Lemma wp_transmit seg dest trace err t e (Q : bool -> TcpManager * E -> Prop) :
  mgr_ok e -> 0 <= addr_ t <= 255 -> 0 <= dest <= 255 -> transport_ok seg ->
  (forall e', sends e [tcp_datagram (addr_ t) dest seg] e' -> Q true (t, e')) ->
  wp (transmit (inr seg) dest trace err) (t, e) Q env_fault.
Proof.
  intros He Ha Hd Hseg HQ. unfold wp. rewrite transmit_run by done.
  fold (wp (try_catch (env (mgr_sendPkt (addr_ t) dest
               (Packet.pack (tcp_packet (addr_ t) dest seg))) ;;
             cout trace ;; ret true)
           (fun x => logError (err +:+ what x) ;; ret false)) (t, e) Q env_fault).
  assert (Hx : forall f e', mgr_fault f e' ->
    match f with
    | Thrown e0 => wp (logError (err +:+ what e0) ;; ret false) (t, e') Q env_fault
    | _ => env_fault f (t, e')
    end).
  { intros [x| | |] e' Hf; [by apply mgr_fault_exn in Hf|done..]. }
  apply wp_try_env, wp_bind, wp_env.
  eapply wp_conseq; [apply mgr_sendPkt_ok; [done|by apply tcp_packet_sendable]| |apply Hx].
  cbv beta. intros b e' He'. apply wp_bind.
  eapply wp_conseq; [apply (wp_cout _ _ _ (fun _ s => exists e'', s = (t, e'') /\ sends e' [] e''));
    [by apply He'|eauto]| |].
  - intros [] ? (e'' & -> & He''). apply wp_ret, HQ. by eapply sends_nil_r.
  - intros f [t' e''] Hf. destruct f; [by apply mgr_fault_exn in Hf|done..].
Qed.

(** Whatever the arguments, [transmit] does not fault and does not touch the
    manager: an illegal segment is only logged. *)
Lemma wp_transmit_any sp dp ty w n p dest trace err t e
    (Q : bool -> TcpManager * E -> Prop) :
  mgr_ok e -> INT_MIN <= w <= INT_MAX -> INT_MIN <= n <= INT_MAX ->
  (forall e', sends e [tcp_datagram (addr_ t) dest (mkTransport sp dp ty w n p)] e' ->
     0 <= dest <= 255 -> transport_ok (mkTransport sp dp ty w n p) -> Q true (t, e')) ->
  (forall e', sends e [] e' -> Q false (t, e')) ->
  wp (transmit (new_Transport sp dp ty w n p) dest trace err) (t, e) Q env_fault.
Proof.
  intros He Hw Hn HT HF.
  assert (Hlog : forall x, wp (logError (err +:+ what x) ;; ret false) (t, e) Q env_fault).
  { intros x. apply wp_bind, wp_logError; [done|]. intros. apply wp_ret. by apply HF. }
  destruct (new_Transport sp dp ty w n p) as [x|seg] eqn:Hseg.
  { apply wp_try_env. apply wp_bind, wp_fail, Hlog. }
  assert (seg = mkTransport sp dp ty w n p /\ transport_ok seg) as [-> Hok].
  { apply new_Transport_spec in Hseg as (-> & Hr). by split. }
  destruct (decide (0 <= addr_ t <= 255 /\ 0 <= dest <= 255)) as [[Ha Hd]|Hbad].
  { apply wp_transmit; [done..|]. intros. by apply HT. }
  apply wp_try_env, wp_bind, wp_ret, wp_bind, wp_tget, wp_bind. unfold new_Packet.
  destruct (isValid_fields _ _ _ _ _) eqn:Hv.
  { apply isValid_fields_spec in Hv. lia. }
  apply wp_fail, Hlog.
Qed.
End transmit.
