(* ===== verification/TcpGrow.v ===== *)
(** * What every operation of the transport layer keeps

    No operation changes the manager's address or takes a socket away: a pointer
    to a socket stays valid, and new sockets go behind the old ones.  And what
    an operation does to the environment is what calls of the interface do to
    it, with timers that lie in the future.  Proved of each operation by
    composition, with no hypothesis on the state. *)

From S2P Require Import Prelude CppStrings Doubles Frame Packet Transport Runtime TcpData TcpSend TcpSocket TcpManager TcpRun.

Definition grows (t t' : TcpManager) : Prop :=
  addr_ t' = addr_ t /\ (length (allSockets_ t) <= length (allSockets_ t'))%nat.

#[export] Instance grows_preorder : PreOrder grows.
Proof.
  split.
  - intros t. by split.
  - intros t1 t2 t3 [A1 L1] [A2 L2]. split; [congruence|lia].
Qed.

Lemma grows_lookup t t' sk s :
  grows t t' -> sock_at sk s t -> exists s', sock_at sk s' t'.
Proof.
  intros [_ Hl] Hs. unfold sock_at in *. apply lookup_lt_Some in Hs.
  destruct (lookup_lt_is_Some_2 (allSockets_ t') sk) as [s' ?]; [lia|by exists s'].
Qed.

(** ** A relation that every call of the environment keeps *)

Class EnvFrame (E : Type) `{Manager E} := {
  ef_rel : relation E;
  ef_fault : fault -> Prop;
  #[global] ef_preorder :: PreOrder ef_rel;
  #[global] ef_plain :: PlainFaults ef_fault;
  ef_now : keeps ef_rel ef_fault mgr_now;
  ef_sendPkt : forall from to pkt, keeps ef_rel ef_fault (mgr_sendPkt from to pkt);
  ef_addTimer : forall node delta cb,
    0 < delta -> keeps ef_rel ef_fault (mgr_addTimer node delta cb);
  ef_emit : forall o, keeps ef_rel ef_fault (mgr_emit o)
}.

(** Nothing is claimed of the environment. *)
Definition any_env {E} `{Manager E} : EnvFrame E.
Proof.
  refine {| ef_rel _ _ := True; ef_fault _ := True |}; try (intros; by split).
  all: intros; intros s; split; [done|]; by case_match.
Defined.

(** An environment that does nothing. *)
Definition no_env : Manager unit := {|
  mgr_now := ret 0;
  mgr_sendPkt _ _ _ := ret true;
  mgr_addTimer _ _ _ := ret tt;
  mgr_emit _ := ret tt
|}.

Section grow.
Context {E : Type} `{EnvFrame E}.

Definition tcp_rel (s s' : TcpManager * E) : Prop := grows s.1 s'.1 /\ ef_rel s.2 s'.2.

#[export] Instance tcp_rel_preorder : PreOrder tcp_rel.
Proof.
  split.
  - intros s. by split.
  - intros s1 s2 s3 [] []. split; by etrans.
Qed.

Definition framed {A} (m : M (TcpManager * E) A) : Prop := keeps tcp_rel ef_fault m.

Lemma framed_tget {A} (f : TcpManager -> A) : framed (tget f).
Proof. apply keeps_gets. apply _. Qed.

Lemma framed_tmodify f : (forall t, grows t (f t)) -> framed (tmodify f).
Proof. intros Hf. apply keeps_modify; [apply _|]. intros s. by split. Qed.

Lemma framed_env {A} (m : M E A) : keeps ef_rel ef_fault m -> framed (env m).
Proof. intros Hm. eapply keeps_zoom; [apply _|exact Hm|]. intros s t Ht. by split. Qed.

Lemma framed_deref sk : framed (deref sk).
Proof.
  apply keeps_bind; [apply _|apply framed_tget|]. intros socks.
  case_match; [apply keeps_ret, _|apply keeps_fail; [apply _|apply pf_ub]].
Qed.

Lemma framed_upd sk f : framed (upd sk f).
Proof.
  apply keeps_bind; [apply _|apply framed_deref|]. intros _. apply framed_tmodify.
  intros t. split; [done|]. cbn. by rewrite length_alter.
Qed.

Lemma framed_env_now : framed (env mgr_now).
Proof. apply framed_env, ef_now. Qed.

Lemma framed_env_send from to pkt : framed (env (mgr_sendPkt from to pkt)).
Proof. apply framed_env, ef_sendPkt. Qed.

Lemma framed_env_timer node delta cb : 0 < delta -> framed (env (mgr_addTimer node delta cb)).
Proof. intros Hd. by apply framed_env, ef_addTimer. Qed.

Lemma framed_env_emit o : framed (env (mgr_emit o)).
Proof. apply framed_env, ef_emit. Qed.
End grow.
#[export] Hint Resolve framed_tget framed_deref framed_upd framed_env_now framed_env_send framed_env_emit
  : frame.

Ltac grow_step :=
  lazymatch goal with
  | |- framed ?m => change (keeps tcp_rel ef_fault m)
  | |- keeps _ _ (tmodify _) =>
      apply framed_tmodify; intros ?; split; cbn; rewrite ?length_app; cbn; lia
  | |- keeps _ _ (env (mgr_addTimer _ _ _)) => apply framed_env_timer; done
  | |- keeps _ _ ?m => first [frame_step | change (framed m); solve [eauto with frame]]
  end.
Ltac grow := repeat first [progress cbv zeta | grow_step].

Section operations.
Context {E : Type} `{EnvFrame E} `{MapOrder}.

Lemma framed_slice buf pos n : framed (slice (S := TcpManager * E) buf pos n).
Proof. unfold slice. grow. Qed.

Lemma framed_socket : framed (E := E) socket.
Proof.
  intros st. split; [|done]. split; [|done]. split; [done|]. cbn. rewrite length_app. lia.
Qed.

Lemma framed_cout s : framed (E := E) (cout s).
Proof. unfold cout. grow. Qed.

Lemma framed_logError s : framed (E := E) (TcpSend.logError s).
Proof. unfold TcpSend.logError. grow. Qed.

Lemma framed_now : framed (E := E) managerNowMs.
Proof. unfold managerNowMs. grow. Qed.
Hint Resolve framed_slice framed_socket framed_cout framed_logError framed_now : frame.

Lemma framed_sendSyn sk a p : framed (E := E) (sendSyn sk a p).
Proof. unfold sendSyn. grow. Qed.

Lemma framed_sendFin sk a p : framed (E := E) (sendFin sk a p).
Proof. unfold sendFin. grow. Qed.

Lemma framed_sendData sk a p n l b : framed (E := E) (sendData sk a p n l b).
Proof. unfold sendData. grow. Qed.

Lemma framed_sendAck sp a p n b w : framed (E := E) (sendAck sp a p n b w).
Proof. unfold sendAck. grow. Qed.

Lemma framed_sendFinFromPorts sp a p : framed (E := E) (sendFinFromPorts sp a p).
Proof. unfold sendFinFromPorts. grow. Qed.

Lemma framed_registerListener sk p : framed (E := E) (registerListener sk p).
Proof. unfold registerListener. grow. Qed.

Lemma framed_registerSynPending sk a p : framed (E := E) (registerSynPending sk a p).
Proof. unfold registerSynPending. grow. Qed.

Lemma framed_registerEstablished sk a p : framed (E := E) (registerEstablished sk a p).
Proof. unfold registerEstablished. grow. Qed.

Lemma framed_release sk : framed (E := E) (release sk).
Proof. unfold release, onRelease, unregisterSocket. grow. Qed.
Hint Resolve framed_sendSyn framed_sendFin framed_sendData framed_sendAck
  framed_sendFinFromPorts framed_registerListener framed_registerSynPending
  framed_registerEstablished framed_release : frame.

Lemma framed_bind_ sk p : framed (E := E) (bind_ sk p).
Proof. unfold bind_. grow. Qed.

Lemma framed_listen sk b : framed (E := E) (listen sk b).
Proof. unfold listen. grow. Qed.

Lemma framed_accept sk : framed (E := E) (accept sk).
Proof. unfold accept. grow. Qed.

Lemma framed_connect sk a p : framed (E := E) (connect sk a p).
Proof. unfold connect. grow. Qed.

Lemma framed_drain sk : framed (E := E) (maybeSendFinOnDrain sk).
Proof. unfold maybeSendFinOnDrain. grow. Qed.
Hint Resolve framed_drain : frame.

Lemma framed_close sk : framed (E := E) (close sk).
Proof. unfold close. grow. Qed.

(** The loop takes a byte at least each time, so its fuel lasts. *)
Lemma framed_write_loop fuel sk buf pos len n :
  (Z.to_nat len < fuel)%nat -> framed (E := E) (write_loop fuel sk buf pos len n).
Proof.
  revert pos len n. induction fuel as [|fuel IH]; intros pos len n Hf; [lia|].
  cbn [write_loop]. unfold pushOutstanding. grow. apply IH. lia.
Qed.

Lemma framed_write sk buf pos len : framed (E := E) (write sk buf pos len).
Proof.
  unfold write. assert (Hl := framed_write_loop (S (Z.to_nat len)) sk). grow.
Qed.

Lemma framed_read sk buf pos len : framed (E := E) (read sk buf pos len).
Proof. unfold read. grow. Qed.

Lemma framed_pop_loop a l o : framed (pop_loop (S := TcpManager * E) a l o).
Proof. revert o. induction l as [|g l IH]; intros o; cbn [pop_loop]; grow. Qed.
Hint Resolve framed_pop_loop : frame.

Lemma framed_popAckedThrough sk a : framed (E := E) (popAckedThrough sk a).
Proof. unfold popAckedThrough. grow. Qed.

Lemma framed_onSampleRTT sk ms : framed (E := E) (onSampleRTT sk ms).
Proof. unfold onSampleRTT. grow. Qed.

Lemma framed_additiveIncrease sk : framed (E := E) (additiveIncreaseCwnd sk).
Proof. unfold additiveIncreaseCwnd. grow. Qed.

Lemma framed_multiplicativeDecrease sk : framed (E := E) (multiplicativeDecreaseCwnd sk).
Proof. unfold multiplicativeDecreaseCwnd. grow. Qed.

Lemma framed_doubleRto sk : framed (E := E) (doubleRto sk).
Proof. unfold doubleRto. grow. Qed.
Hint Resolve framed_popAckedThrough framed_onSampleRTT framed_additiveIncrease
  framed_multiplicativeDecrease framed_doubleRto : frame.

Lemma framed_resend_loop sk i segs : framed (E := E) (resend_loop sk i segs).
Proof. revert i. induction segs as [|g l IH]; intros i; cbn [resend_loop]; grow. Qed.
Hint Resolve framed_resend_loop : frame.

Lemma framed_tick_loop now l : framed (E := E) (tick_loop now l).
Proof. induction l as [|kv l IH]; cbn [tick_loop]; unfold tick_socket; grow. Qed.
Hint Resolve framed_tick_loop : frame.

Lemma framed_retransmissionTick : framed (E := E) retransmissionTick.
Proof. unfold retransmissionTick. grow. Qed.

Lemma framed_start : framed (E := E) TcpManager.start.
Proof. unfold TcpManager.start. grow. Qed.

Lemma framed_receiveTransport a seg : framed (E := E) (receiveTransport a seg).
Proof.
  unfold receiveTransport, onSyn, onAck, onAck_established, onFin, onData, initAccepted,
    enqueueAccepted, markEstablished, markClosed, markPeerFinReceived, appendToRecvBuf.
  grow.
Qed.
End operations.
#[export] Hint Resolve framed_socket framed_release framed_bind_ framed_listen
  framed_accept framed_connect framed_close framed_write framed_read
  framed_retransmissionTick framed_start framed_receiveTransport : frame.
