(* ===== verification/Pattern.v ===== *)
(** * A stream that both ends know

    The transfer tasks send and expect one and the same sequence of bytes.
    What it means that a piece of it is at its place (in a buffer, a segment, a
    packet), the line that a worker writes when a byte is not the one it
    expects, and what an environment of the nodes promises: it delivers what it
    was given, and shows what it was told. *)

From Stdlib Require Import Strings.Ascii.
From S2P Require Import Prelude CppStrings Packet Transport Runtime TcpData TcpRun.

(** ** The alarm *)

Definition corrupted : string := "data corruption detected".

(** What the worker of the node [addr] writes ([StackNode::logError]). *)
Definition alarm (addr : Z) : output := Cerr (endl ("Node " +:+ to_string addr +:+ ": " +:+ corrupted)).

Definition harmless (o : output) : Prop := forall addr, o <> alarm addr.

(** The text behind the first colon. *)
Fixpoint behind_colon (s : string) : string :=
  match s with
  | EmptyString => EmptyString
  | String c s' => if Ascii.eqb c ":" then s' else behind_colon s'
  end.

Fixpoint no_colon (s : string) : bool :=
  match s with
  | EmptyString => true
  | String c s' => negb (Ascii.eqb c ":") && no_colon s'
  end.

Lemma behind_colon_app s t : no_colon s = true -> behind_colon (s +:+ String ":" t) = t.
Proof.
  induction s as [|c s IH]; [done|]. rewrite string_app_cons. cbn [no_colon behind_colon].
  intros [Hc Hs]%andb_true_iff. rewrite (proj1 (negb_true_iff _) Hc). by apply IH.
Qed.

Lemma to_string_no_colon z : no_colon (to_string z) = true.
Proof.
  assert (forall d, no_colon (DecimalString.NilEmpty.string_of_uint d) = true) as Hu
    by (induction d; cbn; auto).
  unfold to_string. destruct (Z.to_int z) as [d|d]; cbn; destruct d; done || exact (Hu _).
Qed.

Lemma list_ascii_app (s t : string) :
  String.list_ascii_of_string (s +:+ t) =
  String.list_ascii_of_string s ++ String.list_ascii_of_string t.
Proof. induction s as [|c s IH]; [done|]. rewrite string_app_cons. cbn. by f_equal. Qed.

Lemma string_app_inj_r (s s' t : string) : s +:+ t = s' +:+ t -> s = s'.
Proof.
  intros Heq%(f_equal String.list_ascii_of_string). rewrite !list_ascii_app in Heq.
  apply app_inv_tail in Heq.
  rewrite <- (String.string_of_list_ascii_of_string s), Heq.
  apply String.string_of_list_ascii_of_string.
Qed.

Lemma string_last (s t : string) c d :
  s +:+ String c EmptyString = t +:+ String d EmptyString -> c = d.
Proof.
  intros Heq%(f_equal String.list_ascii_of_string). rewrite !list_ascii_app in Heq.
  by apply app_inj_tail in Heq as [_ Heq].
Qed.

Lemma harmless_cout s : harmless (Cout s).
Proof. done. Qed.

Lemma harmless_head c s : Ascii.eqb c "N" = false -> harmless (Cerr (String c s)).
Proof. intros Hc addr [= -> _]. done. Qed.

Lemma behind_node a s :
  behind_colon (endl ("Node " +:+ to_string a +:+ ": " +:+ s)) = " " +:+ s +:+ newline.
Proof.
  unfold endl. rewrite !string_app_assoc.
  change (": " +:+ s +:+ newline) with (String ":" (" " +:+ s +:+ newline)).
  rewrite <- (string_app_assoc "Node "). apply behind_colon_app. cbn. apply to_string_no_colon.
Qed.

Lemma harmless_behind s :
  behind_colon s <> " " +:+ corrupted +:+ newline -> harmless (Cerr s).
Proof.
  intros Hs addr Heq. unfold alarm in Heq.
  apply (f_equal (fun o => match o with Cerr s => behind_colon s | Cout _ => EmptyString end)) in Heq.
  cbv beta iota in Heq. by rewrite behind_node in Heq.
Qed.

(** The node's other errors. *)
Lemma harmless_log addr s :
  s <> corrupted -> harmless (Cerr (endl ("Node " +:+ to_string addr +:+ ": " +:+ s))).
Proof.
  intros Hs. apply harmless_behind. rewrite behind_node. intros [= Heq].
  apply Hs. by apply (string_app_inj_r s corrupted newline).
Qed.

(** Other errors that start like one of a node. *)
Lemma harmless_address s : harmless (Cerr ("Node address: " +:+ s)).
Proof.
  intros addr. unfold alarm, to_string. destruct (Z.to_int addr) as [[]|[]]; discriminate.
Qed.

Lemma behind_colon_none s : no_colon s = true -> behind_colon s = EmptyString.
Proof.
  induction s as [|c s IH]; [done|]. cbn [no_colon behind_colon]. intros [Hc Hs]%andb_true_iff.
  rewrite (proj1 (negb_true_iff _) Hc). by apply IH.
Qed.

Lemma no_colon_app s t : no_colon (s +:+ t) = no_colon s && no_colon t.
Proof. induction s as [|c s IH]; [done|]. rewrite string_app_cons. cbn. by rewrite IH, andb_assoc. Qed.

Lemma harmless_neighbor a b :
  harmless (Cerr (endl ("Node " +:+ to_string a +:+ " is not a neighbor of node " +:+ to_string b))).
Proof.
  apply harmless_behind. rewrite behind_colon_none; [done|].
  unfold endl. by rewrite !no_colon_app, !to_string_no_colon.
Qed.

(** A line with a space at its end. *)
Lemma harmless_trailing x : harmless (Cerr (x +:+ " " +:+ newline)).
Proof.
  intros addr Heq. unfold alarm, endl in Heq.
  apply (f_equal (fun o => match o with Cerr s => s | Cout _ => EmptyString end)) in Heq.
  cbv beta iota in Heq. rewrite <- string_app_assoc in Heq. apply string_app_inj_r in Heq.
  rewrite <- !string_app_assoc in Heq.
  change corrupted with ("data corruption detecte" +:+ "d") in Heq.
  rewrite <- string_app_assoc in Heq. by apply string_last in Heq.
Qed.

(** ** Pieces of the stream *)

Section stream.
Context (byte_of : Z -> byte).

(** The bytes [l] are those of the stream from position [p] on. *)
Definition stream (p : Z) (l : list byte) : Prop :=
  forall i b, l !! i = Some b -> b = byte_of (p + Z.of_nat i).

Lemma stream_nil p : stream p [].
Proof. by intros i b Hb. Qed.

Lemma stream_app p l l' : stream p l -> stream (p + vsize l) l' -> stream p (l ++ l').
Proof.
  intros Hl Hl' i b Hb. apply lookup_app_Some in Hb as [Hb|[Hi Hb]]; [by apply Hl|].
  rewrite (Hl' _ _ Hb). f_equal. unfold vsize. lia.
Qed.

Lemma stream_drop p n l : stream p l -> stream (p + Z.of_nat n) (drop n l).
Proof. intros Hl i b. rewrite lookup_drop. intros Hb. rewrite (Hl _ _ Hb). f_equal. lia. Qed.

Lemma stream_take p n l : stream p l -> stream p (take n l).
Proof. intros Hl i b [Hb _]%lookup_take_Some. by apply Hl. Qed.

(** ** Packets *)

Definition genuine_seg (seg : Transport) : Prop :=
  type_ seg = DATA -> stream (seqNum_ seg - 1) (Transport.payload_ seg).

(** Data in the packet, if there are any, are where they say. *)
Definition genuine (bytes : list byte) : Prop :=
  forall p seg, Packet.unpack bytes = Some p -> protocol_ p = TRANSPORT_PKT ->
    Transport.unpack (Packet.payload_ p) = Some seg -> genuine_seg seg.

(** Of a segment that is packed at least the type is read back; of data, that
    have a number of 32 bits, everything. *)
Lemma unpack_type seg seg' :
  SYN <= type_ seg <= DATA -> Transport.unpack (Transport.pack seg) = Some seg' ->
  type_ seg' = type_ seg.
Proof.
  intros Ht Hu. unfold Transport.pack, writeBigEndian32, be32_put in Hu.
  cbn [app Transport.unpack] in Hu. destruct (_ || _) in Hu; [done|].
  destruct (new_Transport _ _ _ _ _ _) as [|q] eqn:Hq in Hu; [done|]. injection Hu as ->.
  apply new_Transport_spec in Hq as [-> _]. cbn. apply bZ_u8_small. unfold SYN, DATA in Ht. lia.
Qed.

Lemma genuine_packet dest src ttl protocol payload p :
  new_Packet dest src ttl protocol 0 payload = inr p ->
  (protocol = TRANSPORT_PKT -> forall seg, Transport.unpack payload = Some seg -> genuine_seg seg) ->
  genuine (Packet.pack p).
Proof.
  intros [-> Hv]%new_Packet_spec Hg q seg Hq Hp Hs.
  rewrite packet_unpack_pack in Hq by (split; [done|cbn; unfold INT_MIN, INT_MAX; lia]).
  injection Hq as <-. by apply Hg.
Qed.

Lemma genuine_transport sp dp ty w n payload seg dest src ttl p :
  new_Transport sp dp ty w n payload = inr seg ->
  (ty = DATA -> w = 0 /\ INT_MIN <= n <= INT_MAX /\ stream (n - 1) payload) ->
  new_Packet dest src ttl TRANSPORT_PKT 0 (Transport.pack seg) = inr p ->
  genuine (Packet.pack p).
Proof.
  intros [-> (H1 & H2 & H3 & H4)]%new_Transport_spec Hd Hp. eapply genuine_packet; [exact Hp|].
  intros _ seg Hu Hty. pose proof (unpack_type (mkTransport sp dp ty w n payload) seg H3 Hu) as Ht.
  cbn in Ht. rewrite Hty in Ht. destruct (Hd (eq_sym Ht)) as (-> & Hn & Hs).
  rewrite transport_unpack_pack in Hu; [by injection Hu as <-|].
  split; [exact (conj H1 (conj H2 (conj H3 H4)))|]. cbn. unfold INT_MIN, INT_MAX in *. lia.
Qed.

(** ** What an environment promises *)

(** An end of a run that leaves the state as [I] says, unless the behaviour is
    undefined; and one that is no exception. *)
Definition breaks {S} (I : S -> Prop) (f : fault) (s : S) : Prop :=
  match f with UB => True | _ => I s end.

Definition stops {S} (I : S -> Prop) (f : fault) (s : S) : Prop :=
  match f with UB => True | Thrown _ => False | _ => I s end.

Lemma stops_breaks {S} (I : S -> Prop) f s : stops I f s -> breaks I f s.
Proof. by destruct f. Qed.

(** [carries]: every packet on its way is genuine, and no alarm was shown.  The
    calls of the nodes keep it if they send genuine packets and show no alarm. *)
Class Carrier (E : Type) `{Manager E} := {
  carries : E -> Prop;
  ca_now : forall e, carries e -> wp mgr_now e (fun _ => carries) (stops carries);
  ca_sendPkt : forall from to pkt e, carries e -> genuine pkt ->
    wp (mgr_sendPkt from to pkt) e (fun _ => carries) (breaks carries);
  ca_addTimer : forall node delta cb e, carries e ->
    wp (mgr_addTimer node delta cb) e (fun _ => carries) (stops carries);
  ca_emit : forall o e, carries e -> harmless o ->
    wp (mgr_emit o) e (fun _ => carries) (stops carries)
}.
End stream.
