(* ===== verification/TcpInv.v ===== *)
(** * The invariant of the transport layer

    What holds of every socket ([sock_ok]) and of the manager's tables
    ([tm_ok]) between two calls, and the lemmas by which the operations keep
    it. *)

From S2P Require Import Prelude CppStrings Doubles Packet Transport Runtime TcpData TcpSend TcpSocket TcpRun.

(** Sequence numbers stay this far below [INT_MAX]: connections that carry
    less than 2^31 - 2^14 bytes. *)
Definition SEQ_LIMIT : Z := 2 ^ 31 - 2 ^ 14.

(** The congestion window is at most this far above the acknowledged bytes. *)
Definition CWND_SLACK : Z := 6000.

(** ** Outstanding segments *)

Definition seg_end (g : OutstandingSeg) : Z := seqStart g + len g.

Definition seg_ok (g : OutstandingSeg) : Prop :=
  0 < len g <= Transport.MAX_PAYLOAD_SIZE /\ vsize (data g) = len g /\
  0 <= firstSentAtMs g <= TIME_LIMIT.

(** The segments follow each other without gap from [lo] to [hi]. *)
Fixpoint seg_chain (lo : Z) (l : list OutstandingSeg) (hi : Z) : Prop :=
  match l with
  | [] => lo = hi
  | g :: r => seqStart g = lo /\ seg_ok g /\ seg_chain (seg_end g) r hi
  end.

(** The deque covers the bytes from [sndUna] to [sndNxt]; its first segment
    may be acknowledged in part. *)
Definition segs_ok (una nxt : Z) (l : list OutstandingSeg) : Prop :=
  match l with
  | [] => una = nxt
  | g :: _ => seqStart g <= una < seg_end g /\ seg_chain (seqStart g) l nxt
  end.

(** The segments that an acknowledgment leaves, and the last it pops. *)
Fixpoint drop_acked (ackNum : Z) (l : list OutstandingSeg) : list OutstandingSeg :=
  match l with
  | [] => []
  | g :: r => if seg_end g <=? ackNum then drop_acked ackNum r else l
  end.

Fixpoint last_acked (ackNum : Z) (l : list OutstandingSeg)
    (last : option OutstandingSeg) : option OutstandingSeg :=
  match l with
  | [] => last
  | g :: r => if seg_end g <=? ackNum then last_acked ackNum r (Some g) else last
  end.

Lemma seg_chain_le lo l hi : seg_chain lo l hi -> lo <= hi.
Proof.
  revert lo. induction l as [|g r IH]; intros lo; cbn; [lia|].
  intros (<- & (Hl & _) & Hr). apply IH in Hr. unfold seg_end in *. lia.
Qed.

Lemma seg_chain_app lo l mid r hi :
  seg_chain lo l mid -> seg_chain mid r hi -> seg_chain lo (l ++ r) hi.
Proof.
  revert lo. induction l as [|g l IH]; intros lo; cbn; [by intros ->|].
  intros (? & ? & ?) ?. auto.
Qed.

Lemma seg_chain_Forall lo l hi :
  seg_chain lo l hi ->
  Forall (fun g => seg_ok g /\ lo <= seqStart g /\ seg_end g <= hi) l.
Proof.
  revert lo. induction l as [|g r IH]; intros lo; cbn; [constructor|].
  intros (<- & Hg & Hr). pose proof (seg_chain_le _ _ _ Hr). constructor.
  - split; [done|]. lia.
  - eapply List.Forall_impl; [|by apply IH]. destruct Hg as [Hl _].
    unfold seg_end in *. cbn. intros x (? & ? & ?). split; [done|lia].
Qed.

Lemma segs_ok_chain una nxt l :
  segs_ok una nxt l -> l <> [] -> exists lo, lo <= una /\ seg_chain lo l nxt.
Proof. destruct l as [|g r]; [done|]. intros [? ?] _. exists (seqStart g). split; [lia|done]. Qed.

Lemma segs_ok_push una nxt l g :
  segs_ok una nxt l -> una <= nxt -> seqStart g = nxt -> seg_ok g ->
  segs_ok una (nxt + len g) (l ++ [g]).
Proof.
  intros Hs Hle Hg Hok.
  assert (Hc : seg_chain nxt [g] (nxt + len g))
    by (cbn; unfold seg_end; rewrite Hg; auto).
  destruct l as [|h r]; cbn [segs_ok app] in *.
  - pose proof (proj1 Hok). unfold seg_end. rewrite Hg. split; [lia|done].
  - destruct Hs as [? Hr]. split; [done|].
    apply (seg_chain_app _ (h :: r) nxt [g]); done.
Qed.

Lemma drop_acked_chain ackNum nxt l lo :
  seg_chain lo l nxt -> lo <= ackNum <= nxt -> segs_ok ackNum nxt (drop_acked ackNum l).
Proof.
  revert lo. induction l as [|g r IH]; intros lo Hc Hlo; cbn in *; [lia|].
  destruct Hc as (Hs & Hg & Hr). destruct (Z.leb_spec (seg_end g) ackNum).
  - eapply IH; [done|lia].
  - cbn. split; [lia|]. auto.
Qed.

Lemma segs_ok_drop una nxt l ackNum :
  segs_ok una nxt l -> una < ackNum <= nxt -> segs_ok ackNum nxt (drop_acked ackNum l).
Proof.
  destruct l as [|g r]; [cbn; lia|]. intros [Hu Hc] Ha.
  eapply drop_acked_chain; [done|lia].
Qed.

Lemma drop_acked_suffix ackNum l : exists pre, l = pre ++ drop_acked ackNum l.
Proof.
  induction l as [|g r [pre IH]]; [by exists []|]. cbn.
  destruct (_ <=? _); [|by exists []]. exists (g :: pre). cbn. by f_equal.
Qed.

Lemma last_acked_in ackNum l last g :
  last_acked ackNum l last = Some g -> last = Some g \/ g ∈ l.
Proof.
  revert last. induction l as [|h r IH]; intros last; cbn; [auto|].
  destruct (_ <=? _); [|auto]. intros [[= ->]|]%IH; set_solver.
Qed.

Lemma segs_ok_bounds una nxt l :
  segs_ok una nxt l -> 0 <= una -> nxt <= SEQ_LIMIT ->
  Forall (fun g => seg_ok g /\ - SEQ_LIMIT <= seqStart g /\ seg_end g <= SEQ_LIMIT) l.
Proof.
  intros Hs Hu Hn. destruct l as [|g r]; [constructor|].
  destruct Hs as [Hs Hc]. pose proof (seg_chain_Forall _ _ _ Hc) as Hf.
  assert (Hg : seg_ok g) by (by inversion Hf as [|? ? [? _]]).
  eapply List.Forall_impl; [|done]. cbn. destruct Hg as [Hl _].
  unfold seg_end, SEQ_LIMIT, Transport.MAX_PAYLOAD_SIZE, MAX_PACKET_SIZE,
    Packet.MAX_PAYLOAD_SIZE, Packet.MAX_PACKET_SIZE, Packet.HEADER_SIZE,
    HEADER_SIZE in *.
  intros x (? & ? & ?). split; [done|lia].
Qed.

Lemma pop_loop_run {S} ackNum l last (s : S) :
  Forall (fun g => INT_MIN <= seg_end g <= INT_MAX) l ->
  pop_loop ackNum l last s = (Ret (drop_acked ackNum l, last_acked ackNum l last), s).
Proof.
  intros Hl. revert last. induction Hl as [|g r Hg Hr IH]; intros last; [done|].
  cbn [pop_loop]. erewrite bind_run; [|by apply int_ret].
  fold (seg_end g). cbn. destruct (_ <=? _); [apply IH|done].
Qed.

(** ** Sockets *)

Record sock_ok (s : TcpSocket) : Prop := {
  ok_una : 0 <= sndUna_ s <= sndNxt_ s;
  ok_nxt : sndNxt_ s <= SEQ_LIMIT;
  ok_rcv : 0 <= rcvNxt_ s <= SEQ_LIMIT;
  ok_syn : -1 <= synSeq_ s <= SEQ_LIMIT;
  ok_fin : -1 <= finSeq_ s <= SEQ_LIMIT;
  ok_segs : segs_ok (sndUna_ s) (sndNxt_ s) (outstanding_ s);
  ok_buf : recvBufUsed_ s = vsize (recvBuf_ s) /\ recvBufUsed_ s <= RECV_BUF_CAP;
  ok_rwnd : 0 <= rwnd_ s <= INT_MAX;
  ok_cwnd : CWND_MIN_BYTES <= cwnd_ s <= sndUna_ s + CWND_SLACK;
  ok_rto : RTO_INITIAL_MS <= rtoMs_ s <= RTO_MAX_MS;
  ok_tmo : 0 <= timeoutCount s <= INT_MAX;
  ok_deadline : 0 <= nextRtoDeadlineMs_ s <= TIME_LIMIT + RTO_MAX_MS
}.

(** The limits as numerals, for the arithmetic. *)
Ltac unfold_limits :=
  unfold SEQ_LIMIT, CWND_SLACK, CWND_MIN_BYTES, INITIAL_CWND_BYTES, RTO_INITIAL_MS,
    RTO_MAX_MS, TIME_LIMIT, RECV_BUF_CAP, INT_MIN, INT_MAX, LONG_MIN, LONG_MAX,
    Transport.MAX_PAYLOAD_SIZE, Transport.MAX_PACKET_SIZE, Transport.HEADER_SIZE,
    Transport.MAX_PORT_NUM,
    Packet.MAX_PAYLOAD_SIZE, Packet.MAX_PACKET_SIZE, Packet.HEADER_SIZE in *.
Ltac lims := unfold_limits; lia.

(** Preservation by a change of some fields. *)
Ltac sock_solve :=
  let H := fresh in
  intros H; destruct H; constructor; cbn in *; auto; try lims.

Lemma new_TcpSocket_ok : sock_ok new_TcpSocket.
Proof. constructor; try (cbn; lims). split; [done|cbn; lims]. Qed.

(** A connection whose segments can be sent. *)
Definition conn_valid (s : TcpSocket) : Prop :=
  0 <= localPort_ s <= MAX_PORT_NUM /\ 0 <= remotePort_ s <= MAX_PORT_NUM /\
  0 <= remoteAddr_ s <= 255.

Definition conn_key (s : TcpSocket) (k : ConnKey) : Prop :=
  conn_valid s /\ k = mkKey (remoteAddr_ s) (remotePort_ s) (localPort_ s).

(** States in which a socket has a peer. *)
Definition state_open (st : State) : bool :=
  match st with ESTABLISHED | SHUTDOWN => true | _ => false end.
Definition state_conn (st : State) : bool :=
  match st with SYN_SENT | ESTABLISHED | SHUTDOWN => true | _ => false end.

(** ** The manager *)

Record tm_ok (t : TcpManager) : Prop := {
  tm_addr : 0 <= addr_ t <= 255;
  tm_socks : forall sk s, sock_at sk s t -> sock_ok s;
  tm_conn : forall sk s, sock_at sk s t -> state_conn (state_ s) = true -> conn_valid s;
  tm_lis : forall p sk, listenersByPort_ t !! p = Some sk -> exists s, sock_at sk s t;
  tm_pend : forall k sk, synPendingByKey_ t !! k = Some sk ->
    exists s, sock_at sk s t /\ conn_key s k /\ outstanding_ s = [] /\
      state_open (state_ s) = false /\ state_ s <> LISTEN;
  tm_est : forall k sk, establishedByKey_ t !! k = Some sk ->
    exists s, sock_at sk s t /\ conn_key s k;
  tm_queue : forall l s c, sock_at l s t -> c ∈ pendingConnQueue_ s ->
    exists cs, sock_at c cs t /\ state_ cs <> LISTEN /\ state_ cs <> SYN_SENT
}.

(** A socket that no table and no queue refers to. *)
Record unreferenced (sk : ptr) (t : TcpManager) : Prop := {
  ur_lis : forall p, listenersByPort_ t !! p <> Some sk;
  ur_pend : forall k, synPendingByKey_ t !! k <> Some sk;
  ur_est : forall k, establishedByKey_ t !! k <> Some sk;
  ur_queue : forall l s, sock_at l s t -> sk ∉ pendingConnQueue_ s
}.

(** The changes that a referenced socket may undergo. *)
Record sock_step (s s' : TcpSocket) : Prop := {
  step_local : localPort_ s' = localPort_ s;
  step_addr : remoteAddr_ s' = remoteAddr_ s;
  step_port : remotePort_ s' = remotePort_ s;
  step_queue : pendingConnQueue_ s' = pendingConnQueue_ s;
  step_state : state_ s' = state_ s \/ state_ s' = CLOSED \/
    (state_open (state_ s) = true /\ state_open (state_ s') = true);
  step_out : state_open (state_ s) = false -> outstanding_ s = [] -> outstanding_ s' = []
}.

Lemma sock_step_refl s : sock_step s s.
Proof. constructor; auto. Qed.

Lemma sock_step_conn_key s s' k : sock_step s s' -> conn_key s k -> conn_key s' k.
Proof.
  intros [Hl Ha Hp _ _ _]. unfold conn_key, conn_valid. by rewrite Hl, Ha, Hp.
Qed.

(** The socket at [sk'] after [sk] was overwritten. *)
Lemma sock_at_put_inv sk s s' sk' x t :
  sock_at sk s t -> sock_at sk' x (put_sock sk s' t) ->
  (sk' = sk /\ x = s') \/ (sk' <> sk /\ sock_at sk' x t).
Proof.
  intros Hs Hx. destruct (decide (sk' = sk)) as [->|Hne].
  - left. split; [done|]. pose proof (put_sock_at sk s s' t Hs) as Hp.
    unfold sock_at in *. congruence.
  - right. split; [done|]. by apply (put_sock_ne sk' sk x s' t).
Qed.

Lemma sock_at_put sk s s' sk' x t :
  sock_at sk s t -> sock_at sk' x t ->
  exists y, sock_at sk' y (put_sock sk s' t) /\
    ((sk' = sk /\ x = s /\ y = s') \/ (sk' <> sk /\ y = x)).
Proof.
  intros Hs Hx. destruct (decide (sk' = sk)) as [->|Hne].
  - exists s'. split; [by eapply put_sock_at|]. left. repeat split.
    unfold sock_at in *. congruence.
  - exists x. split; [by apply put_sock_ne|]. by right.
Qed.

Lemma sock_at_fun sk s s' t : sock_at sk s t -> sock_at sk s' t -> s = s'.
Proof. unfold sock_at. congruence. Qed.

(** A step of one socket keeps the invariant of the manager. *)
Lemma tm_ok_put t sk s s' :
  tm_ok t -> sock_at sk s t -> sock_ok s' -> sock_step s s' -> tm_ok (put_sock sk s' t).
Proof.
  intros Ht Hs Hok Hst. destruct Ht as [Hta Hts Htc Htl Htp Hte Htq].
  constructor; rewrite ?addr_put, ?listeners_put, ?pending_put, ?established_put.
  - done.
  - intros sk' x [[-> ->]|[_ Hx]]%(sock_at_put_inv _ s); eauto.
  - intros sk' x [[-> ->]|[_ Hx]]%(sock_at_put_inv _ s); [|by eauto|done].
    intros Hc. destruct Hst as [Hl Ha Hp _ Hst _].
    unfold conn_valid. rewrite Hl, Ha, Hp. apply (Htc sk s Hs).
    destruct Hst as [<-|[E|[E _]]]; [done|by rewrite E in Hc|]. by destruct (state_ s).
  - intros p sk' [x Hx]%Htl. destruct (sock_at_put sk s s' sk' x t Hs Hx) as (y & ? & _). eauto.
  - intros k sk' (x & Hx & Hk & Ho & Hop & Hnl)%Htp.
    destruct (sock_at_put sk s s' sk' x t Hs Hx) as (y & Hy & [(-> & -> & ->)|[_ ->]]); [|by exists x].
    exists s'. split; [done|]. split; [by eapply sock_step_conn_key|].
    destruct Hst as [_ _ _ _ Hst Hout]. rewrite (Hout Hop Ho).
    destruct Hst as [E|[E|[E _]]]; [by rewrite E|by rewrite E|congruence].
  - intros k sk' (x & Hx & Hk)%Hte.
    destruct (sock_at_put sk s s' sk' x t Hs Hx) as (y & Hy & [(-> & -> & ->)|[_ ->]]); [|by exists x].
    exists s'. split; [done|]. by eapply sock_step_conn_key.
  - intros l x c Hl Hc.
    assert (exists x0, sock_at l x0 t /\ c ∈ pendingConnQueue_ x0) as (x0 & Hx0 & Hc0).
    { apply (sock_at_put_inv _ s) in Hl as [[-> ->]|[_ Hl]]; [|by eauto|done].
      exists s. by rewrite <- (step_queue _ _ Hst). }
    destruct (Htq _ _ _ Hx0 Hc0) as (cs & Hcs & H1 & H2).
    destruct (sock_at_put sk s s' c cs t Hs Hcs) as (y & Hy & [(-> & -> & ->)|[_ ->]]); [|by exists cs].
    exists s'. split; [done|].
    destruct (step_state _ _ Hst) as [->|[->|[_ E]]]; [done|done|].
    by destruct (state_ s').
Qed.

(** A socket in no table can be overwritten freely, as long as it does not
    start to listen or connect while it waits in a queue. *)
Lemma tm_ok_put_untabled t sk s s' :
  tm_ok t -> sock_at sk s t ->
  (forall p, listenersByPort_ t !! p <> Some sk) ->
  (forall k, synPendingByKey_ t !! k <> Some sk) ->
  (forall k, establishedByKey_ t !! k <> Some sk) ->
  (forall l x, sock_at l x t -> sk ∈ pendingConnQueue_ x ->
     state_ s' <> LISTEN /\ state_ s' <> SYN_SENT) ->
  sock_ok s' -> pendingConnQueue_ s' = [] ->
  (state_conn (state_ s') = true -> conn_valid s') ->
  tm_ok (put_sock sk s' t).
Proof.
  intros Ht Hs Hul Hup Hue Huq Hok Hq Hc. destruct Ht as [Hta Hts Htc Htl Htp Hte Htq].
  constructor; rewrite ?addr_put, ?listeners_put, ?pending_put, ?established_put.
  - done.
  - intros sk' x [[-> ->]|[_ Hx]]%(sock_at_put_inv _ s); eauto.
  - intros sk' x [[-> ->]|[_ Hx]]%(sock_at_put_inv _ s); eauto.
  - intros p sk' [x Hx]%Htl. destruct (sock_at_put sk s s' sk' x t Hs Hx) as (y & ? & _). eauto.
  - intros k sk' Hk. destruct (Htp _ _ Hk) as (x & Hx & ?). exists x.
    assert (sk' <> sk) by (intros ->; by apply (Hup k)).
    split; [by apply put_sock_ne|done].
  - intros k sk' Hk. destruct (Hte _ _ Hk) as (x & Hx & ?). exists x.
    assert (sk' <> sk) by (intros ->; by apply (Hue k)).
    split; [by apply put_sock_ne|done].
  - intros l x c Hl Hin.
    apply (sock_at_put_inv _ s) in Hl as [[-> ->]|[_ Hl]];
      [by rewrite Hq in Hin; apply not_elem_of_nil in Hin| |done].
    destruct (Htq _ _ _ Hl Hin) as (cs & Hcs & ?).
    destruct (sock_at_put sk s s' c cs t Hs Hcs) as (y & Hy & [(-> & -> & ->)|[_ ->]]); eauto.
Qed.

(** Anything may happen to a socket that nothing refers to. *)
Lemma tm_ok_put_unreferenced t sk s s' :
  tm_ok t -> sock_at sk s t -> unreferenced sk t -> sock_ok s' ->
  pendingConnQueue_ s' = [] -> (state_conn (state_ s') = true -> conn_valid s') ->
  tm_ok (put_sock sk s' t).
Proof.
  intros Ht Hs [Hl Hp He Hq] **. eapply tm_ok_put_untabled; eauto.
  intros l x Hx Hin. by apply (Hq l x) in Hin.
Qed.

(** ** Changes of the tables *)

Lemma sock_at_tables f sk s t :
  allSockets_ (f t) = allSockets_ t -> sock_at sk s (f t) <-> sock_at sk s t.
Proof. unfold sock_at. by intros ->. Qed.

Ltac tables_solve H :=
  destruct H as [Hta Hts Htc Htl Htp Hte Htq];
  constructor; unfold sock_at in *; cbn in *; eauto.

Lemma tm_ok_insert_lis t p sk s :
  tm_ok t -> sock_at sk s t ->
  tm_ok (set_listenersByPort (<[p := sk]> (listenersByPort_ t)) t).
Proof.
  intros Ht Hs. tables_solve Ht.
  intros q sk'. rewrite lookup_insert. case_decide; [intros [= <-]|]; eauto.
Qed.

Lemma tm_ok_insert_pend t k sk s :
  tm_ok t -> sock_at sk s t -> conn_key s k -> outstanding_ s = [] ->
  state_open (state_ s) = false -> state_ s <> LISTEN ->
  tm_ok (set_synPendingByKey (<[k := sk]> (synPendingByKey_ t)) t).
Proof.
  intros Ht Hs Hk Ho Hop Hnl. tables_solve Ht.
  intros k' sk'. rewrite lookup_insert. case_decide; [intros [= <-]|]; [|by eauto].
  subst k'. eauto 10.
Qed.

Lemma tm_ok_insert_est t k sk s :
  tm_ok t -> sock_at sk s t -> conn_key s k ->
  tm_ok (set_establishedByKey (<[k := sk]> (establishedByKey_ t)) t).
Proof.
  intros Ht Hs Hk. tables_solve Ht.
  intros k' sk'. rewrite lookup_insert. case_decide; [intros [= <-]|]; [|by eauto].
  subst k'. eauto.
Qed.

(** Removing entries keeps the invariant. *)
Lemma tm_ok_shrink t L P T :
  tm_ok t -> L ⊆ listenersByPort_ t -> P ⊆ synPendingByKey_ t ->
  T ⊆ establishedByKey_ t ->
  tm_ok (set_establishedByKey T (set_synPendingByKey P (set_listenersByPort L t))).
Proof.
  intros Ht HL HP HT. tables_solve Ht.
  - intros p sk Hp. eapply Htl. by eapply lookup_weaken.
  - intros k sk Hk. eapply Htp. by eapply lookup_weaken.
  - intros k sk Hk. eapply Hte. by eapply lookup_weaken.
Qed.

Lemma tm_ok_delete_pend t k :
  tm_ok t -> tm_ok (set_synPendingByKey (delete k (synPendingByKey_ t)) t).
Proof.
  intros Ht. pose proof (tm_ok_shrink t (listenersByPort_ t)
    (delete k (synPendingByKey_ t)) (establishedByKey_ t) Ht) as Hs.
  destruct t. apply Hs; [done|apply delete_subseteq|done].
Qed.

Lemma tm_ok_delete_est t k :
  tm_ok t -> tm_ok (set_establishedByKey (delete k (establishedByKey_ t)) t).
Proof.
  intros Ht. pose proof (tm_ok_shrink t (listenersByPort_ t)
    (synPendingByKey_ t) (delete k (establishedByKey_ t)) Ht) as Hs.
  destruct t. apply Hs; [done|done|apply delete_subseteq].
Qed.

(** [unregisterSocket]. *)
Definition unregistered (sk : ptr) (t : TcpManager) : TcpManager :=
  set_establishedByKey (filter (fun kv => kv.2 <> sk) (establishedByKey_ t))
    (set_synPendingByKey (filter (fun kv => kv.2 <> sk) (synPendingByKey_ t))
      (set_listenersByPort (filter (fun kv => kv.2 <> sk) (listenersByPort_ t)) t)).

Lemma tm_ok_unregistered t sk : tm_ok t -> tm_ok (unregistered sk t).
Proof. intros Ht. apply tm_ok_shrink; [done|apply map_filter_subseteq..]. Qed.

(** A new socket. *)
Definition push_sock (t : TcpManager) : TcpManager :=
  set_allSockets (allSockets_ t ++ [new_TcpSocket]) t.

Lemma push_sock_old sk s t : sock_at sk s t -> sock_at sk s (push_sock t).
Proof. unfold sock_at. cbn. intros. by apply lookup_app_l_Some. Qed.

Lemma push_sock_new t : sock_at (length (allSockets_ t)) new_TcpSocket (push_sock t).
Proof. unfold sock_at. cbn. by apply list_lookup_middle. Qed.

Lemma push_sock_inv sk s t :
  sock_at sk s (push_sock t) ->
  sock_at sk s t \/ (sk = length (allSockets_ t) /\ s = new_TcpSocket).
Proof.
  unfold sock_at. cbn. intros [?|[Hl H]]%lookup_app_Some; [by left|right].
  apply list_lookup_singleton_Some in H as [H <-]. split; [lia|done].
Qed.

Lemma sock_at_lt sk s t : sock_at sk s t -> (sk < length (allSockets_ t))%nat.
Proof. apply lookup_lt_Some. Qed.

Lemma tm_ok_push t : tm_ok t -> tm_ok (push_sock t).
Proof.
  intros Ht. destruct Ht as [Hta Hts Htc Htl Htp Hte Htq]. constructor.
  - done.
  - intros sk s [Hs|[-> ->]]%push_sock_inv; [by eauto|apply new_TcpSocket_ok].
  - intros sk s [Hs|[-> ->]]%push_sock_inv; [by eauto|done].
  - intros p sk [s Hs]%Htl. exists s. by apply push_sock_old.
  - intros k sk (s & Hs & ?)%Htp. exists s. split; [by apply push_sock_old|done].
  - intros k sk (s & Hs & ?)%Hte. exists s. split; [by apply push_sock_old|done].
  - intros l s c [Hs|[-> ->]]%push_sock_inv Hc; [|by apply not_elem_of_nil in Hc].
    destruct (Htq _ _ _ Hs Hc) as (cs & Hcs & ?). exists cs.
    split; [by apply push_sock_old|done].
Qed.

Lemma push_sock_unreferenced t :
  tm_ok t -> unreferenced (length (allSockets_ t)) (push_sock t).
Proof.
  intros Ht. constructor; cbn.
  - intros p Hp. apply (tm_lis _ Ht) in Hp as [s Hs%sock_at_lt]. lia.
  - intros k Hk. apply (tm_pend _ Ht) in Hk as (s & Hs%sock_at_lt & _). lia.
  - intros k Hk. apply (tm_est _ Ht) in Hk as (s & Hs%sock_at_lt & _). lia.
  - intros l s [Hs|[-> ->]]%push_sock_inv Hc; [|by apply not_elem_of_nil in Hc].
    destruct (tm_queue _ Ht _ _ _ Hs Hc) as (cs & Hcs%sock_at_lt & _). lia.
Qed.

(** A queue may hold any sockets that neither listen nor connect. *)
Lemma tm_ok_queue t l s q :
  tm_ok t -> sock_at l s t ->
  (forall c, c ∈ q -> exists cs, sock_at c cs t /\ state_ cs <> LISTEN /\
     state_ cs <> SYN_SENT) ->
  tm_ok (put_sock l (set_pendingConnQueue q s) t).
Proof.
  intros Ht Hs Hq. set (s' := set_pendingConnQueue _ s).
  destruct Ht as [Hta Hts Htc Htl Htp Hte Htq].
  assert (Hback : forall sk x, sock_at sk x t ->
    exists y, sock_at sk y (put_sock l s' t) /\ conn_valid y = conn_valid x /\
      conn_key y = conn_key x /\ outstanding_ y = outstanding_ x /\ state_ y = state_ x).
  { intros sk x Hx. destruct (sock_at_put l s s' sk x t Hs Hx) as (y & Hy & Hxy).
    exists y. split; [done|]. by destruct Hxy as [(-> & -> & ->)|[_ ->]]. }
  constructor; rewrite ?addr_put, ?listeners_put, ?pending_put, ?established_put.
  - done.
  - intros sk x Hx. apply (sock_at_put_inv _ s) in Hx as [[-> ->]|[_ Hx]]; [|by eauto|done].
    destruct (Hts _ _ Hs). by constructor.
  - intros sk x Hx. apply (sock_at_put_inv _ s) in Hx as [[-> ->]|[_ Hx]]; [|by eauto|done].
    by apply (Htc l s).
  - intros p sk [x Hx]%Htl. destruct (Hback _ _ Hx) as (y & ? & _). eauto.
  - intros k sk (x & Hx & ?)%Htp. destruct (Hback _ _ Hx) as (y & ? & _ & E1 & E2 & E3).
    exists y. by rewrite E1, E2, E3.
  - intros k sk (x & Hx & ?)%Hte. destruct (Hback _ _ Hx) as (y & ? & _ & E1 & _).
    exists y. by rewrite E1.
  - intros m x d Hx Hd.
    assert (exists ds, sock_at d ds t /\ state_ ds <> LISTEN /\ state_ ds <> SYN_SENT)
      as (ds & Hds & ?).
    { apply (sock_at_put_inv _ s) in Hx as [[-> ->]|[_ Hx]]; eauto. }
    destruct (Hback _ _ Hds) as (y & ? & _ & _ & _ & E). exists y. by rewrite E.
Qed.

(** A child enters the queue of a listener. *)
Lemma tm_ok_enqueue t l s c cs :
  tm_ok t -> sock_at l s t -> sock_at c cs t -> state_ cs <> LISTEN ->
  state_ cs <> SYN_SENT ->
  tm_ok (put_sock l (set_pendingConnQueue (pendingConnQueue_ s ++ [c]) s) t).
Proof.
  intros Ht Hs Hc Hnl Hns. apply tm_ok_queue; [done..|].
  intros d [Hd|Hd%list_elem_of_singleton]%elem_of_app; [|subst; eauto].
  eapply tm_queue; [exact Ht|exact Hs|exact Hd].
Qed.

(** A child leaves it. *)
Lemma tm_ok_dequeue t l s c rest :
  tm_ok t -> sock_at l s t -> pendingConnQueue_ s = c :: rest ->
  tm_ok (put_sock l (set_pendingConnQueue rest s) t).
Proof.
  intros Ht Hs Hq. apply tm_ok_queue; [done..|]. intros d Hd.
  eapply tm_queue; [done..|]. rewrite Hq. by right.
Qed.

(** The pending socket of [k] leaves the table and may become established. *)
Lemma tm_ok_establish t k sk s s' :
  tm_ok t -> synPendingByKey_ t !! k = Some sk -> sock_at sk s t -> sock_ok s' ->
  localPort_ s' = localPort_ s -> remoteAddr_ s' = remoteAddr_ s ->
  remotePort_ s' = remotePort_ s -> pendingConnQueue_ s' = pendingConnQueue_ s ->
  state_ s' = state_ s \/ state_ s' = ESTABLISHED ->
  tm_ok (set_synPendingByKey (delete k (synPendingByKey_ t)) (put_sock sk s' t)).
Proof.
  intros Ht Hk Hs Hok El Ea Ep Eq Est.
  destruct (tm_pend _ Ht _ _ Hk) as (s0 & Hs0 & Hkey & _ & _ & Hnl).
  assert (s0 = s) as -> by (by eapply sock_at_fun). clear Hs0.
  assert (Hkey' : forall j, conn_key s j -> conn_key s' j)
    by (unfold conn_key, conn_valid; by rewrite El, Ea, Ep).
  destruct Ht as [Hta Hts Htc Htl Htp Hte Htq].
  assert (Hat : forall x n, sock_at n x (set_synPendingByKey
      (delete k (synPendingByKey_ t)) (put_sock sk s' t)) <-> sock_at n x (put_sock sk s' t))
    by done.
  constructor; try setoid_rewrite Hat; cbn [set_synPendingByKey addr_ listenersByPort_
    synPendingByKey_ establishedByKey_];
    rewrite ?addr_put, ?listeners_put, ?pending_put, ?established_put.
  - done.
  - intros n x Hx. apply (sock_at_put_inv _ s) in Hx as [[-> ->]|[_ Hx]]; eauto.
  - intros n x Hx Hc. apply (sock_at_put_inv _ s) in Hx as [[-> ->]|[_ Hx]]; [|by eauto|done].
    apply (Hkey' k). done.
  - intros p n [x Hx]%Htl. destruct (sock_at_put sk s s' n x t Hs Hx) as (y & ? & _). eauto.
  - intros j n [Hne Hj]%lookup_delete_Some. destruct (Htp _ _ Hj) as (x & Hx & Hxk & ?).
    exists x. destruct (decide (n = sk)) as [->|Hn].
    + assert (x = s) as -> by (by eapply sock_at_fun).
      destruct Hne. by rewrite (proj2 Hkey), (proj2 Hxk).
    + split; [by apply put_sock_ne|done].
  - intros j n (x & Hx & Hxk)%Hte.
    destruct (sock_at_put sk s s' n x t Hs Hx) as (y & Hy & [(-> & -> & ->)|[_ ->]]); eauto.
  - intros l x c Hx Hc.
    assert (exists x0, sock_at l x0 t /\ c ∈ pendingConnQueue_ x0) as (x0 & Hx0 & Hc0).
    { apply (sock_at_put_inv _ s) in Hx as [[-> ->]|[_ Hx]]; [|by eauto|done].
      exists s. by rewrite <- Eq. }
    destruct (Htq _ _ _ Hx0 Hc0) as (cs & Hcs & H1 & H2).
    destruct (sock_at_put sk s s' c cs t Hs Hcs) as (y & Hy & [(-> & -> & ->)|[_ ->]]); [|by eauto].
    exists s'. split; [done|]. destruct Est as [->| ->]; done.
Qed.
