(* ===== verification/TcpOps.v ===== *)
(** * Socket operations as functions on sockets

    The methods of [TcpSocket] that only touch the socket's members, as
    equations: under the invariant none of them faults, and each replaces the
    socket by the value of a pure function. *)

From S2P Require Import Prelude CppStrings Doubles Packet Transport Runtime TcpData TcpSend TcpSocket TcpRun TcpInv.

(** ** Running a block of accesses *)

Ltac sock_here := solve [eassumption | eapply put_sock_at; eassumption | eauto with nb].

Ltac run_step :=
  first
    [ rewrite bind_bind
    | erewrite bind_run by (apply deref_run; sock_here)
    | erewrite bind_run by (apply upd_run; sock_here); autorewrite with tcp
    | erewrite bind_run by (apply int_ret; lims)
    | erewrite bind_run by (apply long_ret; lims) ];
  cbv beta.
Ltac run_go := repeat run_step.

Section ops.
Context {E : Type}.
Implicit Types (t : TcpManager) (e : E) (s : TcpSocket).

(** [upd] composed of many fields. *)
Lemma upd_last sk s f t e :
  sock_at sk s t -> upd sk f (t, e) = (Ret tt, (put_sock sk (f s) t, e)).
Proof. apply upd_run. Qed.

(** ** Release *)

Definition released (s : TcpSocket) : TcpSocket :=
  set_state CLOSED (set_localPort (-1) (set_remotePort (-1) (set_remoteAddr (-1)
    (set_backlog 0 (set_pendingConnQueue [] s))))).

Lemma unregisterSocket_run sk t e :
  unregisterSocket sk (t, e) = (Ret tt, (unregistered sk t, e)).
Proof. done. Qed.

Lemma unregistered_at sk n s t : sock_at n s t -> sock_at n s (unregistered sk t).
Proof. done. Qed.

Definition release_spec (sk : ptr) (s : TcpSocket) (t : TcpManager) : TcpManager :=
  if decide (state_ s = CLOSED) then t
  else put_sock sk (released s) (unregistered sk t).

Lemma release_run sk s t e :
  sock_at sk s t -> release sk (t, e) = (Ret tt, (release_spec sk s t, e)).
Proof.
  intros Hs. unfold release, release_spec. run_step.
  rewrite bool_decide_decide. case_decide; [done|].
  unfold onRelease. erewrite bind_run by apply unregisterSocket_run.
  apply (unregistered_at sk) in Hs. run_go. erewrite upd_run by sock_here.
  by autorewrite with tcp.
Qed.

Lemma tm_ok_release t sk s : tm_ok t -> sock_at sk s t -> tm_ok (release_spec sk s t).
Proof.
  intros Ht Hs. unfold release_spec. case_decide; [done|].
  eapply (tm_ok_put_untabled _ _ s); [by apply tm_ok_unregistered|done|..]; cbn; try done.
  - intros p [Hp Hne]%map_lookup_filter_Some. by apply Hne.
  - intros p [Hp Hne]%map_lookup_filter_Some. by apply Hne.
  - intros p [Hp Hne]%map_lookup_filter_Some. by apply Hne.
  - pose proof (tm_socks _ Ht _ _ Hs) as Hok. revert Hok. sock_solve.
Qed.

(** ** The queue of a listener *)

Definition enqueued (c : ptr) (s : TcpSocket) : TcpSocket :=
  if vsize (pendingConnQueue_ s) <? backlog_ s
  then set_pendingConnQueue (pendingConnQueue_ s ++ [c]) s else s.

Lemma enqueueAccepted_run sk c s t e :
  sock_at sk s t ->
  enqueueAccepted sk c (t, e) = (Ret tt, (put_sock sk (enqueued c s) t, e)).
Proof.
  intros Hs. unfold enqueueAccepted, enqueued. run_step. unfold when.
  destruct (_ <? _).
  - by apply upd_run.
  - by rewrite (put_sock_id sk s) by done.
Qed.

(** ** Connection set-up *)

Definition accepted (localPort remoteAddr remotePort : Z) (s : TcpSocket)
    : TcpSocket :=
  set_state ESTABLISHED (set_cwnd INITIAL_CWND_BYTES (set_rcvNxt 1 (set_sndNxt 1
    (set_sndUna 1 (set_remotePort remotePort (set_remoteAddr remoteAddr
      (set_localPort localPort s))))))).

Lemma initAccepted_run sk lp ra rp s t e :
  sock_at sk s t ->
  initAccepted sk lp ra rp (t, e) = (Ret tt, (put_sock sk (accepted lp ra rp s) t, e)).
Proof.
  intros Hs. unfold initAccepted. run_go. erewrite upd_run by sock_here.
  by autorewrite with tcp.
Qed.

Definition established (s : TcpSocket) : TcpSocket :=
  if decide (state_ s = CLOSED) then s
  else set_state ESTABLISHED (set_peerFinReceived false
    (set_cwnd INITIAL_CWND_BYTES (set_rcvNxt 1 (set_sndNxt 1 (set_sndUna 1 s))))).

Lemma markEstablished_run sk s t e :
  sock_at sk s t ->
  markEstablished sk (t, e) = (Ret tt, (put_sock sk (established s) t, e)).
Proof.
  intros Hs. unfold markEstablished, established. run_step. unfold when.
  rewrite bool_decide_decide. case_decide; cbn [negb].
  - by rewrite (put_sock_id sk s) by done.
  - run_go. erewrite upd_run by sock_here. by autorewrite with tcp.
Qed.

Definition peer_finned (s : TcpSocket) : TcpSocket :=
  if decide (state_ s = ESTABLISHED)
  then set_state SHUTDOWN (set_peerFinReceived true s)
  else set_peerFinReceived true s.

Lemma markPeerFinReceived_run sk s t e :
  sock_at sk s t ->
  markPeerFinReceived sk (t, e) = (Ret tt, (put_sock sk (peer_finned s) t, e)).
Proof.
  intros Hs. unfold markPeerFinReceived, peer_finned. run_go. unfold when.
  rewrite bool_decide_decide. change (state_ (set_peerFinReceived true s)) with (state_ s).
  case_decide; [|done].
  erewrite upd_run by sock_here. by autorewrite with tcp.
Qed.

(** ** The receive buffer *)

Definition received (bytes : list byte) (s : TcpSocket) : TcpSocket :=
  set_recvBufUsed (recvBufUsed_ s + vsize bytes)
    (set_recvBuf (recvBuf_ s ++ bytes) s).

(** A segment that fits is appended whole. *)
Lemma appendToRecvBuf_run sk payload s t e :
  sock_ok s -> sock_at sk s t -> 0 < vsize payload <= getRecvBufAvailable s ->
  appendToRecvBuf sk payload 0 (vsize payload) (t, e) =
    (Ret (vsize payload), (put_sock sk (received payload s) t, e)).
Proof.
  intros Hok Hs Hp. unfold appendToRecvBuf, getRecvBufAvailable in *.
  pose proof (vsize_nonneg (recvBuf_ s)). destruct (ok_buf _ Hok) as [Hb Hc].
  run_step. replace (vsize payload <=? 0) with false by lia.
  run_step. rewrite Z.min_l, Z.max_r by lia. cbv zeta.
  assert (slice payload 0 (vsize payload) (t, e) = (Ret payload, (t, e))) as Hsl.
  { unfold slice. replace ((0 <=? 0) && (0 <=? vsize payload) &&
      (0 + vsize payload <=? vsize payload)) with true by lia.
    change (Z.to_nat 0) with 0%nat. rewrite drop_0. unfold vsize.
    by rewrite Nat2Z.id, firstn_all. }
  rewrite (bind_run _ _ _ _ _ Hsl). by run_go.
Qed.

(** ** Congestion window and timers *)

Definition aimd_increase (cwnd : Z) : Z :=
  cwnd + Z.max 1 (Z.quot (Transport.MAX_PAYLOAD_SIZE * Transport.MAX_PAYLOAD_SIZE)
                    (Z.max cwnd CWND_MIN_BYTES)).

Definition aimd_decrease (cwnd : Z) : Z := Z.max CWND_MIN_BYTES (cwnd / 2).

Definition rto_backoff (rto : Z) : Z := Z.min (rto * 2) RTO_MAX_MS.

Lemma aimd_increase_range cwnd :
  CWND_MIN_BYTES <= cwnd -> cwnd + 1 <= aimd_increase cwnd <= cwnd + CWND_MIN_BYTES.
Proof.
  unfold aimd_increase. change Transport.MAX_PAYLOAD_SIZE with 107.
  change CWND_MIN_BYTES with 107. intros H. rewrite (Z.max_l cwnd) by lia.
  rewrite Z.quot_div_nonneg by lia.
  pose proof (Z.div_le_upper_bound (107 * 107) cwnd 107 ltac:(lia) ltac:(lia)).
  lia.
Qed.

(** Above 5724 bytes the window grows by one byte per acknowledgment. *)
Lemma aimd_increase_slow cwnd : 5725 <= cwnd -> aimd_increase cwnd = cwnd + 1.
Proof.
  unfold aimd_increase. change Transport.MAX_PAYLOAD_SIZE with 107.
  change CWND_MIN_BYTES with 107. intros H. rewrite (Z.max_l cwnd) by lia.
  rewrite Z.quot_div_nonneg by lia.
  pose proof (Z.div_lt_upper_bound (107 * 107) cwnd 2 ltac:(lia) ltac:(lia)).
  lia.
Qed.

Lemma additiveIncreaseCwnd_run sk s t e :
  sock_at sk s t -> CWND_MIN_BYTES <= cwnd_ s <= SEQ_LIMIT + CWND_SLACK ->
  additiveIncreaseCwnd sk (t, e) =
    (Ret tt, (put_sock sk (set_cwnd (aimd_increase (cwnd_ s)) s) t, e)).
Proof.
  intros Hs Hc. pose proof (aimd_increase_range (cwnd_ s) (proj1 Hc)) as Hr.
  unfold additiveIncreaseCwnd. run_step. fold (aimd_increase (cwnd_ s)).
  run_step. by apply upd_run.
Qed.

Lemma multiplicativeDecreaseCwnd_run sk s t e :
  sock_at sk s t -> 0 <= cwnd_ s <= INT_MAX ->
  multiplicativeDecreaseCwnd sk (t, e) =
    (Ret tt, (put_sock sk (set_cwnd (aimd_decrease (cwnd_ s)) s) t, e)).
Proof.
  intros Hs Hc. unfold multiplicativeDecreaseCwnd. run_step.
  unfold AIMD_MD_FACTOR. rewrite dfloor_half by lims.
  assert (Hh : double_to_int (Some (cwnd_ s / 2)) (t, e) = (Ret (cwnd_ s / 2), (t, e))).
  { apply int_ret. unfold_limits. Z.div_mod_to_equations. lia. }
  rewrite (bind_run _ _ _ _ _ Hh). by apply upd_run.
Qed.

Lemma doubleRto_run sk s t e :
  sock_at sk s t -> 0 <= rtoMs_ s <= RTO_MAX_MS ->
  doubleRto sk (t, e) =
    (Ret tt, (put_sock sk (set_rtoMs (rto_backoff (rtoMs_ s)) s) t, e)).
Proof. intros Hs Hr. unfold doubleRto. run_go. by apply upd_run. Qed.

Definition sampled (sampleMs : Z) (s : TcpSocket) : TcpSocket :=
  if hasEstRTT_ s then
    set_devRTTms (dadd (dmul (dsub (dofZ 1) BETA) (devRTTms_ s))
                    (dmul BETA (dabs (dsub (dofZ sampleMs) (estRTTms_ s)))))
      (set_estRTTms (dadd (dmul (dsub (dofZ 1) ALPHA) (estRTTms_ s))
                       (dmul ALPHA (dofZ sampleMs))) s)
  else
    set_hasEstRTT true (set_devRTTms (ddiv (dofZ sampleMs) (dofZ 2))
      (set_estRTTms (dofZ sampleMs) s)).

Lemma onSampleRTT_run sk sampleMs s t e :
  sock_at sk s t ->
  onSampleRTT sk sampleMs (t, e) = (Ret tt, (put_sock sk (sampled sampleMs s) t, e)).
Proof.
  intros Hs. unfold onSampleRTT, sampled. run_step.
  destruct (hasEstRTT_ s) eqn:Hh; cbn [negb].
  - run_go. erewrite upd_run by sock_here. by autorewrite with tcp.
  - run_go. erewrite upd_run by sock_here. by autorewrite with tcp.
Qed.
End ops.
