(* ===== verification/TcpSpec.v ===== *)
(** * What the socket operations do

    Each operation of a socket as a function: the socket after the call and
    the packets handed to the environment, for every environment that obeys
    its laws.  The rules are local to one socket; TcpSafe.v lifts them to the
    invariant of the manager. *)

From S2P Require Import Prelude CppStrings Doubles Packet Transport Runtime TcpData TcpSend TcpSocket TcpManager TcpRun TcpInv TcpOps.

(** The segment that a socket sends to its peer, and its datagram. *)
Definition out_seg (s : TcpSocket) (type window seqNum : Z) (payload : list byte)
    : Transport :=
  mkTransport (localPort_ s) (remotePort_ s) type window seqNum payload.

Definition to_peer (addr : Z) (s : TcpSocket) (seg : Transport) : datagram :=
  tcp_datagram addr (remoteAddr_ s) seg.

(** A socket with a reachable peer. *)
Definition peer_ok (addr : Z) (s : TcpSocket) : Prop :=
  sock_ok s /\ conn_valid s /\ 0 <= addr <= 255.

Lemma out_seg_ok addr s ty w n p :
  peer_ok addr s -> SYN <= ty <= DATA -> INT_MIN <= w <= INT_MAX ->
  INT_MIN <= n <= INT_MAX -> vsize p <= Transport.MAX_PAYLOAD_SIZE ->
  transport_ok (out_seg s ty w n p).
Proof. intros (_ & (H1 & H2 & H3) & _) **. by repeat split; try lia; cbn; try lia. Qed.

Lemma new_out_seg addr s ty w n p :
  peer_ok addr s -> SYN <= ty <= DATA -> vsize p <= Transport.MAX_PAYLOAD_SIZE ->
  new_Transport (localPort_ s) (remotePort_ s) ty w n p = inr (out_seg s ty w n p).
Proof. intros (_ & (H1 & H2 & H3) & _) **. by apply new_Transport_inr. Qed.

(** ** Automation *)

Ltac seg_lims :=
  first [eassumption | unfold SYN, ACK, FIN, DATA; rewrite ?vsize_nil; lims].

(** Chains of [sends] are merged as they appear. *)
Ltac sends_merge :=
  repeat match goal with
  | H : sends ?a ?l ?b, H' : sends ?b [] ?c |- _ =>
      pose proof (sends_nil_r _ _ _ _ H H'); clear H H'
  | H : sends ?a [] ?b, H' : sends ?b ?l ?c |- _ =>
      pose proof (sends_nil_l _ _ _ _ H H'); clear H H'
  | H : sends ?a ?l ?b, H' : sends ?b ?l' ?c |- _ =>
      pose proof (sends_app _ _ _ _ _ H H'); clear H H'
  end.

Ltac mgr_here := solve [eassumption | eapply sends_ok; eassumption].

Ltac tcp_step :=
  lazymatch goal with
  | |- wp (bind _ _) _ _ _ => apply wp_bind
  | |- wp (ret _) _ _ _ => apply wp_ret
  | |- wp (deref _) _ _ _ => eapply wp_deref; [sock_here|]
  | |- wp (upd _ _) _ _ _ => eapply wp_upd; [sock_here|]; autorewrite with tcp
  | |- wp (tget _) _ _ _ => apply wp_tget
  | |- wp (tmodify _) _ _ _ => apply wp_tmodify
  | |- wp (int _) _ _ _ => apply wp_int; [solve [lims]|]
  | |- wp (long _) _ _ _ => apply wp_long; [solve [lims]|]
  | |- wp (cout _) _ _ _ =>
      apply wp_cout; [mgr_here|]; let e := fresh "e" in intros e ?; sends_merge
  | |- wp managerNowMs _ _ _ =>
      apply wp_now; [mgr_here|];
      let n := fresh "now" in let e := fresh "e" in intros n e ? ?; sends_merge
  end; cbv beta; autorewrite with tcp.
Ltac tcp_go := repeat tcp_step.

Section spec.
Context `{ManagerLaws E}.
Implicit Types (t : TcpManager) (e : E) (s : TcpSocket)
  (Q : unit -> TcpManager * E -> Prop).

(** ** FIN on drain *)

Definition fin_due (s : TcpSocket) : bool :=
  bool_decide (state_ s = SHUTDOWN) && (finSeq_ s <? 0) && negb (hasOutstanding s).

Definition drained (s : TcpSocket) : TcpSocket :=
  if fin_due s then set_finSeq (sndNxt_ s) s else s.

Definition drain_sends (addr : Z) (s : TcpSocket) : list datagram :=
  if fin_due s then [to_peer addr s (out_seg s FIN 0 (sndNxt_ s) [])] else [].

(** The FIN always leaves, so the [release] behind a failed one is never
    reached. *)
Lemma wp_maybeSendFinOnDrain sk s t e Q :
  mgr_ok e -> sock_at sk s t -> peer_ok (addr_ t) s ->
  (forall e', sends e (drain_sends (addr_ t) s) e' ->
     Q tt (put_sock sk (drained s) t, e')) ->
  wp (maybeSendFinOnDrain sk) (t, e) Q env_fault.
Proof.
  intros He Hs Hp HQ. unfold maybeSendFinOnDrain, drained, drain_sends, fin_due in *.
  tcp_go. destruct (bool_decide _); cbn [negb andb] in *;
    [|apply wp_ret; rewrite (put_sock_id sk s) in HQ by done; by apply HQ, sends_refl].
  rewrite Z.geb_leb. destruct (Z.leb_spec 0 (finSeq_ s)).
  { apply wp_ret. replace (finSeq_ s <? 0) with false in HQ by lia.
    rewrite (put_sock_id sk s) in HQ by done. by apply HQ, sends_refl. }
  replace (finSeq_ s <? 0) with true in HQ by lia. cbn [andb] in HQ.
  destruct (hasOutstanding s); cbn [negb] in *.
  { rewrite (put_sock_id sk s) in HQ by done. by apply wp_ret, HQ, sends_refl. }
  tcp_go. set (s' := set_finSeq (sndNxt_ s) s).
  unfold wp. rewrite (sendFin_transmit _ _ _ s') by sock_here.
  change (localPort_ s') with (localPort_ s).
  change (finSeq_ s') with (sndNxt_ s). rewrite (new_out_seg (addr_ t)) by done.
  pose proof (ok_nxt _ (proj1 Hp)). pose proof (ok_una _ (proj1 Hp)).
  apply wp_transmit; autorewrite with tcp; [done|apply Hp|apply Hp| |].
       { eapply out_seg_ok; seg_lims. }
  intros e' He'. by apply HQ.
Qed.

Lemma drained_ok s : sock_ok s -> sock_ok (drained s).
Proof. unfold drained. case_match; [|done]. sock_solve. Qed.

Lemma drained_step s : sock_step s (drained s).
Proof. unfold drained. case_match; by constructor; auto. Qed.

(** ** Close *)

Definition closed (s : TcpSocket) : TcpSocket :=
  match state_ s with
  | CLOSED | SHUTDOWN => s
  | LISTEN | SYN_SENT => set_state CLOSED s
  | ESTABLISHED => drained (set_state SHUTDOWN s)
  end.

Definition close_sends (addr : Z) (s : TcpSocket) : list datagram :=
  match state_ s with
  | ESTABLISHED => drain_sends addr (set_state SHUTDOWN s)
  | _ => []
  end.

Lemma wp_close sk s t e Q :
  mgr_ok e -> sock_at sk s t -> sock_ok s -> 0 <= addr_ t <= 255 ->
  (state_ s = ESTABLISHED -> conn_valid s) ->
  (forall e', sends e (close_sends (addr_ t) s) e' ->
     Q tt (put_sock sk (closed s) t, e')) ->
  wp (close sk) (t, e) Q env_fault.
Proof.
  intros He Hs Hok Ha Hc HQ. unfold close, closed, close_sends in *. tcp_go.
  destruct (state_ s) eqn:Est.
  - apply wp_ret. rewrite (put_sock_id sk s) in HQ by done. by apply HQ, sends_refl.
  - tcp_go. by apply HQ, sends_refl.
  - tcp_go. by apply HQ, sends_refl.
  - tcp_go. eapply wp_maybeSendFinOnDrain; [done|sock_here| |].
    { autorewrite with tcp. split; [|by split; [apply Hc|]].
      revert Hok. sock_solve. }
    intros e' He'. autorewrite with tcp in *. by apply HQ.
  - apply wp_ret. rewrite (put_sock_id sk s) in HQ by done. by apply HQ, sends_refl.
Qed.

Lemma closed_ok s : sock_ok s -> sock_ok (closed s).
Proof.
  intros Hok. unfold closed. case_match; [done| | | |done].
  - revert Hok. sock_solve.
  - revert Hok. sock_solve.
  - apply drained_ok. revert Hok. sock_solve.
Qed.

Lemma closed_step s : sock_step s (closed s).
Proof.
  unfold closed, drained. repeat case_match; constructor; cbn; auto; try congruence.
  - right; right. split; [by rewrite H1|done].
  - right; right. split; [by rewrite H1|done].
Qed.

(** ** Acknowledgments *)

(** After the data up to [ackNum] was acknowledged, the clock read [now1]
    when the timer was restarted and [now2] when the sample was taken. *)
Definition advanced (ackNum now1 now2 : Z) (s : TcpSocket) : TcpSocket :=
  let rest := drop_acked ackNum (outstanding_ s) in
  let s1 := set_cwnd (aimd_increase (cwnd_ s))
    (set_nextRtoDeadlineMs
       (match rest with [] => 0 | _ => now1 + rtoMs_ s end)
       (set_sndUna ackNum (set_outstanding rest s))) in
  match last_acked ackNum (outstanding_ s) None with
  | Some g =>
      if retransmitted g then s1 else sampled (now2 - firstSentAtMs g) s1
  | None => s1
  end.

Definition acked (ack : Transport) (now1 now2 : Z) (s : TcpSocket) : TcpSocket :=
  if seqNum_ ack >? sndNxt_ s then s
  else
    let s0 := setRwnd (window_ ack) s in
    if seqNum_ ack <=? sndUna_ s then s0
    else drained (advanced (seqNum_ ack) now1 now2 s0).

Definition ack_sends (addr : Z) (ack : Transport) (s : TcpSocket) : list datagram :=
  if (seqNum_ ack >? sndNxt_ s) || (seqNum_ ack <=? sndUna_ s) then []
  else drain_sends addr
         (set_outstanding (drop_acked (seqNum_ ack) (outstanding_ s)) s).

Lemma sampled_ok n s : sock_ok s -> sock_ok (sampled n s).
Proof. unfold sampled. case_match; sock_solve. Qed.

Lemma sampled_step n s : sock_step s (sampled n s).
Proof. unfold sampled. case_match; by constructor; auto. Qed.

Lemma segs_ok_firstSent una nxt l g :
  segs_ok una nxt l -> g ∈ l -> 0 <= firstSentAtMs g <= TIME_LIMIT.
Proof.
  intros Hs Hg. destruct l as [|h r]; [by apply not_elem_of_nil in Hg|].
  destruct Hs as [_ Hc]. apply seg_chain_Forall in Hc.
  rewrite Forall_forall in Hc. by destruct (Hc g Hg) as ((_ & _ & ?) & _).
Qed.

Lemma aimd_room una cwnd ackNum :
  0 <= una -> CWND_MIN_BYTES <= cwnd <= una + CWND_SLACK -> una < ackNum ->
  CWND_MIN_BYTES <= aimd_increase cwnd <= ackNum + CWND_SLACK.
Proof.
  intros Hu Hc Ha. pose proof (aimd_increase_range cwnd (proj1 Hc)).
  destruct (decide (5725 <= cwnd)) as [Hb|Hb].
  - rewrite (aimd_increase_slow cwnd Hb) in *. lia.
  - lims.
Qed.

Lemma advanced_ok ackNum now1 now2 s :
  sock_ok s -> sndUna_ s < ackNum <= sndNxt_ s -> 0 <= now1 <= TIME_LIMIT ->
  sock_ok (advanced ackNum now1 now2 s).
Proof.
  intros Hok Ha Hn. unfold advanced.
  pose proof (segs_ok_drop _ _ _ _ (ok_segs _ Hok) Ha) as Hd.
  pose proof (aimd_room _ _ _ (proj1 (ok_una _ Hok)) (ok_cwnd _ Hok) (proj1 Ha)) as Hc.
  set (s1 := set_cwnd _ _).
  assert (Hs1 : sock_ok s1).
  { subst s1. destruct Hok. constructor; cbn in *; auto; try lims.
    case_match; lims. }
  repeat case_match; [done|by apply sampled_ok|done].
Qed.

Lemma advanced_step ackNum now1 now2 s :
  state_open (state_ s) = true -> sock_step s (advanced ackNum now1 now2 s).
Proof.
  intros Ho. unfold advanced, sampled.
  repeat case_match; constructor; cbn; auto; congruence.
Qed.

(** The restart of the timer, the pop and the new [sndUna]. *)
Lemma wp_popAckedThrough sk ackNum s t e
    (Q' : option OutstandingSeg -> TcpManager * E -> Prop) :
  mgr_ok e -> sock_at sk s t -> sock_ok s ->
  (forall now e', sends e [] e' -> 0 <= now <= TIME_LIMIT ->
     Q' (last_acked ackNum (outstanding_ s) None)
       (put_sock sk (set_nextRtoDeadlineMs
          (match drop_acked ackNum (outstanding_ s) with
           | [] => 0 | _ => now + rtoMs_ s end)
          (set_sndUna ackNum
            (set_outstanding (drop_acked ackNum (outstanding_ s)) s))) t, e')) ->
  wp (popAckedThrough sk ackNum) (t, e) Q' env_fault.
Proof.
  intros He Hs Hok HQ. unfold popAckedThrough. tcp_go.
  pose proof (segs_ok_bounds _ _ _ (ok_segs _ Hok) (proj1 (ok_una _ Hok))
    (ok_nxt _ Hok)) as Hb.
  eapply run_wp.
  { apply pop_loop_run. eapply List.Forall_impl; [|done]. cbn.
    intros g ([Hl _] & ? & ?). unfold seg_end in *. lims. }
  pose proof (ok_rto _ Hok).
  tcp_go. destruct (drop_acked ackNum (outstanding_ s)) as [|g r].
  - tcp_go. apply (HQ 0); [by apply sends_refl|lims].
  - tcp_go. by apply HQ.
Qed.

Lemma wp_onAck_established sk ack s t e Q :
  mgr_ok e -> sock_at sk s t -> peer_ok (addr_ t) s ->
  INT_MIN <= window_ ack <= INT_MAX ->
  (forall now1 now2 e', 0 <= now1 <= TIME_LIMIT -> 0 <= now2 <= TIME_LIMIT ->
     sends e (ack_sends (addr_ t) ack s) e' ->
     Q tt (put_sock sk (acked ack now1 now2 s) t, e')) ->
  wp (onAck_established sk ack) (t, e) Q env_fault.
Proof.
  intros He Hs Hp Hw HQ. unfold onAck_established, acked, ack_sends in *.
  assert (Ht0 : 0 <= 0 <= TIME_LIMIT) by lims. tcp_step. tcp_step.
  destruct (seqNum_ ack >? sndNxt_ s) eqn:Hgt; cbn [orb] in *.
  { tcp_go. rewrite (put_sock_id sk s) in HQ by done. by apply (HQ 0 0). }
  tcp_go. destruct (seqNum_ ack <=? sndUna_ s) eqn:Hle.
  { tcp_go. by apply (HQ 0 0). }
  set (s0 := setRwnd (window_ ack) s) in *. destruct Hp as (Hok & Hc & Ha).
  assert (Hok0 : sock_ok s0) by (revert Hok; sock_solve).
  tcp_step. eapply wp_popAckedThrough; [done|sock_here|done|].
  intros now1 e1 He1 Hn1. autorewrite with tcp. tcp_step.
  set (s1 := set_nextRtoDeadlineMs _ _).
  assert (Hrange : sndUna_ s0 < seqNum_ ack <= sndNxt_ s0) by (cbn; lia).
  eapply run_wp.
  { apply additiveIncreaseCwnd_run; [sock_here|].
    pose proof (ok_cwnd _ Hok). pose proof (ok_nxt _ Hok). pose proof (ok_una _ Hok).
    cbn. lims. }
  autorewrite with tcp. tcp_step.
  apply (wp_conseq _ _ (fun _ r => exists now2 e2, 0 <= now2 <= TIME_LIMIT /\
    sends e [] e2 /\
    r = (put_sock sk (advanced (seqNum_ ack) now1 now2 s0) t, e2)) _ env_fault); [|
    |by intros].
  - unfold advanced. change (outstanding_ s0) with (outstanding_ s).
    destruct (last_acked (seqNum_ ack) (outstanding_ s) None) as [g|] eqn:Hg.
    + destruct (retransmitted g); cbn [negb].
      * apply wp_ret. by exists 0, e1.
      * assert (0 <= firstSentAtMs g <= TIME_LIMIT).
        { eapply segs_ok_firstSent; [apply (ok_segs _ Hok)|].
          by apply last_acked_in in Hg as [|]. }
        tcp_go. eapply run_wp; [apply onSampleRTT_run; sock_here|].
        autorewrite with tcp. by eexists _, _.
    + apply wp_ret. by exists 0, e1.
  - intros [] ? (now2 & e2 & Hn2 & He2 & ->). tcp_step.
    assert (Hok2 : sock_ok (advanced (seqNum_ ack) now1 now2 s0))
      by (by apply advanced_ok).
    assert (Hcv : conn_valid (advanced (seqNum_ ack) now1 now2 s0)).
    { revert Hc. unfold conn_valid, advanced, sampled. by repeat case_match. }
    eapply wp_maybeSendFinOnDrain; [mgr_here|sock_here|by autorewrite with tcp|].
    intros e3 He3. autorewrite with tcp in *.
    assert (Hds : drain_sends (addr_ t) (advanced (seqNum_ ack) now1 now2 s0) =
      drain_sends (addr_ t)
        (set_outstanding (drop_acked (seqNum_ ack) (outstanding_ s)) s)).
    { unfold advanced, sampled. cbv zeta.
      destruct (last_acked _ _ _) as [g|]; [destruct (retransmitted g)|];
        [|destruct (hasEstRTT_ _)|]; reflexivity. }
    rewrite Hds in He3. sends_merge. tcp_go. by eapply HQ.
Qed.

Lemma acked_ok ack now1 now2 s :
  sock_ok s -> INT_MIN <= window_ ack <= INT_MAX -> 0 <= now1 <= TIME_LIMIT ->
  sock_ok (acked ack now1 now2 s).
Proof.
  intros Hok Hw Hn. unfold acked. destruct (Z.gtb_spec (seqNum_ ack) (sndNxt_ s)); [done|].
  assert (Hok0 : sock_ok (setRwnd (window_ ack) s)) by (revert Hok; sock_solve).
  destruct (Z.leb_spec (seqNum_ ack) (sndUna_ s)); [done|].
  apply drained_ok, advanced_ok; [done| |done]. cbn. lia.
Qed.

Lemma sock_step_trans s1 s2 s3 :
  sock_step s1 s2 -> sock_step s2 s3 ->
  (state_open (state_ s1) = false -> state_open (state_ s2) = false) ->
  sock_step s1 s3.
Proof.
  intros [H1 H2 H3 H4 H5 H6] [G1 G2 G3 G4 G5 G6] Hc. constructor; try congruence.
  - destruct H5 as [E1|[E1|[E1 E1']]], G5 as [E2|[E2|[E2 E2']]];
      try (left; congruence); try (right; left; congruence);
      try (right; right; split; congruence).
    by rewrite E1 in E2.
  - intros Ho Hout. apply G6; auto.
Qed.

Lemma acked_step ack now1 now2 s :
  state_open (state_ s) = true -> sock_step s (acked ack now1 now2 s).
Proof.
  intros Ho. unfold acked. case_match; [apply sock_step_refl|].
  case_match; [by constructor; auto|].
  eapply sock_step_trans; [|apply drained_step|congruence].
  eapply sock_step_trans; [|by apply advanced_step|congruence].
  by constructor; auto.
Qed.
End spec.
