(* ===== verification/TcpFlow.v ===== *)
(** * Data transfer

    The rules of TcpSpec.v for the operations that move data: the arrival of a
    segment, the retransmission timer, [write] and [read]. *)

From S2P Require Import Prelude CppStrings Doubles Packet Transport Runtime TcpData TcpSend TcpSocket TcpManager TcpRun TcpInv TcpOps TcpSpec.

(** ** Segmentation *)

(** The payloads that a run of bytes is cut into. *)
Fixpoint split_mss_fuel (fuel : nat) (l : list byte) : list (list byte) :=
  match fuel with
  | O => []
  | S fuel =>
      match l with
      | [] => []
      | _ => take (Z.to_nat Transport.MAX_PAYLOAD_SIZE) l ::
             split_mss_fuel fuel (drop (Z.to_nat Transport.MAX_PAYLOAD_SIZE) l)
      end
  end.
Definition split_mss (l : list byte) : list (list byte) := split_mss_fuel (length l) l.

Lemma mss_pos : (0 < Z.to_nat Transport.MAX_PAYLOAD_SIZE)%nat.
Proof. vm_compute. lia. Qed.

#[local] Opaque Z.to_nat.

Lemma split_mss_more fuel l :
  (length l <= fuel)%nat -> split_mss_fuel fuel l = split_mss l.
Proof.
  unfold split_mss. revert l.
  induction fuel as [fuel IH] using (well_founded_induction lt_wf). intros l Hl.
  destruct fuel as [|fuel]; [by destruct l; [|cbn in Hl; lia]|].
  destruct l as [|b l]; [done|]. cbn [split_mss_fuel length]. f_equal.
  pose proof mss_pos. set (n := Z.to_nat _) in *.
  assert (length (drop n (b :: l)) <= length l)%nat
    by (rewrite length_drop; cbn [length]; lia).
  cbn in Hl. rewrite (IH fuel) by (try lia).
  destruct (decide (length l = fuel)) as [->|]; [by rewrite (IH fuel) by lia|].
  rewrite (IH (length l)) by lia. done.
Qed.

Lemma split_mss_cons l :
  l <> [] ->
  split_mss l = take (Z.to_nat Transport.MAX_PAYLOAD_SIZE) l ::
    split_mss (drop (Z.to_nat Transport.MAX_PAYLOAD_SIZE) l).
Proof.
  destruct l as [|b l]; [done|intros _]. unfold split_mss at 1.
  cbn [length split_mss_fuel]. f_equal. apply split_mss_more.
  pose proof mss_pos. rewrite length_drop. cbn [length]. lia.
Qed.

(** Cutting loses nothing, and only full payloads precede the last. *)
Lemma split_mss_concat l : concat (split_mss l) = l.
Proof.
  induction l as [l IH] using (well_founded_induction
    (well_founded_ltof _ (@length byte))).
  destruct (decide (l = [])) as [->|Hl]; [done|].
  rewrite split_mss_cons by done. cbn. rewrite IH; [apply take_drop|].
  unfold ltof. rewrite length_drop. pose proof mss_pos. destruct l; [done|cbn [length]; lia].
Qed.

Section flow.
Context `{ManagerLaws E}.
Implicit Types (t : TcpManager) (e : E) (s : TcpSocket)
  (Q : unit -> TcpManager * E -> Prop).

(** ** Arrival of data *)

Definition accepts (seg : Transport) (s : TcpSocket) : bool :=
  state_open (state_ s) && negb (vsize (Transport.payload_ seg) =? 0) &&
  (seqNum_ seg =? rcvNxt_ s) &&
  (vsize (Transport.payload_ seg) <=? getRecvBufAvailable s).

Definition arrived (seg : Transport) (s : TcpSocket) : TcpSocket :=
  if accepts seg s
  then set_rcvNxt (rcvNxt_ s + vsize (Transport.payload_ seg))
         (received (Transport.payload_ seg) s)
  else s.

(** Every data segment for an open connection is answered by exactly one
    acknowledgment, which tells what the receiver expects next. *)
Definition data_sends (addr : Z) (seg : Transport) (s : TcpSocket) : list datagram :=
  if state_open (state_ s) then
    [to_peer addr s (out_seg s ACK (getRecvBufAvailable (arrived seg s))
                       (rcvNxt_ (arrived seg s)) [])]
  else [].

(** The receive sequence numbers stay in range. *)
Definition rcv_room (s : TcpSocket) : Prop :=
  rcvNxt_ s + Transport.MAX_PAYLOAD_SIZE <= SEQ_LIMIT.

Lemma wp_ack_peer addr s sk t e n w adv (K : bool -> TcpManager * E -> Prop) :
  mgr_ok e -> peer_ok (addr_ t) s -> addr = remoteAddr_ s ->
  sk = remotePort_ s -> INT_MIN <= n <= INT_MAX -> INT_MIN <= w <= INT_MAX ->
  (forall e', sends e [to_peer (addr_ t) s (out_seg s ACK w n [])] e' ->
     K true (t, e')) ->
  wp (sendAck (localPort_ s) addr sk n adv w) (t, e) K env_fault.
Proof.
  intros He Hp -> -> Hn Hw HQ. rewrite sendAck_transmit.
  rewrite (new_out_seg (addr_ t)) by seg_lims.
  apply wp_transmit; [done|apply Hp|apply Hp| |done].
  eapply out_seg_ok; seg_lims.
Qed.

Lemma state_open_spec s :
  isConnected s || isClosurePending s = state_open (state_ s).
Proof. unfold isConnected, isClosurePending. by destruct (state_ s). Qed.

Lemma avail_range s : sock_ok s -> 0 <= getRecvBufAvailable s <= RECV_BUF_CAP.
Proof.
  intros Hok. destruct (ok_buf _ Hok) as [Hb Hc]. unfold getRecvBufAvailable.
  pose proof (vsize_nonneg (recvBuf_ s)). lia.
Qed.

Lemma arrived_ok seg s :
  sock_ok s -> rcv_room s -> transport_ok seg -> sock_ok (arrived seg s).
Proof.
  unfold arrived, accepts, rcv_room. intros Hok Hr [(_ & _ & _ & Hsz) _].
  destruct (_ && _) eqn:Ha; [|done].
  pose proof (vsize_nonneg (Transport.payload_ seg)).
  assert (vsize (Transport.payload_ seg) <= getRecvBufAvailable s) as Hav by lia.
  unfold getRecvBufAvailable in Hav.
  destruct Hok as [? ? ? ? ? ? [Hb Hc]]. constructor; cbn in *; auto; try lims.
  split; [|lia]. rewrite vsize_app. lia.
Qed.

Lemma arrived_step seg s : sock_step s (arrived seg s).
Proof. unfold arrived. case_match; by constructor; auto. Qed.

Lemma wp_onData_known sk srcAddr seg s t e Q :
  mgr_ok e -> sock_at sk s t -> peer_ok (addr_ t) s -> rcv_room s ->
  transport_ok seg ->
  establishedByKey_ t !! mkKey srcAddr (srcPort_ seg) (destPort_ seg) = Some sk ->
  srcAddr = remoteAddr_ s -> srcPort_ seg = remotePort_ s ->
  (forall e', sends e (data_sends (addr_ t) seg s) e' ->
     Q tt (put_sock sk (arrived seg s) t, e')) ->
  wp (onData srcAddr seg) (t, e) Q env_fault.
Proof.
  intros He Hs Hp Hr Hseg Hk Ha Hpt HQ. pose proof (proj1 Hp) as Hok.
  pose proof (arrived_ok _ _ Hok Hr Hseg) as Hok'.
  pose proof (avail_range _ Hok) as Hav. pose proof (avail_range _ Hok') as Hav'.
  pose proof (ok_rcv _ Hok) as Hrn. pose proof (ok_rcv _ Hok') as Hrn'.
  destruct Hseg as [(_ & _ & _ & Hsz) _].
  pose proof (vsize_nonneg (Transport.payload_ seg)).
  unfold onData. tcp_step. tcp_step. rewrite Hk. tcp_go.
  rewrite state_open_spec. unfold arrived, data_sends, arrived, accepts in *.
  assert (Hid : put_sock sk s t = t) by (by apply put_sock_id).
  destruct (state_open (state_ s)); cbn [negb andb] in *;
    [|apply wp_ret; rewrite Hid in HQ; by apply HQ, sends_refl].
  (* the acknowledgments of a segment that is not taken *)
  assert (Hrej : forall e1, sends e [] e1 ->
    (forall e', sends e [to_peer (addr_ t) s (out_seg s ACK (getRecvBufAvailable s)
                 (rcvNxt_ s) [])] e' -> Q tt (put_sock sk s t, e')) ->
    wp (sendAck (localPort_ s) srcAddr (srcPort_ seg) (rcvNxt_ s) false
          (getRecvBufAvailable s)) (t, e1) (fun _ r => wp (ret tt) r Q env_fault)
        env_fault).
  { intros e1 He1 HQ1. eapply wp_ack_peer; try done; [mgr_here|lims..|].
    intros e2 He2. sends_merge. apply wp_ret. rewrite Hid in HQ1. by apply HQ1. }
  destruct (Z.eqb_spec (vsize (Transport.payload_ seg)) 0); cbn [negb andb] in *.
  { tcp_go. by apply Hrej, HQ; apply sends_refl. }
  destruct (Z.eqb_spec (seqNum_ seg) (rcvNxt_ s)); cbn [andb] in *;
    [|tcp_go; by apply Hrej].
  rewrite Z.ltb_antisym.
  destruct (vsize (Transport.payload_ seg) <=? getRecvBufAvailable s) eqn:Hfit;
    cbn [negb] in *; [|tcp_go; by apply Hrej].
  tcp_step. eapply run_wp; [apply appendToRecvBuf_run; [exact Hok|sock_here|lia]|].
  cbn in Hrn'. tcp_go.
  set (s' := set_rcvNxt _ _) in *.
  change (localPort_ s') with (localPort_ s).
  change (rcvNxt_ s') with (rcvNxt_ s + vsize (Transport.payload_ seg)).
  eapply (wp_ack_peer _ s); autorewrite with tcp; try done; [mgr_here|lims..|].
  intros e2 He2. sends_merge. tcp_go. by apply HQ.
Qed.

(** ** The retransmission timer *)

(** The datagram of an outstanding segment. *)
Definition data_datagram (addr : Z) (s : TcpSocket) (g : OutstandingSeg) : datagram :=
  to_peer addr s (out_seg s DATA 0 (seqStart g) (data g)).

Definition timer_due (now : Z) (s : TcpSocket) : bool :=
  hasOutstanding s && negb (nextRtoDeadlineMs_ s =? 0) &&
  (nextRtoDeadlineMs_ s <=? now).

(** Back off, shrink the window, go back N. *)
Definition backed_off (s : TcpSocket) : TcpSocket :=
  set_cwnd (aimd_decrease (cwnd_ s))
    (set_rtoMs (rto_backoff (rtoMs_ s)) (set_timeoutCount (timeoutCount s + 1) s)).

Definition ticked (now : Z) (s : TcpSocket) : TcpSocket :=
  if timer_due now s then
    set_nextRtoDeadlineMs (now + rto_backoff (rtoMs_ s))
      (set_outstanding (map set_retransmitted (outstanding_ s)) (backed_off s))
  else s.

Definition tick_sends (now addr : Z) (s : TcpSocket) : list datagram :=
  if timer_due now s then map (data_datagram addr s) (outstanding_ s) else [].

Lemma seg_chain_resent lo l hi :
  seg_chain lo l hi -> seg_chain lo (map set_retransmitted l) hi.
Proof.
  revert lo. induction l as [|g r IH]; intros lo; cbn; [done|].
  intros (? & ? & ?). split; [done|]. split; [done|]. by apply IH.
Qed.

Lemma segs_ok_resent una nxt l :
  segs_ok una nxt l -> segs_ok una nxt (map set_retransmitted l).
Proof.
  destruct l as [|g r]; [done|]. intros [? Hc]. split; [done|].
  by apply (seg_chain_resent _ (g :: r)).
Qed.

Lemma rto_backoff_range rto :
  RTO_INITIAL_MS <= rto <= RTO_MAX_MS -> RTO_INITIAL_MS <= rto_backoff rto <= RTO_MAX_MS.
Proof. unfold rto_backoff. lims. Qed.

Lemma aimd_decrease_range cwnd B :
  CWND_MIN_BYTES <= cwnd <= B -> CWND_MIN_BYTES <= aimd_decrease cwnd <= B.
Proof. unfold aimd_decrease. unfold_limits. Z.div_mod_to_equations. lia. Qed.

Lemma ticked_ok now s :
  sock_ok s -> timeoutCount s < INT_MAX -> 0 <= now <= TIME_LIMIT ->
  sock_ok (ticked now s).
Proof.
  unfold ticked. intros Hok Hc Hn. case_match; [|done].
  pose proof (segs_ok_resent _ _ _ (ok_segs _ Hok)).
  pose proof (rto_backoff_range _ (ok_rto _ Hok)).
  pose proof (aimd_decrease_range _ _ (ok_cwnd _ Hok)).
  destruct Hok. constructor; cbn in *; auto; try lims.
Qed.

Lemma ticked_step now s : sock_step s (ticked now s).
Proof. unfold ticked. case_match; constructor; cbn; auto. by intros _ ->. Qed.

Lemma data_seg_ok addr s g :
  peer_ok addr s -> seg_ok g -> INT_MIN <= seqStart g <= INT_MAX ->
  new_Transport (localPort_ s) (remotePort_ s) DATA 0 (seqStart g) (data g) =
    inr (out_seg s DATA 0 (seqStart g) (data g)) /\
  transport_ok (out_seg s DATA 0 (seqStart g) (data g)).
Proof.
  intros Hp ([? Hl] & Hd & _) Hs.
  split; [eapply new_out_seg|eapply out_seg_ok]; seg_lims.
Qed.

Lemma wp_sendData sk s g (re : bool) t e (K : bool -> TcpManager * E -> Prop) :
  mgr_ok e -> sock_at sk s t -> peer_ok (addr_ t) s -> seg_ok g ->
  INT_MIN <= seqStart g <= INT_MAX ->
  (forall e', sends e [data_datagram (addr_ t) s g] e' -> K true (t, e')) ->
  wp (sendData sk (remoteAddr_ s) (remotePort_ s) (seqStart g) (data g) re) (t, e) K
    env_fault.
Proof.
  intros He Hs Hp Hg Hq HK. unfold wp. rewrite (sendData_transmit _ _ _ _ _ _ s) by done.
  destruct (data_seg_ok _ _ _ Hp Hg Hq) as [-> Hok].
  apply wp_transmit; [done|apply Hp|apply Hp|done|done].
Qed.

Lemma alter_middle {A} (f : A -> A) (l1 : list A) x l2 :
  alter f (length l1) (l1 ++ x :: l2) = l1 ++ f x :: l2.
Proof. induction l1 as [|y l1 IH]; [done|]. cbn. f_equal. apply IH. Qed.

(** The loop over the deque resends every segment and marks it. *)
Lemma wp_resend_loop sk segs done s t e Q :
  mgr_ok e -> sock_at sk s t -> peer_ok (addr_ t) s ->
  outstanding_ s = map set_retransmitted done ++ segs ->
  Forall (fun g => seg_ok g /\ INT_MIN <= seqStart g <= INT_MAX) segs ->
  (forall e', sends e (map (data_datagram (addr_ t) s) segs) e' ->
     Q tt (put_sock sk (set_outstanding
             (map set_retransmitted (done ++ segs)) s) t, e')) ->
  wp (resend_loop sk (length done) segs) (t, e) Q env_fault.
Proof.
  revert done s t e. induction segs as [|g segs IH]; intros l s t e He Hs Hp Ho Hf HQ.
  - apply wp_ret. rewrite !app_nil_r in *. rewrite <- Ho in HQ.
    assert (set_outstanding (outstanding_ s) s = s) as Hid by (by destruct s).
    rewrite Hid, (put_sock_id sk s) in HQ by done. by apply HQ, sends_refl.
  - apply Forall_cons in Hf as [[Hg Hq] Hf]. cbn [resend_loop]. tcp_go.
    eapply wp_sendData; [done..|]. intros e1 He1. tcp_go.
    set (s' := set_outstanding _ s).
    assert (Ho' : outstanding_ s' = map set_retransmitted (l ++ [g]) ++ segs).
    { subst s'. cbn. rewrite Ho, map_app, <- app_assoc. cbn.
      rewrite <- (length_map set_retransmitted l). apply alter_middle. }
    replace (S (length l)) with (length (l ++ [g])) by (rewrite length_app; cbn; lia).
    apply (IH _ s'); autorewrite with tcp; try done; [mgr_here|sock_here| |].
    + destruct Hp as (Hok & Hc & Ha). split; [|by split].
      assert (Hsame : segs_ok (sndUna_ s) (sndNxt_ s) (outstanding_ s')).
      { (* the marks do not matter to the chain *)
        pose proof (ok_segs _ Hok) as Hsg. rewrite Ho'. rewrite Ho in Hsg.
        rewrite map_app, <- app_assoc. cbn.
        destruct l as [|h l]; cbn in *.
        - exact Hsg.
        - destruct Hsg as [Hb (Hh & Hh' & Hch)]. split; [done|]. split; [done|].
          split; [done|]. clear - Hch. revert Hch.
          generalize (seg_end (set_retransmitted h)). intros lo.
          revert lo. induction (map set_retransmitted l) as [|k r IHr];
            intros lo; cbn; [done|]. intros (? & ? & ?). auto. }
      destruct Hok. constructor; cbn in *; auto.
    + intros e2 He2. change (set_outstanding _ s') with
        (set_outstanding (map set_retransmitted ((l ++ [g]) ++ segs)) s).
      rewrite <- app_assoc. apply HQ. sends_merge. done.
Qed.

Lemma wp_tick_socket now sk s t e Q :
  mgr_ok e -> sock_at sk s t -> peer_ok (addr_ t) s -> timeoutCount s < INT_MAX ->
  0 <= now <= TIME_LIMIT ->
  (forall e', sends e (tick_sends now (addr_ t) s) e' ->
     Q tt (put_sock sk (ticked now s) t, e')) ->
  wp (tick_socket now sk) (t, e) Q env_fault.
Proof.
  intros He Hs Hp Hc Hn HQ. pose proof (proj1 Hp) as Hok.
  pose proof (ok_tmo _ Hok). pose proof (ok_rto _ Hok). pose proof (ok_cwnd _ Hok).
  pose proof (ok_una _ Hok). pose proof (ok_nxt _ Hok).
  unfold tick_socket, ticked, tick_sends, timer_due in *. tcp_go.
  assert (Hid : put_sock sk s t = t) by (by apply put_sock_id).
  destruct (hasOutstanding s); cbn [negb andb] in *;
    [|apply wp_ret; rewrite Hid in HQ; by apply HQ, sends_refl].
  rewrite Z.ltb_antisym.
  destruct (nextRtoDeadlineMs_ s =? 0), (nextRtoDeadlineMs_ s <=? now);
    cbn [negb andb orb] in *;
    try (apply wp_ret; rewrite Hid in HQ; by apply HQ, sends_refl).
  tcp_step. tcp_step. tcp_go.
  eapply run_wp; [apply doubleRto_run; [sock_here|cbn; lims]|].
  autorewrite with tcp. tcp_go.
  eapply run_wp; [apply multiplicativeDecreaseCwnd_run; [sock_here|cbn; lims]|].
  autorewrite with tcp. tcp_go.
  apply (wp_resend_loop sk (outstanding_ s) [] (backed_off s)); autorewrite with tcp.
  - done.
  - sock_here.
  - destruct Hp as (_ & Hcv & Ha). split; [|by split].
    pose proof (rto_backoff_range _ (ok_rto _ Hok)).
    pose proof (aimd_decrease_range _ _ (ok_cwnd _ Hok)).
    destruct Hok. constructor; cbn in *; auto; try lims.
  - done.
  - eapply List.Forall_impl; [|apply (segs_ok_bounds _ _ _ (ok_segs _ Hok)); lims].
    cbn. intros g (Hg & ? & ?). split; [done|]. destruct Hg as [[? ?] _].
    unfold seg_end in *. lims.
  - intros e1 He1. autorewrite with tcp. cbn [app]. tcp_go.
    + pose proof (rto_backoff_range _ (ok_rto _ Hok)). cbn.
      eapply wp_long; [lims|]. tcp_go. apply HQ. exact He1.
Qed.

(** ** Writing *)

(** How much of [len] bytes the window takes. *)
Definition write_count (s : TcpSocket) (len : Z) : Z :=
  Z.max 0 (Z.min len (effectiveWindow s - getBytesInFlight s)).

(** The segments that carry [bytes] from sequence number [nxt] on. *)
Record fresh_segs (nxt : Z) (bytes : list byte) (l : list OutstandingSeg) : Prop := {
  fresh_data : map data l = split_mss bytes;
  fresh_chain : seg_chain nxt l (nxt + vsize bytes);
  fresh_first : Forall (fun g => retransmitted g = false) l
}.

Definition pushed (segs : list OutstandingSeg) (n : Z) (s : TcpSocket) : TcpSocket :=
  set_sndNxt (sndNxt_ s + n) (set_outstanding (outstanding_ s ++ segs) s).

Definition piece (buf : list byte) (pos n : Z) : list byte :=
  take (Z.to_nat n) (drop (Z.to_nat pos) buf).

Lemma piece_size buf pos n :
  0 <= pos -> 0 <= n -> pos + n <= vsize buf -> vsize (piece buf pos n) = n.
Proof. unfold piece, vsize. intros. rewrite length_take, length_drop. lia. Qed.

Lemma piece_split buf pos m n :
  0 <= pos -> 0 <= m <= n ->
  piece buf pos n = piece buf pos m ++ piece buf (pos + m) (n - m).
Proof.
  intros Hp Hm. unfold piece. rewrite !Z2Nat.inj_add by lia.
  rewrite Z2Nat.inj_sub by lia. rewrite <- drop_drop.
  rewrite <- (take_drop (Z.to_nat m) (take (Z.to_nat n) _)) at 1.
  rewrite take_take, Nat.min_l by lia. f_equal.
  by rewrite skipn_firstn_comm.
Qed.

Lemma slice_run {S} buf pos n (st : S) :
  0 <= pos -> 0 <= n -> pos + n <= vsize buf ->
  slice buf pos n st = (Ret (piece buf pos n), st).
Proof.
  intros. unfold slice. replace (_ && _) with true by lia. done.
Qed.

Lemma pushed_ok segs n s :
  sock_ok s -> seg_chain (sndNxt_ s) segs (sndNxt_ s + n) -> sndNxt_ s + n <= SEQ_LIMIT ->
  sock_ok (pushed segs n s).
Proof.
  intros Hok Hc Hn. pose proof (seg_chain_le _ _ _ Hc) as Hle.
  assert (segs_ok (sndUna_ s) (sndNxt_ s + n) (outstanding_ s ++ segs)) as Hsg.
  { pose proof (ok_segs _ Hok) as Ho. destruct (outstanding_ s) as [|g r]; cbn in Ho.
    - rewrite Ho. destruct segs as [|h q]; cbn in *; [lia|].
      destruct Hc as (E1 & E2 & E3). split; [|done].
      destruct E2 as [? _]. unfold seg_end in *. lia.
    - destruct Ho as [Hb Ho]. split; [done|].
      by apply (seg_chain_app _ (g :: r) (sndNxt_ s)). }
  destruct Hok. constructor; cbn in *; auto; lia.
Qed.

Lemma pushed_nil s : pushed [] 0 s = s.
Proof. unfold pushed. destruct s. cbn. rewrite Z.add_0_r, app_nil_r. done. Qed.

Lemma fresh_nil nxt : fresh_segs nxt [] [].
Proof. constructor; cbn; [done|rewrite vsize_nil; lia|constructor]. Qed.

Lemma fresh_cons nxt buf pos n now m rest :
  0 <= pos -> 0 < n -> pos + n <= vsize buf -> 0 <= now <= TIME_LIMIT ->
  m = Z.min n Transport.MAX_PAYLOAD_SIZE ->
  fresh_segs (nxt + m) (piece buf (pos + m) (n - m)) rest ->
  fresh_segs nxt (piece buf pos n) (mkSeg nxt m (piece buf pos m) now false :: rest).
Proof.
  intros Hp Hn Hb Hnow Hm [Hd Hc Hf].
  assert (0 < m <= Transport.MAX_PAYLOAD_SIZE) as Hmr by lims.
  rewrite piece_size in Hc by lia.
  assert (vsize (piece buf pos m) = m) as Hsz by (apply piece_size; lia).
  constructor.
  - cbn. rewrite Hd, (split_mss_cons (piece buf pos n)).
    2:{ intros E1. pose proof (piece_size buf pos n ltac:(lia) ltac:(lia) ltac:(lia)) as E2. rewrite E1, vsize_nil in E2. lia. }
    assert (Hcut : Z.to_nat m = (Z.to_nat n `min` Z.to_nat Transport.MAX_PAYLOAD_SIZE)%nat)
      by lia.
    unfold piece. f_equal.
    + by rewrite take_take, Hcut, Nat.min_comm.
    + f_equal. rewrite Z2Nat.inj_add, Z2Nat.inj_sub by lia. rewrite <- drop_drop.
      rewrite <- skipn_firstn_comm, Hcut.
      destruct (decide (Z.to_nat n <= Z.to_nat Transport.MAX_PAYLOAD_SIZE)%nat).
      * rewrite !drop_ge; [done|rewrite length_take; lia..].
      * by rewrite Nat.min_r by lia.
  - cbn. split; [done|]. split; [split; [|split]; cbn; lia|].
    rewrite piece_size by lia. unfold seg_end. cbn.
    by replace (nxt + m + (n - m)) with (nxt + n) in Hc by lia.
  - by constructor.
Qed.

Lemma write_count_range s len : 0 <= len -> 0 <= write_count s len <= len.
Proof. unfold write_count. lia. Qed.

Lemma pushed_pushed l1 n1 l2 n2 s :
  pushed l2 n2 (pushed l1 n1 s) = pushed (l1 ++ l2) (n1 + n2) s.
Proof. unfold pushed. destruct s. cbn. by rewrite app_assoc, Z.add_assoc. Qed.

Lemma write_loop_more fuel sk bytes pos len tot (st : TcpManager * E) :
  0 < len ->
  write_loop (S fuel) sk bytes pos len tot st =
  (let! s := deref sk in
   let! flight := int (sndNxt_ s - sndUna_ s) in
   let eff := effectiveWindow s in
   if flight >=? eff then ret (inr tot)
   else
     let! space := int (eff - flight) in
     let chunk := Z.min len (Z.min space Transport.MAX_PAYLOAD_SIZE) in
     if chunk <=? 0 then ret (inr tot)
     else
       let! payload := slice bytes pos chunk in
       let seqStart := sndNxt_ s in
       let! ok := sendData sk (remoteAddr_ s) (remotePort_ s) seqStart
                    payload false in
       if negb ok then ret (inl (-1))
       else
         let! now := managerNowMs in
         pushOutstanding sk (mkSeg seqStart chunk payload now false) ;;
         let! s' := deref sk in
         let! sndNxt := int (sndNxt_ s' + chunk) in
         upd sk (set_sndNxt sndNxt) ;;
         let! pos' := int (pos + chunk) in
         let! tot' := int (tot + chunk) in
         let! len' := int (len - chunk) in
         write_loop fuel sk bytes pos' len' tot') st.
Proof. intros Hl. cbn [write_loop]. by replace (len <=? 0) with false by lia. Qed.

(** The size of the next segment, and what is left to write after it. *)
Lemma next_chunk s len segs n m :
  sock_ok s -> 0 < len -> getBytesInFlight s < effectiveWindow s -> n = write_count s len ->
  m = Z.min len (Z.min (effectiveWindow s - getBytesInFlight s) Transport.MAX_PAYLOAD_SIZE) ->
  0 < n <= len /\ 0 < m <= n /\ m <= Transport.MAX_PAYLOAD_SIZE /\
  m = Z.min n Transport.MAX_PAYLOAD_SIZE /\
  write_count (pushed segs m s) (len - m) = n - m.
Proof.
  intros Hok Hlen Hroom -> ->. unfold write_count, effectiveWindow, getBytesInFlight in *.
  cbn [sndNxt_ sndUna_ rwnd_ cwnd_ pushed set_sndNxt set_outstanding]. lims.
Qed.

(** The loop sends what the window takes and nothing else. *)
Lemma wp_write_loop fuel sk bytes pos len tot s t e
    (K : Z + Z -> TcpManager * E -> Prop) :
  mgr_ok e -> sock_at sk s t -> peer_ok (addr_ t) s ->
  0 <= pos -> 0 <= len -> pos + len <= vsize bytes <= INT_MAX ->
  0 <= tot -> tot + len <= INT_MAX -> sndNxt_ s + len <= SEQ_LIMIT ->
  (Z.to_nat len < fuel)%nat ->
  (forall segs e', fresh_segs (sndNxt_ s) (piece bytes pos (write_count s len)) segs ->
     sends e (map (data_datagram (addr_ t) s) segs) e' ->
     K (inr (tot + write_count s len))
       (put_sock sk (pushed segs (write_count s len) s) t, e')) ->
  wp (write_loop fuel sk bytes pos len tot) (t, e) K env_fault.
Proof.
  revert pos len tot s t e.
  induction fuel as [|fuel IH]; intros pos len tot s t e He Hs Hp Hpos Hlen Hb Ht Htl
    Hsq Hfu HK; [lia|].
  (* nothing more is sent *)
  assert (Hstop : write_count s len = 0 -> K (inr tot) (t, e)).
  { intros Hw. specialize (HK [] e). rewrite Hw, pushed_nil, (put_sock_id sk s) in HK by done.
    rewrite Z.add_0_r in HK. apply HK; [apply fresh_nil|by apply sends_refl]. }
  destruct (decide (len = 0)) as [->|Hne].
  { cbn [write_loop]. change (0 <=? 0) with true. apply wp_ret, Hstop.
    unfold write_count. lia. }
  pose proof (proj1 Hp) as Hok. pose proof (ok_una _ Hok). pose proof (ok_nxt _ Hok).
  pose proof (ok_rwnd _ Hok). pose proof (ok_cwnd _ Hok).
  eapply wp_eq; [apply write_loop_more; lia|]. tcp_step. tcp_step. tcp_step. tcp_step.
  fold (getBytesInFlight s). cbv zeta.
  destruct (Z.geb_spec (getBytesInFlight s) (effectiveWindow s)) as [Hfull|Hroom].
  { apply wp_ret, Hstop. unfold write_count. lia. }
  tcp_step. apply wp_int; [unfold effectiveWindow, getBytesInFlight in *; lims|].
  destruct (next_chunk s len [] _ _ Hok ltac:(lia) Hroom eq_refl eq_refl)
    as (Hn & Hmp & Hmm & Hm & Hn').
  set (n := write_count s len) in *. set (m := Z.min len _) in *.
  clearbody m. replace (m <=? 0) with false by lia.
  tcp_step. eapply run_wp; [apply slice_run; lia|].
  tcp_step.
  assert (Hsz : vsize (piece bytes pos m) = m) by (apply piece_size; lia).
  set (g0 := mkSeg (sndNxt_ s) m (piece bytes pos m) 0 false).
  apply (wp_sendData sk s g0); try done.
  { split; [cbn; lia|]. split; [done|]. cbn. lims. }
  { cbn. lims. }
  intros e1 He1. cbn [negb]. tcp_step. tcp_step. unfold pushOutstanding. tcp_go.
  set (g := mkSeg (sndNxt_ s) m (piece bytes pos m) now false).
  change (data_datagram (addr_ t) s g0) with (data_datagram (addr_ t) s g) in *.
  cbn [sndNxt_ set_outstanding]. apply wp_int; [cbn; lims|]. tcp_go.
  change (set_sndNxt _ _) with (pushed [g] m s).
  assert (Hfr : forall rest, fresh_segs (sndNxt_ s + m) (piece bytes (pos + m) (n - m)) rest ->
    fresh_segs (sndNxt_ s) (piece bytes pos n) (g :: rest)).
  { intros rest Hrest. apply fresh_cons; auto; lia. }
  change (write_count _ _ = _) with (write_count (pushed [g] m s) (len - m) = n - m) in Hn'.
  apply (IH _ _ _ (pushed [g] m s)); autorewrite with tcp; try done; try lia.
  - mgr_here.
  - sock_here.
  - destruct Hp as (_ & Hcv & Ha). split; [|by split]. apply pushed_ok; [done| |lia].
    cbn. split; [done|]. split; [|done]. by split; [cbn; lia|].
  - cbn. lia.
  - rewrite Hn'. intros rest e3 Hrest He3. cbn in Hrest.
    autorewrite with tcp.
    rewrite pushed_pushed. replace (m + (n - m)) with n by lia.
    replace (tot + m + (n - m)) with (tot + n) by lia.
    apply (HK (g :: rest)); [by apply Hfr|]. sends_merge. done.
Qed.

(** The socket after [write] took [n] bytes as [segs], the clock read [now]
    when the timer was started. *)
Definition written (segs : list OutstandingSeg) (n now : Z) (s : TcpSocket)
    : TcpSocket :=
  let s' := pushed segs n s in
  if negb (hasOutstanding s) && (n >? 0)
  then set_nextRtoDeadlineMs (now + rtoMs_ s) s' else s'.

Lemma wp_write sk bytes pos len s t e (K : Z -> TcpManager * E -> Prop) :
  mgr_ok e -> sock_at sk s t -> peer_ok (addr_ t) s -> state_ s = ESTABLISHED ->
  0 <= pos -> 0 <= len -> pos + len <= vsize bytes <= INT_MAX ->
  sndNxt_ s + len <= SEQ_LIMIT ->
  (forall segs now e', fresh_segs (sndNxt_ s) (piece bytes pos (write_count s len)) segs ->
     0 <= now <= TIME_LIMIT ->
     sends e (map (data_datagram (addr_ t) s) segs) e' ->
     K (write_count s len) (put_sock sk (written segs (write_count s len) now s) t, e')) ->
  wp (write sk (Some bytes) pos len) (t, e) K env_fault.
Proof.
  intros He Hs Hp Hst Hpos Hlen Hb Hsq HK. unfold write. tcp_go.
  replace (_ || _) with false
    by (rewrite (bool_decide_eq_true_2 _ Hst); cbn; lia).
  destruct (Z.eqb_spec len 0) as [->|Hne].
  { apply wp_ret. assert (write_count s 0 = 0) as Hw by (unfold write_count; lia).
    specialize (HK [] 0 e). rewrite Hw in HK. unfold written in HK.
    rewrite pushed_nil, andb_false_r, (put_sock_id sk s) in HK by done.
    apply HK; [apply fresh_nil|lims|by apply sends_refl]. }
  tcp_go. apply (wp_write_loop _ _ _ _ _ _ s); try done; try lia; try lims.
  intros segs e1 Hf He1. rewrite Z.add_0_l. unfold written in HK.
  pose proof (ok_rto _ (proj1 Hp)).
  tcp_step. apply wp_when; intros Hi; rewrite Hi in HK.
  - tcp_step. tcp_step. tcp_step. tcp_step. cbn [rtoMs_ pushed].
    tcp_step. apply wp_long; [cbn; lims|]. tcp_go. by eapply HK.
  - tcp_go. apply (HK _ 0); [done|lims|done].
Qed.

(** On a socket that is not open, or with a negative argument, nothing
    happens. *)
Lemma write_refused_run sk bytes pos len s t e :
  sock_at sk s t -> ~ (state_ s = ESTABLISHED /\ 0 <= pos /\ 0 <= len) ->
  write sk (Some bytes) pos len (t, e) = (Ret (-1), (t, e)).
Proof.
  intros Hs Hbad. unfold write. run_step. replace (_ || _) with true; [done|].
  symmetry. destruct (decide (state_ s = ESTABLISHED)) as [E1|E1].
  - rewrite bool_decide_eq_true_2 by done. cbn.
    assert (~ (0 <= pos /\ 0 <= len)) by (intros [? ?]; apply Hbad; auto). lia.
  - by rewrite bool_decide_eq_false_2.
Qed.

Lemma written_ok segs n now s bytes :
  sock_ok s -> fresh_segs (sndNxt_ s) bytes segs -> vsize bytes = n ->
  sndNxt_ s + n <= SEQ_LIMIT -> 0 <= now <= TIME_LIMIT -> sock_ok (written segs n now s).
Proof.
  intros Hok [_ Hc _] <- Hn Hnow. unfold written.
  pose proof (pushed_ok _ _ _ Hok Hc Hn) as Hp. case_match; [|done].
  pose proof (ok_rto _ Hok). destruct Hp. constructor; cbn in *; auto; lims.
Qed.

Lemma written_step segs n now s :
  state_open (state_ s) = true -> sock_step s (written segs n now s).
Proof. intros. unfold written. case_match; constructor; cbn; auto; congruence. Qed.

(** ** Reading *)

Definition consumed (n : Z) (s : TcpSocket) : TcpSocket :=
  let s' := set_recvBufUsed (recvBufUsed_ s - n)
              (set_recvBuf (drop (Z.to_nat n) (recvBuf_ s)) s) in
  if peerFinReceived_ s && (recvBufUsed_ s - n =? 0)
  then set_state CLOSED s' else s'.

(** [bytes] with [n] positions from [pos] on overwritten by the first bytes
    of [src]. *)
Definition overwrite (bytes : list byte) (pos n : nat) (src : list byte) : list byte :=
  take pos bytes ++ take n src ++ drop (pos + n) bytes.

Lemma read_loop_run n pos buf src :
  (pos + n <= length buf)%nat -> (n <= length src)%nat ->
  read_loop n pos buf src = Some (overwrite buf pos n src, drop n src).
Proof.
  unfold overwrite. revert pos buf src. induction n as [|n IH]; intros pos buf src Hb Hs.
  - rewrite Nat.add_0_r. change (take 0 src) with (@nil byte). cbn [app].
    by rewrite take_drop.
  - destruct src as [|b src]; [cbn in Hs; lia|]. cbn [read_loop].
    rewrite decide_True by lia. cbn in Hs.
    rewrite IH by (rewrite ?length_insert; lia). cbn [drop take]. do 2 f_equal.
    rewrite (take_S_r _ pos b) by (apply list_lookup_insert_eq; lia).
    rewrite take_insert_ge, drop_insert_lt by lia. rewrite <- app_assoc. cbn.
    by rewrite Nat.add_succ_r.
Qed.

Definition readable (s : TcpSocket) : bool := state_open (state_ s).

(** [read] takes the oldest bytes of the buffer, as many as there are up to
    [len]; with the peer's FIN in hand the last one closes the socket. *)
Definition read_count (s : TcpSocket) (len : Z) : Z := Z.min len (recvBufUsed_ s).

Lemma read_run sk bytes pos len s t e :
  sock_at sk s t -> sock_ok s -> readable s = true ->
  0 <= pos -> 0 <= len -> pos + read_count s len <= vsize bytes ->
  read sk (Some bytes) pos len (t, e) =
    (Ret (read_count s len,
          Some (overwrite bytes (Z.to_nat pos) (Z.to_nat (read_count s len))
                  (recvBuf_ s))),
     (put_sock sk (consumed (read_count s len) s) t, e)).
Proof.
  intros Hs Hok Hr Hpos Hlen Hb. destruct (ok_buf _ Hok) as [Hu Hcap].
  pose proof (vsize_nonneg (recvBuf_ s)). unfold read_count, consumed in *.
  unfold read. run_step.
  assert ((negb (bool_decide (state_ s = ESTABLISHED)) &&
          negb (bool_decide (state_ s = SHUTDOWN))) = false) as ->
    by (unfold readable in Hr; by destruct (state_ s)).
  replace (pos <? 0) with false by lia. replace (len <? 0) with false by lia.
  cbn [orb].
  destruct ((len =? 0) || (recvBufUsed_ s =? 0)) eqn:Hz.
  - assert (Z.min len (recvBufUsed_ s) = 0) as -> by lia.
    change (Z.to_nat 0) with 0%nat. unfold overwrite.
    rewrite Nat.add_0_r, !take_0, !drop_0. cbn [app]. rewrite take_drop, Z.sub_0_r.
    assert (set_recvBufUsed (recvBufUsed_ s) (set_recvBuf (recvBuf_ s) s) = s) as ->
      by (by destruct s).
    unfold when. destruct (_ && _).
    + by erewrite bind_run by (apply upd_run; sock_here).
    + by rewrite (put_sock_id sk s) by done.
  - set (n := Z.min len (recvBufUsed_ s)) in *.
    rewrite read_loop_run by (unfold vsize in *; lia).
    run_step. erewrite bind_run by (apply int_ret; lims). cbv beta. run_go. unfold when.
    destruct (_ && _).
    + erewrite bind_run by (apply upd_run; sock_here). by autorewrite with tcp.
    + done.
Qed.

Lemma read_refused_run sk bytes pos len s t e :
  sock_at sk s t -> ~ (readable s = true /\ 0 <= pos /\ 0 <= len) ->
  read sk (Some bytes) pos len (t, e) = (Ret (-1, Some bytes), (t, e)).
Proof.
  intros Hs Hbad. unfold read. run_step. replace (_ || _) with true; [done|].
  symmetry. unfold readable in Hbad. destruct (state_ s); cbn in *; try done;
    assert (~ (0 <= pos /\ 0 <= len)) by (intros [? ?]; apply Hbad; auto); lia.
Qed.

Lemma consumed_ok n s :
  sock_ok s -> 0 <= n <= recvBufUsed_ s -> sock_ok (consumed n s).
Proof.
  intros Hok Hn. unfold consumed. destruct (ok_buf _ Hok) as [Hb Hc].
  assert (Hd : vsize (drop (Z.to_nat n) (recvBuf_ s)) = recvBufUsed_ s - n)
    by (unfold vsize in *; rewrite length_drop; lia).
  destruct Hok. case_match; constructor; cbn in *; auto; lia.
Qed.

Lemma consumed_step n s :
  sock_step s (consumed n s).
Proof. unfold consumed. case_match; constructor; cbn; auto. Qed.
End flow.
