(* ===== verification/TcpSafe.v ===== *)
(** * The manager keeps its invariant

    Every entry point of the transport layer, run on a manager in its
    invariant, ends without a fault of its own (no exception escapes, no
    undefined behaviour) in a manager in its invariant. *)

From S2P Require Import Prelude CppStrings Doubles Packet Transport Runtime TcpData TcpSend TcpSocket TcpManager TcpRun TcpInv TcpOps TcpSpec TcpFlow.

(** A change of sockets that leaves the receive side alone. *)
Record quiet (t t' : TcpManager) : Prop := {
  q_pend : synPendingByKey_ t' = synPendingByKey_ t;
  q_size : length (allSockets_ t') = length (allSockets_ t);
  q_socks : forall sk s', sock_at sk s' t' ->
    exists s, sock_at sk s t /\ rcvNxt_ s' = rcvNxt_ s /\ recvBuf_ s' = recvBuf_ s
}.

Lemma quiet_refl t : quiet t t.
Proof. constructor; eauto. Qed.

Lemma quiet_put t0 t sk s s' :
  quiet t0 t -> sock_at sk s t -> rcvNxt_ s' = rcvNxt_ s -> recvBuf_ s' = recvBuf_ s ->
  quiet t0 (put_sock sk s' t).
Proof.
  intros [Q1 Q2 Q3] Hs En Eb. constructor.
  - by rewrite pending_put.
  - by rewrite sockets_put, length_insert.
  - intros n x Hx. apply (sock_at_put_inv _ s) in Hx as [[-> ->]|[_ Hx]]; [| |done].
    + destruct (Q3 _ _ Hs) as (y & ? & ? & ?). exists y. split; [done|].
      split; congruence.
    + by apply Q3.
Qed.

Section safe.
Context `{ManagerLaws E}.
Implicit Types (t : TcpManager) (e : E) (s : TcpSocket)
  (Q : unit -> TcpManager * E -> Prop).

(** ** Facts about the sockets in the tables *)

Lemma est_peer t k sk :
  tm_ok t -> establishedByKey_ t !! k = Some sk ->
  exists s, sock_at sk s t /\ peer_ok (addr_ t) s /\ conn_key s k.
Proof.
  intros Ht Hk. destruct (tm_est _ Ht _ _ Hk) as (s & Hs & Hck). exists s.
  split; [done|]. split; [|done]. split; [by eapply tm_socks|].
  split; [apply Hck|apply Ht].
Qed.

Lemma open_peer t sk s :
  tm_ok t -> sock_at sk s t -> state_open (state_ s) = true -> peer_ok (addr_ t) s.
Proof.
  intros Ht Hs Ho. split; [by eapply tm_socks|]. split; [|apply Ht].
  eapply tm_conn; [done..|]. by destruct (state_ s).
Qed.

Lemma est_closed_out t k sk s :
  tm_ok t -> establishedByKey_ t !! k = Some sk -> sock_at sk s t ->
  conn_key s k.
Proof.
  intros Ht Hk Hs. destruct (tm_est _ Ht _ _ Hk) as (x & Hx & ?).
  by rewrite (sock_at_fun _ _ _ _ Hs Hx).
Qed.

(** ** Calls of the application *)

Lemma wp_close_safe sk s t e Q :
  mgr_ok e -> tm_ok t -> sock_at sk s t ->
  (forall t' e' l, tm_ok t' -> sends e l e' -> Q tt (t', e')) ->
  wp (close sk) (t, e) Q env_fault.
Proof.
  intros He Ht Hs HQ. pose proof (tm_socks _ Ht _ _ Hs) as Hok.
  eapply (wp_close _ s); [done|done|done|apply Ht| |].
  - intros Hst. eapply tm_conn; [done..|]. by rewrite Hst.
  - intros e' He'. eapply HQ; [|done].
    eapply tm_ok_put; [done|done|by apply closed_ok|apply closed_step].
Qed.

Lemma wp_write_safe sk s bytes pos len t e (K : Z -> TcpManager * E -> Prop) :
  mgr_ok e -> tm_ok t -> sock_at sk s t -> pos + len <= vsize bytes <= INT_MAX ->
  sndNxt_ s + len <= SEQ_LIMIT ->
  (forall n t' e' l, tm_ok t' -> sends e l e' -> K n (t', e')) ->
  wp (write sk (Some bytes) pos len) (t, e) K env_fault.
Proof.
  intros He Ht Hs Hb Hsq HK. pose proof (tm_socks _ Ht _ _ Hs) as Hok.
  destruct (decide (state_ s = ESTABLISHED /\ 0 <= pos /\ 0 <= len))
    as [(Hst & Hp & Hl)|Hbad].
  - eapply (wp_write _ _ _ _ s); try done.
    { eapply open_peer; [done..|]. by rewrite Hst. }
    intros segs now e' Hf Hn He'. eapply HK; [|done].
    pose proof (write_count_range s len Hl).
    eapply tm_ok_put; [done|done| |apply written_step; by rewrite Hst].
    eapply written_ok; [done|done|apply piece_size; lia|lia|done].
  - eapply run_wp; [by apply (write_refused_run _ _ _ _ s)|].
    eapply HK; [done|by apply sends_refl].
Qed.

Lemma wp_read_safe sk s bytes pos len t e
    (K : Z * option (list byte) -> TcpManager * E -> Prop) :
  mgr_ok e -> tm_ok t -> sock_at sk s t -> pos + len <= vsize bytes ->
  (forall r t', tm_ok t' -> K r (t', e)) ->
  wp (read sk (Some bytes) pos len) (t, e) K env_fault.
Proof.
  intros He Ht Hs Hb HK. pose proof (tm_socks _ Ht _ _ Hs) as Hok.
  destruct (ok_buf _ Hok) as [Hu _]. pose proof (vsize_nonneg (recvBuf_ s)).
  destruct (decide (readable s = true /\ 0 <= pos /\ 0 <= len)) as [(Hst & Hp & Hl)|Hbad].
  - eapply run_wp; [apply read_run; try done; unfold read_count; lia|].
    apply HK. eapply tm_ok_put; [done|done| |apply consumed_step].
    apply consumed_ok; [done|]. unfold read_count. lia.
  - eapply run_wp; [by apply (read_refused_run _ _ _ _ s)|]. by apply HK.
Qed.

Lemma wp_accept_safe sk s t e (K : option ptr -> TcpManager * E -> Prop) :
  mgr_ok e -> tm_ok t -> sock_at sk s t ->
  (forall r t', tm_ok t' -> quiet t t' ->
     (forall c, r = Some c -> exists cs, sock_at c cs t') -> K r (t', e)) ->
  wp (accept sk) (t, e) K env_fault.
Proof.
  intros He Ht Hs HK. pose proof (tm_socks _ Ht _ _ Hs) as Hok.
  unfold accept. tcp_go. destruct (bool_decide_reflect (state_ s = LISTEN)) as [Hst|Hst];
    cbn [negb]; [|by apply wp_ret, HK; [|apply quiet_refl|]].
  destruct (pendingConnQueue_ s) as [|c rest] eqn:Hq;
    [by apply wp_ret, HK; [|apply quiet_refl|]|].
  destruct (tm_queue _ Ht sk s c Hs) as (cs & Hcs & Hnl & Hns); [rewrite Hq; set_solver|].
  assert (c <> sk) as Hne by (intros ->; by rewrite (sock_at_fun _ _ _ _ Hs Hcs) in Hst).
  tcp_go. set (s' := set_pendingConnQueue rest s).
  assert (Ht' : tm_ok (put_sock sk s' t)).
  { eapply (tm_ok_dequeue t sk s c rest); done. }
  assert (Hc' : sock_at c cs (put_sock sk s' t)) by (by apply put_sock_ne).
  assert (Hq' : quiet t (put_sock sk s' t))
    by (by eapply quiet_put; [apply quiet_refl| |..]).
  tcp_go. apply wp_when;
    [|intros _; apply wp_ret, HK; [done|done|intros ? [= <-]; by exists cs]].
  rewrite negb_true_iff, bool_decide_eq_false. intros Hcl. tcp_go.
  apply HK; [|by eapply quiet_put; [|exact Hc'|..]
             |intros ? [= <-]; eexists; by eapply put_sock_at].
  assert (Ho : state_open (state_ cs) = true) by (by destruct (state_ cs)).
  eapply tm_ok_put; [done|exact Hc'| |].
  - pose proof (tm_socks _ Ht _ _ Hcs) as Hokc. revert Hokc. sock_solve.
  - constructor; cbn; auto.
Qed.

(** A socket that nothing refers to yet is bound, made to listen or
    connected. *)
Lemma wp_listen_safe sk s backlog t e (K : Z -> TcpManager * E -> Prop) :
  mgr_ok e -> tm_ok t -> sock_at sk s t -> state_ s = CLOSED -> unreferenced sk t ->
  pendingConnQueue_ s = [] ->
  (forall t', tm_ok t' -> K 0 (t', e)) ->
  wp (listen sk backlog) (t, e) K env_fault.
Proof.
  intros He Ht Hs Hst Hu Hq HK. pose proof (tm_socks _ Ht _ _ Hs) as Hok.
  unfold listen. tcp_go. rewrite bool_decide_eq_true_2 by done. cbn [negb].
  tcp_go. unfold registerListener. tcp_go. apply HK.
  set (s' := set_backlog _ _).
  rewrite <- (listeners_put sk s' t). eapply tm_ok_insert_lis; [|sock_here].
  eapply tm_ok_put_unreferenced; try done. revert Hok. sock_solve.
Qed.

Lemma tm_ok_bind t sk s port :
  tm_ok t -> sock_at sk s t -> state_ s = CLOSED -> unreferenced sk t ->
  pendingConnQueue_ s = [] -> tm_ok (put_sock sk (set_localPort port s) t).
Proof.
  intros Ht Hs Hst Hu Hq. pose proof (tm_socks _ Ht _ _ Hs) as Hok.
  eapply tm_ok_put_unreferenced; try done; [revert Hok; sock_solve|].
  cbn. by rewrite Hst.
Qed.

Definition connecting (destAddr destPort : Z) (s : TcpSocket) : TcpSocket :=
  set_synSeq (sndNxt_ s) (set_remotePort destPort (set_remoteAddr destAddr s)).

Lemma wp_connect_safe sk s destAddr destPort t e (K : Z -> TcpManager * E -> Prop) :
  mgr_ok e -> tm_ok t -> sock_at sk s t -> state_ s = CLOSED -> unreferenced sk t ->
  pendingConnQueue_ s = [] -> outstanding_ s = [] ->
  (forall n t' e' l, tm_ok t' -> sends e l e' -> K n (t', e')) ->
  wp (connect sk destAddr destPort) (t, e) K env_fault.
Proof.
  intros He Ht Hs Hst Hu Hq Ho HK. pose proof (tm_socks _ Ht _ _ Hs) as Hok.
  unfold connect. tcp_go. destruct (_ || _) eqn:Harg.
  { apply wp_ret. eapply HK; [done|by apply sends_refl]. }
  tcp_go. fold (connecting destAddr destPort s).
  set (s1 := connecting destAddr destPort s).
  assert (Hok1 : sock_ok s1).
  { pose proof (ok_una _ Hok). revert Hok. sock_solve. }
  assert (Hs1 : sock_at sk s1 (put_sock sk s1 t)) by sock_here.
  assert (Ht1 : tm_ok (put_sock sk s1 t)).
  { eapply tm_ok_put_unreferenced; try done. cbn. by rewrite Hst. }
  eapply wp_eq; [by apply (sendSyn_transmit _ _ _ s1)|].
  pose proof (ok_syn _ Hok1).
  apply wp_transmit_any; autorewrite with tcp; [done|lims|lims|..].
  - intros e1 He1 Hd [(Hlp & Hdp & _) _]. cbn in Hlp, Hdp. cbn [negb]. unfold registerSynPending. tcp_go.
    eapply HK; [|exact He1].
    set (k := mkKey _ _ _). set (s2 := set_state SYN_SENT s1).
    rewrite <- (pending_put sk s1 t).
    assert (Hcv : conn_valid s2) by (by split).
    change (put_sock sk s2 (set_synPendingByKey ?m (put_sock sk s1 t)))
      with (set_synPendingByKey m (put_sock sk s2 (put_sock sk s1 t))).
    autorewrite with tcp. rewrite <- (pending_put sk s2 t) at 1.
    eapply (tm_ok_insert_pend _ k sk s2); [|sock_here| | | |]; cbn; try done.
    eapply tm_ok_put_unreferenced; try done. by constructor; destruct Hok1.
  - intros e1 He1. cbn [negb]. apply wp_ret. by eapply HK.
Qed.
End safe.
