(* ===== verification/TcpHandlers.v ===== *)
(** * The four segment handlers and the timer on a whole manager

    What [onSyn], [onAck], [onFin] and [onData] do to the tables and the
    sockets, on every branch, and that they and the retransmission timer keep
    the invariant. *)

From S2P Require Import Prelude CppStrings Doubles Packet Transport Runtime TcpData TcpSend TcpSocket TcpManager TcpRun TcpInv TcpOps TcpSpec TcpFlow TcpSafe.

(** The connection that a segment from [srcAddr] belongs to. *)
Definition seg_key (srcAddr : Z) (seg : Transport) : ConnKey :=
  mkKey srcAddr (srcPort_ seg) (destPort_ seg).

(** A reply to the sender of [seg]. *)
Definition reply (addr srcAddr : Z) (seg : Transport) (type window seqNum : Z) : datagram :=
  tcp_datagram addr srcAddr
    (mkTransport (destPort_ seg) (srcPort_ seg) type window seqNum []).

(** A segment as it comes off the wire, its sequence number with a successor;
    only SYN and FIN need one. *)
Definition seg_in (srcAddr : Z) (seg : Transport) : Prop :=
  transport_ok seg /\ 0 <= srcAddr <= 255 /\ seqNum_ seg < INT_MAX.

Definition seg_arrives (srcAddr : Z) (seg : Transport) : Prop :=
  transport_ok seg /\ 0 <= srcAddr <= 255 /\
  (type_ seg = SYN \/ type_ seg = FIN -> seqNum_ seg < INT_MAX).

(** ** What a received segment may change

    The change of one socket of [t], and the change of the manager. *)

Definition handshake_done (window : Z) (s : TcpSocket) : TcpSocket :=
  established (setRwnd window s).

Inductive recv_effect (t : TcpManager) (seg : Transport) (sk : ptr)
    : TcpSocket -> TcpSocket -> Prop :=
| re_same s : recv_effect t seg sk s s
| re_data s :
    type_ seg = DATA -> recv_effect t seg sk s (arrived seg s)
| re_ack now1 now2 s :
    state_open (state_ s) = true -> recv_effect t seg sk s (acked seg now1 now2 s)
| re_establish k s :
    synPendingByKey_ t !! k = Some sk -> state_open (state_ s) = false ->
    state_ s <> LISTEN -> recv_effect t seg sk s (handshake_done (window_ seg) s)
| re_fin s : recv_effect t seg sk s (peer_finned s)
| re_close s : recv_effect t seg sk s (set_state CLOSED s)
| re_enqueue c s : recv_effect t seg sk s (enqueued c s).

(** A control segment: anything but data. *)
Definition ctl_datagram (d : datagram) : Prop :=
  exists addr dest seg, d = tcp_datagram addr dest seg /\ 0 <= addr <= 255 /\
    0 <= dest <= 255 /\ transport_ok seg /\ type_ seg <> DATA /\
    (type_ seg = SYN \/ type_ seg = FIN -> seqNum_ seg < INT_MAX).

Record handled (seg : Transport) (t t' : TcpManager) (l : list datagram) : Prop := {
  h_ok : tm_ok t';
  h_addr : addr_ t' = addr_ t;
  h_lis : listenersByPort_ t' = listenersByPort_ t;
  h_pend : synPendingByKey_ t' ⊆ synPendingByKey_ t;
  h_old : forall sk s, sock_at sk s t ->
    exists s', sock_at sk s' t' /\ recv_effect t seg sk s s';
  h_new : forall sk s', sock_at sk s' t' ->
    (exists s, sock_at sk s t) \/
    (allSockets_ t !! sk = None /\ listenersByPort_ t <> ∅ /\
     exists lp ra rp, s' = accepted lp ra rp new_TcpSocket);
  h_ctl : Forall ctl_datagram l
}.

Lemma handled_same seg t : tm_ok t -> handled seg t t [].
Proof.
  intros Ht. constructor; try done.
  - intros sk s Hs. exists s. split; [done|constructor].
  - intros sk s Hs. left. eauto.
Qed.

Lemma handled_ctl_only seg t t' l l' :
  handled seg t t' l -> Forall ctl_datagram l' -> handled seg t t' l'.
Proof. by intros []. Qed.

(** One socket changed, the tables only lost entries or gained established
    ones. *)
Lemma handled_put seg t t' sk s s' l :
  tm_ok t' -> sock_at sk s t -> recv_effect t seg sk s s' ->
  allSockets_ t' = allSockets_ (put_sock sk s' t) -> addr_ t' = addr_ t ->
  listenersByPort_ t' = listenersByPort_ t -> synPendingByKey_ t' ⊆ synPendingByKey_ t ->
  Forall ctl_datagram l -> handled seg t t' l.
Proof.
  intros Ht' Hs Hr Hall Ha Hl Hp Hc.
  assert (Hat : forall n x, sock_at n x t' <-> sock_at n x (put_sock sk s' t))
    by (unfold sock_at; by rewrite Hall).
  constructor; try done.
  - intros n x Hx. setoid_rewrite Hat.
    destruct (sock_at_put sk s s' n x t Hs Hx) as (y & Hy & [(-> & -> & ->)|[_ ->]]); eauto.
    exists x. split; [done|constructor].
  - intros n x Hx%Hat. left.
    apply (sock_at_put_inv _ s) in Hx as [[-> ->]|[_ Hx]]; eauto.
Qed.

Section handlers.
Context `{ManagerLaws E}.
Implicit Types (t : TcpManager) (e : E) (s : TcpSocket)
  (Q : unit -> TcpManager * E -> Prop).

Lemma reply_ok srcAddr seg ty w n :
  seg_in srcAddr seg -> SYN <= ty <= DATA -> INT_MIN <= w <= INT_MAX ->
  INT_MIN <= n <= INT_MAX ->
  transport_ok (mkTransport (destPort_ seg) (srcPort_ seg) ty w n []).
Proof.
  intros ([(? & ? & _) _] & _ & _) **. split; [|done]. cbn.
  split; [done|]. split; [done|]. split; [done|]. rewrite vsize_nil. lims.
Qed.

Lemma reply_ctl addr srcAddr seg ty w n :
  seg_in srcAddr seg -> 0 <= addr <= 255 -> SYN <= ty < DATA ->
  INT_MIN <= w <= INT_MAX -> INT_MIN <= n <= INT_MAX ->
  (ty = SYN \/ ty = FIN -> n < INT_MAX) ->
  Forall ctl_datagram [reply addr srcAddr seg ty w n].
Proof.
  intros Hs Ha Hty Hw Hn Hsf. constructor; [|constructor]. eexists _, _, _.
  split; [reflexivity|]. split; [done|]. split; [apply Hs|].
  split; [apply (reply_ok srcAddr); try done; lia|]. split; [cbn; lia|done].
Qed.

Lemma peer_ctl addr s ty w n :
  conn_valid s -> 0 <= addr <= 255 -> SYN <= ty < DATA ->
  INT_MIN <= w <= INT_MAX -> INT_MIN <= n <= INT_MAX ->
  (ty = SYN \/ ty = FIN -> n < INT_MAX) ->
  Forall ctl_datagram [to_peer addr s (out_seg s ty w n [])].
Proof.
  intros (H1 & H2 & H3) Ha Hty Hw Hn Hsf. constructor; [|constructor]. eexists _, _, _.
  split; [reflexivity|]. split; [done|]. split; [done|].
  split; [|split; [cbn; lia|done]]. split; [|done]. cbn.
  split; [done|]. split; [done|]. split; [lia|]. rewrite vsize_nil. lims.
Qed.

Lemma drain_ctl addr s :
  conn_valid s -> 0 <= addr <= 255 -> 0 <= sndNxt_ s <= SEQ_LIMIT ->
  Forall ctl_datagram (drain_sends addr s).
Proof.
  intros Hc Ha Hn. unfold drain_sends. case_match; [|constructor].
  apply peer_ctl; [done|done|by split|lims..].
Qed.

Lemma wp_reply_ack srcAddr seg n w adv t e (K : bool -> TcpManager * E -> Prop) :
  mgr_ok e -> 0 <= addr_ t <= 255 -> seg_in srcAddr seg ->
  INT_MIN <= w <= INT_MAX -> INT_MIN <= n <= INT_MAX ->
  (forall e', sends e [reply (addr_ t) srcAddr seg ACK w n] e' -> K true (t, e')) ->
  wp (sendAck (destPort_ seg) srcAddr (srcPort_ seg) n adv w) (t, e) K env_fault.
Proof.
  intros He Ha Hseg Hw Hn HK. rewrite sendAck_transmit.
  assert (Hok : transport_ok (mkTransport (destPort_ seg) (srcPort_ seg) ACK w n []))
    by (eapply reply_ok; seg_lims).
  rewrite new_Transport_inr by apply Hok.
  apply wp_transmit; [done|done|apply Hseg|done|done].
Qed.

(** ** onSyn *)

(** The manager after a SYN reached the listener [l]: a new established
    socket, queued if the backlog has room, and registered. *)
Definition syn_accepted (srcAddr : Z) (seg : Transport) (l : ptr) (ls : TcpSocket)
    (t : TcpManager) : TcpManager :=
  let child := length (allSockets_ t) in
  set_establishedByKey (<[seg_key srcAddr seg := child]> (establishedByKey_ t))
    (put_sock l (enqueued child ls)
      (put_sock child (accepted (destPort_ seg) srcAddr (srcPort_ seg) new_TcpSocket)
        (push_sock t))).

Lemma accepted_ok lp ra rp : sock_ok (accepted lp ra rp new_TcpSocket).
Proof. constructor; try (cbn; lims). split; [done|cbn; lims]. Qed.

Lemma wp_onSyn srcAddr seg t e Q :
  mgr_ok e -> 0 <= addr_ t <= 255 -> seg_in srcAddr seg ->
  match listenersByPort_ t !! destPort_ seg with
  | None =>
      forall e', sends e [reply (addr_ t) srcAddr seg FIN 0 0] e' -> Q tt (t, e')
  | Some l => exists ls, sock_at l ls t /\
      forall e', sends e [reply (addr_ t) srcAddr seg ACK RECV_BUF_CAP (seqNum_ seg + 1)] e' ->
        Q tt (syn_accepted srcAddr seg l ls t, e')
  end ->
  wp (onSyn srcAddr seg) (t, e) Q env_fault.
Proof.
  intros He Ha Hseg HQ. unfold onSyn. tcp_step. tcp_step.
  destruct (listenersByPort_ t !! destPort_ seg) as [l|].
  - destruct HQ as (ls & Hls & HQ). unfold socket. tcp_go.
    change (set_allSockets _ t) with (push_sock t).
    pose proof (push_sock_new t) as Hnew. pose proof (push_sock_old _ _ _ Hls) as Hls0.
    pose proof (sock_at_lt _ _ _ Hls) as Hlt.
    eapply run_wp; [by apply initAccepted_run|].
    set (child := length (allSockets_ t)) in *.
    set (cs := accepted _ _ _ _).
    assert (Hls1 : sock_at l ls (put_sock child cs (push_sock t)))
      by (apply put_sock_ne; [lia|done]).
    assert (Hcs1 : sock_at child cs (put_sock child cs (push_sock t))) by sock_here.
    tcp_go. eapply run_wp; [by apply enqueueAccepted_run|].
    set (t2 := put_sock l _ _).
    assert (Hcs2 : sock_at child cs t2) by (apply put_sock_ne; [lia|done]).
    unfold registerEstablished. tcp_go.
    apply wp_int; [destruct Hseg as ([_ [_ ?]] & _ & ?); lims|]. tcp_go.
    set (t3 := set_establishedByKey _ t2).
    assert (Hcs3 : sock_at child cs t3) by done.
    assert (Haddr : addr_ t3 = addr_ t).
    { change (addr_ t3) with (addr_ t2). subst t2. by rewrite !addr_put. }
    assert (Ht3 : t3 = syn_accepted srcAddr seg l ls t).
    { subst t3 t2. change (localPort_ cs) with (destPort_ seg).
      rewrite !established_put. change (establishedByKey_ (push_sock t))
        with (establishedByKey_ t). reflexivity. }
    clearbody t3. tcp_go. change (getRecvBufAvailable cs) with RECV_BUF_CAP.
    apply wp_reply_ack; rewrite ?Haddr; [done|done|done|lims|
      destruct Hseg as ([_ [_ ?]] & _ & ?); lims|].
    intros e' He'. tcp_go. rewrite Ht3. by apply HQ.
  - tcp_go. rewrite sendFinFromPorts_transmit.
    assert (Hok : transport_ok (mkTransport (destPort_ seg) (srcPort_ seg) FIN 0 0 []))
      by (eapply reply_ok; seg_lims).
    rewrite new_Transport_inr by apply Hok.
    apply wp_transmit; [done|done|apply Hseg|done|].
    intros e' He'. tcp_go. by apply HQ.
Qed.

Lemma syn_accepted_ok srcAddr seg l ls t :
  tm_ok t -> sock_at l ls t -> seg_in srcAddr seg ->
  tm_ok (syn_accepted srcAddr seg l ls t).
Proof.
  intros Ht Hls Hseg. unfold syn_accepted.
  pose proof (push_sock_new t) as Hnew. pose proof (push_sock_old _ _ _ Hls) as Hls0.
  pose proof (sock_at_lt _ _ _ Hls) as Hlt.
  set (child := length (allSockets_ t)) in *. set (cs := accepted _ _ _ _).
  destruct Hseg as ([(Hsp & Hdp & _) _] & Hsa & _).
  assert (Hcv : conn_valid cs) by (by split).
  assert (Hls1 : sock_at l ls (put_sock child cs (push_sock t)))
    by (apply put_sock_ne; [lia|done]).
  assert (Hcs1 : sock_at child cs (put_sock child cs (push_sock t))) by sock_here.
  assert (Ht1 : tm_ok (put_sock child cs (push_sock t))).
  { eapply tm_ok_put_unreferenced; [by apply tm_ok_push|done|
      by apply push_sock_unreferenced|apply accepted_ok|done|done]. }
  assert (Ht2 : tm_ok (put_sock l (enqueued child ls) (put_sock child cs (push_sock t)))).
  { unfold enqueued. case_match; [|by rewrite (put_sock_id l ls)].
    by eapply tm_ok_enqueue. }
  apply (tm_ok_insert_est _ _ child cs Ht2).
  - apply put_sock_ne; [lia|done].
  - by split.
Qed.

(** ** onAck *)

Lemma handshake_done_ok w s :
  sock_ok s -> INT_MIN <= w <= INT_MAX -> outstanding_ s = [] -> sock_ok (handshake_done w s).
Proof.
  intros Hok Hw Ho. unfold handshake_done, established.
  assert (Hok0 : sock_ok (setRwnd w s)) by (revert Hok; sock_solve).
  case_decide; [done|]. destruct Hok0. constructor; cbn in *; auto; try lims.
  by rewrite Ho.
Qed.

(** The manager after the acknowledgment of the SYN of [p]. *)
Definition ack_established (srcAddr : Z) (seg : Transport) (p : ptr) (ps : TcpSocket)
    (t : TcpManager) : TcpManager :=
  let t1 := set_synPendingByKey (delete (seg_key srcAddr seg) (synPendingByKey_ t))
              (put_sock p (handshake_done (window_ seg) ps) t) in
  set_establishedByKey
    (<[mkKey srcAddr (srcPort_ seg) (localPort_ ps) := p]> (establishedByKey_ t1)) t1.

(** The acknowledgment of a FIN. *)
Definition fin_acked (seg : Transport) (s : TcpSocket) : bool :=
  isClosurePending s && (finSeq_ s >=? 0) && (seqNum_ seg =? finSeq_ s + 1).

Definition ack_closed (srcAddr : Z) (seg : Transport) (sk : ptr) (s : TcpSocket)
    (t : TcpManager) : TcpManager :=
  set_establishedByKey (delete (seg_key srcAddr seg) (establishedByKey_ t))
    (put_sock sk (set_state CLOSED s) t).

Lemma wp_onAck_pending srcAddr seg p ps t e Q :
  mgr_ok e -> synPendingByKey_ t !! seg_key srcAddr seg = Some p -> sock_at p ps t ->
  sock_ok ps ->
  (forall e', sends e [] e' -> seqNum_ seg = synSeq_ ps + 1 ->
     Q tt (ack_established srcAddr seg p ps t, e')) ->
  (forall e', sends e [] e' -> seqNum_ seg <> synSeq_ ps + 1 -> Q tt (t, e')) ->
  wp (onAck srcAddr seg) (t, e) Q env_fault.
Proof.
  intros He Hk Hp Hok HQ1 HQ2. pose proof (ok_syn _ Hok).
  unfold onAck. fold (seg_key srcAddr seg). tcp_step. tcp_step. rewrite Hk. tcp_go.
  destruct (Z.eqb_spec (seqNum_ seg) (synSeq_ ps + 1)) as [Heq|Hne].
  - tcp_go. eapply run_wp; [apply markEstablished_run; sock_here|].
    autorewrite with tcp. fold (handshake_done (window_ seg) ps).
    set (t1 := put_sock p _ t). tcp_go.
    set (t2 := set_synPendingByKey _ _). unfold registerEstablished.
    assert (Hp2 : sock_at p (handshake_done (window_ seg) ps) t2).
    { eapply put_sock_at; eauto. }
    assert (Hlp : localPort_ (handshake_done (window_ seg) ps) = localPort_ ps)
      by (unfold handshake_done, established; by case_decide).
    tcp_go. rewrite Hlp. subst t2 t1. rewrite pending_put. by apply HQ1.
  - tcp_go. by apply HQ2.
Qed.

Lemma ack_established_ok srcAddr seg p ps t :
  tm_ok t -> synPendingByKey_ t !! seg_key srcAddr seg = Some p -> sock_at p ps t ->
  transport_ok seg -> tm_ok (ack_established srcAddr seg p ps t).
Proof.
  intros Ht Hk Hp Hseg.
  destruct (tm_pend _ Ht _ _ Hk) as (s0 & Hs0 & [Hcv Hkey] & Ho & Hop & Hnl).
  assert (s0 = ps) as -> by (by eapply sock_at_fun).
  assert (Hok' : sock_ok (handshake_done (window_ seg) ps)).
  { apply handshake_done_ok; [by eapply tm_socks|apply Hseg|done]. }
  unfold ack_established. cbv zeta. set (t1 := set_synPendingByKey _ _).
  assert (Ht1 : tm_ok t1).
  { eapply tm_ok_establish; eauto; unfold handshake_done, established;
      case_decide; cbn; auto. }
  eapply (tm_ok_insert_est _ _ p); [done| |].
  - eapply put_sock_at; eauto.
  - unfold seg_key in Hkey. injection Hkey as E1 E2 E3.
    unfold conn_key, conn_valid, handshake_done, established in *.
    case_decide; cbn; (split; [done|]); by rewrite E1, E2.
Qed.

Lemma wp_onAck_known srcAddr seg sk s t e Q :
  mgr_ok e -> synPendingByKey_ t !! seg_key srcAddr seg = None ->
  establishedByKey_ t !! seg_key srcAddr seg = Some sk -> sock_at sk s t ->
  peer_ok (addr_ t) s -> INT_MIN <= window_ seg <= INT_MAX ->
  (forall e', sends e [] e' -> fin_acked seg s = true ->
     Q tt (ack_closed srcAddr seg sk s t, e')) ->
  (forall now1 now2 e', fin_acked seg s = false -> state_open (state_ s) = true ->
     0 <= now1 <= TIME_LIMIT -> 0 <= now2 <= TIME_LIMIT ->
     sends e (ack_sends (addr_ t) seg s) e' ->
     Q tt (put_sock sk (acked seg now1 now2 s) t, e')) ->
  (forall e', fin_acked seg s = false -> state_open (state_ s) = false ->
     sends e [] e' -> Q tt (t, e')) ->
  wp (onAck srcAddr seg) (t, e) Q env_fault.
Proof.
  intros He Hkp Hke Hs Hp Hw HQ1 HQ2 HQ3. pose proof (ok_fin _ (proj1 Hp)).
  unfold onAck. fold (seg_key srcAddr seg). tcp_step. tcp_step. rewrite Hkp.
  tcp_step. tcp_step. rewrite Hke. tcp_step. tcp_step. tcp_step.
  apply (wp_conseq _ _ (fun b r => b = fin_acked seg s /\ r = (t, e)) _ env_fault);
    [|intros b r [-> ->]|by intros].
  { unfold fin_acked. destruct (isClosurePending s && (finSeq_ s >=? 0)) eqn:Hcl.
    - tcp_step. apply wp_int; [lims|]. by apply wp_ret.
    - by apply wp_ret. }
  destruct (fin_acked seg s).
  - unfold markClosed. tcp_go. by apply HQ1.
  - rewrite state_open_spec. destruct (state_open (state_ s)).
    + eapply wp_onAck_established; [done..|]. intros. by apply HQ2.
    + tcp_go. by apply HQ3.
Qed.

Lemma wp_onAck_unknown srcAddr seg t e Q :
  mgr_ok e -> synPendingByKey_ t !! seg_key srcAddr seg = None ->
  establishedByKey_ t !! seg_key srcAddr seg = None ->
  (forall e', sends e [] e' -> Q tt (t, e')) ->
  wp (onAck srcAddr seg) (t, e) Q env_fault.
Proof.
  intros He Hkp Hke HQ. unfold onAck. fold (seg_key srcAddr seg).
  tcp_step. tcp_step. rewrite Hkp. tcp_step. tcp_step. rewrite Hke. tcp_go. by apply HQ.
Qed.

Lemma onAck_ok srcAddr seg t e Q :
  mgr_ok e -> tm_ok t -> transport_ok seg ->
  (forall t' e' l, handled seg t t' l -> sends e l e' -> Q tt (t', e')) ->
  wp (onAck srcAddr seg) (t, e) Q env_fault.
Proof.
  intros He Ht Hseg HQ. pose proof Hseg as [_ [Hw _]].
  destruct (synPendingByKey_ t !! seg_key srcAddr seg) as [p|] eqn:Hkp.
  { destruct (tm_pend _ Ht _ _ Hkp) as (ps & Hps & _ & _ & Hop & Hnl).
    eapply (wp_onAck_pending _ _ p ps); [done|done|done|by eapply tm_socks|..].
    - intros e' He' _. eapply HQ; [|exact He'].
      eapply (handled_put _ _ _ p ps); [by apply ack_established_ok|done|
        by eapply re_establish|try done..].
      apply delete_subseteq.
    - intros e' He' _. by eapply HQ; [apply handled_same|]. }
  destruct (establishedByKey_ t !! seg_key srcAddr seg) as [sk|] eqn:Hke.
  { destruct (est_peer _ _ _ Ht Hke) as (s & Hs & Hp & _).
    eapply (wp_onAck_known _ _ sk s); [done..| | |].
    - intros e' He' _. eapply HQ; [|exact He'].
      eapply (handled_put _ _ _ sk s); [|done|apply re_close|try done..].
      unfold ack_closed. rewrite <- (established_put sk (set_state CLOSED s) t).
      apply tm_ok_delete_est. eapply tm_ok_put; [done|done| |].
      + destruct Hp as [Hok _]. revert Hok. sock_solve.
      + constructor; cbn; auto.
    - intros now1 now2 e' _ Ho Hn1 Hn2 He'. eapply HQ; [|exact He'].
      eapply (handled_put _ _ _ sk s); [|done|by apply re_ack|try done..].
      + eapply tm_ok_put; [done|done| |by apply acked_step].
        by apply acked_ok; [apply Hp| |].
      + destruct Hp as (Hok & Hc & Ha). unfold ack_sends. case_match; [constructor|].
        pose proof (ok_una _ Hok). pose proof (ok_nxt _ Hok).
        apply drain_ctl; [done|done|cbn; lia].
    - intros e' _ _ He'. by eapply HQ; [apply handled_same|]. }
  eapply wp_onAck_unknown; [done..|]. intros e' He'. by eapply HQ; [apply handled_same|].
Qed.

(** ** onFin *)

Lemma wp_onFin_known srcAddr seg sk s t e Q :
  mgr_ok e -> 0 <= addr_ t <= 255 -> seg_in srcAddr seg ->
  establishedByKey_ t !! seg_key srcAddr seg = Some sk -> sock_at sk s t -> sock_ok s ->
  (forall e',
     sends e [reply (addr_ t) srcAddr seg ACK (getRecvBufAvailable s) (seqNum_ seg + 1)] e' ->
     Q tt (put_sock sk (peer_finned s) t, e')) ->
  wp (onFin srcAddr seg) (t, e) Q env_fault.
Proof.
  intros He Ha Hseg Hk Hs Hok HQ. unfold onFin. fold (seg_key srcAddr seg).
  tcp_step. tcp_step. rewrite Hk. tcp_step.
  eapply run_wp; [by apply markPeerFinReceived_run|]. tcp_step.
  apply wp_int; [destruct Hseg as ([_ [_ ?]] & _ & ?); lims|]. tcp_go.
  assert (Hav : getRecvBufAvailable (peer_finned s) = getRecvBufAvailable s)
    by (unfold peer_finned; by case_decide).
  rewrite Hav. pose proof (avail_range _ Hok).
  apply wp_reply_ack; autorewrite with tcp; [done|done|done|lims|
    destruct Hseg as ([_ [_ ?]] & _ & ?); lims|].
  intros e' He'. tcp_go. by apply HQ.
Qed.

Definition fin_refused (srcAddr : Z) (seg : Transport) (p : ptr) (ps : TcpSocket)
    (t : TcpManager) : TcpManager :=
  put_sock p (set_state CLOSED ps)
    (set_synPendingByKey (delete (seg_key srcAddr seg) (synPendingByKey_ t)) t).

(** A FIN for a connection attempt refuses it; any other is ignored. *)
Lemma onFin_unknown_run srcAddr seg t e :
  establishedByKey_ t !! seg_key srcAddr seg = None ->
  synPendingByKey_ t !! seg_key srcAddr seg = None ->
  onFin srcAddr seg (t, e) = (Ret tt, (t, e)).
Proof.
  unfold seg_key. intros Hk Hp. unfold onFin, bind, tget, gets. cbn [fst].
  rewrite Hk. cbn [fst]. by rewrite Hp.
Qed.

Lemma onFin_pending_run srcAddr seg p ps t e :
  establishedByKey_ t !! seg_key srcAddr seg = None ->
  synPendingByKey_ t !! seg_key srcAddr seg = Some p -> sock_at p ps t ->
  onFin srcAddr seg (t, e) = (Ret tt, (fin_refused srcAddr seg p ps t, e)).
Proof.
  intros Hk Hp Hs. unfold onFin, bind at 1, tget, gets. cbn [fst].
  fold (seg_key srcAddr seg). rewrite Hk. unfold bind at 1. cbn [fst]. rewrite Hp.
  unfold bind at 1, tmodify, modify. cbn [fst snd]. by apply upd_run.
Qed.

Lemma peer_finned_ok s : sock_ok s -> sock_ok (peer_finned s).
Proof. unfold peer_finned. case_decide; sock_solve. Qed.

Lemma peer_finned_step s : sock_step s (peer_finned s).
Proof.
  unfold peer_finned. case_decide as Hst; constructor; cbn; auto.
  rewrite Hst. auto.
Qed.

Lemma onFin_ok srcAddr seg t e Q :
  mgr_ok e -> tm_ok t -> seg_in srcAddr seg ->
  (forall t' e' l, handled seg t t' l -> sends e l e' -> Q tt (t', e')) ->
  wp (onFin srcAddr seg) (t, e) Q env_fault.
Proof.
  intros He Ht Hseg HQ.
  destruct (establishedByKey_ t !! seg_key srcAddr seg) as [sk|] eqn:Hke.
  { destruct (est_peer _ _ _ Ht Hke) as (s & Hs & Hp & _).
    eapply (wp_onFin_known _ _ sk s); [done|apply Ht|done|done|done|apply Hp|].
    intros e' He'. eapply HQ; [|exact He'].
    eapply (handled_put _ _ _ sk s); [|done|apply re_fin|try done..].
    - eapply tm_ok_put; [done|done|apply peer_finned_ok, Hp|apply peer_finned_step].
    - pose proof (avail_range _ (proj1 Hp)).
      destruct Hseg as (Hok & Hd & ?). pose proof Hok as [_ [_ ?]].
      apply reply_ctl; [done|apply Ht|by split|lims|lims|by intros []]. }
  destruct (synPendingByKey_ t !! seg_key srcAddr seg) as [p|] eqn:Hkp.
  - destruct (tm_pend _ Ht _ _ Hkp) as (ps & Hps & _).
    eapply run_wp; [by apply onFin_pending_run|].
    eapply HQ; [|by apply sends_refl].
    eapply (handled_put _ _ _ p ps); [|done|apply re_close|try done..].
    + unfold fin_refused. eapply tm_ok_put; [by apply tm_ok_delete_pend|done| |].
      * pose proof (tm_socks _ Ht _ _ Hps) as Hok. revert Hok. sock_solve.
      * constructor; cbn; auto.
    + apply delete_subseteq.
  - eapply run_wp; [by apply onFin_unknown_run|].
    eapply HQ; [by apply handled_same|by apply sends_refl].
Qed.

(** ** onData *)

Lemma onData_unknown_run srcAddr seg t e :
  establishedByKey_ t !! seg_key srcAddr seg = None ->
  onData srcAddr seg (t, e) = (Ret tt, (t, e)).
Proof.
  intros Hk. unfold onData, bind, tget, gets. cbn [fst].
  fold (seg_key srcAddr seg). by rewrite Hk.
Qed.

Definition all_rcv_room (t : TcpManager) : Prop :=
  forall sk s, sock_at sk s t -> rcv_room s.

Lemma onData_ok srcAddr seg t e Q :
  mgr_ok e -> tm_ok t -> transport_ok seg -> all_rcv_room t -> type_ seg = DATA ->
  (forall t' e' l, handled seg t t' l -> sends e l e' -> Q tt (t', e')) ->
  wp (onData srcAddr seg) (t, e) Q env_fault.
Proof.
  intros He Ht Hseg Hr Hty HQ.
  destruct (establishedByKey_ t !! seg_key srcAddr seg) as [sk|] eqn:Hke.
  - destruct (est_peer _ _ _ Ht Hke) as (s & Hs & Hp & [_ Hk]).
    unfold seg_key in Hk. injection Hk as E1 E2 E3.
    assert (Hok' : sock_ok (arrived seg s))
      by (apply arrived_ok; [apply Hp|by eapply Hr|apply Hseg]).
    eapply (wp_onData_known sk _ _ s); [done|done|done|by eapply Hr|apply Hseg|done..|].
    intros e' He'. eapply HQ; [|exact He'].
    eapply (handled_put _ _ _ sk s); [|done|by apply re_data|try done..].
    + eapply tm_ok_put; [done|done|done|apply arrived_step].
    + unfold data_sends. case_match; [|constructor].
      pose proof (avail_range _ Hok'). pose proof (ok_rcv _ Hok').
      apply peer_ctl; [apply Hp|apply Ht|by split|lims|lims|by intros []].
  - eapply run_wp; [by apply onData_unknown_run|].
    eapply HQ; [by apply handled_same|by apply sends_refl].
Qed.

(** ** receiveTransport *)

Lemma syn_accepted_handled srcAddr seg l ls t w :
  tm_ok t -> sock_at l ls t -> listenersByPort_ t !! destPort_ seg = Some l ->
  seg_in srcAddr seg -> 0 <= w <= RECV_BUF_CAP ->
  handled seg t (syn_accepted srcAddr seg l ls t)
    [reply (addr_ t) srcAddr seg ACK w (seqNum_ seg + 1)].
Proof.
  intros Ht Hls Hl Hseg Hw. pose proof (syn_accepted_ok _ _ _ _ _ Ht Hls Hseg) as Hok.
  unfold syn_accepted in *.
  set (child := length (allSockets_ t)) in *. set (cs := accepted _ _ _ _) in *.
  pose proof (sock_at_lt _ _ _ Hls) as Hlt.
  set (t1 := put_sock child cs (push_sock t)) in *.
  assert (Hcs1 : sock_at child cs t1) by (eapply put_sock_at, push_sock_new).
  assert (Hls1 : sock_at l ls t1) by (apply put_sock_ne; [lia|by apply push_sock_old]).
  constructor; cbn [set_establishedByKey addr_ listenersByPort_ synPendingByKey_].
  - done.
  - subst t1. by rewrite !addr_put.
  - subst t1. by rewrite !listeners_put.
  - subst t1. by rewrite !pending_put.
  - intros sk s Hs. pose proof (sock_at_lt _ _ _ Hs).
    assert (Hs1 : sock_at sk s t1) by (apply put_sock_ne; [lia|by apply push_sock_old]).
    destruct (sock_at_put l ls (enqueued child ls) sk s t1 Hls1 Hs1)
      as (y & Hy & [(-> & -> & ->)|[_ ->]]).
    + exists (enqueued child ls). split; [exact Hy|apply re_enqueue].
    + exists s. split; [exact Hy|apply re_same].
  - intros sk s' Hs'. change (sock_at sk s' (put_sock l (enqueued child ls) t1)) in Hs'.
    apply (sock_at_put_inv _ ls) in Hs' as [[-> ->]|[_ Hs']]; [by left; eauto| |done].
    apply (sock_at_put_inv _ new_TcpSocket) in Hs' as [[-> ->]|[Hne Hs']];
      [right| |apply push_sock_new].
    + split; [by apply lookup_ge_None|]. split; [|by eexists _, _, _].
      intros E1. by rewrite E1 in Hl.
    + left. apply push_sock_inv in Hs' as [?|[-> _]]; [eauto|done].
  - destruct Hseg as (Hok1 & Hd & Hs). pose proof Hok1 as [_ [_ ?]].
    apply reply_ctl; [done|apply Ht|by split|lims|lims|by intros []].
Qed.

Lemma receiveTransport_handled srcAddr seg t e Q :
  mgr_ok e -> tm_ok t -> seg_arrives srcAddr seg -> all_rcv_room t ->
  (forall t' e' l, handled seg t t' l -> sends e l e' -> Q tt (t', e')) ->
  wp (receiveTransport srcAddr seg) (t, e) Q env_fault.
Proof.
  intros He Ht Hseg Hr HQ. unfold receiveTransport.
  assert (HQ' : forall e1, sends e [] e1 ->
    forall t' e' l, handled seg t t' l -> sends e1 l e' -> Q tt (t', e')).
  { intros e1 He1 t' e' l Ht' He'. eapply HQ; [done|]. by eapply sends_nil_l. }
  destruct Hseg as (Hok & Hsrc & Hsf).
  destruct (Z.eqb_spec (type_ seg) SYN); [|destruct (type_ seg =? ACK);
    [|destruct (Z.eqb_spec (type_ seg) FIN); [|destruct (Z.eqb_spec (type_ seg) DATA)]]];
    [assert (Hseg : seg_in srcAddr seg) by (unfold seg_in; auto)| |
     assert (Hseg : seg_in srcAddr seg) by (unfold seg_in; auto)| |].
  - tcp_step. tcp_step. apply wp_onSyn; [mgr_here|apply Ht|done|].
    destruct (listenersByPort_ t !! destPort_ seg) as [l|] eqn:Hl.
    + destruct (tm_lis _ Ht _ _ Hl) as [ls Hls]. exists ls. split; [done|].
      intros e' He'. eapply HQ'; [done| |exact He'].
      apply syn_accepted_handled; done.
    + intros e' He'. eapply HQ'; [done| |exact He'].
      eapply handled_ctl_only; [by apply handled_same|].
      apply reply_ctl; [done|apply Ht|by split|lims..].
  - by apply onAck_ok.
  - tcp_step. tcp_step. apply onFin_ok; [mgr_here|done|done|by apply HQ'].
  - by apply onData_ok.
  - apply wp_ret. eapply HQ; [by apply handled_same|by apply sends_refl].
Qed.

(** ** The retransmission timer *)

Context `{MapOrder}.

(** Every socket can still count [n] timeouts. *)
Definition timeouts_below (n : Z) (t : TcpManager) : Prop :=
  forall sk s, sock_at sk s t -> timeoutCount s + n <= INT_MAX.

Definition entries_ok (l : list (ConnKey * ptr)) (t : TcpManager) : Prop :=
  forall k sk, (k, sk) ∈ l -> establishedByKey_ t !! k = Some sk.

(** The timer changes nothing but sockets. *)
Record tick_frame (t t' : TcpManager) : Prop := {
  tf_addr : addr_ t' = addr_ t;
  tf_lis : listenersByPort_ t' = listenersByPort_ t;
  tf_pend : synPendingByKey_ t' = synPendingByKey_ t;
  tf_est : establishedByKey_ t' = establishedByKey_ t;
  tf_socks : length (allSockets_ t') = length (allSockets_ t)
}.

Lemma tick_frame_refl t : tick_frame t t.
Proof. done. Qed.

Lemma tick_frame_put sk s t t' : tick_frame (put_sock sk s t) t' -> tick_frame t t'.
Proof.
  intros [F1 F2 F3 F4 F5].
  rewrite addr_put in F1. rewrite listeners_put in F2. rewrite pending_put in F3.
  rewrite established_put in F4. rewrite sockets_put, length_insert in F5. done.
Qed.

(** A property [P] of sockets that a tick keeps, and a property [D] of the
    datagrams that such sockets resend. *)
Section tick.
Context (P : ptr -> TcpSocket -> Prop) (D : datagram -> Prop).
Context (HP : forall sk s now, P sk s -> P sk (ticked now s)).
Context (HD : forall sk s now addr, P sk s -> peer_ok addr s ->
  Forall D (tick_sends now addr s)).

Lemma tick_loop_ok now entries t e Q :
  mgr_ok e -> tm_ok t -> entries_ok entries t -> timeouts_below (vsize entries) t ->
  0 <= now <= TIME_LIMIT -> (forall sk s, sock_at sk s t -> P sk s) ->
  (forall t' e' l, tm_ok t' -> sends e l e' -> tick_frame t t' ->
     (forall sk s, sock_at sk s t' -> P sk s) -> Forall D l -> Q tt (t', e')) ->
  wp (tick_loop now entries) (t, e) Q env_fault.
Proof using H H0 HD HP.
  revert t e. induction entries as [|[k sk] rest IH]; intros t e He Ht Hen Htb Hn Hps HQ.
  { apply wp_ret. eapply HQ; [done|by apply sends_refl|done|done|done]. }
  cbn [tick_loop snd]. tcp_step. rewrite vsize_cons in Htb.
  pose proof (vsize_nonneg rest).
  destruct (est_peer _ _ _ Ht (Hen k sk ltac:(left))) as (s & Hs & Hp & _).
  pose proof (Htb _ _ Hs).
  eapply (wp_tick_socket _ _ s); [done..|lia|done|].
  intros e1 He1. apply IH.
  - mgr_here.
  - eapply tm_ok_put; [done|done|apply ticked_ok; [apply Hp|lia|done]|].
    apply ticked_step.
  - intros j n Hj. rewrite established_put. apply Hen. by right.
  - intros n x Hx. apply (sock_at_put_inv _ s) in Hx as [[-> ->]|[_ Hx]]; [| |done].
    + unfold ticked. case_match; cbn; lia.
    + specialize (Htb _ _ Hx). lia.
  - done.
  - intros n x Hx. apply (sock_at_put_inv _ s) in Hx as [[-> ->]|[_ Hx]]; eauto.
  - intros t' e' l Ht' He' Hf Hps' Hl. eapply HQ; [done|by eapply sends_app| |done|].
    + by eapply tick_frame_put.
    + apply Forall_app. eauto.
Qed.

Lemma retransmissionTick_inv t e Q :
  mgr_ok e -> tm_ok t -> timeouts_below (Z.of_nat (size (establishedByKey_ t))) t ->
  (forall sk s, sock_at sk s t -> P sk s) ->
  (forall t' e' l, tm_ok t' -> sends e l e' -> tick_frame t t' ->
     (forall sk s, sock_at sk s t' -> P sk s) -> Forall D l -> Q tt (t', e')) ->
  wp retransmissionTick (t, e) Q env_fault.
Proof using H H0 HD HP.
  intros He Ht Htb Hps HQ. unfold retransmissionTick. tcp_go.
  pose proof (map_order_perm (establishedByKey_ t)) as Hperm.
  apply tick_loop_ok; [mgr_here|done| | |done|done|].
  - intros k sk Hk. apply elem_of_map_to_list. by rewrite <- Hperm.
  - unfold vsize. rewrite Hperm. by rewrite length_map_to_list.
  - intros t' e' l Ht' He' Hf Hps' Hl. tcp_go.
    apply wp_addTimer; [mgr_here|unfold RETRANS_TICK_MS; lims|].
    intros e1 He1. sends_merge. by eapply HQ.
Qed.
End tick.
End handlers.
