(* ===== verification/TcpNet.v ===== *)
(** * Two managers over a network that loses, repeats and reorders

    A concrete environment that records what is sent, and a transition system
    of a client and a server node whose packets may arrive in any order, any
    number of times or never.  In every reachable state each socket of the
    server holds a prefix of what the client's socket accepted. *)

From S2P Require Import Prelude CppStrings Doubles Packet Transport EventQueue Runtime TcpData TcpSend TcpSocket TcpManager TcpRun TcpInv TcpOps TcpSpec TcpFlow TcpSafe TcpHandlers.

(** ** The recording environment

    The base class's counters and queue, a clock, and the record. *)

Record Net : Type := mkNet {
  net_rm : RuntimeManager NodeTimer;
  net_clock : Z;
  net_sent : list datagram;
  net_out : Console
}.

#[export] Instance eta_Net : Eta Net := fun n =>
  mkNet (net_rm n) (net_clock n) (net_sent n) (net_out n).

Definition set_net_rm (v : RuntimeManager NodeTimer) (n : Net) : Net := ltac:(set_field net_rm v n).
Definition set_net_sent (v : list datagram) (n : Net) : Net := ltac:(set_field net_sent v n).
Definition set_net_out (v : Console) (n : Net) : Net := ltac:(set_field net_out v n).

Definition net_at (clock : Z) : Net := mkNet (new_RuntimeManager 0) clock [] [].

#[export] Instance Net_manager : Manager Net := {|
  mgr_now := gets net_clock;
  mgr_sendPkt from to pkt :=
    let! ok := zoom net_rm set_net_rm (Runtime.sendPkt from to pkt) in
    modify (fun n => set_net_sent (net_sent n ++ [(from, to, pkt)]) n) ;;
    ret ok;
  mgr_addTimer node delta cb :=
    let! now := gets net_clock in
    zoom net_rm set_net_rm (Runtime.addTimer now delta (Some cb));
  mgr_emit o := modify (fun n => set_net_out (net_out n ++ [o]) n)
|}.

Definition net_ok (n : Net) : Prop :=
  0 <= net_clock n <= TIME_LIMIT /\ 0 <= pktsSent_ (net_rm n) <= INT_MAX.

Definition net_sends (n : Net) (l : list datagram) (n' : Net) : Prop :=
  net_sent n' = net_sent n ++ l /\ net_clock n' = net_clock n.

(** The only fault is the overflow of the packet counter. *)
Definition net_fault (f : fault) (n : Net) : Prop :=
  f = UB /\ pktsSent_ (net_rm n) = INT_MAX.

#[export] Instance Net_laws : ManagerLaws Net.
Proof.
  refine {| mgr_ok := net_ok; mgr_sends := net_sends; mgr_fault := net_fault |}.
  - intros e. split; [by rewrite app_nil_r|done].
  - intros e1 e2 e3 l l' [E1 C1] [E2 C2]. split; [by rewrite E2, E1, app_assoc|congruence].
  - by intros x e [].
  - intros e He. split; [apply He|]. split; [done|]. split; [by rewrite app_nil_r|done].
  - intros from to pkt e [Hc Hn] Hs. apply wp_bind, wp_zoom.
    destruct (decide (pktsSent_ (net_rm e) = INT_MAX)) as [Hmax|Hmax].
    + unfold wp, Runtime.sendPkt. destruct Hs as (Hf & Ht & Hsz & p & Hu & Hv).
      rewrite Hf, Ht, Hu, Hv. replace (vsize pkt >? Packet.MAX_PACKET_SIZE) with false by lia.
      cbn [negb orb]. unfold gets, bind. rewrite Hmax. unfold int.
      replace (in_int (INT_MAX + 1)) with false by done. done.
    + unfold wp at 1. rewrite sendPkt_sendable by (try done; lia).
      split; [split; [done|cbn; lia]|]. by split.
  - intros node delta cb e [Hc Hn] Hd. apply wp_bind, wp_gets, wp_zoom.
    unfold TIME_LIMIT in *. unfold Runtime.addTimer. apply wp_bind, wp_long; [lims|].
    apply wp_bind, wp_long; [lims|]. apply wp_modify.
    split; [split; [done|cbn; lia]|]. split; [by cbn; rewrite app_nil_r|done].
  - intros o e [Hc Hn]. apply wp_modify. split; [done|].
    split; [by cbn; rewrite app_nil_r|done].
Defined.

(** One order in which a library could visit its hash tables. *)
Definition list_order : MapOrder.
Proof. refine {| map_order := map_to_list |}. reflexivity. Defined.

(** ** Arrival of a datagram (the transport path of [StackNode::onReceive]) *)

Definition deliver {E} `{Manager E} (d : datagram) : M (TcpManager * E) unit :=
  match Packet.unpack d.2 with
  | Some p =>
      match Transport.unpack (Packet.payload_ p) with
      | Some seg => receiveTransport (Packet.src_ p) seg
      | None => ret tt
      end
  | None => ret tt
  end.

Lemma deliver_datagram {E} `{Manager E} addr dest seg :
  0 <= addr <= 255 -> 0 <= dest <= 255 -> transport_ok seg ->
  deliver (E := E) (tcp_datagram addr dest seg) = receiveTransport addr seg.
Proof.
  intros Ha Hd Hs. unfold deliver, tcp_datagram. cbn [snd].
  rewrite packet_unpack_pack by (by apply tcp_packet_new).
  cbn [tcp_packet Packet.payload_]. by rewrite transport_unpack_pack.
Qed.

(** ** What may be in transit

    Towards the server: control segments, and data that are a piece of the
    stream [acc] at the place their sequence number says. *)

Definition stream_datagram (acc : list byte) (d : datagram) : Prop :=
  exists addr dest seg, d = tcp_datagram addr dest seg /\ 0 <= addr <= 255 /\
    0 <= dest <= 255 /\ transport_ok seg /\ type_ seg = DATA /\ 1 <= seqNum_ seg /\
    Transport.payload_ seg `prefix_of` drop (Z.to_nat (seqNum_ seg - 1)) acc.

Definition transit_ok (acc : list byte) (d : datagram) : Prop :=
  ctl_datagram d \/ stream_datagram acc d.

Lemma prefix_drop_app (p acc more : list byte) n :
  p `prefix_of` drop n acc -> p `prefix_of` drop n (acc ++ more).
Proof. intros Hp. rewrite drop_app. by apply prefix_app_r. Qed.

Lemma transit_ok_app acc more d : transit_ok acc d -> transit_ok (acc ++ more) d.
Proof.
  intros [Hc|(a & b & seg & ? & ? & ? & ? & ? & ? & Hp)]; [by left|right].
  exists a, b, seg. do 6 (split; [done|]). by apply prefix_drop_app.
Qed.

Lemma transit_deliver acc d :
  transit_ok acc d ->
  exists addr seg, seg_arrives addr seg /\
    deliver (E := Net) d = receiveTransport addr seg /\
    (type_ seg = DATA -> 1 <= seqNum_ seg /\
       Transport.payload_ seg `prefix_of` drop (Z.to_nat (seqNum_ seg - 1)) acc).
Proof.
  intros [(a & b & seg & -> & Ha & Hb & Hs & Hty & Hsf)
         |(a & b & seg & -> & Ha & Hb & Hs & Hty & Hq & Hp)]; exists a, seg.
  - split; [by split|]. split; [by apply deliver_datagram|]. done.
  - split; [split; [done|split; [done|rewrite Hty; by intros []]]|].
    split; [by apply deliver_datagram|]. done.
Qed.

(** ** The client's socket *)

Definition seg_of (acc : list byte) (g : OutstandingSeg) : Prop :=
  1 <= seqStart g /\ data g `prefix_of` drop (Z.to_nat (seqStart g - 1)) acc.

Record sender_ok (acc : list byte) (s : TcpSocket) : Prop := {
  snd_syn : state_ s = SYN_SENT -> acc = [];
  snd_lis : state_ s <> LISTEN;
  snd_nxt : state_open (state_ s) = true -> sndNxt_ s = 1 + vsize acc;
  snd_out : Forall (seg_of acc) (outstanding_ s)
}.

Lemma seg_of_app acc more g : seg_of acc g -> seg_of (acc ++ more) g.
Proof. intros [? ?]. split; [done|]. by apply prefix_drop_app. Qed.

Lemma drop_acked_Forall (P : OutstandingSeg -> Prop) n l :
  Forall P l -> Forall P (drop_acked n l).
Proof.
  induction l as [|g r IH]; [done|]. intros Hl. cbn. case_match; [|done].
  apply IH. by inversion Hl.
Qed.

Lemma sender_ok_ext acc s s' :
  sender_ok acc s -> sndNxt_ s' = sndNxt_ s ->
  (state_ s' = state_ s \/ state_ s' = CLOSED \/
     (state_ s = ESTABLISHED /\ state_ s' = SHUTDOWN)) ->
  Forall (seg_of acc) (outstanding_ s') -> sender_ok acc s'.
Proof.
  intros [H1 H2 H3 H4] En Est Ho. destruct Est as [E|[E|[E E']]];
    constructor; rewrite ?E, ?E', ?En; try done.
  intros _. apply H3. by rewrite E.
Qed.

Lemma drained_fields s :
  state_ (drained s) = state_ s /\ sndNxt_ (drained s) = sndNxt_ s /\
  outstanding_ (drained s) = outstanding_ s /\ rcvNxt_ (drained s) = rcvNxt_ s /\
  recvBuf_ (drained s) = recvBuf_ s.
Proof. unfold drained. by case_match. Qed.

Lemma advanced_fields n now1 now2 s :
  state_ (advanced n now1 now2 s) = state_ s /\
  sndNxt_ (advanced n now1 now2 s) = sndNxt_ s /\
  outstanding_ (advanced n now1 now2 s) = drop_acked n (outstanding_ s) /\
  rcvNxt_ (advanced n now1 now2 s) = rcvNxt_ s /\
  recvBuf_ (advanced n now1 now2 s) = recvBuf_ s.
Proof.
  unfold advanced, sampled. cbv zeta.
  destruct (last_acked _ _ _) as [g|]; [destruct (retransmitted g)|];
    [|destruct (hasEstRTT_ _)|]; done.
Qed.

Lemma acked_fields ack now1 now2 s :
  state_ (acked ack now1 now2 s) = state_ s /\
  sndNxt_ (acked ack now1 now2 s) = sndNxt_ s /\
  (outstanding_ (acked ack now1 now2 s) = outstanding_ s \/
   outstanding_ (acked ack now1 now2 s) = drop_acked (seqNum_ ack) (outstanding_ s)) /\
  rcvNxt_ (acked ack now1 now2 s) = rcvNxt_ s /\
  recvBuf_ (acked ack now1 now2 s) = recvBuf_ s.
Proof.
  unfold acked. case_match; [by auto 10|]. case_match; [by auto 10|].
  set (s0 := setRwnd _ s). set (s1 := advanced _ _ _ s0).
  pose proof (drained_fields s1) as (-> & -> & -> & -> & ->). subst s1.
  pose proof (advanced_fields (seqNum_ ack) now1 now2 s0) as (-> & -> & -> & -> & ->).
  auto 10.
Qed.

(** No segment that arrives disturbs what the sender has in flight. *)
Lemma recv_effect_sender acc t seg sk s s' :
  sender_ok acc s -> recv_effect t seg sk s s' -> sender_ok acc s'.
Proof.
  intros Hok Hr. pose proof (snd_out _ _ Hok) as Ho. inversion Hr; subst.
  - done.
  - apply (sender_ok_ext _ s); unfold arrived; try case_match; auto.
  - pose proof (acked_fields seg now1 now2 s) as (E1 & E2 & E3 & _).
    apply (sender_ok_ext _ s); [done|done|by left|].
    destruct E3 as [->| ->]; [done|by apply drop_acked_Forall].
  - unfold handshake_done, established. case_decide as Hc.
    + apply (sender_ok_ext _ s); auto.
    + assert (acc = []) as ->.
      { apply (snd_syn _ _ Hok). cbn in Hc. by destruct (state_ s). }
      constructor; cbn; try done.
  - apply (sender_ok_ext _ s); unfold peer_finned; try case_decide; auto.
  - apply (sender_ok_ext _ s); auto.
  - apply (sender_ok_ext _ s); unfold enqueued; try case_match; auto.
Qed.

(** ** The server's sockets *)

(** [got] was read from the socket so far. *)
Record receiver_ok (acc got : list byte) (s : TcpSocket) : Prop := {
  rcv_nxt : rcvNxt_ s <= 1 + vsize acc;
  rcv_stream : got ++ recvBuf_ s = take (Z.to_nat (rcvNxt_ s - 1)) acc
}.

Lemma receiver_ok_app acc more got s :
  receiver_ok acc got s -> receiver_ok (acc ++ more) got s.
Proof.
  intros [Hn Hs]. constructor.
  - rewrite vsize_app. pose proof (vsize_nonneg more). lia.
  - rewrite Hs, take_app_le; [done|]. unfold vsize in Hn. lia.
Qed.

Lemma receiver_ok_ext acc got s s' :
  receiver_ok acc got s -> rcvNxt_ s' = rcvNxt_ s -> recvBuf_ s' = recvBuf_ s ->
  receiver_ok acc got s'.
Proof. intros [Hn Hs] En Eb. by constructor; rewrite En, ?Eb. Qed.

(** In-order data extend the prefix by exactly their payload. *)
Lemma receiver_ok_arrived acc got seg s :
  receiver_ok acc got s -> 1 <= seqNum_ seg ->
  Transport.payload_ seg `prefix_of` drop (Z.to_nat (seqNum_ seg - 1)) acc ->
  receiver_ok acc got (arrived seg s).
Proof.
  intros [Hn Hs] Hq [rest Hp]. unfold arrived. destruct (accepts seg s) eqn:Hacc; [|done].
  unfold accepts in Hacc. apply andb_true_iff in Hacc as [Hacc _].
  apply andb_true_iff in Hacc as [Hacc Heq]. apply Z.eqb_eq in Heq. rewrite Heq in *.
  set (n := Z.to_nat (rcvNxt_ s - 1)) in *. set (p := Transport.payload_ seg) in *.
  assert (Hsplit : acc = take n acc ++ p ++ rest) by (by rewrite <- Hp, take_drop).
  assert (Hlen : length (take n acc) = n).
  { rewrite length_take. unfold vsize in Hn. lia. }
  constructor; cbn.
  - rewrite Hsplit, !vsize_app. unfold vsize at 2. rewrite Hlen.
    pose proof (vsize_nonneg rest). lia.
  - rewrite app_assoc, Hs. fold p.
    replace (Z.to_nat (rcvNxt_ s + vsize p - 1)) with (length (take n acc ++ p))
      by (rewrite length_app, Hlen; unfold vsize; lia).
    transitivity (take (length (take n acc ++ p)) ((take n acc ++ p) ++ rest)).
    + by rewrite take_app_length.
    + by rewrite <- app_assoc, <- Hsplit.
Qed.

Lemma receiver_ok_accepted acc lp ra rp :
  receiver_ok acc [] (accepted lp ra rp new_TcpSocket).
Proof. constructor; cbn; [|done]. pose proof (vsize_nonneg acc). lia. Qed.

Lemma recv_effect_receiver acc got t seg sk s s' :
  receiver_ok acc got s -> synPendingByKey_ t = ∅ ->
  (type_ seg = DATA -> 1 <= seqNum_ seg /\
     Transport.payload_ seg `prefix_of` drop (Z.to_nat (seqNum_ seg - 1)) acc) ->
  recv_effect t seg sk s s' -> receiver_ok acc got s'.
Proof.
  intros Hok Hpend Hdata Hr. inversion Hr; subst.
  - done.
  - destruct (Hdata ltac:(done)) as [Hq Hp]. by apply receiver_ok_arrived.
  - pose proof (acked_fields seg now1 now2 s) as (_ & _ & _ & E1 & E2).
    by apply (receiver_ok_ext _ _ s).
  - by rewrite Hpend in *.
  - apply (receiver_ok_ext _ _ s); unfold peer_finned; try case_decide; auto.
  - by apply (receiver_ok_ext _ _ s).
  - apply (receiver_ok_ext _ _ s); unfold enqueued; try case_match; auto.
Qed.

(** [read] moves bytes from the buffer to what was read. *)
Lemma receiver_ok_consumed acc got n s :
  receiver_ok acc got s -> 0 <= n ->
  receiver_ok acc (got ++ take (Z.to_nat n) (recvBuf_ s)) (consumed n s).
Proof.
  intros [Hn Hs] H0. unfold consumed.
  case_match; (constructor; cbn; [done|by rewrite <- app_assoc, take_drop]).
Qed.
