(* ===== verification/TcpStream.v ===== *)
(** * Integrity of the byte stream, end to end

    A client manager with one connecting or connected socket, a server manager
    with any number of sockets, and every packet either side ever sent: a step
    may deliver any of them, again or for the first time, in any order, or
    never.  Whatever the applications and the timers do, what the server's
    socket delivers is a prefix of what the client's [write] accepted. *)

From S2P Require Import Prelude CppStrings Doubles Packet Transport EventQueue Runtime TcpData TcpSend TcpSocket TcpManager TcpRun TcpInv TcpOps TcpSpec TcpFlow TcpSafe TcpHandlers TcpNet.

Record World : Type := mkWorld {
  client : TcpManager;
  server : TcpManager;
  to_server : list datagram;
  to_client : list datagram;
  accepted_bytes : list byte;
  delivered : ptr -> list byte
}.

Definition set_delivered (f : ptr -> list byte) (c : ptr) (l : list byte) : ptr -> list byte :=
  fun x => if decide (x = c) then l else f x.

(** The client's socket is the first of its manager. *)
Definition client_sock : ptr := 0%nat.

Definition clock_ok (now : Z) : Prop := 0 <= now <= TIME_LIMIT.

Section stream.
Context `{MapOrder}.

(** One action of the client, with the clock at [now]. *)
Inductive client_step (w : World) : World -> Prop :=
| client_write now bytes pos len n t e :
    clock_ok now -> pos + len <= vsize bytes <= INT_MAX ->
    vsize (accepted_bytes w) + len + 1 + Transport.MAX_PAYLOAD_SIZE <= SEQ_LIMIT ->
    write client_sock (Some bytes) pos len (client w, net_at now) = (Ret n, (t, e)) ->
    client_step w (mkWorld t (server w) (to_server w ++ net_sent e) (to_client w)
                     (accepted_bytes w ++ piece bytes pos n) (delivered w))
| client_close now t e :
    clock_ok now -> close client_sock (client w, net_at now) = (Ret tt, (t, e)) ->
    client_step w (mkWorld t (server w) (to_server w ++ net_sent e) (to_client w)
                     (accepted_bytes w) (delivered w))
| client_tick now t e :
    clock_ok now ->
    timeouts_below (Z.of_nat (size (establishedByKey_ (client w)))) (client w) ->
    retransmissionTick (client w, net_at now) = (Ret tt, (t, e)) ->
    client_step w (mkWorld t (server w) (to_server w ++ net_sent e) (to_client w)
                     (accepted_bytes w) (delivered w))
| client_receive now d t e :
    clock_ok now -> d ∈ to_client w -> all_rcv_room (client w) ->
    deliver d (client w, net_at now) = (Ret tt, (t, e)) ->
    client_step w (mkWorld t (server w) (to_server w ++ net_sent e) (to_client w)
                     (accepted_bytes w) (delivered w)).

(** One action of the server. *)
Inductive server_step (w : World) : World -> Prop :=
| server_read now c bytes pos len n bytes' t e :
    clock_ok now -> pos + len <= vsize bytes <= INT_MAX ->
    read c (Some bytes) pos len (server w, net_at now) = (Ret (n, Some bytes'), (t, e)) ->
    server_step w (mkWorld (client w) t (to_server w) (to_client w ++ net_sent e)
      (accepted_bytes w)
      (set_delivered (delivered w) c (delivered w c ++ piece bytes' pos n)))
| server_accept now l r t e :
    clock_ok now -> accept l (server w, net_at now) = (Ret r, (t, e)) ->
    server_step w (mkWorld (client w) t (to_server w) (to_client w ++ net_sent e)
                     (accepted_bytes w) (delivered w))
| server_close now c t e :
    clock_ok now -> close c (server w, net_at now) = (Ret tt, (t, e)) ->
    server_step w (mkWorld (client w) t (to_server w) (to_client w ++ net_sent e)
                     (accepted_bytes w) (delivered w))
| server_tick now t e :
    clock_ok now ->
    timeouts_below (Z.of_nat (size (establishedByKey_ (server w)))) (server w) ->
    retransmissionTick (server w, net_at now) = (Ret tt, (t, e)) ->
    server_step w (mkWorld (client w) t (to_server w) (to_client w ++ net_sent e)
                     (accepted_bytes w) (delivered w))
| server_receive now d t e :
    clock_ok now -> d ∈ to_server w ->
    deliver d (server w, net_at now) = (Ret tt, (t, e)) ->
    server_step w (mkWorld (client w) t (to_server w) (to_client w ++ net_sent e)
                     (accepted_bytes w) (delivered w)).

Definition world_step (w w' : World) : Prop := client_step w w' \/ server_step w w'.

(** ** The invariant *)

(** A datagram that a manager can be given. *)
Definition arrives_ok (d : datagram) : Prop :=
  exists addr seg, seg_arrives addr seg /\
    deliver (E := Net) d = receiveTransport addr seg.

Record client_ok (acc : list byte) (t : TcpManager) (out : list datagram) : Prop := {
  cl_ok : tm_ok t;
  cl_lis : listenersByPort_ t = ∅;
  cl_one : length (allSockets_ t) = 1%nat;
  cl_sender : forall sk s, sock_at sk s t -> sender_ok acc s;
  cl_out : Forall (transit_ok acc) out;
  cl_room : 1 + vsize acc + Transport.MAX_PAYLOAD_SIZE <= SEQ_LIMIT
}.

Record server_ok (acc : list byte) (got : ptr -> list byte) (t : TcpManager)
    (out : list datagram) : Prop := {
  sv_ok : tm_ok t;
  sv_pend : synPendingByKey_ t = ∅;
  sv_recv : forall c s, sock_at c s t -> receiver_ok acc (got c) s;
  sv_none : forall c, allSockets_ t !! c = None -> got c = [];
  sv_out : Forall arrives_ok out
}.

Record world_ok (w : World) : Prop := {
  w_client : client_ok (accepted_bytes w) (client w) (to_server w);
  w_server : server_ok (accepted_bytes w) (delivered w) (server w) (to_client w)
}.

Lemma net_at_ok now : clock_ok now -> mgr_ok (net_at now).
Proof. intros Hn. split; [done|]. cbn. lims. Qed.

Lemma net_at_sends now l e : sends (net_at now) l e -> net_sent e = l.
Proof. by intros [_ [-> _]]. Qed.

(** A specification applied to a run that ended. *)
Lemma wp_ran {A} (m : M (TcpManager * Net) A) st r st' Q X :
  m st = (Ret r, st') -> wp m st Q X -> Q r st'.
Proof. unfold wp. by intros ->. Qed.

Lemma ctl_arrives d : ctl_datagram d -> arrives_ok d.
Proof.
  intros (a & b & seg & -> & Ha & Hb & Hs & Hty & Hsf). exists a, seg.
  split; [by split|by apply deliver_datagram].
Qed.

(** ** What the client sends *)

Lemma seg_chain_stream pre segs more lo hi :
  seg_chain lo segs hi -> lo = 1 + vsize pre ->
  Forall (seg_of (pre ++ concat (map data segs) ++ more)) segs.
Proof.
  revert pre lo. induction segs as [|g r IH]; intros pre lo Hc Hlo; [constructor|].
  cbn in Hc. destruct Hc as (Hs & [_ [Hd _]] & Hr). cbn [map concat]. constructor.
  - split; [rewrite Hs, Hlo; pose proof (vsize_nonneg pre); lia|].
    replace (Z.to_nat (seqStart g - 1)) with (length pre) by (unfold vsize in Hlo; lia).
    rewrite drop_app_length, <- app_assoc. by eexists.
  - specialize (IH (pre ++ data g) _ Hr). rewrite <- !app_assoc in *. apply IH.
    rewrite vsize_app, Hd. unfold seg_end. lia.
Qed.

Lemma fresh_stream acc bytes segs :
  fresh_segs (1 + vsize acc) bytes segs -> Forall (seg_of (acc ++ bytes)) segs.
Proof.
  intros [Hd Hc _]. pose proof (seg_chain_stream acc segs [] _ _ Hc eq_refl) as Hf.
  by rewrite Hd, split_mss_concat, app_nil_r in Hf.
Qed.

Lemma data_transit acc addr s g :
  peer_ok addr s -> seg_ok g -> INT_MIN <= seqStart g <= INT_MAX -> seg_of acc g ->
  transit_ok acc (data_datagram addr s g).
Proof.
  intros Hp Hg Hr [Hq Hpre]. right. exists addr, (remoteAddr_ s).
  exists (out_seg s DATA 0 (seqStart g) (data g)).
  destruct (data_seg_ok _ _ _ Hp Hg Hr) as [_ Hok].
  split; [done|]. split; [apply Hp|]. split; [apply Hp|]. done.
Qed.

Lemma sock_segs_range s g :
  sock_ok s -> g ∈ outstanding_ s -> seg_ok g /\ INT_MIN <= seqStart g <= INT_MAX.
Proof.
  intros Hok Hg.
  pose proof (segs_ok_bounds _ _ _ (ok_segs _ Hok) (proj1 (ok_una _ Hok)) (ok_nxt _ Hok)) as Hf.
  rewrite Forall_forall in Hf. destruct (Hf g Hg) as (Hs & Hl & Hu). split; [done|].
  destruct Hs as [[? ?] _]. unfold seg_end in *. lims.
Qed.

Lemma tick_transit acc now addr s :
  sender_ok acc s -> peer_ok addr s -> Forall (transit_ok acc) (tick_sends now addr s).
Proof.
  intros Hs Hp. unfold tick_sends. case_match; [|constructor].
  apply Forall_map, Forall_forall. intros g Hg. cbn.
  destruct (sock_segs_range s g (proj1 Hp) Hg).
  apply data_transit; [done..|]. pose proof (snd_out _ _ Hs) as Ho.
  rewrite Forall_forall in Ho. by apply Ho.
Qed.

Lemma ticked_sender acc now s : sender_ok acc s -> sender_ok acc (ticked now s).
Proof.
  intros Hs. unfold ticked. case_match; [|done].
  apply (sender_ok_ext _ s); cbn; auto. apply Forall_map.
  eapply Forall_impl; [apply (snd_out _ _ Hs)|]. by intros g [? ?].
Qed.

Lemma written_sender acc bytes segs n now s :
  sender_ok acc s -> state_ s = ESTABLISHED -> fresh_segs (sndNxt_ s) bytes segs ->
  n = vsize bytes -> sender_ok (acc ++ bytes) (written segs n now s).
Proof.
  intros Hs Hst Hf ->. pose proof (snd_nxt _ _ Hs ltac:(by rewrite Hst)) as Hn.
  rewrite Hn in Hf. apply fresh_stream in Hf.
  assert (Hp : sender_ok (acc ++ bytes) (pushed segs (vsize bytes) s)).
  { constructor; cbn; rewrite ?Hst; try done.
    - intros _. rewrite Hn, vsize_app. lia.
    - apply Forall_app. split; [|done].
      eapply Forall_impl; [apply (snd_out _ _ Hs)|]. intros. by apply seg_of_app. }
  unfold written. case_match; [|done]. by apply (sender_ok_ext _ (pushed segs (vsize bytes) s));
    [|auto|auto|apply Hp].
Qed.

Lemma closed_sender acc s : sender_ok acc s -> sender_ok acc (closed s).
Proof.
  intros Hs. unfold closed. destruct (state_ s) eqn:Hst; [done| | | |done].
  - by apply (sender_ok_ext _ s); auto; apply Hs.
  - by apply (sender_ok_ext _ s); auto; apply Hs.
  - pose proof (drained_fields (set_state SHUTDOWN s)) as (E1 & E2 & E3 & _).
    apply (sender_ok_ext _ s); rewrite ?E1, ?E2, ?E3; auto. apply Hs.
Qed.

(** ** Preservation *)

Lemma client_sock_at acc t out :
  client_ok acc t out -> exists s, sock_at client_sock s t.
Proof.
  intros Hc. apply lookup_lt_is_Some. rewrite (cl_one _ _ _ Hc). unfold client_sock. lia.
Qed.

Lemma client_ok_put acc acc' t out l s s' :
  client_ok acc t out -> sock_at client_sock s t ->
  tm_ok (put_sock client_sock s' t) -> sender_ok acc' s' ->
  acc `prefix_of` acc' -> 1 + vsize acc' + Transport.MAX_PAYLOAD_SIZE <= SEQ_LIMIT ->
  Forall (transit_ok acc') l -> client_ok acc' (put_sock client_sock s' t) (out ++ l).
Proof.
  intros Hc Hs Ht Hs' [more ->] Hr Hl. constructor; try done.
  - by rewrite listeners_put, (cl_lis _ _ _ Hc).
  - by rewrite sockets_put, length_insert, (cl_one _ _ _ Hc).
  - intros sk x Hx. apply (sock_at_put_inv _ s) in Hx as [[-> ->]|[Hne Hx]]; [done| |done].
    apply sock_at_lt in Hx. rewrite (cl_one _ _ _ Hc) in Hx. unfold client_sock in *. lia.
  - apply Forall_app. split; [|done].
    eapply Forall_impl; [apply (cl_out _ _ _ Hc)|]. intros. by apply transit_ok_app.
Qed.

Lemma client_ok_same acc t out : client_ok acc t out -> client_ok acc t (out ++ []).
Proof. by rewrite app_nil_r. Qed.

Lemma server_ok_app acc more got t out :
  server_ok acc got t out -> server_ok (acc ++ more) got t out.
Proof.
  intros []. constructor; try done. intros. apply receiver_ok_app. auto.
Qed.

Lemma client_write_ok acc t out now bytes pos len n t' e :
  client_ok acc t out -> clock_ok now -> pos + len <= vsize bytes <= INT_MAX ->
  vsize acc + len + 1 + Transport.MAX_PAYLOAD_SIZE <= SEQ_LIMIT ->
  write client_sock (Some bytes) pos len (t, net_at now) = (Ret n, (t', e)) ->
  client_ok (acc ++ piece bytes pos n) t' (out ++ net_sent e).
Proof.
  intros Hc Hn Hb Hroom Hrun. pose proof (net_at_ok _ Hn) as He.
  destruct (client_sock_at _ _ _ Hc) as [s Hs].
  pose proof (cl_ok _ _ _ Hc) as Ht. pose proof (tm_socks _ Ht _ _ Hs) as Hok.
  pose proof (cl_sender _ _ _ Hc _ _ Hs) as Hsn.
  destruct (decide (state_ s = ESTABLISHED /\ 0 <= pos /\ 0 <= len))
    as [(Hst & Hp & Hl)|Hbad].
  - assert (Ho : state_open (state_ s) = true) by (by rewrite Hst).
    pose proof (snd_nxt _ _ Hsn Ho) as Hnx.
    assert (Hpeer : peer_ok (addr_ t) s) by (by eapply open_peer).
    pose proof (write_count_range s len Hl) as Hwc.
    assert (Hseq : sndNxt_ s + len <= SEQ_LIMIT) by (rewrite Hnx; lims).
    eapply (wp_ran _ _ _ _ (fun n st => client_ok (acc ++ piece bytes pos n) st.1
      (out ++ net_sent st.2)) _ Hrun).
    apply (wp_write _ _ _ _ s); try done.
    intros segs now' e' Hf Hn' He'. cbn [fst snd]. rewrite (net_at_sends _ _ _ He').
    assert (Hsz : vsize (piece bytes pos (write_count s len)) = write_count s len)
      by (apply piece_size; lia).
    assert (Hwok : sock_ok (written segs (write_count s len) now' s))
      by (eapply written_ok; [done|done|done|lia|done]).
    apply (client_ok_put acc _ _ _ _ s); try done.
    + by eapply tm_ok_put; [..|apply written_step].
    + by eapply written_sender.
    + by eexists.
    + rewrite vsize_app, Hsz. lia.
    + apply Forall_map, Forall_forall. intros g Hg.
      rewrite Hnx in Hf. pose proof (fresh_stream _ _ _ Hf) as Hst'.
      rewrite Forall_forall in Hst'.
      assert (Hg' : g ∈ outstanding_ (written segs (write_count s len) now' s)).
      { unfold written. case_match; cbn; apply elem_of_app; by right. }
      destruct (sock_segs_range _ g Hwok Hg'). apply data_transit; auto.
  - rewrite (write_refused_run _ _ _ _ s) in Hrun by done.
    injection Hrun as <- <- <-. cbn [net_sent net_at].
    assert (piece bytes pos (-1) = []) as -> by done.
    rewrite (app_nil_r acc). by apply client_ok_same.
Qed.

Lemma client_handled acc t out seg t' l :
  client_ok acc t out -> handled seg t t' l -> client_ok acc t' (out ++ l).
Proof.
  intros Hc Hh.
  assert (Hold : forall sk s', sock_at sk s' t' -> exists s, sock_at sk s t).
  { intros sk s' [Hs|(_ & Hl & _)]%(h_new _ _ _ _ Hh); [done|].
    by rewrite (cl_lis _ _ _ Hc) in Hl. }
  constructor.
  - apply Hh.
  - by rewrite (h_lis _ _ _ _ Hh), (cl_lis _ _ _ Hc).
  - destruct (client_sock_at _ _ _ Hc) as [s Hs].
    destruct (h_old _ _ _ _ Hh _ _ Hs) as (s' & Hs'%sock_at_lt & _).
    destruct (allSockets_ t' !! 1%nat) as [x|] eqn:Hx.
    + destruct (Hold 1%nat x Hx) as [y Hy%sock_at_lt].
      rewrite (cl_one _ _ _ Hc) in Hy. lia.
    + apply lookup_ge_None in Hx. unfold client_sock in *. lia.
  - intros sk s' Hs'. destruct (Hold _ _ Hs') as [s Hs].
    destruct (h_old _ _ _ _ Hh _ _ Hs) as (x & Hx & Hr).
    rewrite (sock_at_fun _ _ _ _ Hs' Hx).
    eapply recv_effect_sender; [|exact Hr]. by eapply cl_sender.
  - apply Forall_app. split; [apply Hc|].
    eapply Forall_impl; [apply (h_ctl _ _ _ _ Hh)|]. intros d Hd. by left.
  - apply Hc.
Qed.

Lemma client_step_ok w w' : world_ok w -> client_step w w' -> world_ok w'.
Proof.
  intros [Hc Hsv] Hst. pose proof (cl_ok _ _ _ Hc) as Ht.
  inversion Hst; subst; constructor; cbn [client server to_server to_client
    accepted_bytes delivered]; try done.
  - by eapply client_write_ok.
  - by apply server_ok_app.
  - (* close *)
    destruct (client_sock_at _ _ _ Hc) as [s Hs].
    pose proof (tm_socks _ Ht _ _ Hs) as Hok.
    assert (Hcv : state_ s = ESTABLISHED -> conn_valid s).
    { intros E1. eapply tm_conn; [done..|]. by rewrite E1. }
    eapply (wp_ran _ _ _ _ (fun _ st => client_ok _ st.1 (to_server w ++ net_sent st.2)) _ H1).
    apply (wp_close _ s); [by apply net_at_ok|done|done|apply Ht|done|].
    intros e' He'. cbn [fst snd]. rewrite (net_at_sends _ _ _ He').
    eapply (client_ok_put _ _ _ _ _ s); try done.
    + eapply tm_ok_put; [done|done|by apply closed_ok|apply closed_step].
    + by apply closed_sender, (cl_sender _ _ _ Hc _ _ Hs).
    + apply Hc.
    + unfold close_sends. destruct (state_ s) eqn:E1; try constructor.
      pose proof (ok_una _ Hok). pose proof (ok_nxt _ Hok).
      eapply Forall_impl; [apply drain_ctl; [by apply Hcv|apply Ht|cbn; lia]|].
      intros d Hd. by left.
  - (* tick *)
    eapply (wp_ran _ _ _ _ (fun _ st => client_ok _ st.1 (to_server w ++ net_sent st.2)) _ H2).
    apply (retransmissionTick_inv (fun _ => sender_ok (accepted_bytes w))
      (transit_ok (accepted_bytes w))); try done.
    + intros. by apply ticked_sender.
    + intros. by apply tick_transit.
    + apply Hc.
    + intros t' e' l Ht' He' Hf Hps Hl. cbn [fst snd]. rewrite (net_at_sends _ _ _ He').
      destruct Hf as [_ F2 _ _ F5]. constructor; try done.
      * by rewrite F2, (cl_lis _ _ _ Hc).
      * by rewrite F5, (cl_one _ _ _ Hc).
      * apply Forall_app. split; [apply Hc|done].
      * apply Hc.
  - (* receive *)
    pose proof (sv_out _ _ _ _ Hsv) as Hin. rewrite Forall_forall in Hin.
    destruct (Hin _ H1) as (addr & seg & Hseg & Hdel). rewrite Hdel in H3.
    eapply (wp_ran _ _ _ _ (fun _ st => client_ok _ st.1 (to_server w ++ net_sent st.2)) _ H3).
    apply receiveTransport_handled; [by apply net_at_ok|done|done|done|].
    intros t' e' l Hh He'. cbn [fst snd]. rewrite (net_at_sends _ _ _ He').
    by eapply client_handled.
Qed.

Lemma server_ok_put acc got got' t out l c s s' :
  server_ok acc got t out -> sock_at c s t -> tm_ok (put_sock c s' t) ->
  receiver_ok acc (got' c) s' -> (forall x, x <> c -> got' x = got x) ->
  Forall arrives_ok l -> server_ok acc got' (put_sock c s' t) (out ++ l).
Proof.
  intros Hv Hs Ht Hr Hg Hl. constructor; try done.
  - by rewrite pending_put, (sv_pend _ _ _ _ Hv).
  - intros x y Hy. apply (sock_at_put_inv _ s) in Hy as [[-> ->]|[Hne Hy]]; [done| |done].
    rewrite Hg by done. by eapply sv_recv.
  - intros x Hx. rewrite sockets_put in Hx. apply list_lookup_insert_None in Hx.
    destruct (decide (x = c)) as [->|Hne].
    + unfold sock_at in Hs. congruence.
    + rewrite Hg by done. by eapply sv_none.
  - apply Forall_app. split; [apply Hv|done].
Qed.

Lemma server_ok_quiet acc got t t' out l :
  server_ok acc got t out -> tm_ok t' -> quiet t t' -> Forall arrives_ok l ->
  server_ok acc got t' (out ++ l).
Proof.
  intros Hv Ht [Q1 Q2 Q3] Hl. constructor; try done.
  - by rewrite Q1, (sv_pend _ _ _ _ Hv).
  - intros c s' Hs'. destruct (Q3 _ _ Hs') as (s & Hs & En & Eb).
    apply (receiver_ok_ext _ _ s); [by eapply sv_recv|done|done].
  - intros c Hc. eapply sv_none; [done|]. apply lookup_ge_None.
    rewrite <- Q2. by apply lookup_ge_None.
  - apply Forall_app. split; [apply Hv|done].
Qed.

Lemma tick_arrives now addr s :
  peer_ok addr s -> Forall arrives_ok (tick_sends now addr s).
Proof.
  intros Hp. unfold tick_sends. case_match; [|constructor].
  apply Forall_map, Forall_forall. intros g Hg. cbn.
  destruct (sock_segs_range s g (proj1 Hp) Hg) as [Hg' Hr].
  destruct (data_seg_ok _ _ _ Hp Hg' Hr) as [_ Hok].
  exists addr, (out_seg s DATA 0 (seqStart g) (data g)). split.
  - split; [done|]. split; [apply Hp|]. by intros [].
  - apply deliver_datagram; [apply Hp|apply Hp|done].
Qed.

Lemma ticked_receiver acc got now s :
  receiver_ok acc got s -> receiver_ok acc got (ticked now s).
Proof.
  intros Hr. apply (receiver_ok_ext _ _ s); unfold ticked; try case_match; done.
Qed.

Lemma server_handled acc got t out seg t' l :
  server_ok acc got t out ->
  (type_ seg = DATA -> 1 <= seqNum_ seg /\
     Transport.payload_ seg `prefix_of` drop (Z.to_nat (seqNum_ seg - 1)) acc) ->
  handled seg t t' l -> server_ok acc got t' (out ++ l).
Proof.
  intros Hv Hd Hh. constructor.
  - apply Hh.
  - pose proof (h_pend _ _ _ _ Hh) as Hp. rewrite (sv_pend _ _ _ _ Hv) in Hp.
    apply map_empty. intros k. eapply lookup_weaken_None; [apply lookup_empty|exact Hp].
  - intros c s' Hs'. destruct (h_new _ _ _ _ Hh _ _ Hs') as [[s Hs]|(Hn & _ & lp & ra & rp & ->)].
    + destruct (h_old _ _ _ _ Hh _ _ Hs) as (x & Hx & Hr).
      rewrite (sock_at_fun _ _ _ _ Hs' Hx).
      eapply recv_effect_receiver; [by eapply sv_recv|by eapply sv_pend|done|done].
    + rewrite (sv_none _ _ _ _ Hv _ Hn). apply receiver_ok_accepted.
  - intros c Hc. eapply sv_none; [done|].
    destruct (allSockets_ t !! c) as [s|] eqn:Hs; [|done].
    destruct (h_old _ _ _ _ Hh _ _ Hs) as (s' & Hs' & _). unfold sock_at in Hs'. congruence.
  - apply Forall_app. split; [apply Hv|].
    eapply Forall_impl; [apply (h_ctl _ _ _ _ Hh)|apply ctl_arrives].
Qed.

Lemma server_room acc got t out :
  server_ok acc got t out -> 1 + vsize acc + Transport.MAX_PAYLOAD_SIZE <= SEQ_LIMIT ->
  all_rcv_room t.
Proof.
  intros Hv Hr sk s Hs. pose proof (rcv_nxt _ _ _ (sv_recv _ _ _ _ Hv _ _ Hs)).
  unfold rcv_room. lia.
Qed.

Lemma overwrite_piece bytes pos n src :
  0 <= pos -> 0 <= n -> pos + n <= vsize bytes -> n <= vsize src ->
  piece (overwrite bytes (Z.to_nat pos) (Z.to_nat n) src) pos n = take (Z.to_nat n) src.
Proof.
  intros Hp Hn Hb Hs. unfold piece, overwrite, vsize in *.
  rewrite drop_app_length' by (rewrite length_take; lia).
  rewrite take_app_length' by (rewrite length_take; lia). done.
Qed.

Lemma piece_none bytes pos : piece bytes pos (-1) = [].
Proof. done. Qed.

Lemma deref_some {A} (k : TcpSocket -> M (TcpManager * Net) A) sk t e r st :
  bind (deref sk) k (t, e) = (Ret r, st) -> exists s, sock_at sk s t.
Proof.
  unfold bind, deref, tget, bind, gets, sock_at. cbn.
  destruct (allSockets_ t !! sk) as [s|]; [by exists s|done].
Qed.

Lemma server_read_ok acc got t out now c bytes pos len n bytes' t' e :
  server_ok acc got t out -> clock_ok now -> pos + len <= vsize bytes <= INT_MAX ->
  read c (Some bytes) pos len (t, net_at now) = (Ret (n, Some bytes'), (t', e)) ->
  server_ok acc (set_delivered got c (got c ++ piece bytes' pos n)) t'
    (out ++ net_sent e).
Proof.
  intros Hv Hn Hb Hrun. pose proof Hrun as [s Hs]%deref_some.
  pose proof (sv_ok _ _ _ _ Hv) as Ht. pose proof (tm_socks _ Ht _ _ Hs) as Hok.
  destruct (ok_buf _ Hok) as [Hu _]. pose proof (vsize_nonneg (recvBuf_ s)).
  set (got' := set_delivered _ _ _).
  assert (Hgot : got' c = got c ++ piece bytes' pos n)
    by (unfold got', set_delivered; by rewrite decide_True).
  assert (Hne : forall x, x <> c -> got' x = got x)
    by (intros; unfold got', set_delivered; by rewrite decide_False).
  pose proof (sv_recv _ _ _ _ Hv _ _ Hs) as Hr.
  destruct (decide (readable s = true /\ 0 <= pos /\ 0 <= len)) as [(Hst & Hp & Hl)|Hbad].
  - rewrite (read_run _ _ _ _ s) in Hrun by (try done; unfold read_count; lia).
    injection Hrun as <- <- <- <-. cbn [net_sent net_at].
    assert (Hcnt : 0 <= read_count s len <= recvBufUsed_ s) by (unfold read_count; lia).
    eapply server_ok_put; [done|done| | |done|done].
    + eapply tm_ok_put; [done|done|by apply consumed_ok|apply consumed_step].
    + rewrite Hgot, overwrite_piece by (unfold read_count in *; lia).
      apply receiver_ok_consumed; [done|lia].
  - rewrite (read_refused_run _ _ _ _ s) in Hrun by done.
    injection Hrun as <- <- <- <-. cbn [net_sent net_at].
    rewrite <- (put_sock_id c s t Hs) at 1.
    eapply server_ok_put; [done|done|by rewrite (put_sock_id c s)| |done|done].
    by rewrite Hgot, piece_none, app_nil_r.
Qed.

Lemma server_step_ok w w' : world_ok w -> server_step w w' -> world_ok w'.
Proof.
  intros [Hc Hv] Hst. pose proof (sv_ok _ _ _ _ Hv) as Ht.
  inversion Hst as [?? bytes ???????? Hrun|? l0 ???? Hrun|? c ??? Hrun|???? Htb Hrun
    |? d ??? Hin Hrun]; subst; constructor; cbn [client server to_server to_client
    accepted_bytes delivered]; try done.
  - by eapply server_read_ok.
  - pose proof Hrun as [s Hs]%deref_some.
    eapply (wp_ran _ _ _ _ (fun _ st => server_ok _ _ st.1 (to_client w ++ net_sent st.2)) _ Hrun).
    eapply wp_accept_safe; [by apply net_at_ok|done|done|].
    intros r' t' Ht' Hq _. eapply server_ok_quiet; [done|done|done|constructor].
  - pose proof Hrun as [s Hs]%deref_some. pose proof (tm_socks _ Ht _ _ Hs) as Hok.
    assert (Hcv : state_ s = ESTABLISHED -> conn_valid s).
    { intros E1. eapply tm_conn; [done..|]. by rewrite E1. }
    eapply (wp_ran _ _ _ _ (fun _ st => server_ok _ _ st.1 (to_client w ++ net_sent st.2)) _ Hrun).
    apply (wp_close _ s); [by apply net_at_ok|done|done|apply Ht|done|].
    intros e' He'. cbn [fst snd]. rewrite (net_at_sends _ _ _ He').
    eapply server_ok_quiet; [done| | |].
    + eapply tm_ok_put; [done|done|by apply closed_ok|apply closed_step].
    + eapply quiet_put; [apply quiet_refl|done|..]; unfold closed, drained;
        by repeat case_match.
    + unfold close_sends. destruct (state_ s) eqn:E1; try constructor.
      pose proof (ok_una _ Hok). pose proof (ok_nxt _ Hok).
      eapply Forall_impl; [|apply ctl_arrives].
      apply drain_ctl; [by apply Hcv|apply Ht|cbn; lia].
  - eapply (wp_ran _ _ _ _ (fun _ st => server_ok _ _ st.1 (to_client w ++ net_sent st.2)) _ Hrun).
    apply (retransmissionTick_inv (fun c => receiver_ok (accepted_bytes w) (delivered w c))
      arrives_ok); [| |by apply net_at_ok|done|done|apply Hv|].
    + intros. by apply ticked_receiver.
    + intros. by apply tick_arrives.
    + intros t' e' l Ht' He' [_ _ F3 _ F5] Hps Hl. cbn [fst snd].
      rewrite (net_at_sends _ _ _ He'). constructor; try done.
      * by rewrite F3, (sv_pend _ _ _ _ Hv).
      * intros c Hn. eapply sv_none; [done|]. apply lookup_ge_None.
        rewrite <- F5. by apply lookup_ge_None.
      * apply Forall_app. split; [apply Hv|done].
  - pose proof (cl_out _ _ _ Hc) as Hall. rewrite Forall_forall in Hall.
    destruct (transit_deliver _ _ (Hall _ Hin)) as (addr & seg & Hseg & Hdel & Hd).
    rewrite Hdel in Hrun.
    eapply (wp_ran _ _ _ _ (fun _ st => server_ok _ _ st.1 (to_client w ++ net_sent st.2)) _ Hrun).
    apply receiveTransport_handled; [by apply net_at_ok|done|done| |].
    { eapply server_room; [done|apply Hc]. }
    intros t' e' l Hh He'. cbn [fst snd]. rewrite (net_at_sends _ _ _ He').
    by eapply server_handled.
Qed.

(** ** Starting states and the theorem *)

(** The client's socket has no data yet; the server's sockets neither, and
    it opens no connections itself. *)
Record started (w : World) : Prop := {
  st_client : tm_ok (client w);
  st_client_lis : listenersByPort_ (client w) = ∅;
  st_client_sock : exists s, allSockets_ (client w) = [s] /\ outstanding_ s = [] /\
    state_open (state_ s) = false /\ state_ s <> LISTEN;
  st_to_server : Forall ctl_datagram (to_server w);
  st_server : tm_ok (server w);
  st_server_pend : synPendingByKey_ (server w) = ∅;
  st_server_socks : forall c s, sock_at c s (server w) -> recvBuf_ s = [] /\ rcvNxt_ s <= 1;
  st_to_client : Forall ctl_datagram (to_client w);
  st_accepted : accepted_bytes w = [];
  st_delivered : forall c, delivered w c = []
}.

Lemma started_ok w : started w -> world_ok w.
Proof.
  intros [Hc Hl (s & Hs & Ho & Hst & Hnl) Hts Hv Hp Hvs Htc Ha Hd]. constructor; constructor;
    rewrite ?Ha; try done.
  - by rewrite Hs.
  - intros sk x Hx. unfold sock_at in Hx. rewrite Hs in Hx.
    apply list_lookup_singleton_Some in Hx as [_ <-].
    constructor; [done|done|congruence|by rewrite Ho].
  - eapply Forall_impl; [done|]. intros. by left.
  - intros c x Hx. destruct (Hvs _ _ Hx) as [Hb Hn]. constructor.
    + rewrite vsize_nil. lia.
    + by rewrite Hd, Hb, take_nil.
  - eapply Forall_impl; [done|apply ctl_arrives].
Qed.

Lemma world_reachable_ok w w' : world_ok w -> rtc world_step w w' -> world_ok w'.
Proof.
  intros Hw Hr. induction Hr as [|w1 w2 w3 [Hst|Hst] _ IH]; [done|..]; apply IH.
  - by eapply client_step_ok.
  - by eapply server_step_ok.
Qed.
End stream.
