(* ===== verification/TcpTheorems.v ===== *)
(** * Theorems about the transport layer

    The contract of the socket operations and of the segment handlers, for
    every environment that obeys [ManagerLaws], and the integrity of the byte
    stream between two managers. *)

From S2P Require Import Prelude CppStrings Doubles Packet Transport EventQueue Runtime TcpData TcpSend TcpSocket TcpManager TcpRun TcpInv TcpOps TcpSpec TcpFlow TcpSafe TcpHandlers TcpNet TcpStream.

(** ** Sample states for the witnesses *)

Definition sample_bytes : list byte := stringToBytes "Hello, world".

(** A connection to port 21 of node 2 with five bytes in flight. *)
Definition sample_seg : OutstandingSeg :=
  mkSeg 1 5 (stringToBytes "Hello") 100 false.

Definition sample_conn : TcpSocket :=
  set_nextRtoDeadlineMs 1100 (set_outstanding [sample_seg] (set_sndNxt 6
    (accepted 30 2 21 new_TcpSocket))).

Definition sample_key : ConnKey := mkKey 2 21 30.

Definition sample_client : TcpManager :=
  mkTcpManager 1 [sample_conn] ∅ ∅ {[ sample_key := 0%nat ]}.

Definition sample_listener : TcpSocket :=
  set_state LISTEN (set_backlog 4 (set_localPort 21 new_TcpSocket)).

Definition sample_server : TcpManager :=
  mkTcpManager 2 [sample_listener] {[ 21 := 0%nat ]} ∅ ∅.

(** A client whose SYN is on its way. *)
Definition sample_connecting : TcpSocket :=
  set_state SYN_SENT (set_synSeq 0 (set_remotePort 21 (set_remoteAddr 2
    (set_localPort 30 new_TcpSocket)))).

Definition sample_dialer : TcpManager :=
  mkTcpManager 1 [sample_connecting] ∅ {[ sample_key := 0%nat ]} ∅.

Ltac numerals := repeat split; vm_compute; congruence.

Lemma sample_seg_ok : seg_ok sample_seg.
Proof. split; [numerals|]. split; [done|]. numerals. Qed.

Lemma sample_conn_ok : sock_ok sample_conn.
Proof.
  constructor; numerals.
Qed.

Lemma sample_conn_valid : conn_valid sample_conn.
Proof. numerals. Qed.

Lemma sample_peer_ok : peer_ok (addr_ sample_client) sample_conn.
Proof. split; [apply sample_conn_ok|]. split; [apply sample_conn_valid|]. numerals. Qed.

Lemma sample_single t s sk x :
  allSockets_ t = [s] -> sock_at sk x t -> sk = 0%nat /\ x = s.
Proof. unfold sock_at. intros ->. by intros [-> ->]%list_lookup_singleton_Some. Qed.

Lemma sample_client_ok : tm_ok sample_client.
Proof.
  constructor; try done.
  - intros sk s [-> ->]%(sample_single _ sample_conn); [apply sample_conn_ok|done].
  - intros sk s [-> ->]%(sample_single _ sample_conn); [intros; apply sample_conn_valid|done].
  - intros k sk Hk. cbn in Hk. apply lookup_singleton_Some in Hk as [<- <-].
    exists sample_conn. split; [done|]. split; [apply sample_conn_valid|done].
  - intros l s c [-> ->]%(sample_single _ sample_conn) Hc; [|done].
    by apply not_elem_of_nil in Hc.
Qed.

Lemma sample_server_ok : tm_ok sample_server.
Proof.
  constructor; try done.
  - intros sk s [-> ->]%(sample_single _ sample_listener); [|done].
    constructor; numerals.
  - by intros sk s [-> ->]%(sample_single _ sample_listener).
  - intros p sk Hp. cbn in Hp. apply lookup_singleton_Some in Hp as [<- <-].
    by exists sample_listener.
  - intros l s c [-> ->]%(sample_single _ sample_listener) Hc; [|done].
    by apply not_elem_of_nil in Hc.
Qed.

Lemma sample_connecting_valid : conn_valid sample_connecting.
Proof. numerals. Qed.

Lemma sample_dialer_ok : tm_ok sample_dialer.
Proof.
  constructor; try done.
  - intros sk s [-> ->]%(sample_single _ sample_connecting); [|done].
    constructor; numerals.
  - intros sk s [-> ->]%(sample_single _ sample_connecting); [|done].
    intros; apply sample_connecting_valid.
  - intros k sk Hk. cbn in Hk. apply lookup_singleton_Some in Hk as [<- <-].
    exists sample_connecting. split; [done|]. split; [|done].
    split; [apply sample_connecting_valid|done].
  - intros l s c [-> ->]%(sample_single _ sample_connecting) Hc; [|done].
    by apply not_elem_of_nil in Hc.
Qed.

Lemma sample_net_ok : mgr_ok (net_at 2000).
Proof. split; numerals. Qed.

(** ** The stream *)

(** C3: Whatever the network loses, repeats or reorders, whatever either
    application calls and whenever the timers fire, what a socket of the server
    has delivered is a prefix of the bytes that the client's [write] accepted,
    and together with what waits in its receive buffer it is exactly the bytes
    below [rcvNxt_]. *)
Theorem stream_integrity `{MapOrder} (w0 w : World) (c : ptr) :
  started w0 -> rtc world_step w0 w ->
  (exists rest, accepted_bytes w = delivered w c ++ rest) /\
  (forall s, sock_at c s (server w) ->
     delivered w c ++ recvBuf_ s = take (Z.to_nat (rcvNxt_ s - 1)) (accepted_bytes w)).
Proof.
  intros Hw Hr. pose proof (world_reachable_ok _ _ (started_ok _ Hw) Hr) as [_ Hv].
  assert (Hs : forall s, sock_at c s (server w) ->
    delivered w c ++ recvBuf_ s = take (Z.to_nat (rcvNxt_ s - 1)) (accepted_bytes w))
    by (intros s Hs; by apply (sv_recv _ _ _ _ Hv)).
  split; [|done]. destruct (allSockets_ (server w) !! c) as [s|] eqn:Hc.
  - exists (recvBuf_ s ++ drop (Z.to_nat (rcvNxt_ s - 1)) (accepted_bytes w)).
    by rewrite app_assoc, (Hs s Hc), take_drop.
  - exists (accepted_bytes w). by rewrite (sv_none _ _ _ _ Hv c Hc).
Qed.

Section runs.
#[local] Existing Instance list_order.

Definition after {A} (r : result A * (TcpManager * Net)) : TcpManager * Net := r.2.

Definition server_gets (now : Z) (d : datagram) (w : World) : World :=
  let '(t, e) := after (deliver d (server w, net_at now)) in
  mkWorld (client w) t (to_server w) (to_client w ++ net_sent e)
    (accepted_bytes w) (delivered w).

Definition client_gets (now : Z) (d : datagram) (w : World) : World :=
  let '(t, e) := after (deliver d (client w, net_at now)) in
  mkWorld t (server w) (to_server w ++ net_sent e) (to_client w)
    (accepted_bytes w) (delivered w).

Definition client_writes (now : Z) (bytes : list byte) (w : World) : World :=
  let '(t, e) := after (write client_sock (Some bytes) 0 (vsize bytes)
                          (client w, net_at now)) in
  mkWorld t (server w) (to_server w ++ net_sent e) (to_client w)
    (accepted_bytes w ++ piece bytes 0 (vsize bytes)) (delivered w).

Definition syn_datagram : datagram := tcp_datagram 1 2 (mkTransport 30 21 SYN 0 0 []).
Definition syn_ack_datagram : datagram := tcp_datagram 2 1 (mkTransport 21 30 ACK 32768 1 []).
Definition sample_datagram : datagram :=
  tcp_datagram 1 2 (mkTransport 30 21 DATA 0 1 sample_bytes).

Definition sample_start : World :=
  mkWorld sample_dialer sample_server [syn_datagram] [] [] (fun _ => []).

(** Handshake, a write, and its arrival (twice). *)
Definition sample_run : World :=
  server_gets 50 sample_datagram (server_gets 40 sample_datagram
    (client_writes 30 sample_bytes (client_gets 20 syn_ack_datagram
      (server_gets 10 syn_datagram sample_start)))).

Lemma sample_started : started sample_start.
Proof.
  constructor; try done.
  - apply sample_dialer_ok.
  - exists sample_connecting. repeat split; done.
  - constructor; [|constructor]. eexists _, _, _. split; [reflexivity|].
    split; [numerals|]. split; [numerals|]. split; [numerals|]. split; [done|].
    intros _. numerals.
  - apply sample_server_ok.
  - intros c s [-> ->]%(sample_single _ sample_listener); [|done]. split; [done|numerals].
Qed.

Lemma server_gets_step now d w t e :
  clock_ok now -> d ∈ to_server w ->
  deliver d (server w, net_at now) = (Ret tt, (t, e)) -> world_step w (server_gets now d w).
Proof.
  intros Hn Hd Hr. right. unfold server_gets. rewrite Hr.
  by eapply server_receive.
Qed.

Lemma client_gets_step now d w t e :
  clock_ok now -> d ∈ to_client w -> all_rcv_room (client w) ->
  deliver d (client w, net_at now) = (Ret tt, (t, e)) -> world_step w (client_gets now d w).
Proof.
  intros Hn Hd Hroom Hr. left. unfold client_gets. rewrite Hr.
  by eapply client_receive.
Qed.

Lemma client_writes_step now bytes w t e :
  clock_ok now -> vsize bytes <= INT_MAX ->
  vsize (accepted_bytes w) + vsize bytes + 1 + Transport.MAX_PAYLOAD_SIZE <= SEQ_LIMIT ->
  write client_sock (Some bytes) 0 (vsize bytes) (client w, net_at now) =
    (Ret (vsize bytes), (t, e)) ->
  world_step w (client_writes now bytes w).
Proof.
  intros Hn Hb Hroom Hr. left. unfold client_writes. rewrite Hr.
  eapply client_write; [done| |done|exact Hr]. lia.
Qed.

Lemma sample_reached : rtc world_step sample_start sample_run.
Proof.
  eapply rtc_l; [eapply (server_gets_step 10 syn_datagram);
    [numerals|left|vm_compute; reflexivity]|].
  eapply rtc_l; [eapply (client_gets_step 20 syn_ack_datagram);
    [numerals|vm_compute; left| |vm_compute; reflexivity]|].
  { intros sk s [-> ->]%(sample_single _ sample_connecting); [numerals|done]. }
  eapply rtc_l; [eapply (client_writes_step 30 sample_bytes);
    [numerals|numerals|numerals|vm_compute; reflexivity]|].
  eapply rtc_l; [eapply (server_gets_step 40 sample_datagram);
    [numerals|vm_compute; right; left|vm_compute; reflexivity]|].
  eapply rtc_l; [eapply (server_gets_step 50 sample_datagram);
    [numerals|vm_compute; right; left|vm_compute; reflexivity]|].
  apply rtc_refl.
Qed.

Lemma stream_integrity_witness :
  exists s, sock_at 1 s (server sample_run) /\
    delivered sample_run 1 ++ recvBuf_ s = sample_bytes /\
    delivered sample_run 1 ++ recvBuf_ s =
      take (Z.to_nat (rcvNxt_ s - 1)) (accepted_bytes sample_run).
Proof.
  eexists. split; [vm_compute; reflexivity|]. split; [vm_compute; reflexivity|].
  apply (stream_integrity sample_start sample_run 1 sample_started sample_reached).
  vm_compute; reflexivity.
Defined.
End runs.

(** ** Safety of the entry points *)

(** The calls an application makes on a socket it holds. *)
Inductive app_call : Type :=
| CallWrite (sk : ptr) (bytes : list byte) (pos len : Z)
| CallRead (sk : ptr) (bytes : list byte) (pos len : Z)
| CallAccept (sk : ptr)
| CallClose (sk : ptr)
| CallRelease (sk : ptr).

(** The socket exists, the range lies in the buffer and, for [write], sequence
    numbers are left. *)
Definition call_ok (t : TcpManager) (c : app_call) : Prop :=
  match c with
  | CallWrite sk bytes pos len =>
      exists s, sock_at sk s t /\ pos + len <= vsize bytes <= INT_MAX /\
        sndNxt_ s + len <= SEQ_LIMIT
  | CallRead sk bytes pos len => (exists s, sock_at sk s t) /\ pos + len <= vsize bytes
  | CallAccept sk | CallClose sk | CallRelease sk => exists s, sock_at sk s t
  end.

Section contracts.
Context `{ManagerLaws E}.
Implicit Types (t : TcpManager) (e : E) (s : TcpSocket).

Definition run_call (c : app_call) : M (TcpManager * E) unit :=
  match c with
  | CallWrite sk bytes pos len => write sk (Some bytes) pos len ;; ret tt
  | CallRead sk bytes pos len => read sk (Some bytes) pos len ;; ret tt
  | CallAccept sk => accept sk ;; ret tt
  | CallClose sk => close sk
  | CallRelease sk => release sk
  end.

(** C4: Any segment that [Transport::unpack] can yield, but a SYN or a FIN with the
    largest sequence number (whose successor overflows), is handled without an
    exception or undefined behaviour by a manager whose sockets all have a
    segment's room left in their sequence numbers; the manager's invariant
    survives, and every socket changes only in one of the ways [recv_effect]
    lists. *)
Theorem receive_safe t e srcAddr seg :
  mgr_ok e -> tm_ok t -> seg_arrives srcAddr seg -> all_rcv_room t ->
  wp (receiveTransport srcAddr seg) (t, e)
    (fun _ st => exists l, handled seg t st.1 l /\ sends e l st.2) env_fault.
Proof.
  intros He Ht Hseg Hr. apply receiveTransport_handled; [done..|].
  intros t' e' l Hh He'. by exists l.
Qed.

(** The retransmission timer runs without fault on any manager in its
    invariant, keeps it, and touches neither the tables nor the number of
    sockets. *)
Theorem timer_safe `{MapOrder} t e :
  mgr_ok e -> tm_ok t -> timeouts_below (Z.of_nat (size (establishedByKey_ t))) t ->
  wp retransmissionTick (t, e)
    (fun _ st => tm_ok st.1 /\ tick_frame t st.1 /\ exists l, sends e l st.2) env_fault.
Proof.
  intros He Ht Hb.
  apply (retransmissionTick_inv (fun _ _ => True) (fun _ => True)); try done.
  - intros. by apply Forall_forall.
  - intros t' e' l Ht' He' Hf _ _. split; [done|]. split; [done|]. by exists l.
Qed.

(** C5: No call of an application on a socket it holds faults or breaks the
    manager's invariant, in any state of the socket. *)
Theorem application_safe t e c :
  mgr_ok e -> tm_ok t -> call_ok t c ->
  wp (run_call c) (t, e) (fun _ st => tm_ok st.1 /\ exists l, sends e l st.2) env_fault.
Proof.
  intros He Ht Hc. destruct c as [sk bytes pos len|sk bytes pos len|sk|sk|sk]; cbn in *.
  - destruct Hc as (s & Hs & Hb & Hq). tcp_step.
    eapply wp_write_safe; [done..|]. intros. tcp_step. eauto.
  - destruct Hc as [[s Hs] Hb]. tcp_step.
    eapply wp_read_safe; [done..|]. intros. tcp_step. eauto using sends_refl.
  - destruct Hc as [s Hs]. tcp_step.
    eapply wp_accept_safe; [done..|]. intros. tcp_step. eauto using sends_refl.
  - destruct Hc as [s Hs]. eapply wp_close_safe; [done..|]. eauto.
  - destruct Hc as [s Hs]. eapply run_wp; [by apply release_run|].
    split; [by eapply tm_ok_release|]. exists []. by apply sends_refl.
Qed.

(** ** Sending *)

(** C24: [write] on an open connection accepts exactly the bytes that the
    effective window (the smaller of the peer's window and the congestion
    window) still takes, cuts them into full segments, sends each once, keeps
    a copy of each with consecutive sequence numbers, and returns their
    count; the timer is started if nothing was in flight. *)
Theorem write_contract sk bytes pos len s t e :
  mgr_ok e -> sock_at sk s t -> peer_ok (addr_ t) s -> state_ s = ESTABLISHED ->
  0 <= pos -> 0 <= len -> pos + len <= vsize bytes <= INT_MAX ->
  sndNxt_ s + len <= SEQ_LIMIT ->
  wp (write sk (Some bytes) pos len) (t, e)
    (fun n st => exists segs now,
       n = Z.max 0 (Z.min len (Z.min (rwnd_ s) (cwnd_ s) - (sndNxt_ s - sndUna_ s))) /\
       map data segs = split_mss (piece bytes pos n) /\
       seg_chain (sndNxt_ s) segs (sndNxt_ s + n) /\
       st.1 = put_sock sk (written segs n now s) t /\
       sends e (map (data_datagram (addr_ t) s) segs) st.2) env_fault.
Proof.
  intros He Hs Hp Hst Hpos Hlen Hb Hq. apply (wp_write _ _ _ _ s); try done.
  intros segs now e' [Hd Hc _] Hn He'. pose proof (write_count_range s len Hlen).
  rewrite piece_size in Hc by lia. by exists segs, now.
Qed.

(** Cutting into segments loses nothing and every piece fits in one. *)
Theorem split_mss_complete (bytes : list byte) :
  concat (split_mss bytes) = bytes /\
  Forall (fun p => 0 < vsize p <= Transport.MAX_PAYLOAD_SIZE) (split_mss bytes).
Proof.
  split; [apply split_mss_concat|].
  induction bytes as [l IH] using (well_founded_induction
    (well_founded_ltof _ (@length byte))).
  destruct (decide (l = [])) as [->|Hl]; [constructor|]. rewrite split_mss_cons by done.
  pose proof mss_pos as Hm. constructor.
  - unfold vsize. rewrite length_take. destruct l; [done|cbn [length]; lia].
  - apply IH. unfold ltof. rewrite length_drop. destruct l; [done|cbn [length]; lia].
Qed.

(** C27: The timer of a socket with unacknowledged segments goes back to the
    first: every segment in flight is sent again, in order, the timeout
    doubles up to 64 s, the congestion window halves down to one segment, and
    the next deadline is one new timeout away; before the deadline nothing
    happens. *)
Theorem timeout_contract now sk s t e :
  mgr_ok e -> sock_at sk s t -> peer_ok (addr_ t) s -> timeoutCount s < INT_MAX ->
  0 <= now <= TIME_LIMIT ->
  wp (tick_socket now sk) (t, e)
    (fun _ st =>
       if hasOutstanding s && negb (nextRtoDeadlineMs_ s =? 0) &&
          (nextRtoDeadlineMs_ s <=? now)
       then exists s',
         st.1 = put_sock sk s' t /\
         rtoMs_ s' = Z.min (2 * rtoMs_ s) 64000 /\
         cwnd_ s' = Z.max 107 (cwnd_ s / 2) /\
         nextRtoDeadlineMs_ s' = now + rtoMs_ s' /\
         outstanding_ s' = map set_retransmitted (outstanding_ s) /\
         sndUna_ s' = sndUna_ s /\ sndNxt_ s' = sndNxt_ s /\
         sends e (map (fun g => to_peer (addr_ t) s (out_seg s DATA 0 (seqStart g) (data g)))
                    (outstanding_ s)) st.2
       else st.1 = t /\ sends e [] st.2) env_fault.
Proof.
  intros He Hs Hp Hc Hn. apply (wp_tick_socket _ _ s); try done.
  intros e' He'. unfold tick_sends, ticked, timer_due in *.
  destruct (_ && _).
  - eexists. split; [reflexivity|]. cbn. unfold rto_backoff, aimd_decrease.
    split; [by rewrite Z.mul_comm|]. split; [done|]. auto.
  - cbn. by rewrite (put_sock_id sk s).
Qed.

(** [n] consecutive timeouts multiply the timeout by 2^n, up to 64 s. *)
Theorem rto_backoff_contract n sk s t e :
  sock_at sk s t -> RTO_INITIAL_MS <= rtoMs_ s <= RTO_MAX_MS ->
  Nat.iter n (fun m => m ;; doubleRto sk) (ret tt) (t, e) =
    (Ret tt, (put_sock sk (set_rtoMs (Z.min (rtoMs_ s * 2 ^ Z.of_nat n) 64000) s) t, e)).
Proof.
  intros Hs Hr. induction n as [|n IH].
  - change (2 ^ Z.of_nat 0) with 1. rewrite Z.mul_1_r. change 64000 with RTO_MAX_MS.
    rewrite Z.min_l by lia. assert (set_rtoMs (rtoMs_ s) s = s) as -> by (by destruct s).
    by rewrite (put_sock_id sk s).
  - change (Nat.iter (S n) (fun m => m ;; doubleRto sk) (ret tt)) with
      (Nat.iter n (fun m => m ;; doubleRto sk) (ret tt) ;; doubleRto (E := E) sk).
    rewrite (bind_run _ _ _ _ _ IH).
    pose proof (Z.pow_pos_nonneg 2 (Z.of_nat n)).
    erewrite doubleRto_run; [|sock_here|cbn; lims]. autorewrite with tcp.
    set (x := Z.min _ _). change (set_rtoMs ?v (set_rtoMs x s)) with (set_rtoMs v s).
    change (rtoMs_ (set_rtoMs x s)) with x.
    assert (rto_backoff x = Z.min (rtoMs_ s * 2 ^ Z.of_nat (S n)) 64000) as ->; [|done].
    unfold rto_backoff, x. rewrite Nat2Z.inj_succ, Z.pow_succ_r by lia.
    change RTO_MAX_MS with 64000. lia.
Qed.

(** C40: Additive increase, multiplicative decrease: an acknowledgment grows
    the congestion window by MSS²/cwnd, at least one byte and at most a
    segment; a timeout halves it, exactly (the code computes in [double]),
    but not below a segment. *)
Theorem aimd_contract sk s t e :
  sock_at sk s t -> sock_ok s ->
  (exists c, additiveIncreaseCwnd sk (t, e) = (Ret tt, (put_sock sk (set_cwnd c s) t, e)) /\
     c = cwnd_ s + Z.max 1 (107 * 107 / cwnd_ s) /\ cwnd_ s < c <= cwnd_ s + 107) /\
  multiplicativeDecreaseCwnd sk (t, e) =
    (Ret tt, (put_sock sk (set_cwnd (Z.max 107 (cwnd_ s / 2)) s) t, e)).
Proof.
  intros Hs Hok. pose proof (ok_cwnd _ Hok) as Hc. pose proof (ok_una _ Hok).
  pose proof (ok_nxt _ Hok). pose proof (aimd_increase_range _ (proj1 Hc)) as Hr.
  change CWND_MIN_BYTES with 107 in *. split.
  - exists (aimd_increase (cwnd_ s)). split; [|split].
    + apply additiveIncreaseCwnd_run; [done|]. change CWND_MIN_BYTES with 107. lia.
    + unfold aimd_increase. change CWND_MIN_BYTES with 107.
      change Transport.MAX_PAYLOAD_SIZE with 107.
      by rewrite (Z.max_l (cwnd_ s)), Z.quot_div_nonneg by lia.
    + lia.
  - apply multiplicativeDecreaseCwnd_run; [done|lims].
Qed.
End contracts.

(** ** Receiving *)

Section receiving.
Context `{ManagerLaws E}.
Implicit Types (t : TcpManager) (e : E) (s : TcpSocket).

(** [read] on an open socket hands over the oldest buffered bytes, in
    order, as many as are there up to [len], puts them at [pos] of the
    caller's buffer and leaves the rest of it alone, removes exactly them,
    and closes the socket when the peer has finished and nothing is left. *)
Theorem read_contract sk bytes pos len s t e :
  sock_at sk s t -> sock_ok s -> state_open (state_ s) = true ->
  0 <= pos -> 0 <= len -> pos + len <= vsize bytes ->
  let n := Z.min len (vsize (recvBuf_ s)) in
  exists s', read sk (Some bytes) pos len (t, e) =
    (Ret (n, Some (overwrite bytes (Z.to_nat pos) (Z.to_nat n) (recvBuf_ s))),
     (put_sock sk s' t, e)) /\
  recvBuf_ s' = drop (Z.to_nat n) (recvBuf_ s) /\
  rcvNxt_ s' = rcvNxt_ s /\
  state_ s' = (if peerFinReceived_ s && (n =? vsize (recvBuf_ s)) then CLOSED else state_ s).
Proof.
  intros Hs Hok Ho Hpos Hlen Hb n. destruct (ok_buf _ Hok) as [Hu _].
  pose proof (vsize_nonneg (recvBuf_ s)).
  exists (consumed (read_count s len) s). split.
  - rewrite (read_run _ _ _ _ s) by (try done; unfold read_count; lia).
    unfold n, read_count. by rewrite Hu.
  - unfold consumed, read_count, n. rewrite <- Hu.
    replace (recvBufUsed_ s - Z.min len (recvBufUsed_ s) =? 0)
      with (Z.min len (recvBufUsed_ s) =? recvBufUsed_ s) by lia.
    by case_match.
Qed.

(** C25: A data segment of an open connection is taken if and only if it is
    the next one in sequence and fits in the receive buffer; then it is
    appended whole and the expected number advances by its length.  Taken or
    not, exactly one acknowledgment answers it, with the number expected now
    and the room left. *)
Theorem data_contract sk srcAddr seg s t e :
  mgr_ok e -> tm_ok t -> sock_at sk s t -> rcv_room s -> transport_ok seg ->
  establishedByKey_ t !! seg_key srcAddr seg = Some sk ->
  state_open (state_ s) = true ->
  wp (onData srcAddr seg) (t, e)
    (fun _ st => exists s', st.1 = put_sock sk s' t /\
       let p := Transport.payload_ seg in
       (if (0 <? vsize p) && (seqNum_ seg =? rcvNxt_ s) &&
           (vsize p <=? RECV_BUF_CAP - vsize (recvBuf_ s))
        then rcvNxt_ s' = rcvNxt_ s + vsize p /\ recvBuf_ s' = recvBuf_ s ++ p
        else s' = s) /\
       sends e [to_peer (addr_ t) s (out_seg s ACK (RECV_BUF_CAP - vsize (recvBuf_ s'))
                  (rcvNxt_ s') [])] st.2) env_fault.
Proof.
  intros He Ht Hs Hr Hseg Hk Ho.
  destruct (est_closed_out _ _ _ _ Ht Hk Hs) as [_ Hkey].
  unfold seg_key in Hkey. injection Hkey as E1 E2 E3.
  pose proof (tm_socks _ Ht _ _ Hs) as Hok.
  assert (Hp : peer_ok (addr_ t) s) by (by eapply open_peer).
  apply (wp_onData_known sk _ _ s); try done.
  intros e' He'. exists (arrived seg s). split; [done|]. cbn [snd].
  pose proof (arrived_ok _ _ Hok Hr Hseg) as Hok'.
  unfold data_sends in He'. rewrite Ho in He'.
  unfold getRecvBufAvailable in He'. rewrite (proj1 (ok_buf _ Hok')) in He'.
  split; [|exact He']. unfold arrived, accepts, getRecvBufAvailable. rewrite Ho.
  rewrite (proj1 (ok_buf _ Hok)). cbn [andb].
  pose proof (vsize_nonneg (Transport.payload_ seg)).
  replace (0 <? vsize (Transport.payload_ seg))
    with (negb (vsize (Transport.payload_ seg) =? 0)) by lia.
  by destruct (_ && _).
Qed.

(** C26: A cumulative acknowledgment removes from the socket exactly the
    segments it covers and reopens the window it announces; one that
    acknowledges nothing new only updates the window; one beyond what was
    sent changes nothing. *)
Theorem ack_contract sk ack s t e :
  mgr_ok e -> sock_at sk s t -> peer_ok (addr_ t) s ->
  INT_MIN <= window_ ack <= INT_MAX ->
  wp (onAck_established sk ack) (t, e)
    (fun _ st => exists s', st.1 = put_sock sk s' t /\
       if seqNum_ ack >? sndNxt_ s then s' = s
       else if seqNum_ ack <=? sndUna_ s then s' = set_rwnd (Z.max 0 (window_ ack)) s
       else sndUna_ s' = seqNum_ ack /\ sndNxt_ s' = sndNxt_ s /\
            rwnd_ s' = Z.max 0 (window_ ack) /\ cwnd_ s < cwnd_ s' /\
            segs_ok (sndUna_ s') (sndNxt_ s') (outstanding_ s') /\
            exists popped, outstanding_ s = popped ++ outstanding_ s' /\
              Forall (fun g => seqStart g + len g <= seqNum_ ack) popped) env_fault.
Proof.
  intros He Hs Hp Hw. apply (wp_onAck_established _ _ s); try done.
  intros now1 now2 e' Hn1 Hn2 He'. exists (acked ack now1 now2 s). split; [done|].
  pose proof (acked_ok ack now1 now2 s (proj1 Hp) Hw Hn1) as Hok'.
  unfold acked in *. destruct (_ >? _); [done|]. destruct (_ <=? _); [done|].
  set (s0 := setRwnd _ s) in *. set (s1 := advanced _ _ _ s0) in *.
  assert (Hf : sndUna_ s1 = seqNum_ ack /\ rwnd_ s1 = Z.max 0 (window_ ack) /\
    cwnd_ s1 = aimd_increase (cwnd_ s)).
  { unfold s1, advanced, sampled. cbv zeta.
    destruct (last_acked _ _ _) as [g|]; [destruct (retransmitted g)|];
      [|destruct (hasEstRTT_ _)|]; done. }
  destruct Hf as (F1 & F2 & F3).
  pose proof (drained_fields s1) as (_ & D2 & D3 & _).
  pose proof (advanced_fields (seqNum_ ack) now1 now2 s0) as (_ & A2 & A3 & _).
  assert (Hd : sndUna_ (drained s1) = sndUna_ s1 /\ rwnd_ (drained s1) = rwnd_ s1 /\
    cwnd_ (drained s1) = cwnd_ s1) by (unfold drained; by case_match).
  destruct Hd as (D4 & D5 & D6).
  pose proof (aimd_increase_range _ (proj1 (ok_cwnd _ (proj1 Hp)))).
  split; [congruence|]. split; [rewrite D2; exact A2|]. split; [congruence|].
  split; [rewrite D6, F3; lia|]. split; [apply Hok'|].
  assert (outstanding_ s1 = drop_acked (seqNum_ ack) (outstanding_ s)) as A4 by exact A3.
  rewrite D3, A4. change (outstanding_ s0) with (outstanding_ s).
  clear. induction (outstanding_ s) as [|g r (pre & E1 & E2)].
  - exists []. by split; [|constructor].
  - cbn. destruct (Z.leb_spec (seg_end g) (seqNum_ ack)).
    + exists (g :: pre). split; [cbn; by rewrite <- E1|]. by constructor.
    + exists []. by split; [|constructor].
Qed.

(** ** Connections *)

(** C28: A SYN (with any sequence number but the largest) for a port somebody
    listens on creates one established socket for the sender, registers it and
    answers with an acknowledgment of the SYN that announces the whole receive
    buffer; the socket is put at the end of the listener's queue if the backlog
    has room, and otherwise the queue is left as it is, although the connection
    is registered and acknowledged.  A SYN for any other port is answered with a
    FIN and changes nothing. *)
Theorem syn_contract srcAddr seg t e :
  mgr_ok e -> tm_ok t -> seg_in srcAddr seg ->
  wp (onSyn srcAddr seg) (t, e)
    (fun _ st =>
       match listenersByPort_ t !! destPort_ seg with
       | None => st.1 = t /\ sends e [reply (addr_ t) srcAddr seg FIN 0 0] st.2
       | Some l => exists ls child c,
           sock_at l ls t /\ allSockets_ t !! child = None /\
           sock_at child c st.1 /\ state_ c = ESTABLISHED /\ conn_key c (seg_key srcAddr seg) /\
           sndUna_ c = 1 /\ sndNxt_ c = 1 /\ rcvNxt_ c = 1 /\
           establishedByKey_ st.1 = <[seg_key srcAddr seg := child]> (establishedByKey_ t) /\
           sock_at l (if vsize (pendingConnQueue_ ls) <? backlog_ ls
                      then set_pendingConnQueue (pendingConnQueue_ ls ++ [child]) ls
                      else ls) st.1 /\
           sends e [reply (addr_ t) srcAddr seg ACK RECV_BUF_CAP (seqNum_ seg + 1)] st.2
       end) env_fault.
Proof.
  intros He Ht Hseg. apply wp_onSyn; [done|apply Ht|done|].
  destruct (listenersByPort_ t !! destPort_ seg) as [l|] eqn:Hl; [|by intros].
  destruct (tm_lis _ Ht _ _ Hl) as [ls Hls]. exists ls. split; [done|].
  intros e' He'. pose proof (sock_at_lt _ _ _ Hls) as Hlt.
  set (child := length (allSockets_ t)) in *.
  set (cs := accepted (destPort_ seg) srcAddr (srcPort_ seg) new_TcpSocket).
  assert (Hls1 : sock_at l ls (put_sock child cs (push_sock t)))
    by (apply put_sock_ne; [lia|by apply push_sock_old]).
  assert (Hcs1 : sock_at child cs (put_sock child cs (push_sock t)))
    by (eapply put_sock_at, push_sock_new).
  destruct Hseg as ([(Hsp & Hdp & _) _] & Hsa & _).
  exists ls, child, cs. split; [done|]. split; [by apply lookup_ge_None|].
  split; [apply (put_sock_ne child l); [lia|exact Hcs1]|]. split; [done|].
  split; [by split; [split|]|]. do 3 (split; [done|]). split; [done|].
  split; [|exact He'].
  change (sock_at l (enqueued child ls)
    (put_sock l (enqueued child ls) (put_sock child cs (push_sock t)))). sock_here.
Qed.

(** C29: The acknowledgment of its SYN establishes a connecting socket: the
    counters start at 1, the peer's window is stored and the connection moves
    from the pending to the established table; any other number changes
    nothing. *)
Theorem handshake_contract srcAddr seg p s t e :
  mgr_ok e -> tm_ok t -> transport_ok seg ->
  synPendingByKey_ t !! seg_key srcAddr seg = Some p -> sock_at p s t ->
  state_ s = SYN_SENT ->
  wp (onAck srcAddr seg) (t, e)
    (fun _ st =>
       sends e [] st.2 /\
       if seqNum_ seg =? synSeq_ s + 1
       then exists s', sock_at p s' st.1 /\ state_ s' = ESTABLISHED /\
         sndUna_ s' = 1 /\ sndNxt_ s' = 1 /\ rcvNxt_ s' = 1 /\
         cwnd_ s' = Transport.MAX_PAYLOAD_SIZE /\ rwnd_ s' = Z.max 0 (window_ seg) /\
         synPendingByKey_ st.1 = delete (seg_key srcAddr seg) (synPendingByKey_ t) /\
         establishedByKey_ st.1 = <[seg_key srcAddr seg := p]> (establishedByKey_ t)
       else st.1 = t) env_fault.
Proof.
  intros He Ht Hseg Hk Hs Hst.
  destruct (tm_pend _ Ht _ _ Hk) as (x & Hx & [_ Hkey] & _).
  rewrite (sock_at_fun _ _ _ _ Hx Hs) in Hkey.
  eapply (wp_onAck_pending _ _ p s); [done|done|done|by eapply tm_socks|..].
  - intros e' He' ->. split; [done|]. rewrite Z.eqb_refl.
    exists (handshake_done (window_ seg) s).
    split; [by eapply put_sock_at|].
    assert (handshake_done (window_ seg) s = set_state ESTABLISHED
      (set_peerFinReceived false (set_cwnd INITIAL_CWND_BYTES (set_rcvNxt 1
        (set_sndNxt 1 (set_sndUna 1 (setRwnd (window_ seg) s))))))) as ->.
    { unfold handshake_done, established. rewrite decide_False; [done|].
      cbn. by rewrite Hst. }
    do 6 (split; [done|]). cbn [fst]. unfold ack_established. cbv zeta.
    cbn [set_establishedByKey synPendingByKey_ establishedByKey_ set_synPendingByKey].
    split; [done|]. rewrite established_put.
    unfold seg_key in *. injection Hkey as _ _ ->. done.
  - intros e' He' Hne. split; [done|].
    by replace (seqNum_ seg =? synSeq_ s + 1) with false by lia.
Qed.

(** C31: A FIN for an established connection marks its end, moves an open
    socket to SHUTDOWN and is acknowledged; a FIN for a connection attempt
    refuses it: the socket is closed and leaves the pending table; any other
    FIN is ignored. *)
Theorem fin_contract srcAddr seg t e :
  mgr_ok e -> tm_ok t -> seg_in srcAddr seg ->
  wp (onFin srcAddr seg) (t, e)
    (fun _ st =>
       match establishedByKey_ t !! seg_key srcAddr seg,
             synPendingByKey_ t !! seg_key srcAddr seg with
       | Some sk, _ => exists s s', sock_at sk s t /\ st.1 = put_sock sk s' t /\
           peerFinReceived_ s' = true /\
           state_ s' = (if decide (state_ s = ESTABLISHED) then SHUTDOWN else state_ s) /\
           sends e [reply (addr_ t) srcAddr seg ACK (RECV_BUF_CAP - recvBufUsed_ s)
                      (seqNum_ seg + 1)] st.2
       | None, Some p => exists s, sock_at p s t /\
           sock_at p (set_state CLOSED s) st.1 /\
           synPendingByKey_ st.1 = delete (seg_key srcAddr seg) (synPendingByKey_ t) /\
           st.2 = e
       | None, None => st = (t, e)
       end) env_fault.
Proof.
  intros He Ht Hseg.
  destruct (establishedByKey_ t !! seg_key srcAddr seg) as [sk|] eqn:Hke.
  { destruct (est_peer _ _ _ Ht Hke) as (s & Hs & Hp & _).
    eapply (wp_onFin_known _ _ sk s); [done|apply Ht|done|done|done|apply Hp|].
    intros e' He'. exists s, (peer_finned s). split; [done|]. split; [done|].
    unfold peer_finned. by case_decide. }
  destruct (synPendingByKey_ t !! seg_key srcAddr seg) as [p|] eqn:Hkp.
  - destruct (tm_pend _ Ht _ _ Hkp) as (s & Hs & _).
    eapply run_wp; [by apply onFin_pending_run|]. exists s. split; [done|].
    split; [by eapply put_sock_at|]. split; [|done]. cbn [fst]. unfold fin_refused.
    by rewrite pending_put.
  - eapply run_wp; [by apply onFin_unknown_run|]. done.
Qed.

(** C30: [close] on an open connection sends the FIN at once if nothing is in
    flight, with the sequence number after the last byte; otherwise it sends
    nothing and leaves the FIN to the acknowledgment that empties the queue;
    the FIN is sent at most once.  A listener or a connection attempt just
    becomes closed. *)
Theorem close_contract sk s t e :
  mgr_ok e -> tm_ok t -> sock_at sk s t ->
  wp (close sk) (t, e)
    (fun _ st => exists s', st.1 = put_sock sk s' t /\
       match state_ s with
       | ESTABLISHED =>
           state_ s' = SHUTDOWN /\
           if hasOutstanding s || (finSeq_ s >=? 0)
           then finSeq_ s' = finSeq_ s /\ sends e [] st.2
           else finSeq_ s' = sndNxt_ s /\
             sends e [to_peer (addr_ t) s (out_seg s FIN 0 (sndNxt_ s) [])] st.2
       | LISTEN | SYN_SENT => s' = set_state CLOSED s /\ sends e [] st.2
       | CLOSED | SHUTDOWN => s' = s /\ sends e [] st.2
       end) env_fault.
Proof.
  intros He Ht Hs. pose proof (tm_socks _ Ht _ _ Hs) as Hok.
  eapply (wp_close _ s); [done|done|done|apply Ht| |].
  { intros E1. eapply tm_conn; [done..|]. by rewrite E1. }
  intros e' He'. exists (closed s). split; [done|].
  unfold closed, close_sends, drained, drain_sends, fin_due in *. cbn [snd].
  destruct (state_ s) eqn:Est; try done. cbn in He' |- *.
  rewrite Z.geb_leb, Z.leb_antisym. change (hasOutstanding (set_state SHUTDOWN s))
    with (hasOutstanding s) in *.
  destruct (finSeq_ s <? 0), (hasOutstanding s); cbn in *; done.
Qed.

(** [unregisterSocket] removes a socket from the three tables, all its
    entries and no entry of another socket. *)
Theorem unregister_contract sk t e :
  exists t', unregisterSocket sk (t, e) = (Ret tt, (t', e)) /\
    allSockets_ t' = allSockets_ t /\
    (forall p x, listenersByPort_ t' !! p = Some x <->
       listenersByPort_ t !! p = Some x /\ x <> sk) /\
    (forall k x, synPendingByKey_ t' !! k = Some x <->
       synPendingByKey_ t !! k = Some x /\ x <> sk) /\
    (forall k x, establishedByKey_ t' !! k = Some x <->
       establishedByKey_ t !! k = Some x /\ x <> sk).
Proof.
  exists (unregistered sk t). split; [done|]. split; [done|].
  split; [|split]; intros; apply map_lookup_filter_Some.
Qed.
End receiving.

(** ** Witnesses *)

Section witnesses.
#[local] Existing Instance list_order.
Let e0 : Net := net_at 2000.

Definition sample_syn : Transport := mkTransport 30 21 SYN 0 0 [].
Definition sample_ack : Transport := mkTransport 21 30 ACK 32768 6 [].
Definition sample_fin : Transport := mkTransport 21 30 FIN 0 1 [].
Definition sample_data : Transport := mkTransport 21 30 DATA 0 1 sample_bytes.

Lemma sample_syn_in : seg_in 1 sample_syn.
Proof. split; [numerals|]. split; numerals. Qed.
Lemma sample_fin_in : seg_in 2 sample_fin.
Proof. split; [numerals|]. split; numerals. Qed.
Lemma sample_conn_at : sock_at 0 sample_conn sample_client.
Proof. reflexivity. Qed.

Lemma sample_server_room : all_rcv_room sample_server.
Proof. intros sk s [-> ->]%(sample_single _ sample_listener); [numerals|done]. Qed.

Lemma sample_timeouts :
  timeouts_below (Z.of_nat (size (establishedByKey_ sample_client))) sample_client.
Proof. intros sk s [-> ->]%(sample_single _ sample_conn); [numerals|done]. Qed.

Lemma receive_safe_witness :
  wp (receiveTransport 1 sample_syn) (sample_server, e0)
    (fun _ st => exists l, handled sample_syn sample_server st.1 l /\ sends e0 l st.2)
    env_fault.
Proof.
  apply receive_safe; [apply sample_net_ok|apply sample_server_ok| |
    apply sample_server_room].
  split; [apply sample_syn_in|]. split; [numerals|]. intros _. numerals.
Defined.

Lemma timer_safe_witness :
  wp retransmissionTick (sample_client, e0)
    (fun _ st => tm_ok st.1 /\ tick_frame sample_client st.1 /\ exists l, sends e0 l st.2)
    env_fault.
Proof.
  apply timer_safe; [apply sample_net_ok|apply sample_client_ok|apply sample_timeouts].
Defined.

Lemma application_safe_witness :
  wp (run_call (CallWrite 0 sample_bytes 0 12)) (sample_client, e0)
    (fun _ st => tm_ok st.1 /\ exists l, sends e0 l st.2) env_fault.
Proof.
  apply application_safe; [apply sample_net_ok|apply sample_client_ok|].
  exists sample_conn. split; [reflexivity|]. split; numerals.
Defined.

Lemma write_contract_witness :
  wp (write 0 (Some sample_bytes) 0 12) (sample_client, e0)
    (fun n st => exists segs now,
       n = Z.max 0 (Z.min 12 (Z.min (rwnd_ sample_conn) (cwnd_ sample_conn) -
             (sndNxt_ sample_conn - sndUna_ sample_conn))) /\
       map data segs = split_mss (piece sample_bytes 0 n) /\
       seg_chain (sndNxt_ sample_conn) segs (sndNxt_ sample_conn + n) /\
       st.1 = put_sock 0 (written segs n now sample_conn) sample_client /\
       sends e0 (map (data_datagram (addr_ sample_client) sample_conn) segs) st.2)
    env_fault.
Proof.
  apply write_contract; [apply sample_net_ok|reflexivity|apply sample_peer_ok|
    reflexivity|numerals..].
Defined.

Lemma timeout_contract_witness :
  wp (tick_socket 2000 0) (sample_client, e0)
    (fun _ st => exists s', st.1 = put_sock 0 s' sample_client /\
       rtoMs_ s' = 2000 /\ cwnd_ s' = 107 /\ nextRtoDeadlineMs_ s' = 2000 + rtoMs_ s' /\
       outstanding_ s' = [set_retransmitted sample_seg] /\
       sndUna_ s' = 1 /\ sndNxt_ s' = 6 /\
       sends e0 [to_peer 1 sample_conn (out_seg sample_conn DATA 0 1 (stringToBytes "Hello"))]
         st.2) env_fault.
Proof.
  apply (timeout_contract 2000 0 sample_conn sample_client e0);
    [apply sample_net_ok|reflexivity|apply sample_peer_ok|numerals..].
Defined.

Lemma rto_backoff_contract_witness :
  Nat.iter 7 (fun m => m ;; doubleRto 0) (ret tt) (sample_client, e0) =
    (Ret tt, (put_sock 0 (set_rtoMs 64000 sample_conn) sample_client, e0)).
Proof. apply (rto_backoff_contract 7 0 sample_conn); [reflexivity|numerals]. Defined.

Lemma aimd_contract_witness :
  (exists c, additiveIncreaseCwnd 0 (sample_client, e0) =
     (Ret tt, (put_sock 0 (set_cwnd c sample_conn) sample_client, e0)) /\
     c = cwnd_ sample_conn + Z.max 1 (107 * 107 / cwnd_ sample_conn) /\
     cwnd_ sample_conn < c <= cwnd_ sample_conn + 107) /\
  multiplicativeDecreaseCwnd 0 (sample_client, e0) =
    (Ret tt, (put_sock 0 (set_cwnd (Z.max 107 (cwnd_ sample_conn / 2)) sample_conn)
                sample_client, e0)).
Proof. apply aimd_contract; [reflexivity|apply sample_conn_ok]. Defined.

(** A reader with twelve bytes waiting. *)
Definition sample_reader : TcpSocket :=
  set_rcvNxt 13 (received sample_bytes (accepted 30 2 21 new_TcpSocket)).
Definition sample_reading : TcpManager :=
  mkTcpManager 1 [sample_reader] ∅ ∅ {[ sample_key := 0%nat ]}.

Lemma sample_reader_ok : sock_ok sample_reader.
Proof. constructor; numerals. Qed.

Lemma read_contract_witness :
  exists s', read 0 (Some sample_bytes) 2 5 (sample_reading, e0) =
    (Ret (5, Some (overwrite sample_bytes 2 5 sample_bytes)),
     (put_sock 0 s' sample_reading, e0)) /\
  recvBuf_ s' = drop 5 sample_bytes /\ rcvNxt_ s' = 13 /\ state_ s' = ESTABLISHED.
Proof.
  apply (read_contract 0 sample_bytes 2 5 sample_reader sample_reading e0);
    [reflexivity|apply sample_reader_ok|reflexivity|numerals..].
Defined.

Lemma data_contract_witness :
  wp (onData 2 sample_data) (sample_client, e0)
    (fun _ st => exists s', st.1 = put_sock 0 s' sample_client /\
       (rcvNxt_ s' = rcvNxt_ sample_conn + 12 /\ recvBuf_ s' = [] ++ sample_bytes) /\
       sends e0 [to_peer 1 sample_conn (out_seg sample_conn ACK
         (RECV_BUF_CAP - vsize (recvBuf_ s')) (rcvNxt_ s') [])] st.2) env_fault.
Proof.
  apply (data_contract 0 2 sample_data sample_conn sample_client e0);
    [apply sample_net_ok|apply sample_client_ok|reflexivity|numerals|numerals|
     vm_compute; reflexivity|reflexivity].
Defined.

Lemma ack_contract_witness :
  wp (onAck_established 0 sample_ack) (sample_client, e0)
    (fun _ st => exists s', st.1 = put_sock 0 s' sample_client /\
       sndUna_ s' = 6 /\ sndNxt_ s' = 6 /\ rwnd_ s' = 32768 /\
       cwnd_ sample_conn < cwnd_ s' /\
       segs_ok (sndUna_ s') (sndNxt_ s') (outstanding_ s') /\
       exists popped, outstanding_ sample_conn = popped ++ outstanding_ s' /\
         Forall (fun g => seqStart g + len g <= 6) popped) env_fault.
Proof.
  apply (ack_contract 0 sample_ack sample_conn sample_client e0);
    [apply sample_net_ok|reflexivity|apply sample_peer_ok|numerals].
Defined.

Lemma syn_contract_witness :
  wp (onSyn 1 sample_syn) (sample_server, e0)
    (fun _ st =>
       match listenersByPort_ sample_server !! 21 with
       | None => st.1 = sample_server /\ sends e0 [reply 2 1 sample_syn FIN 0 0] st.2
       | Some l => exists ls child c,
           sock_at l ls sample_server /\ allSockets_ sample_server !! child = None /\
           sock_at child c st.1 /\ state_ c = ESTABLISHED /\ conn_key c (seg_key 1 sample_syn) /\
           sndUna_ c = 1 /\ sndNxt_ c = 1 /\ rcvNxt_ c = 1 /\
           establishedByKey_ st.1 = <[seg_key 1 sample_syn := child]> ∅ /\
           sock_at l (enqueued child ls) st.1 /\
           sends e0 [reply 2 1 sample_syn ACK RECV_BUF_CAP 1] st.2
       end) env_fault.
Proof.
  apply (syn_contract 1 sample_syn sample_server e0);
    [apply sample_net_ok|apply sample_server_ok|apply sample_syn_in].
Defined.

Lemma handshake_contract_witness :
  wp (onAck 2 (mkTransport 21 30 ACK 32768 1 [])) (sample_dialer, e0)
    (fun _ st => sends e0 [] st.2 /\
       exists s', sock_at 0 s' st.1 /\ state_ s' = ESTABLISHED /\
         sndUna_ s' = 1 /\ sndNxt_ s' = 1 /\ rcvNxt_ s' = 1 /\
         cwnd_ s' = Transport.MAX_PAYLOAD_SIZE /\ rwnd_ s' = 32768 /\
         synPendingByKey_ st.1 = delete sample_key {[ sample_key := 0%nat ]} /\
         establishedByKey_ st.1 = <[sample_key := 0%nat]> ∅) env_fault.
Proof.
  apply (handshake_contract 2 (mkTransport 21 30 ACK 32768 1 []) 0 sample_connecting
    sample_dialer e0); [apply sample_net_ok|apply sample_dialer_ok|numerals|
    vm_compute; reflexivity|reflexivity|reflexivity].
Defined.

Lemma fin_contract_witness :
  wp (onFin 2 sample_fin) (sample_client, e0)
    (fun _ st =>
       match establishedByKey_ sample_client !! seg_key 2 sample_fin,
             synPendingByKey_ sample_client !! seg_key 2 sample_fin with
       | Some sk, _ => exists s s', sock_at sk s sample_client /\
           st.1 = put_sock sk s' sample_client /\ peerFinReceived_ s' = true /\
           state_ s' = (if decide (state_ s = ESTABLISHED) then SHUTDOWN else state_ s) /\
           sends e0 [reply 1 2 sample_fin ACK (RECV_BUF_CAP - recvBufUsed_ s) 2] st.2
       | None, Some p => exists s, sock_at p s sample_client /\
           sock_at p (set_state CLOSED s) st.1 /\
           synPendingByKey_ st.1 =
             delete (seg_key 2 sample_fin) (synPendingByKey_ sample_client) /\
           st.2 = e0
       | None, None => st = (sample_client, e0)
       end) env_fault.
Proof.
  apply (fin_contract 2 sample_fin sample_client e0);
    [apply sample_net_ok|apply sample_client_ok|apply sample_fin_in].
Defined.

Lemma close_contract_witness :
  wp (close 0) (sample_client, e0)
    (fun _ st => exists s', st.1 = put_sock 0 s' sample_client /\
       state_ s' = SHUTDOWN /\ finSeq_ s' = -1 /\ sends e0 [] st.2) env_fault.
Proof.
  apply (close_contract 0 sample_conn sample_client e0);
    [apply sample_net_ok|apply sample_client_ok|reflexivity].
Defined.
End witnesses.
