(* ===== verification/Node.v ===== *)
(** * The node: data and access (include/nb/stack_node.hpp,
      include/nb/ping_request.hpp, and the data of include/nb/timer_task.hpp,
      include/nb/transfer_client.hpp and include/nb/transfer_server.hpp)

    A node owns its pings, its TCP manager and, through the timer callbacks
    that hold them, its tasks.  A method runs on the node and the environment;
    a task is an index into the node's tasks, as a socket is one into its
    manager's sockets. *)

From S2P Require Import Prelude CppStrings Doubles Packet Transport Runtime TcpData TcpSend.

(** ** Tasks *)

Record TransferClient : Type := mkTransferClient {
  client_sock_ : ptr;
  client_buf_ : list byte;
  amount_ : Z;
  startTime_ : Z;
  finishTime_ : Z;
  client_pos_ : Z
}.

Record TransferServer : Type := mkTransferServer {
  serverSock_ : ptr;
  workerInterval_ : Z;
  bufSize_ : Z
}.

Record TransferWorker : Type := mkTransferWorker {
  worker_sock_ : ptr;
  worker_buf_ : list byte;
  worker_pos_ : Z
}.

(** The classes derived from [TimerTask]. *)
Inductive TaskBody : Type :=
| ClientTask (c : TransferClient)
| ServerTask (s : TransferServer)
| WorkerTask (w : TransferWorker).

Record TimerTask : Type := mkTimerTask {
  intervalMs_ : Z;
  body_ : TaskBody
}.

#[export] Instance eta_TransferClient : Eta TransferClient := fun c =>
  mkTransferClient (client_sock_ c) (client_buf_ c) (amount_ c) (startTime_ c)
    (finishTime_ c) (client_pos_ c).
#[export] Instance eta_TransferWorker : Eta TransferWorker := fun w =>
  mkTransferWorker (worker_sock_ w) (worker_buf_ w) (worker_pos_ w).
#[export] Instance eta_TimerTask : Eta TimerTask := fun t =>
  mkTimerTask (intervalMs_ t) (body_ t).

Definition set_client_buf (v : list byte) (c : TransferClient) : TransferClient :=
  ltac:(set_field client_buf_ v c).
Definition set_amount (v : Z) (c : TransferClient) : TransferClient :=
  ltac:(set_field amount_ v c).
Definition set_startTime (v : Z) (c : TransferClient) : TransferClient :=
  ltac:(set_field startTime_ v c).
Definition set_finishTime (v : Z) (c : TransferClient) : TransferClient :=
  ltac:(set_field finishTime_ v c).
Definition set_client_pos (v : Z) (c : TransferClient) : TransferClient :=
  ltac:(set_field client_pos_ v c).
Definition set_worker_buf (v : list byte) (w : TransferWorker) : TransferWorker :=
  ltac:(set_field worker_buf_ v w).
Definition set_worker_pos (v : Z) (w : TransferWorker) : TransferWorker :=
  ltac:(set_field worker_pos_ v w).
Definition set_intervalMs (v : Z) (t : TimerTask) : TimerTask :=
  ltac:(set_field intervalMs_ v t).
Definition set_body (v : TaskBody) (t : TimerTask) : TimerTask :=
  ltac:(set_field body_ v t).

(** ** Pings and the node *)

Record PingRequest : Type := mkPing {
  destAddr : Z;
  msg : list byte;
  timeSentMs : Z
}.

Record StackNode : Type := mkStackNode {
  node_addr_ : Z;
  pings_ : list PingRequest;
  tcpMan_ : TcpManager;
  tasks_ : list TimerTask
}.

#[export] Instance eta_StackNode : Eta StackNode := fun n =>
  mkStackNode (node_addr_ n) (pings_ n) (tcpMan_ n) (tasks_ n).

Definition set_pings (v : list PingRequest) (n : StackNode) : StackNode :=
  ltac:(set_field pings_ v n).
Definition set_tcpMan (v : TcpManager) (n : StackNode) : StackNode :=
  ltac:(set_field tcpMan_ v n).
Definition set_tasks (v : list TimerTask) (n : StackNode) : StackNode :=
  ltac:(set_field tasks_ v n).

Definition PING_TIMEOUT_MS : Z := 10000.

(** The constructor: the manager of the transport layer gets the address. *)
Definition new_StackNode (addr : Z) : StackNode :=
  mkStackNode addr [] (new_TcpManager addr) [].

(** ** Access *)

Section access.
Context {E : Type} `{Manager E}.

Definition node_get {A} (f : StackNode -> A) : M (StackNode * E) A := gets (fun s => f s.1).
Definition node_put (f : StackNode -> StackNode) : M (StackNode * E) unit :=
  modify (fun s => (f s.1, s.2)).
Definition manager {A} (m : M E A) : M (StackNode * E) A :=
  zoom snd (fun e s => (s.1, e)) m.

(** A call of the node's TCP manager or of one of its sockets. *)
Definition tcp {A} (m : M (TcpManager * E) A) : M (StackNode * E) A :=
  zoom (fun s => (tcpMan_ s.1, s.2)) (fun te s => (set_tcpMan te.1 s.1, te.2)) m.

Definition socket_of (sk : ptr) : M (StackNode * E) TcpSocket := tcp (deref sk).

Definition logOutput (s : string) : M (StackNode * E) unit :=
  let! addr := node_get node_addr_ in
  manager (mgr_emit (Cout (endl ("Node " +:+ to_string addr +:+ ": " +:+ s)))).

Definition logError (s : string) : M (StackNode * E) unit :=
  let! addr := node_get node_addr_ in
  manager (mgr_emit (Cerr (endl ("Node " +:+ to_string addr +:+ ": " +:+ s)))).

(** [*task], undefined for a pointer to no task. *)
Definition task_of (id : nat) : M (StackNode * E) TimerTask :=
  let! tasks := node_get tasks_ in
  match tasks !! id with Some t => ret t | None => fail UB end.

Definition upd_task (id : nat) (f : TimerTask -> TimerTask) : M (StackNode * E) unit :=
  task_of id ;;
  node_put (fun n => set_tasks (alter f id (tasks_ n)) n).

(** [std::make_shared]: the new object's place. *)
Definition push_task (t : TimerTask) : M (StackNode * E) nat :=
  let! tasks := node_get tasks_ in
  node_put (set_tasks (tasks ++ [t])) ;;
  ret (length tasks).
End access.
