(* ===== verification/Apps.v ===== *)
(** * Timer tasks and the file transfer (src/apps/timer_task.cpp,
      src/apps/transfer_client.cpp, src/apps/transfer_server.cpp) *)

From S2P Require Import Prelude CppStrings Doubles DoubleText Packet Transport Runtime TcpData TcpSend TcpSocket Node.

Definition DEFAULT_CLIENT_INTERVAL : Z := 1000.
Definition DEFAULT_SERVER_INTERVAL : Z := 1000.
Definition DEFAULT_WORKER_INTERVAL : Z := 1000.
Definition DEFAULT_BUFFER_SZ : Z := 65536.

(** ** [TimerTask] *)

Definition setInterval (intervalMs : Z) (t : TimerTask) : TimerTask :=
  if intervalMs >? 0 then set_intervalMs intervalMs t else t.

(** [std::vector<std::uint8_t>(n)] of an [int]: a negative number converts to
    a size that no vector has. *)
Definition new_buffer (n : Z) : exn + list byte :=
  if n <? 0
  then inl (length_error "cannot create std::vector larger than max_size()")
  else inr (replicate (Z.to_nat n) x00).

(** The bytes that the client sends and the worker expects: [buf_[i] = i]. *)
Definition fill (buf : list byte) : list byte := imap (fun i _ => u8 (Z.of_nat i)) buf.

Definition new_TransferClient (sock : ptr) (amount intervalMs bufSize : Z)
    : exn + TimerTask :=
  match new_buffer bufSize with
  | inl e => inl e
  | inr buf =>
      inr (setInterval intervalMs
             (mkTimerTask intervalMs (ClientTask (mkTransferClient sock buf amount 0 0 0))))
  end.

Definition new_TransferServer (serverSock : ptr) (serverInterval workerInterval bufSize : Z)
    : TimerTask :=
  setInterval serverInterval
    (mkTimerTask serverInterval (ServerTask (mkTransferServer serverSock workerInterval bufSize))).

Definition new_TransferWorker (sock : ptr) (intervalMs bufSize : Z) : exn + TimerTask :=
  match new_buffer bufSize with
  | inl e => inl e
  | inr buf =>
      inr (setInterval intervalMs
             (mkTimerTask intervalMs (WorkerTask (mkTransferWorker sock buf 0))))
  end.

Section apps.
Context {E : Type} `{Manager E}.

Definition stop (id : nat) : M (StackNode * E) unit := upd_task id (set_intervalMs 0).

Definition schedule (id : nat) : M (StackNode * E) unit :=
  let! t := task_of id in
  if intervalMs_ t <=? 0 then ret tt
  else
    let! addr := node_get node_addr_ in
    manager (mgr_addTimer addr (intervalMs_ t) (TaskTick addr id)).

Definition start (id : nat) : M (StackNode * E) unit := schedule id.

(** ** [TransferClient::execute] *)

Definition upd_client (id : nat) (f : TransferClient -> TransferClient)
    : M (StackNode * E) unit :=
  upd_task id (fun t => match body_ t with
                        | ClientTask c => set_body (ClientTask (f c)) t
                        | _ => t
                        end).

(** The branch of an established connection. *)
Definition client_connected (id : nat) (c : TransferClient) : M (StackNode * E) unit :=
  (if startTime_ c =? 0
   then
     let! now := manager mgr_now in
     upd_client id (set_startTime now) ;;
     logOutput ("time = " +:+ to_string now +:+ " msec") ;;
     logOutput "started" ;;
     logOutput ("bytes to send = " +:+ to_string (amount_ c))
   else ret tt) ;;
  if amount_ c =? 0
  then
    let! now := manager mgr_now in
    logOutput ("time = " +:+ to_string now) ;;
    logOutput "sending completed" ;;
    logOutput "closing connection..." ;;
    tcp (close (client_sock_ c))
  else
    let size := vsize (client_buf_ c) in
    let! index := rem_int (client_pos_ c) size in
    let buf := if index =? 0 then fill (client_buf_ c) else client_buf_ c in
    upd_client id (set_client_buf buf) ;;
    let! room := int (size - index) in
    let! count := tcp (write (client_sock_ c) (Some buf) index (Z.min room (amount_ c))) in
    if count =? -1
    then
      let! now := manager mgr_now in
      logError ("time = " +:+ to_string now +:+ " msec") ;;
      logError "sending aborted" ;;
      logError ("position = " +:+ to_string (client_pos_ c)) ;;
      logError "releasing connection..." ;;
      tcp (release (client_sock_ c)) ;;
      stop id
    else
      let! pos := int (client_pos_ c + count) in
      upd_client id (set_client_pos pos) ;;
      let! amount := int (amount_ c - count) in
      upd_client id (set_amount amount).

Definition client_closed (id : nat) (c : TransferClient) : M (StackNode * E) unit :=
  let! finish := manager mgr_now in
  upd_client id (set_finishTime finish) ;;
  let! now := manager mgr_now in
  logOutput ("time = " +:+ to_string now +:+ " msec") ;;
  logOutput "connection closed" ;;
  logOutput ("total bytes sent = " +:+ to_string (client_pos_ c)) ;;
  let! elapsed := long (finish - startTime_ c) in
  logOutput ("time elapsed = " +:+ to_string elapsed +:+ " msec") ;;
  (if elapsed >? 0
   then
     let bps := ddiv (dmul (dofZ (client_pos_ c)) (dofZ 1000)) (dofZ elapsed) in
     logOutput ("Bps = " +:+ to_string_double bps)
   else ret tt) ;;
  tcp (release (client_sock_ c)) ;;
  stop id.

Definition client_execute (id : nat) (c : TransferClient) : M (StackNode * E) unit :=
  let! s := socket_of (client_sock_ c) in
  if isConnectionPending s then ret tt
  else if isConnected s then client_connected id c
  else if isClosurePending s then ret tt
  else if isClosed s then client_closed id c
  else logError "TransferClient: unexpected socket state".

(** ** [TransferServer::execute] *)

Definition server_execute (id : nat) (srv : TransferServer) : M (StackNode * E) unit :=
  let! s := socket_of (serverSock_ srv) in
  if negb (isClosed s)
  then
    let! conn := tcp (accept (serverSock_ srv)) in
    match conn with
    | None => ret tt
    | Some conn =>
        let! now := manager mgr_now in
        logOutput ("time = " +:+ to_string now +:+ " msec") ;;
        logOutput "connection accepted" ;;
        let! worker := lift_exn (new_TransferWorker conn (workerInterval_ srv) (bufSize_ srv)) in
        let! w := push_task worker in
        start w
    end
  else
    let! now := manager mgr_now in
    logOutput ("time = " +:+ to_string now +:+ " msec") ;;
    logOutput "server shutdown" ;;
    stop id.

(** ** [TransferWorker::execute] *)

Definition upd_worker (id : nat) (f : TransferWorker -> TransferWorker)
    : M (StackNode * E) unit :=
  upd_task id (fun t => match body_ t with
                        | WorkerTask w => set_body (WorkerTask (f w)) t
                        | _ => t
                        end).

(** The loop over the bytes just read: whether all are as expected.  A read
    outside the buffer is undefined. *)
Fixpoint verify_loop {S} (n : nat) (i : Z) (buf : list byte) : M S bool :=
  match n with
  | O => ret true
  | S n =>
      match buf !! Z.to_nat i with
      | None => fail UB
      | Some b => if decide (b = u8 i) then verify_loop n (i + 1) buf else ret false
      end
  end.

(** Both aborts of the worker: the reason, then the connection is released. *)
Definition worker_abort (id : nat) (w : TransferWorker) (reason : string)
    : M (StackNode * E) unit :=
  let! now := manager mgr_now in
  logError ("time = " +:+ to_string now +:+ " msec") ;;
  logError reason ;;
  logError ("position = " +:+ to_string (worker_pos_ w)) ;;
  logError "releasing connection..." ;;
  tcp (release (worker_sock_ w)) ;;
  stop id.

Definition worker_execute (id : nat) (w : TransferWorker) : M (StackNode * E) unit :=
  let! s := socket_of (worker_sock_ w) in
  if negb (isClosed s)
  then
    let size := vsize (worker_buf_ w) in
    let! index := rem_int (worker_pos_ w) size in
    let! len := int (size - index) in
    let! '(count, buf) := tcp (read (worker_sock_ w) (Some (worker_buf_ w)) index len) in
    let buf := default (worker_buf_ w) buf in
    upd_worker id (set_worker_buf buf) ;;
    if count =? -1 then worker_abort id w "receiving aborted"
    else
      let! good :=
        if count >? 0 then verify_loop (Z.to_nat count) index buf else ret true in
      if negb good then worker_abort id w "data corruption detected"
      else
        let! pos := int (worker_pos_ w + count) in
        upd_worker id (set_worker_pos pos)
  else
    let! now := manager mgr_now in
    logOutput ("time = " +:+ to_string now +:+ " msec") ;;
    logOutput "connection closed" ;;
    logOutput ("total bytes received = " +:+ to_string (worker_pos_ w)) ;;
    stop id.

(** ** The virtual [execute], and [tick] *)

Definition execute (id : nat) : M (StackNode * E) unit :=
  let! t := task_of id in
  match body_ t with
  | ClientTask c => client_execute id c
  | ServerTask s => server_execute id s
  | WorkerTask w => worker_execute id w
  end.

Definition startNow (id : nat) : M (StackNode * E) unit := execute id ;; schedule id.
Definition tick (id : nat) : M (StackNode * E) unit := execute id ;; schedule id.
End apps.
