(* ===== verification/StackNode.v ===== *)
(** * The protocol stack of a node (src/node/stack_node.cpp)

    Commands of the user, packets from the manager, pings, and the callbacks
    of the timers a node sets. *)

From Stdlib Require Import Strings.Ascii.
From S2P Require Import Prelude CppStrings Doubles Packet Transport Runtime TcpData TcpSend TcpSocket TcpManager Node Apps.

(** [splitSpaceVec]: unlike the tokenizer of the command files it keeps empty
    tokens at the end. *)
Definition splitSpaceVec (s : string) : list string := split_loop EmptyString s.

(** [s.find(' ')]: what stands before and after the first space. *)
Fixpoint split_first (s : string) : option (string * string) :=
  match s with
  | EmptyString => None
  | String c s' =>
      if Ascii.eqb c " " then Some (EmptyString, s')
      else (fun p => (String c p.1, p.2)) <$> split_first s'
  end.

Section node.
Context {E : Type} `{Manager E} `{MapOrder}.

(** ** Sending *)

Definition sendPacket (destAddr : Z) (packet : Packet) : M (StackNode * E) unit :=
  try_catch
    (let! addr := node_get node_addr_ in
     manager (mgr_sendPkt addr destAddr (Packet.pack packet)) ;;
     ret tt)
    (fun e => logError ("Exception: " +:+ what e)).

Definition sendSegment (srcAddr destAddr protocol : Z) (payload : list byte)
    : M (StackNode * E) unit :=
  let! pkt := lift_exn (new_Packet destAddr srcAddr MAX_TTL protocol 0 payload) in
  sendPacket destAddr pkt.

(** ** Timers *)

Definition add_ping_timer : M (StackNode * E) unit :=
  let! addr := node_get node_addr_ in
  manager (mgr_addTimer addr PING_TIMEOUT_MS (PingTimedOut addr)).

Definition start : M (StackNode * E) unit :=
  logOutput "started" ;;
  add_ping_timer ;;
  tcp TcpManager.start.

(** The erase-while-iterating loop: the pings it keeps. *)
Fixpoint ping_loop (now : Z) (pings : list PingRequest)
    : M (StackNode * E) (list PingRequest) :=
  match pings with
  | [] => ret []
  | it :: rest =>
      let! deadline := long (timeSentMs it + PING_TIMEOUT_MS) in
      if deadline <? now
      then
        logOutput ("Timing out ping: Dest: " +:+ to_string (destAddr it) +:+
                   " Send Time: " +:+ to_string (timeSentMs it) +:+
                   " Message: " +:+ bytesToString (msg it)) ;;
        ping_loop now rest
      else
        let! rest' := ping_loop now rest in
        ret (it :: rest')
  end.

Definition pingTimedOut : M (StackNode * E) unit :=
  let! now := manager mgr_now in
  let! pings := node_get pings_ in
  let! pings' := ping_loop now pings in
  node_put (set_pings pings') ;;
  add_ping_timer.

(** The callbacks that the node and its parts hand to the manager. *)
Definition timer (cb : NodeTimer) : M (StackNode * E) unit :=
  match cb with
  | PingTimedOut _ => pingTimedOut
  | RetransmissionTick _ => tcp retransmissionTick
  | TaskTick _ id => tick id
  end.

(** ** Packets *)

Definition receivePing (packet : Packet) : M (StackNode * E) unit :=
  logOutput ("Received Ping from " +:+ to_string (src_ packet) +:+
             " with message: " +:+ bytesToString (Packet.payload_ packet)) ;;
  try_catch
    (let! addr := node_get node_addr_ in
     let! reply := lift_exn (new_Packet (src_ packet) addr MAX_TTL PING_REPLY_PKT 0
                               (Packet.payload_ packet)) in
     sendPacket (src_ packet) reply)
    (fun e => logError ("Exception while sending Ping Reply: " +:+ what e)).

(** The first ping that a reply answers, taken out of the list. *)
Fixpoint take_ping (src : Z) (payload : string) (pings : list PingRequest)
    : option (list PingRequest) :=
  match pings with
  | [] => None
  | it :: rest =>
      if (destAddr it =? src) && String.eqb (bytesToString (msg it)) payload
      then Some rest
      else cons it <$> take_ping src payload rest
  end.

Definition receivePingReply (packet : Packet) : M (StackNode * E) unit :=
  let payload := bytesToString (Packet.payload_ packet) in
  let! pings := node_get pings_ in
  match take_ping (src_ packet) payload pings with
  | Some rest =>
      logOutput ("Got Ping Reply from " +:+ to_string (src_ packet) +:+ ": " +:+ payload) ;;
      node_put (set_pings rest)
  | None =>
      logError ("Unexpected Ping Reply from " +:+ to_string (src_ packet) +:+ ": " +:+ payload)
  end.

Definition receiveTransport (packet : Packet) : M (StackNode * E) unit :=
  match Transport.unpack (Packet.payload_ packet) with
  | None =>
      logError ("Unable to unpack Transport packet from " +:+ to_string (src_ packet))
  | Some t => tcp (TcpManager.receiveTransport (src_ packet) t)
  end.

Definition receivePacket (packet : Packet) : M (StackNode * E) unit :=
  let protocol := protocol_ packet in
  if protocol =? PING_PKT then receivePing packet
  else if protocol =? PING_REPLY_PKT then receivePingReply packet
  else if protocol =? TRANSPORT_PKT then receiveTransport packet
  else logError ("Packet with unknown protocol received. Protocol: " +:+ to_string protocol).

Definition onReceive (from : Z) (bytes : list byte) : M (StackNode * E) unit :=
  match Packet.unpack bytes with
  | None => logError ("Unable to unpack message received from " +:+ to_string from)
  | Some pkt => receivePacket pkt
  end.

(** ** Commands *)

(** [try { ...; return true; } catch { logError; } return false;] *)
Definition attempt (m : M (StackNode * E) unit) : M (StackNode * E) bool :=
  try_catch (m ;; ret true)
    (fun e => logError ("Exception: " +:+ what e) ;; ret false).

Definition optional_arg (arg : option string) (parse : string -> exn + Z) (value : Z)
    : M (StackNode * E) Z :=
  match arg with Some s => lift_exn (parse s) | None => ret value end.

Definition matchTransferCommand (command : string) : M (StackNode * E) bool :=
  match splitSpaceVec command with
  | name :: dest :: port :: local :: bytes :: more =>
      if (vsize more >? 2) || negb (String.eqb name "transfer") then ret false
      else attempt
        (let! destAddr := lift_exn (stoi dest) in
         let! port := lift_exn (stoi port) in
         let! localPort := lift_exn (stoi local) in
         let! amount := lift_exn (stoi bytes) in
         let! interval := optional_arg (more !! 0%nat) stol DEFAULT_CLIENT_INTERVAL in
         let! sz := optional_arg (more !! 1%nat) stoi DEFAULT_BUFFER_SZ in
         let! sock := tcp socket in
         tcp (bind_ sock localPort) ;;
         tcp (connect sock destAddr port) ;;
         let! client := lift_exn (new_TransferClient sock amount interval sz) in
         let! id := push_task client in
         Apps.start id)
  | _ => ret false
  end.

Definition matchServerCommand (command : string) : M (StackNode * E) bool :=
  match splitSpaceVec command with
  | name :: port :: backlog :: more =>
      if (vsize more >? 3) || negb (String.eqb name "server") then ret false
      else attempt
        (let! port := lift_exn (stoi port) in
         let! backlog := lift_exn (stoi backlog) in
         let! servint := optional_arg (more !! 0%nat) stol DEFAULT_SERVER_INTERVAL in
         let! workint := optional_arg (more !! 1%nat) stol DEFAULT_WORKER_INTERVAL in
         let! sz := optional_arg (more !! 2%nat) stoi DEFAULT_BUFFER_SZ in
         let! sock := tcp socket in
         tcp (bind_ sock port) ;;
         tcp (listen sock backlog) ;;
         let! id := push_task (new_TransferServer sock servint workint sz) in
         Apps.start id ;;
         logOutput ("server started, port = " +:+ to_string port))
  | _ => ret false
  end.

Definition matchPingCommand (command : string) : M (StackNode * E) bool :=
  match split_first command with
  | None => ret false
  | Some (dest, text) => attempt
      (let! dest := lift_exn (stoi dest) in
       let bytes := stringToBytes text in
       let! addr := node_get node_addr_ in
       let! pkt := lift_exn (new_Packet dest addr MAX_TTL PING_PKT 0 bytes) in
       sendPacket dest pkt ;;
       let! now := manager mgr_now in
       node_put (fun n => set_pings (pings_ n ++ [mkPing dest bytes now]) n))
  end.

Definition onCommand (command : string) : M (StackNode * E) unit :=
  let! transfer := matchTransferCommand command in
  if transfer then ret tt
  else
    let! server := matchServerCommand command in
    if server then ret tt
    else
      let! ping := matchPingCommand command in
      if ping then ret tt
      else logError ("Unrecognized command: " +:+ command).
End node.
