(* ===== verification/NodeFrame.v ===== *)
(** * What every operation of a node keeps

    Its address, its sockets' places, and the relation on environments that
    every call of the interface keeps; and no operation runs out of the model's
    fuel. *)

From S2P Require Import Prelude CppStrings Doubles DoubleText Frame Packet Transport Runtime TcpData TcpSend TcpSocket TcpManager TcpRun TcpGrow Node Apps StackNode.

Section frame.
Context {E : Type} `{EnvFrame E}.

Definition node_rel (s s' : StackNode * E) : Prop :=
  node_addr_ s'.1 = node_addr_ s.1 /\ grows (tcpMan_ s.1) (tcpMan_ s'.1) /\ ef_rel s.2 s'.2.

#[export] Instance node_rel_preorder : PreOrder node_rel.
Proof.
  split.
  - intros s. by split.
  - intros s1 s2 s3 (A1 & G1 & R1) (A2 & G2 & R2).
    split; [congruence|]. split; by etrans.
Qed.

Definition node_framed {A} (m : M (StackNode * E) A) : Prop := keeps node_rel ef_fault m.

Lemma node_framed_get {A} (f : StackNode -> A) : node_framed (node_get f).
Proof. apply keeps_gets. apply _. Qed.

Lemma node_framed_put f :
  (forall n, node_addr_ (f n) = node_addr_ n /\ tcpMan_ (f n) = tcpMan_ n) ->
  node_framed (node_put f).
Proof.
  intros Hf. apply keeps_modify; [apply _|]. intros s. destruct (Hf s.1) as [Ha Ht].
  split; [done|]. cbn. by rewrite Ht.
Qed.

Lemma node_framed_manager {A} (m : M E A) : keeps ef_rel ef_fault m -> node_framed (manager m).
Proof. intros Hm. eapply keeps_zoom; [apply _|exact Hm|]. intros s t Ht. by split. Qed.

Lemma node_framed_now : node_framed (manager mgr_now).
Proof. apply node_framed_manager, ef_now. Qed.

Lemma node_framed_send from to pkt : node_framed (manager (mgr_sendPkt from to pkt)).
Proof. apply node_framed_manager, ef_sendPkt. Qed.

Lemma node_framed_timer node delta cb :
  0 < delta -> node_framed (manager (mgr_addTimer node delta cb)).
Proof. intros Hd. by apply node_framed_manager, ef_addTimer. Qed.

Lemma node_framed_emit o : node_framed (manager (mgr_emit o)).
Proof. apply node_framed_manager, ef_emit. Qed.

(** A call of the transport layer. *)
Lemma node_framed_tcp {A} (m : M (TcpManager * E) A) : framed m -> node_framed (tcp m).
Proof.
  intros Hm. eapply keeps_zoom; [apply _|exact Hm|]. intros s t [Hg Ht]. by split.
Qed.
End frame.
#[export] Hint Resolve node_framed_get node_framed_now node_framed_send node_framed_emit
  node_framed_tcp framed_deref : frame.

Ltac node_frame_step :=
  lazymatch goal with
  | |- node_framed ?m => change (keeps node_rel ef_fault m)
  | |- keeps _ _ (node_put _) => apply node_framed_put; intros ?; by split
  | |- keeps _ _ (manager (mgr_addTimer _ _ _)) => apply node_framed_timer; first [done|lia]
  | |- keeps _ _ ?m => first [frame_step | change (node_framed m); solve [eauto with frame]]
  end.
Ltac node_frame := repeat first [progress cbv zeta | node_frame_step].

Section operations.
Context {E : Type} `{EnvFrame E} `{MapOrder}.

Lemma node_framed_logOutput s : node_framed (E := E) (logOutput s).
Proof. unfold logOutput. node_frame. Qed.

Lemma node_framed_logError s : node_framed (E := E) (Node.logError s).
Proof. unfold Node.logError. node_frame. Qed.

Lemma node_framed_socket_of sk : node_framed (E := E) (socket_of sk).
Proof. unfold socket_of. node_frame. Qed.

Lemma node_framed_task_of id : node_framed (E := E) (task_of id).
Proof. unfold task_of. node_frame. Qed.
Hint Resolve node_framed_logOutput node_framed_logError node_framed_socket_of
  node_framed_task_of : frame.

Lemma node_framed_upd_task id f : node_framed (E := E) (upd_task id f).
Proof. unfold upd_task. node_frame. Qed.

Lemma node_framed_push_task k : node_framed (E := E) (push_task k).
Proof. unfold push_task. node_frame. Qed.
Hint Resolve node_framed_upd_task node_framed_push_task : frame.

(** ** The tasks *)

Lemma node_framed_stop id : node_framed (E := E) (Apps.stop id).
Proof. apply node_framed_upd_task. Qed.

Lemma node_framed_schedule id : node_framed (E := E) (schedule id).
Proof. unfold schedule. node_frame. Qed.

Lemma node_framed_upd_client id f : node_framed (E := E) (upd_client id f).
Proof. apply node_framed_upd_task. Qed.

Lemma node_framed_upd_worker id f : node_framed (E := E) (upd_worker id f).
Proof. apply node_framed_upd_task. Qed.

Lemma node_framed_verify_loop n i buf : node_framed (E := E) (verify_loop n i buf).
Proof. revert i. induction n as [|n IH]; intros i; cbn [verify_loop]; node_frame. Qed.
Hint Resolve node_framed_stop node_framed_schedule node_framed_upd_client
  node_framed_upd_worker node_framed_verify_loop : frame.

Lemma node_framed_start id : node_framed (E := E) (Apps.start id).
Proof. apply node_framed_schedule. Qed.

Lemma node_framed_worker_abort id w reason : node_framed (E := E) (worker_abort id w reason).
Proof. unfold worker_abort. node_frame. Qed.
Hint Resolve node_framed_start node_framed_worker_abort : frame.

Lemma node_framed_client id c : node_framed (E := E) (client_execute id c).
Proof. unfold client_execute, client_connected, client_closed. node_frame. Qed.

Lemma node_framed_server id s : node_framed (E := E) (server_execute id s).
Proof. unfold server_execute. node_frame. Qed.

Lemma node_framed_worker id w : node_framed (E := E) (worker_execute id w).
Proof. unfold worker_execute. node_frame. Qed.
Hint Resolve node_framed_client node_framed_server node_framed_worker : frame.

Lemma node_framed_tick id : node_framed (E := E) (tick id).
Proof. unfold tick, execute. node_frame. Qed.

(** ** The node *)

Lemma node_framed_sendPacket dest p : node_framed (E := E) (sendPacket dest p).
Proof. unfold sendPacket. node_frame. Qed.

Lemma node_framed_ping_timer : node_framed (E := E) add_ping_timer.
Proof. unfold add_ping_timer. node_frame. Qed.

Lemma node_framed_ping_loop now pings : node_framed (E := E) (ping_loop now pings).
Proof. induction pings as [|p pings IH]; cbn [ping_loop]; node_frame. Qed.
Hint Resolve node_framed_tick node_framed_sendPacket node_framed_ping_timer
  node_framed_ping_loop : frame.

Lemma node_framed_timer_cb cb : node_framed (E := E) (timer cb).
Proof. unfold timer, pingTimedOut. node_frame. Qed.

Lemma node_framed_node_start : node_framed (E := E) StackNode.start.
Proof. unfold StackNode.start. node_frame. Qed.

Lemma node_framed_onReceive from bytes : node_framed (E := E) (onReceive from bytes).
Proof.
  unfold onReceive, receivePacket, receivePing, receivePingReply, StackNode.receiveTransport.
  node_frame.
Qed.

Lemma node_framed_attempt (m : M (StackNode * E) unit) : node_framed m -> node_framed (attempt m).
Proof. intros Hm. unfold attempt. node_frame. Qed.

Lemma node_framed_optional_arg arg parse v : node_framed (E := E) (optional_arg arg parse v).
Proof. unfold optional_arg. node_frame. Qed.
Hint Resolve node_framed_attempt node_framed_optional_arg : frame.

Lemma node_framed_transfer c : node_framed (E := E) (matchTransferCommand c).
Proof. unfold matchTransferCommand. node_frame; apply node_framed_attempt; node_frame. Qed.

Lemma node_framed_server_command c : node_framed (E := E) (matchServerCommand c).
Proof. unfold matchServerCommand. node_frame; apply node_framed_attempt; node_frame. Qed.

Lemma node_framed_ping c : node_framed (E := E) (matchPingCommand c).
Proof. unfold matchPingCommand. node_frame; apply node_framed_attempt; node_frame. Qed.
Hint Resolve node_framed_transfer node_framed_server_command node_framed_ping : frame.

Lemma node_framed_onCommand c : node_framed (E := E) (onCommand c).
Proof. unfold onCommand. node_frame. Qed.
End operations.
#[export] Hint Resolve node_framed_timer_cb node_framed_node_start node_framed_onReceive
  node_framed_onCommand : frame.

(** ** No exception leaves a node

    A packet that cannot be sent, a command that cannot be read: the methods catch
    what they throw, if nothing in the environment throws but [sendPkt]. *)

Class QuietManager (E : Type) `{Manager E} : Prop := {
  quiet_now : unthrown (mgr_now (E := E));
  quiet_timer : forall node delta cb, unthrown (mgr_addTimer (E := E) node delta cb);
  quiet_emit : forall o, unthrown (mgr_emit (E := E) o)
}.
#[export] Hint Resolve quiet_now quiet_timer quiet_emit : unthrown.

(** Through the parts that only read, write or call the environment. *)
Ltac quiet :=
  unfold env, manager, tcp, tget, tmodify, node_get, node_put; unthrown.

Section transport.
#[local] Set Default Proof Using "All".
Context {E : Type} `{QuietManager E}.

Lemma unthrown_deref sk : unthrown (deref sk : M (TcpManager * E) TcpSocket).
Proof. unfold deref. quiet. Qed.
Hint Resolve unthrown_deref : unthrown.

Lemma unthrown_upd sk f : unthrown (upd sk f : M (TcpManager * E) unit).
Proof. unfold upd. quiet. Qed.

Lemma unthrown_cout o : unthrown (cout (E := E) o).
Proof. unfold cout. quiet. Qed.

Lemma unthrown_logError s : unthrown (TcpSend.logError (E := E) s).
Proof. unfold TcpSend.logError. quiet. Qed.
Hint Resolve unthrown_upd unthrown_cout unthrown_logError : unthrown.

(** What cannot be sent is logged. *)
Lemma unthrown_sendAck src dest port ack advances window :
  unthrown (sendAck (E := E) src dest port ack advances window).
Proof. unfold sendAck. quiet. Qed.

Lemma unthrown_sendFin sk dest port : unthrown (sendFin (E := E) sk dest port).
Proof. unfold sendFin. quiet. Qed.

Lemma unthrown_sendFinFromPorts src dest port :
  unthrown (sendFinFromPorts (E := E) src dest port).
Proof. unfold sendFinFromPorts. quiet. Qed.

Lemma unthrown_established sk a p : unthrown (registerEstablished (E := E) sk a p).
Proof. unfold registerEstablished. quiet. Qed.

Lemma unthrown_release sk : unthrown (release (E := E) sk).
Proof. unfold release, onRelease, unregisterSocket. quiet. Qed.
Hint Resolve unthrown_sendAck unthrown_sendFin unthrown_sendFinFromPorts unthrown_established
  unthrown_release : unthrown.

Lemma unthrown_slice buf pos n : unthrown (slice (S := TcpManager * E) buf pos n).
Proof. unfold slice. quiet. Qed.

Lemma unthrown_pop_loop ack segs last : unthrown (pop_loop (S := TcpManager * E) ack segs last).
Proof. revert last. induction segs as [|seg segs IH]; intros last; cbn [pop_loop]; quiet. Qed.
Hint Resolve unthrown_slice unthrown_pop_loop : unthrown.

Lemma unthrown_onSyn a syn : unthrown (onSyn (E := E) a syn).
Proof. unfold onSyn, initAccepted, enqueueAccepted, socket. quiet. Qed.

Lemma unthrown_ack_established sk ack : unthrown (onAck_established (E := E) sk ack).
Proof.
  unfold onAck_established, popAckedThrough, additiveIncreaseCwnd, onSampleRTT, maybeSendFinOnDrain,
    setRwnd, managerNowMs. quiet.
Qed.
Hint Resolve unthrown_ack_established : unthrown.

Lemma unthrown_onAck a ack : unthrown (onAck (E := E) a ack).
Proof. unfold onAck, markEstablished, markClosed. quiet. Qed.

Lemma unthrown_onFin a fin : unthrown (onFin (E := E) a fin).
Proof. unfold onFin, markPeerFinReceived, markClosed. quiet. Qed.

Lemma unthrown_onData a seg : unthrown (onData (E := E) a seg).
Proof. unfold onData, appendToRecvBuf. quiet. Qed.
Hint Resolve unthrown_onSyn unthrown_onAck unthrown_onFin unthrown_onData : unthrown.

Lemma unthrown_segment a seg : unthrown (TcpManager.receiveTransport (E := E) a seg).
Proof. unfold TcpManager.receiveTransport. quiet. Qed.

(** ** The node *)

Lemma unthrown_output s : unthrown (Node.logOutput (E := E) s).
Proof. unfold Node.logOutput. quiet. Qed.

Lemma unthrown_error s : unthrown (Node.logError (E := E) s).
Proof. unfold Node.logError. quiet. Qed.
Hint Resolve unthrown_output unthrown_error unthrown_segment : unthrown.

Lemma unthrown_onReceive from bytes : unthrown (onReceive (E := E) from bytes).
Proof.
  unfold onReceive, receivePacket, receivePing, receivePingReply, StackNode.receiveTransport. quiet.
Qed.

Lemma unthrown_attempt m : unthrown (attempt (E := E) m).
Proof. unfold attempt. quiet. Qed.
Hint Resolve unthrown_attempt : unthrown.

Lemma unthrown_onCommand command : unthrown (onCommand (E := E) command).
Proof.
  unfold onCommand, matchTransferCommand, matchServerCommand, matchPingCommand. quiet.
Qed.

Lemma unthrown_node_start : unthrown (StackNode.start (E := E)).
Proof. unfold StackNode.start, add_ping_timer, TcpManager.start. quiet. Qed.
End transport.
