(* ===== verification/NodeRun.v ===== *)
(** * Symbolic execution of a node, and its invariant

    Rules for the accesses of Node.v, the invariant of a node ([node_ok]) and
    the lemma by which a call of the transport layer keeps it. *)

From S2P Require Import Prelude CppStrings Doubles DoubleText Packet Transport Runtime TcpData TcpSend TcpSocket TcpManager TcpRun TcpGrow TcpInv TcpOps TcpSpec TcpFlow TcpSafe TcpHandlers Node Apps StackNode.

(** ** The invariant *)

(** A timer whose times stay in 64 bits. *)
Definition interval_ok (ms : Z) : Prop := ms <= TIME_LIMIT.

Definition buffer_ok (buf : list byte) : Prop := 0 < vsize buf <= INT_MAX.

(** The socket exists, the buffer is not empty, the counters are in range; a
    negative amount makes the first [write] fail. *)
Definition body_ok (t : TcpManager) (b : TaskBody) : Prop :=
  match b with
  | ClientTask c =>
      is_Some (allSockets_ t !! client_sock_ c) /\ buffer_ok (client_buf_ c) /\
      INT_MIN <= amount_ c <= INT_MAX /\ 0 <= client_pos_ c /\
      client_pos_ c + Z.max 0 (amount_ c) <= INT_MAX /\
      0 <= startTime_ c <= TIME_LIMIT
  | ServerTask s =>
      is_Some (allSockets_ t !! serverSock_ s) /\ interval_ok (workerInterval_ s) /\
      0 < bufSize_ s <= INT_MAX
  | WorkerTask w =>
      is_Some (allSockets_ t !! worker_sock_ w) /\ buffer_ok (worker_buf_ w) /\
      0 <= worker_pos_ w <= INT_MAX
  end.

Definition task_ok (t : TcpManager) (k : TimerTask) : Prop :=
  interval_ok (intervalMs_ k) /\ body_ok t (body_ k).

Record node_ok (n : StackNode) : Prop := {
  no_tcp : tm_ok (tcpMan_ n);
  no_addr : addr_ (tcpMan_ n) = node_addr_ n;
  no_pings : Forall (fun p => 0 <= timeSentMs p <= TIME_LIMIT) (pings_ n);
  no_tasks : Forall (task_ok (tcpMan_ n)) (tasks_ n)
}.

Lemma grows_some t t' sk :
  grows t t' -> is_Some (allSockets_ t !! sk) -> is_Some (allSockets_ t' !! sk).
Proof. intros Hg [s Hs]. destruct (grows_lookup t t' sk s Hg Hs) as [s' ?]. exists s'. done. Qed.

Lemma task_ok_grows t t' k : grows t t' -> task_ok t k -> task_ok t' k.
Proof.
  intros Hg [Hi Hb]. split; [done|]. pose proof (grows_some t t').
  destruct (body_ k); cbn in *; intuition.
Qed.

Lemma tasks_ok_grows t t' l : grows t t' -> Forall (task_ok t) l -> Forall (task_ok t') l.
Proof. intros Hg. apply List.Forall_impl. intros k. by apply task_ok_grows. Qed.

Lemma new_node_ok addr : 0 <= addr <= 255 -> node_ok (new_StackNode addr).
Proof. intros Ha. by constructor. Qed.

(** The node after a call of its transport layer. *)
Lemma node_ok_tcp n t :
  node_ok n -> tm_ok t -> grows (tcpMan_ n) t -> node_ok (set_tcpMan t n).
Proof.
  intros [H1 H2 H3 H4] Ht Hg. constructor; cbn; try done.
  - destruct Hg. congruence.
  - by eapply tasks_ok_grows.
Qed.

Lemma node_ok_pings n l :
  node_ok n -> Forall (fun p => 0 <= timeSentMs p <= TIME_LIMIT) l -> node_ok (set_pings l n).
Proof. intros [H1 H2 H3 H4] Hl. by constructor. Qed.

Lemma node_ok_tasks n l :
  node_ok n -> Forall (task_ok (tcpMan_ n)) l -> node_ok (set_tasks l n).
Proof. intros [H1 H2 H3 H4] Hl. by constructor. Qed.

Lemma node_addr_range n : node_ok n -> 0 <= node_addr_ n <= 255.
Proof. intros Hn. rewrite <- no_addr by done. apply (no_tcp _ Hn). Qed.

(** ** Rules *)

Definition node_fault {E} `{ManagerLaws E} : fault -> StackNode * E -> Prop :=
  fun f s => mgr_fault f s.2.

Section rules.
Context `{ManagerLaws E}.
Implicit Types (n : StackNode) (e : E).

Lemma node_fault_exn x n e : ~ node_fault (Thrown x) (n, e).
Proof. apply mgr_fault_exn. Qed.

Lemma wp_node_get {A} (f : StackNode -> A) n e (Q : A -> StackNode * E -> Prop) X :
  Q (f n) (n, e) -> wp (node_get f) (n, e) Q X.
Proof. done. Qed.

Lemma wp_node_put f n e (Q : unit -> StackNode * E -> Prop) X :
  Q tt (f n, e) -> wp (node_put f) (n, e) Q X.
Proof. done. Qed.

Lemma wp_manager {A} (m : M E A) n e (Q : A -> StackNode * E -> Prop) X :
  wp m e (fun a e' => Q a (n, e')) (fun f e' => X f (n, e')) -> wp (manager m) (n, e) Q X.
Proof. intros Hm. by apply wp_zoom. Qed.

Lemma wp_node_now n e (Q : Z -> StackNode * E -> Prop) :
  mgr_ok e -> (forall t e', sends e [] e' -> 0 <= t <= TIME_LIMIT -> Q t (n, e')) ->
  wp (manager mgr_now) (n, e) Q node_fault.
Proof.
  intros He HQ. apply wp_manager. eapply wp_conseq; [by apply mgr_now_ok| |by intros].
  intros t e' (Ht & Hs). apply HQ; [apply Hs|done].
Qed.

Lemma wp_node_timer a d cb n e (Q : unit -> StackNode * E -> Prop) :
  mgr_ok e -> 0 < d <= TIME_LIMIT -> (forall e', sends e [] e' -> Q tt (n, e')) ->
  wp (manager (mgr_addTimer a d cb)) (n, e) Q node_fault.
Proof.
  intros He Hd HQ. apply wp_manager. eapply wp_conseq; [by apply mgr_addTimer_ok| |by intros].
  intros [] e' Hs. by apply HQ.
Qed.

Lemma wp_logOutput s n e (Q : unit -> StackNode * E -> Prop) :
  mgr_ok e -> (forall e', sends e [] e' -> Q tt (n, e')) ->
  wp (logOutput s) (n, e) Q node_fault.
Proof.
  intros He HQ. apply wp_bind, wp_node_get, wp_manager.
  eapply wp_conseq; [by apply mgr_emit_ok| |by intros]. intros [] e' Hs. by apply HQ.
Qed.

Lemma wp_node_error s n e (Q : unit -> StackNode * E -> Prop) :
  mgr_ok e -> (forall e', sends e [] e' -> Q tt (n, e')) ->
  wp (Node.logError s) (n, e) Q node_fault.
Proof.
  intros He HQ. apply wp_bind, wp_node_get, wp_manager.
  eapply wp_conseq; [by apply mgr_emit_ok| |by intros]. intros [] e' Hs. by apply HQ.
Qed.

Lemma wp_tcp {A} (m : M (TcpManager * E) A) n e (Q : A -> StackNode * E -> Prop) :
  wp m (tcpMan_ n, e) (fun a te => Q a (set_tcpMan te.1 n, te.2)) env_fault ->
  wp (tcp m) (n, e) Q node_fault.
Proof. intros Hm. apply wp_zoom. eapply wp_conseq; [exact Hm|done..]. Qed.

(** A call that keeps the manager's invariant keeps the node's. *)
Lemma wp_tcp_ok {A} (m : M (TcpManager * E) A) n e (Q : A -> StackNode * E -> Prop) :
  node_ok n -> framed (H0 := any_env) m ->
  wp m (tcpMan_ n, e)
    (fun a te => tm_ok te.1 /\ (node_ok (set_tcpMan te.1 n) -> grows (tcpMan_ n) te.1 ->
                  Q a (set_tcpMan te.1 n, te.2))) env_fault ->
  wp (tcp m) (n, e) Q node_fault.
Proof.
  intros Hn Hg Hm. apply wp_tcp. specialize (Hg (tcpMan_ n, e)). unfold wp in *.
  destruct (m (tcpMan_ n, e)) as [[a|f] te]; [|done]. destruct Hm as [Ht HQ], Hg as [[Hg _] _].
  apply HQ; [|done]. by apply node_ok_tcp.
Qed.

Lemma wp_socket_of sk s n e (Q : TcpSocket -> StackNode * E -> Prop) :
  sock_at sk s (tcpMan_ n) -> Q s (n, e) -> wp (socket_of sk) (n, e) Q node_fault.
Proof.
  intros Hs HQ. apply wp_tcp. eapply wp_deref; [done|]. by destruct n.
Qed.

Lemma wp_node_try {A} (m : M (StackNode * E) A) h n e Q :
  wp m (n, e) Q (fun f s' =>
    match f with Thrown x => wp (h x) s' Q node_fault | _ => node_fault f s' end) ->
  wp (try_catch m h) (n, e) Q node_fault.
Proof. apply wp_try. Qed.

(** The manager's own faults pass through a handler of exceptions. *)
Lemma fault_through {A} (h : exn -> M (StackNode * E) A) Q f s :
  node_fault f s ->
  match f with Thrown x => wp (h x) s Q node_fault | _ => node_fault f s end.
Proof. destruct f, s; try done. by intros Hf%node_fault_exn. Qed.

Lemma wp_node_try_ok {A} (m : M (StackNode * E) A) h n e Q :
  wp m (n, e) Q node_fault -> wp (try_catch m h) (n, e) Q node_fault.
Proof.
  intros Hm. apply wp_node_try. eapply wp_conseq; [exact Hm|done|].
  intros f s Hf. by apply fault_through.
Qed.

(** A sequence in which every call is safe in the environment: rules for the
    body of a [try] whose handler restores [Q]. *)
Lemma wp_lift_try {A B} (r : exn + A) (k : A -> M (StackNode * E) B) h n e Q :
  (forall x, r = inl x -> wp (h x) (n, e) Q node_fault) ->
  (forall a, r = inr a -> wp (try_catch (k a) h) (n, e) Q node_fault) ->
  wp (try_catch (bind (lift_exn r) k) h) (n, e) Q node_fault.
Proof. destruct r as [x|a]; intros H1 H2; [by apply (H1 x)|by apply (H2 a)]. Qed.

Lemma wp_task_of id k n e (Q : TimerTask -> StackNode * E -> Prop) X :
  tasks_ n !! id = Some k -> Q k (n, e) -> wp (task_of id) (n, e) Q X.
Proof. intros Hk HQ. apply wp_bind, wp_node_get. by rewrite Hk. Qed.

Lemma wp_upd_task id k f n e (Q : unit -> StackNode * E -> Prop) X :
  tasks_ n !! id = Some k -> Q tt (set_tasks (<[id := f k]> (tasks_ n)) n, e) ->
  wp (upd_task id f) (n, e) Q X.
Proof.
  intros Hk HQ. apply wp_bind. eapply wp_task_of; [done|]. apply wp_node_put.
  by erewrite list_alter_insert by done.
Qed.
End rules.
