(* ===== verification/NodeSpec.v ===== *)
(** * What the methods of a node do

    The pings, the dispatch of packets and the commands, run against any
    environment that obeys its laws. *)

From S2P Require Import Prelude CppStrings Doubles DoubleText Packet Transport Runtime TcpData TcpSend TcpSocket TcpManager TcpRun TcpGrow TcpInv TcpOps TcpSpec TcpFlow TcpSafe TcpHandlers Node Apps StackNode NodeRun.

(** One step of a node's method; [sends] facts are merged on the way. *)
Ltac node_step :=
  lazymatch goal with
  | |- wp (bind _ _) _ _ _ => apply wp_bind
  | |- wp (ret _) _ _ _ => apply wp_ret
  | |- wp (node_get _) _ _ _ => apply wp_node_get
  | |- wp (node_put _) _ _ _ => apply wp_node_put
  | |- wp (int _) _ _ _ => apply wp_int; [solve [lims]|]
  | |- wp (long _) _ _ _ => apply wp_long; [solve [lims]|]
  | |- wp (manager mgr_now) _ _ _ => apply wp_node_now; [mgr_here|]; intros ? ? ? ?; sends_merge
  | |- wp (logOutput _) _ _ _ => apply wp_logOutput; [mgr_here|]; intros ? ?; sends_merge
  | |- wp (Node.logError _) _ _ _ => apply wp_node_error; [mgr_here|]; intros ? ?; sends_merge
  end; cbv beta.
Ltac node_go := repeat node_step.

(** A packet that the node [addr] makes. *)
Definition node_packet (addr dest protocol : Z) (payload : list byte) : Packet :=
  mkPacket dest addr MAX_TTL protocol 0 payload.

Definition node_datagram (addr dest protocol : Z) (payload : list byte) : datagram :=
  (addr, dest, Packet.pack (node_packet addr dest protocol payload)).

Lemma node_packet_new addr dest protocol payload p :
  new_Packet dest addr MAX_TTL protocol 0 payload = inr p ->
  p = node_packet addr dest protocol payload /\ packet_ok p /\
  sendable addr dest (Packet.pack p).
Proof.
  intros [-> Hv]%new_Packet_spec. pose proof (proj1 (isValid_spec _) Hv) as Hr. cbn in Hr.
  assert (Hok : packet_ok (mkPacket dest addr MAX_TTL protocol 0 payload))
    by (split; [done|cbn; lims]).
  split; [done|]. split; [done|]. unfold sendable, validAddress, MAX_ADDRESS.
  split; [lia|]. split; [lia|]. split.
  - rewrite packet_pack_length. cbn. lims.
  - eexists. split; [by apply packet_unpack_pack|]. unfold isValidToSend. by rewrite Hv.
Qed.

Lemma node_packet_ok addr dest protocol payload :
  0 <= addr <= 255 -> 0 <= dest <= 255 -> 0 <= protocol <= 4 -> vsize payload <= 119 ->
  new_Packet dest addr MAX_TTL protocol 0 payload =
  inr (node_packet addr dest protocol payload).
Proof.
  intros. apply new_Packet_spec. split; [done|]. apply isValid_spec. cbn. unfold MAX_TTL. lia.
Qed.

Lemma to_string_not_transfer z : String.eqb (to_string z) "transfer" = false.
Proof.
  apply String.eqb_neq. intros Hz. pose proof (strtol_to_string z) as H. by rewrite Hz in H.
Qed.

Lemma to_string_not_server z : String.eqb (to_string z) "server" = false.
Proof.
  apply String.eqb_neq. intros Hz. pose proof (strtol_to_string z) as H. by rewrite Hz in H.
Qed.

Lemma split_first_word t s :
  no_space t = true -> split_first (t +:+ " " +:+ s) = Some (t, s).
Proof.
  induction t as [|c t IH]; [done|]. cbn [no_space]. rewrite andb_true_iff, negb_true_iff.
  intros [Hc Ht]. rewrite string_app_cons. cbn [split_first]. rewrite Hc, IH by done. done.
Qed.

Section spec.
Context `{ManagerLaws E}.
Implicit Types (n : StackNode) (e : E).

Lemma wp_sendPacket dest p n e (Q : unit -> StackNode * E -> Prop) :
  mgr_ok e -> sendable (node_addr_ n) dest (Packet.pack p) ->
  (forall e', sends e [(node_addr_ n, dest, Packet.pack p)] e' -> Q tt (n, e')) ->
  wp (sendPacket dest p) (n, e) Q node_fault.
Proof.
  intros He Hs HQ. apply wp_node_try_ok. node_go. apply wp_manager.
  eapply wp_conseq; [by apply mgr_sendPkt_ok| |by intros].
  intros b e' Hs'. node_go. by apply HQ.
Qed.

(** ** Pings *)

(** The pings that are not older than the timeout. *)
Definition fresh_pings (now : Z) (pings : list PingRequest) : list PingRequest :=
  filter (fun p => now <= timeSentMs p + PING_TIMEOUT_MS) pings.

Lemma wp_ping_loop now pings n e (Q : list PingRequest -> StackNode * E -> Prop) :
  mgr_ok e -> Forall (fun p => 0 <= timeSentMs p <= TIME_LIMIT) pings ->
  (forall e', sends e [] e' -> Q (fresh_pings now pings) (n, e')) ->
  wp (ping_loop now pings) (n, e) Q node_fault.
Proof.
  intros He Hp. revert e He Q. induction Hp as [|p pings Hp Hps IH]; intros e He Q HQ.
  { apply wp_ret, HQ. by apply sends_refl. }
  cbn [ping_loop]. unfold fresh_pings in *. rewrite filter_cons in HQ.
  apply wp_bind, wp_long; [unfold PING_TIMEOUT_MS; lims|].
  destruct (Z.ltb_spec (timeSentMs p + PING_TIMEOUT_MS) now).
  - rewrite decide_False in HQ by lia. node_go. apply IH; [mgr_here|].
    intros e2 He2. sends_merge. by apply HQ.
  - rewrite decide_True in HQ by lia. node_go. apply IH; [done|].
    intros e' He'. node_go. by apply HQ.
Qed.

Lemma wp_add_ping_timer n e (Q : unit -> StackNode * E -> Prop) :
  mgr_ok e -> (forall e', sends e [] e' -> Q tt (n, e')) ->
  wp add_ping_timer (n, e) Q node_fault.
Proof.
  intros He HQ. unfold add_ping_timer. node_go.
  apply wp_node_timer; [done|unfold PING_TIMEOUT_MS; lims|done].
Qed.

Lemma wp_pingTimedOut n e (Q : unit -> StackNode * E -> Prop) :
  mgr_ok e -> Forall (fun p => 0 <= timeSentMs p <= TIME_LIMIT) (pings_ n) ->
  (forall now e', 0 <= now <= TIME_LIMIT -> sends e [] e' ->
     Q tt (set_pings (fresh_pings now (pings_ n)) n, e')) ->
  wp pingTimedOut (n, e) Q node_fault.
Proof.
  intros He Hp HQ. unfold pingTimedOut. node_go. apply wp_ping_loop; [mgr_here|done|].
  intros e2 He2. sends_merge. node_go. apply wp_add_ping_timer; [mgr_here|].
  intros e3 He3. sends_merge. by apply HQ.
Qed.

Lemma take_ping_elem src payload pings rest :
  take_ping src payload pings = Some rest ->
  exists before p after, pings = before ++ p :: after /\ rest = before ++ after /\
    destAddr p = src /\ bytesToString (msg p) = payload /\
    Forall (fun q => ~ (destAddr q = src /\ bytesToString (msg q) = payload)) before.
Proof.
  revert rest. induction pings as [|p pings IH]; intros rest; cbn; [done|].
  destruct (_ && _) eqn:Hm.
  - intros [= <-]. apply andb_true_iff in Hm as [Hd Hs]. apply Z.eqb_eq in Hd.
    apply String.eqb_eq in Hs. by exists [], p, pings.
  - intros (r & Hr & ->)%fmap_Some. destruct (IH _ Hr) as (b & q & a & -> & -> & ? & ? & Hb).
    exists (p :: b), q, a. do 4 (split; [done|]). constructor; [|done].
    intros [Hd Hs]. rewrite Hd, Z.eqb_refl, Hs, String.eqb_refl in Hm. done.
Qed.

Lemma wp_receivePingReply p n e (Q : unit -> StackNode * E -> Prop) :
  mgr_ok e ->
  (forall e', sends e [] e' ->
     Q tt (set_pings (default (pings_ n)
             (take_ping (src_ p) (bytesToString (Packet.payload_ p)) (pings_ n))) n, e')) ->
  wp (receivePingReply p) (n, e) Q node_fault.
Proof.
  intros He HQ. unfold receivePingReply. node_go.
  destruct (take_ping _ _ _) as [rest|]; node_go; [by apply HQ|].
  destruct n. by apply HQ.
Qed.

(** Any ping that was decoded can be answered. *)
Lemma wp_receivePing p n e (Q : unit -> StackNode * E -> Prop) :
  mgr_ok e -> 0 <= node_addr_ n <= 255 -> packet_ok p ->
  (forall e', sends e [node_datagram (node_addr_ n) (src_ p) PING_REPLY_PKT
                         (Packet.payload_ p)] e' -> Q tt (n, e')) ->
  wp (receivePing p) (n, e) Q node_fault.
Proof.
  intros He Ha [Hv _] HQ. pose proof (proj1 (isValid_spec _) Hv) as Hr.
  unfold receivePing. node_go. apply wp_node_try_ok. node_go.
  pose proof (node_packet_ok (node_addr_ n) (src_ p) PING_REPLY_PKT (Packet.payload_ p)
    Ha ltac:(lia) ltac:(unfold PING_REPLY_PKT; lia) ltac:(lia)) as Hn.
  rewrite Hn. apply node_packet_new in Hn as (_ & _ & Hs). node_go.
  apply wp_sendPacket; [mgr_here|done|]. intros e2 He2. sends_merge. by apply HQ.
Qed.

(** ** Packets *)

(** No SYN or FIN with the largest sequence number, whose successor overflows. *)
Definition wire_ok (bytes : list byte) : Prop :=
  forall p seg, Packet.unpack bytes = Some p -> Transport.unpack (Packet.payload_ p) = Some seg ->
    type_ seg = SYN \/ type_ seg = FIN -> seqNum_ seg < INT_MAX.

Lemma wp_onReceive from bytes n e (Q : unit -> StackNode * E -> Prop) :
  mgr_ok e -> node_ok n -> all_rcv_room (tcpMan_ n) -> wire_ok bytes ->
  (forall n' e' l, node_ok n' -> sends e l e' -> Q tt (n', e')) ->
  wp (onReceive from bytes) (n, e) Q node_fault.
Proof.
  intros He Hn Hroom Hw HQ. unfold onReceive, wire_ok in *.
  destruct (Packet.unpack bytes) as [p|] eqn:Hp; [|node_go; by eapply HQ].
  apply packet_unpack_sound in Hp as [_ Hok].
  pose proof (proj1 (isValid_spec _) (proj1 Hok)) as Hr. unfold receivePacket. cbv zeta.
  case_match; [|case_match; [|case_match]].
  - apply wp_receivePing; [done|by apply node_addr_range|done|]. intros. by eapply HQ.
  - apply wp_receivePingReply; [done|]. intros e' He'. eapply HQ; [|done].
    apply node_ok_pings; [done|]. pose proof (no_pings _ Hn) as Hps.
    destruct (take_ping _ _ _) as [rest|] eqn:Ht; [|done]. cbn.
    apply take_ping_elem in Ht as (b & q & a & Heq & -> & _). rewrite Heq in Hps.
    apply Forall_app in Hps as [? Hps]. inversion Hps. by apply Forall_app.
  - unfold StackNode.receiveTransport.
    destruct (Transport.unpack (Packet.payload_ p)) as [seg|] eqn:Hs; [|node_go; by eapply HQ].
    pose proof (Hw p seg eq_refl Hs) as Hsf. apply transport_unpack_sound in Hs as [_ Hseg].
    apply wp_tcp_ok; [done|auto with frame|].
    apply receiveTransport_handled; [done|apply Hn|split; [done|split; [lia|done]]|done|].
    intros t' e' l Hh He'. split; [apply Hh|]. intros Hn' _. by eapply HQ.
  - node_go. by eapply HQ.
Qed.

(** ** Commands *)

(** The exceptions that [attempt] turns into a line of the log. *)
Definition caught (Q : bool -> StackNode * E -> Prop) : fault -> StackNode * E -> Prop :=
  fun f s =>
    match f with
    | Thrown _ => mgr_ok s.2 /\ forall e', sends s.2 [] e' -> Q false (s.1, e')
    | _ => node_fault f s
    end.

Lemma wp_attempt m n e (Q : bool -> StackNode * E -> Prop) :
  wp m (n, e) (fun _ s => Q true s) (caught Q) -> wp (attempt m) (n, e) Q node_fault.
Proof.
  intros Hm. apply wp_node_try, wp_bind. eapply wp_conseq; [exact Hm|done|].
  intros [x| | |] [n' e']; cbn; try done. intros [He HQ]. node_go. by apply HQ.
Qed.

Lemma wp_uncaught {A} (m : M (StackNode * E) A) n e K (Q : bool -> StackNode * E -> Prop) :
  wp m (n, e) K node_fault -> wp m (n, e) K (caught Q).
Proof.
  intros Hm. eapply wp_conseq; [exact Hm|done|].
  intros [x| | |] [n' e']; try done. by intros Hf%node_fault_exn.
Qed.

Lemma wp_lift_caught {A} (r : exn + A) n e K (Q : bool -> StackNode * E -> Prop) :
  mgr_ok e -> (forall e', sends e [] e' -> Q false (n, e')) ->
  (forall a, r = inr a -> K a (n, e)) -> wp (lift_exn r) (n, e) K (caught Q).
Proof. intros He HF HK. destruct r as [x|a]; [apply wp_fail; done|by apply wp_ret, HK]. Qed.

Lemma wp_optional_arg arg parse d n e K (Q : bool -> StackNode * E -> Prop) :
  mgr_ok e -> (forall e', sends e [] e' -> Q false (n, e')) ->
  (forall v, v = d \/ (exists t, arg = Some t /\ parse t = inr v) -> K v (n, e)) ->
  wp (optional_arg arg parse d) (n, e) K (caught Q).
Proof.
  intros He HF HK. unfold optional_arg. destruct arg as [t|]; [|apply wp_ret; apply HK; by left].
  apply wp_lift_caught; [done|done|]. intros v Hv. apply HK. right. by exists t.
Qed.

Lemma wp_matchPingCommand command n e (Q : bool -> StackNode * E -> Prop) :
  mgr_ok e -> node_ok n ->
  (forall b n' e' l, node_ok n' -> sends e l e' -> Q b (n', e')) ->
  wp (matchPingCommand command) (n, e) Q node_fault.
Proof.
  intros He Hn HQ. unfold matchPingCommand.
  destruct (split_first command) as [[dest text]|];
    [|apply wp_ret; eapply HQ; [done|by apply sends_refl]].
  assert (HF : forall e', sends e [] e' -> Q false (n, e')) by (intros; by eapply HQ).
  apply wp_attempt, wp_bind, wp_lift_caught; [done..|]. intros d _. node_go.
  apply wp_lift_caught; [done..|]. intros p Hp%node_packet_new. destruct Hp as (-> & _ & Hs).
  apply wp_bind, wp_uncaught, wp_sendPacket; [done|done|]. intros e1 He1.
  apply wp_uncaught. node_go. eapply HQ; [|done]. apply node_ok_pings; [done|].
  apply Forall_app. split; [apply Hn|]. by constructor.
Qed.

(** ** New sockets *)

Definition bound_sock (port : Z) : TcpSocket := set_localPort port new_TcpSocket.

(** The manager with a new socket bound to [port], which nothing refers to. *)
Definition with_bound (port : Z) (t : TcpManager) : TcpManager :=
  put_sock (length (allSockets_ t)) (bound_sock port) (push_sock t).

Lemma with_bound_at port t :
  sock_at (length (allSockets_ t)) (bound_sock port) (with_bound port t).
Proof. eapply put_sock_at. apply push_sock_new. Qed.

Lemma with_bound_unreferenced port t :
  tm_ok t -> unreferenced (length (allSockets_ t)) (with_bound port t).
Proof.
  intros Ht. destruct (push_sock_unreferenced t Ht) as [U1 U2 U3 U4].
  unfold with_bound. constructor; rewrite ?listeners_put, ?pending_put, ?established_put; try done.
  intros l s Hs. apply (sock_at_put_inv _ new_TcpSocket) in Hs as [[-> ->]|[_ Hs]];
    [apply not_elem_of_nil|by eapply U4|apply push_sock_new].
Qed.

Lemma with_bound_ok port t : tm_ok t -> tm_ok (with_bound port t).
Proof.
  intros Ht. eapply tm_ok_bind; [by apply tm_ok_push|apply push_sock_new|done| |done].
  by apply push_sock_unreferenced.
Qed.

Lemma with_bound_grows port t : grows t (with_bound port t).
Proof.
  split; [done|]. unfold with_bound. rewrite sockets_put, length_insert. cbn.
  rewrite length_app. lia.
Qed.

Lemma wp_bound_socket {A} port (k : ptr -> M (StackNode * E) A) n e Q X :
  node_ok n ->
  (node_ok (set_tcpMan (with_bound port (tcpMan_ n)) n) ->
   wp (k (length (allSockets_ (tcpMan_ n)))) (set_tcpMan (with_bound port (tcpMan_ n)) n, e) Q X) ->
  wp (let! sock := tcp socket in tcp (bind_ sock port) ;; k sock) (n, e) Q X.
Proof.
  intros Hn Hk. set (sk := length (allSockets_ (tcpMan_ n))) in *.
  assert (H1 : tcp socket (n, e) = (Ret sk, (set_tcpMan (push_sock (tcpMan_ n)) n, e))) by done.
  assert (H2 : tcp (bind_ sk port) (set_tcpMan (push_sock (tcpMan_ n)) n, e) =
    (Ret 0, (set_tcpMan (with_bound port (tcpMan_ n)) n, e))).
  { unfold tcp, zoom, bind_, bind. cbn [fst snd set_tcpMan tcpMan_].
    erewrite upd_run by apply push_sock_new. done. }
  unfold wp. erewrite bind_run by exact H1. erewrite bind_run by exact H2. apply Hk.
  apply node_ok_tcp; [done|by apply with_bound_ok, Hn|apply with_bound_grows].
Qed.

Lemma wp_schedule id k n e (Q : unit -> StackNode * E -> Prop) :
  mgr_ok e -> tasks_ n !! id = Some k -> interval_ok (intervalMs_ k) ->
  (forall e', sends e [] e' -> Q tt (n, e')) -> wp (schedule id) (n, e) Q node_fault.
Proof.
  intros He Hk Hi HQ. apply wp_bind. eapply wp_task_of; [done|].
  destruct (Z.leb_spec (intervalMs_ k) 0); [by apply wp_ret, HQ, sends_refl|].
  node_go. by apply wp_node_timer.
Qed.

(** A new task is kept and scheduled. *)
Lemma wp_launch k n e (Q : unit -> StackNode * E -> Prop) :
  mgr_ok e -> node_ok n -> task_ok (tcpMan_ n) k ->
  (forall e', node_ok (set_tasks (tasks_ n ++ [k]) n) -> sends e [] e' ->
     Q tt (set_tasks (tasks_ n ++ [k]) n, e')) ->
  wp (let! id := push_task k in Apps.start id) (n, e) Q node_fault.
Proof.
  intros He Hn Hk HQ. unfold push_task. node_go.
  eapply wp_schedule; [done|cbn; by apply list_lookup_middle|apply Hk|].
  intros e' He'. apply HQ; [|done]. apply node_ok_tasks; [done|].
  apply Forall_app. split; [apply Hn|]. by constructor.
Qed.

(** The arguments of a [transfer] or [server] command that the program does
    not check: an interval whose microseconds overflow, a client's buffer of no
    bytes, by whose size it divides, and for the server a size that only the
    workers it starts will reject. *)
Definition args_sane (args : list string) : Prop :=
  (forall t v, t ∈ args -> stol t = inr v -> v <= TIME_LIMIT) /\
  (forall t, args !! 6%nat = Some t -> stoi t <> inr 0) /\
  (forall t v, args !! 0%nat = Some "server" -> args !! 5%nat = Some t -> stoi t = inr v -> 0 < v).

(** The same as a test. *)
Definition args_saneb (args : list string) : bool :=
  forallb (fun t => match stol t with inr v => v <=? TIME_LIMIT | inl _ => true end) args &&
  match args !! 6%nat with
  | Some t => match stoi t with inr v => negb (v =? 0) | inl _ => true end
  | None => true
  end &&
  match args !! 0%nat, args !! 5%nat with
  | Some name, Some t =>
      negb (String.eqb name "server") ||
      match stoi t with inr v => 0 <? v | inl _ => true end
  | _, _ => true
  end.

Lemma args_saneb_sound args : args_saneb args = true -> args_sane args.
Proof.
  unfold args_saneb. rewrite !andb_true_iff. intros [[H1 H2] H3]. split; [|split].
  - intros t v Ht Hv. rewrite forallb_forall in H1. apply list_elem_of_In in Ht.
    specialize (H1 t Ht). rewrite Hv in H1. lia.
  - intros t Ht Hz. rewrite Ht, Hz in H2. done.
  - intros t v H0' Ht Hv. rewrite H0', Ht, Hv in H3. cbn in H3. lia.
Qed.

Lemma new_buffer_ok sz buf :
  new_buffer sz = inr buf -> sz <= INT_MAX -> sz <> 0 -> buffer_ok buf.
Proof.
  unfold new_buffer, buffer_ok. destruct (Z.ltb_spec sz 0); [done|]. intros [= <-] **.
  unfold vsize. rewrite length_replicate. lia.
Qed.

Lemma setInterval_ok ms b :
  interval_ok ms -> interval_ok (intervalMs_ (setInterval ms (mkTimerTask ms b))) /\
  body_ (setInterval ms (mkTimerTask ms b)) = b.
Proof. intros Hi. unfold setInterval. by case_match. Qed.

Lemma new_client_ok t sk amount ms sz k :
  new_TransferClient sk amount ms sz = inr k -> is_Some (allSockets_ t !! sk) ->
  INT_MIN <= amount <= INT_MAX -> interval_ok ms -> sz <= INT_MAX -> sz <> 0 -> task_ok t k.
Proof.
  unfold new_TransferClient. destruct (new_buffer sz) as [|buf] eqn:Hb; [done|].
  intros [= <-] Hs Ha Hi H1 H2. destruct (setInterval_ok ms
    (ClientTask (mkTransferClient sk buf amount 0 0 0)) Hi) as [Hi' Hbody].
  split; [done|]. rewrite Hbody. cbn. pose proof (new_buffer_ok _ _ Hb H1 H2).
  do 3 (split; [done|]). split; [lia|]. lims.
Qed.

Lemma new_server_ok t sk ms wms sz :
  is_Some (allSockets_ t !! sk) -> interval_ok ms -> interval_ok wms -> sz <= INT_MAX ->
  0 < sz -> task_ok t (new_TransferServer sk ms wms sz).
Proof.
  intros Hs Hi Hw H1 H2. unfold new_TransferServer.
  destruct (setInterval_ok ms (ServerTask (mkTransferServer sk wms sz)) Hi) as [Hi' Hbody].
  split; [done|]. by rewrite Hbody.
Qed.

Lemma new_worker_ok t sk ms sz k :
  new_TransferWorker sk ms sz = inr k -> is_Some (allSockets_ t !! sk) ->
  interval_ok ms -> sz <= INT_MAX -> sz <> 0 -> task_ok t k.
Proof.
  unfold new_TransferWorker. destruct (new_buffer sz) as [|buf] eqn:Hb; [done|].
  intros [= <-] Hs Hi H1 H2. destruct (setInterval_ok ms
    (WorkerTask (mkTransferWorker sk buf 0)) Hi) as [Hi' Hbody].
  split; [done|]. rewrite Hbody. cbn. pose proof (new_buffer_ok _ _ Hb H1 H2).
  do 2 (split; [done|]). lims.
Qed.

Lemma default_sizes : interval_ok 1000 /\ DEFAULT_BUFFER_SZ <= INT_MAX /\ 0 < DEFAULT_BUFFER_SZ.
Proof. split; [unfold interval_ok; lims|]. split; [unfold DEFAULT_BUFFER_SZ; lims|done]. Qed.

Lemma wp_matchTransferCommand command n e (Q : bool -> StackNode * E -> Prop) :
  mgr_ok e -> node_ok n -> args_sane (splitSpaceVec command) ->
  (forall b n' e' l, node_ok n' -> sends e l e' -> Q b (n', e')) ->
  wp (matchTransferCommand command) (n, e) Q node_fault.
Proof.
  intros He Hn (Hint & Hbuf & Hsrv) HQ. unfold matchTransferCommand.
  assert (HF : forall n' e' l, node_ok n' -> sends e l e' ->
    forall e'', sends e' [] e'' -> Q false (n', e''))
    by (intros; eapply HQ; [done|by eapply sends_nil_r]).
  assert (Hret : wp (ret false) (n, e) Q node_fault)
    by (apply wp_ret; eapply HQ; [done|by apply sends_refl]).
  destruct (splitSpaceVec command) as [|name [|dest [|port [|local [|bytes more]]]]] eqn:Hargs;
    try exact Hret.
  destruct (_ || _); [exact Hret|].
  specialize (HF n e [] Hn (sends_refl _ He)) as HF0. destruct default_sizes as (D1 & D2 & D3).
  apply wp_attempt. do 4 (apply wp_bind, wp_lift_caught; [done..|]; intros ? ?).
  rename a2 into amount, H4 into Hamount.
  apply wp_bind, wp_optional_arg; [done..|]. intros ms Hms. apply wp_bind, wp_optional_arg; [done..|].
  intros sz Hsz. apply wp_bound_socket; [done|]. intros Hn1.
apply wp_bind, wp_uncaught, wp_tcp_ok; [done|auto with frame|].
  eapply wp_connect_safe; [done|apply Hn1|apply with_bound_at|done|
    apply with_bound_unreferenced, Hn|done|done|].
  intros r t1 e1 l1 Ht1 He1. split; [done|]. cbn [fst snd]. intros Hn2 Hg.
  assert (mgr_ok e1) by mgr_here.
  apply wp_bind, wp_lift_caught; [done|by eapply HF|]. intros k Hk.
  apply wp_uncaught, wp_launch; [done|done| |].
  - pose proof (stoi_range _ _ Hamount).
    eapply (new_client_ok _ _ _ _ _ _ Hk); [|done| | |].
    + cbn. eapply grows_some; [exact Hg|]. eexists. apply with_bound_at.
    + destruct Hms as [->|(t & Ht & Hv)]; [done|]. apply (Hint t); [|done].
      do 5 right. by eapply list_elem_of_lookup_2.
    + destruct Hsz as [->|(t & Ht & Hv)]; [done|]. by apply stoi_range in Hv as [].
    + destruct Hsz as [->|(t & Ht & Hv)]; [done|]. intros ->. by apply (Hbuf t).
  - intros e2 Hn3 He2. sends_merge. by eapply HQ.
Qed.

Lemma wp_matchServerCommand command n e (Q : bool -> StackNode * E -> Prop) :
  mgr_ok e -> node_ok n -> args_sane (splitSpaceVec command) ->
  (forall b n' e' l, node_ok n' -> sends e l e' -> Q b (n', e')) ->
  wp (matchServerCommand command) (n, e) Q node_fault.
Proof.
  intros He Hn (Hint & Hbuf & Hsrv) HQ. unfold matchServerCommand.
  assert (HF : forall e', sends e [] e' -> Q false (n, e')) by (intros; by eapply HQ).
  assert (Hret : wp (ret false) (n, e) Q node_fault) by (by apply wp_ret, HF, sends_refl).
  destruct (splitSpaceVec command) as [|name [|port [|backlog more]]] eqn:Hargs; try exact Hret.
  destruct (_ || _) eqn:Hname; [exact Hret|].
  apply orb_false_iff in Hname as [_ Hname]. apply negb_false_iff, String.eqb_eq in Hname as ->.
  destruct default_sizes as (D1 & D2 & D3).
  apply wp_attempt. do 2 (apply wp_bind, wp_lift_caught; [done..|]; intros ? _).
  do 2 (apply wp_bind, wp_optional_arg; [done..|]; intros ? ?).
  apply wp_bind, wp_optional_arg; [done..|]. intros sz Hsz.
  apply wp_bound_socket; [done|]. intros Hn1.
  assert (Hlong : forall v i, v = 1000 \/ (exists t, more !! i = Some t /\ stol t = inr v) ->
    interval_ok v).
  { intros ? i [->|(t & Ht & Hv)]; [done|]. apply (Hint t); [|done].
    do 3 right. by eapply list_elem_of_lookup_2. }
  apply wp_bind, wp_uncaught, wp_tcp_ok; [done|auto with frame|].
  eapply wp_listen_safe; [done|apply Hn1|apply with_bound_at|done|
    apply with_bound_unreferenced, Hn|done|].
  intros t1 Ht1. split; [done|]. cbn [fst snd]. intros Hn2 Hg.
  apply wp_uncaught. eapply wp_eq; [symmetry; apply bind_bind|].
  apply wp_bind, wp_launch; [done|done| |].
  - apply new_server_ok; [|by eapply Hlong|by eapply Hlong| |].
    + cbn. eapply grows_some; [exact Hg|]. eexists. apply with_bound_at.
    + destruct Hsz as [->|(t & Ht & Hv)]; [done|]. by apply stoi_range in Hv as [].
    + destruct Hsz as [->|(t & Ht & Hv)]; [done|]. by apply (Hsrv t).
  - intros e2 Hn3 He2. node_go. by eapply HQ.
Qed.

Lemma wp_onCommand command n e (Q : unit -> StackNode * E -> Prop) :
  mgr_ok e -> node_ok n -> args_sane (splitSpaceVec command) ->
  (forall n' e' l, node_ok n' -> sends e l e' -> Q tt (n', e')) ->
  wp (onCommand command) (n, e) Q node_fault.
Proof.
  intros He Hn Hargs HQ. unfold onCommand.
  apply wp_bind, wp_matchTransferCommand; [done..|]. intros b1 n1 e1 l1 Hn1 He1.
  destruct b1; [apply wp_ret; by eapply HQ|].
  apply wp_bind, wp_matchServerCommand; [mgr_here|done..|]. intros b2 n2 e2 l2 Hn2 He2.
  sends_merge. destruct b2; [apply wp_ret; by eapply HQ|].
  apply wp_bind, wp_matchPingCommand; [mgr_here|done|]. intros b3 n3 e3 l3 Hn3 He3.
  sends_merge. destruct b3; node_go; by eapply HQ.
Qed.

(** The ping command on a legal destination and text. *)
Lemma wp_ping_command dest text n e (Q : unit -> StackNode * E -> Prop) :
  mgr_ok e -> node_ok n -> 0 <= dest <= 255 -> vsize (stringToBytes text) <= 119 ->
  (forall now e',
     sends e [node_datagram (node_addr_ n) dest PING_PKT (stringToBytes text)] e' ->
     Q tt (set_pings (pings_ n ++ [mkPing dest (stringToBytes text) now]) n, e')) ->
  wp (onCommand (to_string dest +:+ " " +:+ text)) (n, e) Q node_fault.
Proof.
  intros He Hn Hd Hl HQ. pose proof (node_addr_range _ Hn) as Ha.
  pose proof (split_loop_cons EmptyString _ text (to_string_no_space dest)) as Hsplit.
  assert (Ht : wp (matchTransferCommand (to_string dest +:+ " " +:+ text)) (n, e)
    (fun b s => b = false /\ s = (n, e)) node_fault).
  { unfold matchTransferCommand, splitSpaceVec. rewrite Hsplit.
    destruct (split_loop EmptyString text) as [|? [|? [|? [|? ?]]]]; try done.
    change (EmptyString +:+ to_string dest) with (to_string dest).
    by rewrite to_string_not_transfer, orb_true_r. }
  assert (Hs : wp (matchServerCommand (to_string dest +:+ " " +:+ text)) (n, e)
    (fun b s => b = false /\ s = (n, e)) node_fault).
  { unfold matchServerCommand, splitSpaceVec. rewrite Hsplit.
    destruct (split_loop EmptyString text) as [|? [|? ?]]; try done.
    change (EmptyString +:+ to_string dest) with (to_string dest).
    by rewrite to_string_not_server, orb_true_r. }
  unfold onCommand. apply wp_bind. eapply wp_conseq; [exact Ht| |done]. intros b s [-> ->].
  apply wp_bind. eapply wp_conseq; [exact Hs| |done]. intros b s [-> ->].
  apply wp_bind. unfold matchPingCommand.
  rewrite split_first_word by apply to_string_no_space.
  apply wp_attempt. unfold stoi, sto. rewrite strtol_to_string.
  rewrite (proj2 (in_int_spec dest)) by lims. cbn [lift_exn]. node_go.
  pose proof (node_packet_ok (node_addr_ n) dest PING_PKT (stringToBytes text) Ha Hd
    ltac:(unfold PING_PKT; lia) Hl) as Hnew.
  rewrite Hnew. apply node_packet_new in Hnew as (_ & _ & Hsend). node_go.
  apply wp_bind, wp_uncaught, wp_sendPacket; [done|done|]. intros e1 He1.
  apply wp_uncaught. node_go. by eapply HQ.
Qed.

Lemma take_ping_first src payload before p after :
  destAddr p = src -> msg p = payload ->
  Forall (fun q => ~ (destAddr q = src /\ msg q = payload)) before ->
  take_ping src (bytesToString payload) (before ++ p :: after) = Some (before ++ after).
Proof.
  intros Hd Hm. induction 1 as [|q before Hq Hb IH]; cbn.
  - by rewrite Hd, Z.eqb_refl, Hm, String.eqb_refl.
  - rewrite IH. destruct (Z.eqb_spec (destAddr q) src) as [E1|E1]; [|done].
    destruct (String.eqb_spec (bytesToString (msg q)) (bytesToString payload)) as [E2|E2];
      [|done]. destruct Hq. split; [done|]. by apply bytesToString_inj.
Qed.
End spec.
