(* ===== verification/AppSpec.v ===== *)
(** * What the tasks of the file transfer do

    The stream that the client writes and the worker expects, and the three
    [execute] methods run against any environment that obeys its laws. *)

From S2P Require Import Prelude CppStrings Doubles DoubleText Packet Transport Runtime TcpData TcpSend TcpSocket TcpManager TcpRun TcpGrow TcpInv TcpOps TcpSpec TcpFlow TcpSafe TcpHandlers Node Apps StackNode NodeRun NodeSpec.

(** ** The pattern *)

(** [n] bytes from position [pos] on of the stream that repeats a buffer of
    [size] bytes filled with [buf[i] = i]. *)
Definition pattern (size pos : Z) (n : nat) : list byte :=
  (fun i => u8 ((pos + Z.of_nat i) mod size)) <$> seq 0 n.

Lemma pattern_length size pos n : length (pattern size pos n) = n.
Proof. unfold pattern. by rewrite length_fmap, length_seq. Qed.

Lemma pattern_lookup size pos n i :
  (i < n)%nat -> pattern size pos n !! i = Some (u8 ((pos + Z.of_nat i) mod size)).
Proof. intros Hi. unfold pattern. rewrite list_lookup_fmap, lookup_seq_lt by done. done. Qed.

Lemma pattern_add size pos m n :
  pattern size pos (m + n) = pattern size pos m ++ pattern size (pos + Z.of_nat m) n.
Proof.
  unfold pattern. rewrite seq_app, fmap_app. f_equal. cbn [Nat.add].
  replace (seq m n) with (Nat.add m <$> seq 0 n) by (by rewrite fmap_add_seq, Nat.add_0_r).
  rewrite <- list_fmap_compose. apply list_fmap_ext. intros i j _. cbn. do 2 f_equal. lia.
Qed.

(** Buffer sizes between which the worker's check agrees: the pattern of bytes
    repeats every 256. *)
Definition compatible (size size' : Z) : Prop :=
  size = size' \/ (size mod 256 = 0 /\ size' mod 256 = 0).

Lemma u8_mod size z : size mod 256 = 0 -> u8 (z mod size) = u8 z.
Proof.
  intros Hm. unfold u8. rewrite Z.mod_mod_divide; [done|].
  by apply Z.mod_divide.
Qed.

Lemma pattern_compatible size size' pos n :
  compatible size size' -> pattern size pos n = pattern size' pos n.
Proof.
  intros [->|[H1 H2]]; [done|]. apply list_fmap_ext. intros i j _.
  by rewrite !u8_mod.
Qed.

(** Within one buffer the pattern is the buffer's index. *)
Lemma pattern_index size pos n i :
  0 < size -> 0 <= pos -> pos mod size + Z.of_nat n <= size -> (i < n)%nat ->
  pattern size pos n !! i = Some (u8 (pos mod size + Z.of_nat i)).
Proof.
  intros Hs Hp Hn Hi. rewrite pattern_lookup by done. do 2 f_equal.
  pose proof (Z.mod_pos_bound pos size Hs).
  rewrite <- (Z.mod_small (pos mod size + Z.of_nat i) size) by lia.
  by rewrite Zplus_mod_idemp_l.
Qed.

Lemma fill_length buf : length (fill buf) = length buf.
Proof. unfold fill. apply length_imap. Qed.

Lemma fill_lookup buf i : (i < length buf)%nat -> fill buf !! i = Some (u8 (Z.of_nat i)).
Proof.
  intros Hi. unfold fill. rewrite list_lookup_imap.
  by destruct (lookup_lt_is_Some_2 buf i Hi) as [b ->].
Qed.

Lemma fill_fill buf : fill (fill buf) = fill buf.
Proof.
  apply list_eq. intros i. destruct (decide (i < length buf)%nat).
  - rewrite !fill_lookup by (rewrite ?fill_length; done). done.
  - rewrite !lookup_ge_None_2; rewrite ?fill_length; lia || done.
Qed.

(** A piece of the filled buffer is a piece of the stream. *)
Lemma fill_piece buf pos n :
  0 < vsize buf -> 0 <= pos -> 0 <= n -> pos mod vsize buf + n <= vsize buf ->
  piece (fill buf) (pos mod vsize buf) n = pattern (vsize buf) pos (Z.to_nat n).
Proof.
  intros Hs Hp Hn Hle. pose proof (Z.mod_pos_bound pos (vsize buf) Hs).
  apply list_eq. intros i. unfold piece. destruct (decide (i < Z.to_nat n)%nat).
  - rewrite lookup_take_lt, lookup_drop by done.
    rewrite fill_lookup by (unfold vsize in *; lia). rewrite pattern_index by lia.
    do 2 f_equal. lia.
  - rewrite !lookup_ge_None_2; [done|rewrite pattern_length; lia|].
    rewrite length_take. lia.
Qed.

(** ** Tasks of a node *)

Definition put_task (id : nat) (k : TimerTask) (n : StackNode) : StackNode :=
  set_tasks (<[id := k]> (tasks_ n)) n.

Lemma put_task_at id k k' n :
  tasks_ n !! id = Some k' -> tasks_ (put_task id k n) !! id = Some k.
Proof. intros Hk. apply list_lookup_insert_eq. by eapply lookup_lt_Some. Qed.

Lemma put_task_put id k k' n : put_task id k (put_task id k' n) = put_task id k n.
Proof. unfold put_task. destruct n. cbn. unfold set_tasks. cbn. f_equal. apply list_insert_insert_eq. Qed.

Lemma put_task_id id k n : tasks_ n !! id = Some k -> put_task id k n = n.
Proof.
  intros Hk. unfold put_task. rewrite list_insert_id by done. by destruct n.
Qed.

Lemma tcpMan_put_task id k n : tcpMan_ (put_task id k n) = tcpMan_ n.
Proof. done. Qed.

Lemma set_tcpMan_put_task t id k n :
  set_tcpMan t (put_task id k n) = put_task id k (set_tcpMan t n).
Proof. done. Qed.

Lemma tasks_set_tcpMan t n : tasks_ (set_tcpMan t n) = tasks_ n.
Proof. done. Qed.

Lemma set_tcpMan_id n : set_tcpMan (tcpMan_ n) n = n.
Proof. by destruct n. Qed.

#[global] Opaque put_task.
Create Rewrite HintDb node.
#[export] Hint Rewrite put_task_put tcpMan_put_task set_tcpMan_put_task : node.

Lemma node_ok_put_task n id k :
  node_ok n -> task_ok (tcpMan_ n) k -> node_ok (put_task id k n).
Proof.
  intros Hn Hk. Transparent put_task. unfold put_task. Opaque put_task.
  apply node_ok_tasks; [done|]. by apply Forall_insert; [apply Hn|].
Qed.

(** ** The client *)

Definition client_task (k : TimerTask) (c : TransferClient) : TimerTask :=
  set_body (ClientTask c) k.

Definition worker_task (k : TimerTask) (w : TransferWorker) : TimerTask :=
  set_body (WorkerTask w) k.

Lemma client_task_body k c : body_ k = ClientTask c -> client_task k c = k.
Proof. destruct k. cbn. by intros ->. Qed.

Lemma worker_task_body k w : body_ k = WorkerTask w -> worker_task k w = k.
Proof. destruct k. cbn. by intros ->. Qed.

(** The client after its first tick on an open connection. *)
Definition begun (now : Z) (c : TransferClient) : TransferClient :=
  if startTime_ c =? 0 then set_startTime now c else c.

(** Where in its buffer the client is, and how much it offers to [write]. *)
Definition client_index (c : TransferClient) : Z := client_pos_ c mod vsize (client_buf_ c).

Definition client_offer (c : TransferClient) : Z :=
  Z.min (vsize (client_buf_ c) - client_index c) (amount_ c).

Definition client_buffer (c : TransferClient) : list byte :=
  if client_index c =? 0 then fill (client_buf_ c) else client_buf_ c.

(** The client after [count] bytes were accepted. *)
Definition advanced_client (count : Z) (c : TransferClient) : TransferClient :=
  set_amount (amount_ c - count) (set_client_pos (client_pos_ c + count)
    (set_client_buf (client_buffer c) c)).

Definition stopped (k : TimerTask) : TimerTask := set_intervalMs 0 k.

Ltac app_step :=
  first [ node_step
        | lazymatch goal with
          | |- wp (tcp (release _)) _ _ _ =>
              apply wp_tcp; eapply run_wp; [apply release_run; eassumption|]; cbn [fst snd]
          end ].
Ltac app_go := repeat app_step.

(** Comparisons of known socket states are evaluated. *)
Ltac decide_states :=
  repeat match goal with
  | |- context [bool_decide ?P] =>
      let b := eval vm_compute in (bool_decide P) in
      lazymatch b with
      | true => change (bool_decide P) with true
      | false => change (bool_decide P) with false
      end
  end; cbn [negb].

Section apps.
Context `{ManagerLaws E}.
Implicit Types (n : StackNode) (e : E).

Lemma wp_rem_int a b {S} (s : S) (Q : Z -> S -> Prop) X :
  0 <= a <= INT_MAX -> 0 < b -> Q (a mod b) s -> wp (rem_int a b) s Q X.
Proof.
  intros Ha Hb HQ. unfold rem_int. rewrite decide_False by lia.
  assert (0 <= Z.quot a b <= a).
  { rewrite Z.quot_div_nonneg by lia. split; [apply Z.div_pos; lia|].
    apply Z.div_le_upper_bound; nia. }
  rewrite (proj2 (in_int_spec _)) by lims. apply wp_ret. by rewrite Z.rem_mod_nonneg by lia.
Qed.

Lemma wp_upd_client id f k c n e (Q : unit -> StackNode * E -> Prop) X :
  tasks_ n !! id = Some (client_task k c) ->
  Q tt (put_task id (client_task k (f c)) n, e) -> wp (upd_client id f) (n, e) Q X.
Proof. intros Hk HQ. by eapply wp_upd_task. Qed.

Lemma wp_upd_worker id f k w n e (Q : unit -> StackNode * E -> Prop) X :
  tasks_ n !! id = Some (worker_task k w) ->
  Q tt (put_task id (worker_task k (f w)) n, e) -> wp (upd_worker id f) (n, e) Q X.
Proof. intros Hk HQ. by eapply wp_upd_task. Qed.

Lemma wp_stop id k n e (Q : unit -> StackNode * E -> Prop) X :
  tasks_ n !! id = Some k -> Q tt (put_task id (stopped k) n, e) -> wp (stop id) (n, e) Q X.
Proof. intros Hk HQ. by eapply wp_upd_task. Qed.

(** What the first tick logs. *)
Lemma wp_client_begin id k c n e (Q : unit -> StackNode * E -> Prop) :
  mgr_ok e -> tasks_ n !! id = Some (client_task k c) ->
  (forall now e', 0 <= now <= TIME_LIMIT -> sends e [] e' ->
     Q tt (put_task id (client_task k (begun now c)) n, e')) ->
  wp (if startTime_ c =? 0
      then
        let! now := manager mgr_now in
        upd_client id (set_startTime now) ;;
        logOutput ("time = " +:+ to_string now +:+ " msec") ;;
        logOutput "started" ;;
        logOutput ("bytes to send = " +:+ to_string (amount_ c))
      else ret tt) (n, e) Q node_fault.
Proof.
  intros He Hk HQ. unfold begun in HQ. destruct (startTime_ c =? 0).
  - node_go. eapply wp_upd_client; [done|]. node_go. by apply HQ.
  - apply wp_ret. specialize (HQ 0 e ltac:(lims) (sends_refl _ He)).
    by rewrite put_task_id in HQ.
Qed.

(** The lines of an abort, the release of the socket, and no more ticks. *)
Lemma wp_abort id k sk s reason pos n e (Q : unit -> StackNode * E -> Prop) :
  mgr_ok e -> tasks_ n !! id = Some k -> sock_at sk s (tcpMan_ n) ->
  (forall e', sends e [] e' ->
     Q tt (put_task id (stopped k) (set_tcpMan (release_spec sk s (tcpMan_ n)) n), e')) ->
  wp (let! now := manager mgr_now in
      Node.logError ("time = " +:+ to_string now +:+ " msec") ;;
      Node.logError reason ;;
      Node.logError ("position = " +:+ pos) ;;
      Node.logError "releasing connection..." ;;
      tcp (release sk) ;;
      stop id) (n, e) Q node_fault.
Proof.
  intros He Hk Hs HQ. node_go. apply wp_tcp. eapply run_wp; [by apply release_run|].
  cbn [fst snd]. eapply wp_stop; [done|]. by apply HQ.
Qed.

Lemma begun_fields now c :
  client_sock_ (begun now c) = client_sock_ c /\ client_buf_ (begun now c) = client_buf_ c /\
  amount_ (begun now c) = amount_ c /\ client_pos_ (begun now c) = client_pos_ c.
Proof. unfold begun. by case_match. Qed.

Lemma wp_client_connected id k c s n e (Q : unit -> StackNode * E -> Prop) :
  mgr_ok e -> node_ok n -> tasks_ n !! id = Some (client_task k c) ->
  sock_at (client_sock_ c) s (tcpMan_ n) -> state_ s = ESTABLISHED ->
  sndNxt_ s + vsize (client_buf_ c) <= SEQ_LIMIT ->
  (amount_ c = 0 -> forall now e', 0 <= now <= TIME_LIMIT ->
     sends e (close_sends (addr_ (tcpMan_ n)) s) e' ->
     Q tt (put_task id (client_task k (begun now c))
             (set_tcpMan (put_sock (client_sock_ c) (closed s) (tcpMan_ n)) n), e')) ->
  (amount_ c < 0 -> forall now e', 0 <= now <= TIME_LIMIT -> sends e [] e' ->
     Q tt (put_task id (stopped (client_task k
                          (set_client_buf (client_buffer c) (begun now c))))
             (set_tcpMan (release_spec (client_sock_ c) s (tcpMan_ n)) n), e')) ->
  (0 < amount_ c -> forall now now' segs e', 0 <= now <= TIME_LIMIT ->
     0 <= now' <= TIME_LIMIT ->
     let count := write_count s (client_offer c) in
     fresh_segs (sndNxt_ s) (piece (client_buffer c) (client_index c) count) segs ->
     sends e (map (data_datagram (addr_ (tcpMan_ n)) s) segs) e' ->
     Q tt (put_task id (client_task k (advanced_client count (begun now c)))
             (set_tcpMan (put_sock (client_sock_ c) (written segs count now' s)
                            (tcpMan_ n)) n), e')) ->
  wp (client_connected id c) (n, e) Q node_fault.
Proof.
  intros He Hn Hk Hs Hst Hseq HQ0 HQn HQp. unfold client_connected.
  pose proof (no_tcp _ Hn) as Ht. pose proof (tm_socks _ Ht _ _ Hs) as Hok.
  assert (Hpeer : peer_ok (addr_ (tcpMan_ n)) s)
    by (eapply open_peer; [done..|by rewrite Hst]).
  pose proof (no_tasks _ Hn) as Htasks. rewrite Forall_lookup in Htasks.
  destruct (Htasks _ _ Hk) as (_ & _ & [Hb1 Hb2] & Ham & Hpos & Hmax & _).
  pose proof (Z.mod_pos_bound (client_pos_ c) (vsize (client_buf_ c)) Hb1) as Hidx.
  apply wp_bind, wp_client_begin with (k := k); [done..|]. intros now e1 Hnow He1.
  set (c1 := begun now c).
  assert (H1 : tasks_ (put_task id (client_task k c1) n) !! id = Some (client_task k c1))
    by (by eapply put_task_at).
  destruct (Z.eqb_spec (amount_ c) 0) as [Hz|Hz].
  { node_go. apply wp_tcp. autorewrite with node. eapply wp_close; [mgr_here|done|done|apply Ht|intros _; apply Hpeer|].
    intros e3 He3. cbn [fst snd]. autorewrite with node. sends_merge. by apply HQ0. }
  apply wp_bind, wp_rem_int; [lims|lia|]. fold (client_index c) (client_buffer c) in *.
  apply wp_bind. eapply wp_upd_client; [done|]. autorewrite with node.
  set (c2 := set_client_buf (client_buffer c) c1).
  assert (H2 : tasks_ (put_task id (client_task k c2) n) !! id = Some (client_task k c2))
    by (by eapply put_task_at).
  apply wp_bind, wp_int; [lims|]. fold (client_offer c).
  assert (Hlen : vsize (client_buffer c) = vsize (client_buf_ c)).
  { unfold client_buffer. case_match; [|done]. unfold vsize. by rewrite fill_length. }
  destruct (decide (amount_ c < 0)) as [Hneg|Hpos0].
  - apply wp_bind, wp_tcp. eapply run_wp.
    { apply (write_refused_run _ _ _ _ s); [done|]. intros (_ & _ & Ho). revert Ho.
      unfold client_offer. lia. }
    cbn [fst snd]. rewrite Z.eqb_refl. rewrite set_tcpMan_id.
    eapply wp_abort; [mgr_here|done|done|]. intros e3 He3. sends_merge.
    autorewrite with node. by apply HQn.
  - assert (Hoff : 0 <= client_offer c <= vsize (client_buf_ c) - client_index c /\
      client_offer c <= amount_ c) by (unfold client_offer; lia).
    pose proof (write_count_range s (client_offer c) ltac:(lia)) as Hcount.
    apply wp_bind, wp_tcp. autorewrite with node.
    eapply wp_write; [mgr_here|done|done|done|lia|lia| |lia|].
    { rewrite Hlen. lia. }
    intros segs now' e2 Hf Hn' He2. cbn [fst snd]. autorewrite with node.
    destruct (Z.eqb_spec (write_count s (client_offer c)) (-1)) as [Hbad|_]; [lia|].
    apply wp_bind, wp_int; [lims|]. apply wp_bind. eapply wp_upd_client; [done|].
    autorewrite with node. apply wp_bind, wp_int; [lims|].
    eapply wp_upd_client; [by eapply put_task_at|]. autorewrite with node. sends_merge.
    destruct (begun_fields now c) as (_ & E1 & E2 & E3). fold c1 in E1, E2, E3.
    specialize (HQp ltac:(lia) now now' segs e2 Hnow Hn' Hf ltac:(done)).
    unfold advanced_client, client_buffer, client_index in HQp. fold c1 in HQp.
    rewrite E1, E2, E3 in HQp. exact HQp.
Qed.

Lemma wp_client_closed id k c s n e (Q : unit -> StackNode * E -> Prop) :
  mgr_ok e -> tasks_ n !! id = Some (client_task k c) ->
  sock_at (client_sock_ c) s (tcpMan_ n) -> 0 <= startTime_ c <= TIME_LIMIT ->
  (forall now e', 0 <= now <= TIME_LIMIT -> sends e [] e' ->
     Q tt (put_task id (stopped (client_task k (set_finishTime now c)))
             (set_tcpMan (release_spec (client_sock_ c) s (tcpMan_ n)) n), e')) ->
  wp (client_closed id c) (n, e) Q node_fault.
Proof.
  intros He Hk Hs Hstart HQ. unfold client_closed. node_go.
  eapply wp_upd_client; [done|]. node_go.
  set (c' := set_finishTime _ c).
  assert (Hlog : forall (b : bool) str e1 (K : unit -> StackNode * E -> Prop), mgr_ok e1 ->
    (forall e2, sends e1 [] e2 -> K tt (put_task id (client_task k c') n, e2)) ->
    wp (if b then logOutput str else ret tt) (put_task id (client_task k c') n, e1) K node_fault).
  { intros [] str e1 K H1 HK; node_go; apply HK; by auto with nb. }
  apply Hlog; [mgr_here|]. intros e2 He2. sends_merge. apply wp_bind, wp_tcp.
  autorewrite with node. eapply run_wp; [by apply release_run|]. cbn [fst snd].
  autorewrite with node. eapply wp_stop; [by eapply put_task_at|]. autorewrite with node.
  by apply HQ.
Qed.

(** ** The worker *)

Definition worker_index (w : TransferWorker) : Z := worker_pos_ w mod vsize (worker_buf_ w).

(** How many bytes a tick takes from a socket. *)
Definition worker_count (w : TransferWorker) (s : TcpSocket) : Z :=
  read_count s (vsize (worker_buf_ w) - worker_index w).

Definition filled_worker (w : TransferWorker) (s : TcpSocket) : TransferWorker :=
  set_worker_buf (overwrite (worker_buf_ w) (Z.to_nat (worker_index w))
    (Z.to_nat (worker_count w s)) (recvBuf_ s)) w.

(** The bytes about to be read are those the worker expects. *)
Definition expected (w : TransferWorker) (s : TcpSocket) : Prop :=
  take (Z.to_nat (worker_count w s)) (recvBuf_ s) =
  pattern (vsize (worker_buf_ w)) (worker_pos_ w) (Z.to_nat (worker_count w s)).

#[export] Instance expected_dec w s : Decision (expected w s).
Proof. unfold expected. apply _. Defined.

Lemma verify_loop_run {T} m i buf (s : T) :
  0 <= i -> (Z.to_nat i + m <= length buf)%nat ->
  exists b, verify_loop m i buf s = (Ret b, s) /\
    (b = true <-> forall j, (j < m)%nat ->
       buf !! (Z.to_nat i + j)%nat = Some (u8 (i + Z.of_nat j))).
Proof.
  revert i. induction m as [|m IH]; intros i Hi Hl.
  { exists true. split; [done|]. split; [lia|done]. }
  cbn [verify_loop]. destruct (lookup_lt_is_Some_2 buf (Z.to_nat i)) as [b Hb]; [lia|].
  rewrite Hb. destruct (decide (b = u8 i)) as [->|Hne].
  - destruct (IH (i + 1) ltac:(lia) ltac:(lia)) as (r & Hr & Hiff). exists r.
    split; [done|]. rewrite Hiff. split; intros Hj j Hlt.
    + destruct j as [|j]; [by rewrite Nat.add_0_r, Z.add_0_r|].
      specialize (Hj j ltac:(lia)). revert Hj.
      replace (Z.to_nat (i + 1) + j)%nat with (Z.to_nat i + S j)%nat by lia.
      by replace (i + 1 + Z.of_nat j) with (i + Z.of_nat (S j)) by lia.
    + specialize (Hj (S j) ltac:(lia)). revert Hj.
      replace (Z.to_nat (i + 1) + j)%nat with (Z.to_nat i + S j)%nat by lia.
      by replace (i + 1 + Z.of_nat j) with (i + Z.of_nat (S j)) by lia.
  - exists false. split; [done|]. split; [done|]. intros Hj. destruct Hne.
    specialize (Hj 0%nat ltac:(lia)). rewrite Nat.add_0_r, Z.add_0_r in Hj. congruence.
Qed.

(** A byte of a buffer over which [read] wrote. *)
Lemma overwrite_lookup bytes pos m src j :
  (pos + m <= length bytes)%nat -> (m <= length src)%nat -> (j < m)%nat ->
  overwrite bytes pos m src !! (pos + j)%nat = src !! j.
Proof.
  intros Hb Hs Hj. unfold overwrite. rewrite lookup_app_r by (rewrite length_take; lia).
  rewrite length_take_le by lia. replace (pos + j - pos)%nat with j by lia.
  rewrite lookup_app_l by (rewrite length_take; lia). by rewrite lookup_take_lt.
Qed.

Lemma overwrite_length bytes pos m src :
  (pos + m <= length bytes)%nat -> (m <= length src)%nat ->
  length (overwrite bytes pos m src) = length bytes.
Proof.
  intros Hb Hs. unfold overwrite. rewrite !length_app, !length_take, length_drop. lia.
Qed.

Lemma worker_bounds w s :
  sock_ok s -> buffer_ok (worker_buf_ w) -> 0 <= worker_pos_ w ->
  0 <= worker_index w < vsize (worker_buf_ w) /\ 0 <= worker_count w s /\
  worker_index w + worker_count w s <= vsize (worker_buf_ w) /\
  worker_count w s <= vsize (recvBuf_ s).
Proof.
  intros Hok [Hb _] Hp. destruct (ok_buf _ Hok) as [Hu _].
  pose proof (Z.mod_pos_bound (worker_pos_ w) (vsize (worker_buf_ w)) Hb).
  pose proof (vsize_nonneg (recvBuf_ s)). unfold worker_count, read_count, worker_index. lia.
Qed.

(** The check of the bytes just read compares them with the pattern. *)
Lemma verify_expected w s :
  sock_ok s -> buffer_ok (worker_buf_ w) -> 0 <= worker_pos_ w ->
  (forall j, (j < Z.to_nat (worker_count w s))%nat ->
     worker_buf_ (filled_worker w s) !! (Z.to_nat (worker_index w) + j)%nat =
     Some (u8 (worker_index w + Z.of_nat j))) <-> expected w s.
Proof.
  intros Hok Hb Hp. pose proof (worker_bounds w s Hok Hb Hp) as (Hi & Hc0 & Hle & Hr).
  unfold expected. set (m := Z.to_nat (worker_count w s)).
  assert (Hbuf : forall j, (j < m)%nat ->
    worker_buf_ (filled_worker w s) !! (Z.to_nat (worker_index w) + j)%nat = recvBuf_ s !! j).
  { intros j Hj. apply overwrite_lookup; unfold vsize in *; lia. }
  assert (Hpat : forall j, (j < m)%nat ->
    pattern (vsize (worker_buf_ w)) (worker_pos_ w) m !! j =
    Some (u8 (worker_index w + Z.of_nat j))).
  { intros j Hj. apply pattern_index; [lia|done| |done]. unfold worker_index in *. lia. }
  split.
  - intros Hall. apply list_eq. intros j. destruct (decide (j < m)%nat) as [Hj|Hj].
    + by rewrite lookup_take_lt, Hpat, <- Hbuf, Hall.
    + rewrite !lookup_ge_None_2; [done|rewrite pattern_length; lia|rewrite length_take; lia].
  - intros Heq j Hj. rewrite Hbuf, <- (Hpat j Hj), <- Heq by done. by rewrite lookup_take_lt.
Qed.

Lemma wp_worker_read id k w s n e (Q : unit -> StackNode * E -> Prop) :
  mgr_ok e -> node_ok n -> tasks_ n !! id = Some (worker_task k w) ->
  sock_at (worker_sock_ w) s (tcpMan_ n) -> readable s = true ->
  worker_pos_ w + vsize (worker_buf_ w) <= INT_MAX ->
  let count := worker_count w s in
  let t := put_sock (worker_sock_ w) (consumed count s) (tcpMan_ n) in
  (expected w s -> Q tt (put_task id
     (worker_task k (set_worker_pos (worker_pos_ w + count) (filled_worker w s)))
     (set_tcpMan t n), e)) ->
  (~ expected w s -> forall e', sends e [] e' ->
     Q tt (put_task id (stopped (worker_task k (filled_worker w s)))
             (set_tcpMan (release_spec (worker_sock_ w) (consumed count s) t) n), e')) ->
  wp (worker_execute id w) (n, e) Q node_fault.
Proof.
  intros He Hn Hk Hs Hr Hroom count t HQ HQn.
  pose proof (tm_socks _ (no_tcp _ Hn) _ _ Hs) as Hok.
  pose proof (no_tasks _ Hn) as Htasks. rewrite Forall_lookup in Htasks.
  destruct (Htasks _ _ Hk) as (_ & _ & Hb & Hpos & _).
  pose proof (worker_bounds w s Hok Hb Hpos) as (Hi & Hc0 & Hle & Hrb). destruct Hb as [Hb1 Hb2].
  unfold worker_execute. apply wp_bind. eapply wp_socket_of; [done|].
  replace (isClosed s) with false
    by (unfold isClosed, readable in *; symmetry; by destruct (state_ s)).
  cbn [negb]. apply wp_bind, wp_rem_int; [lims|lia|]. fold (worker_index w).
  apply wp_bind, wp_int; [lims|]. apply wp_bind, wp_tcp. eapply run_wp.
  { apply read_run; [done|done|done|lia|lia|]. fold (worker_count w s). lia. }
  fold (worker_count w s) count. cbn [fst snd default]. fold t.
  change (overwrite _ _ _ _) with (worker_buf_ (filled_worker w s)).
  apply wp_bind. eapply wp_upd_worker; [done|].
  change (set_worker_buf (worker_buf_ (filled_worker w s)) w) with (filled_worker w s).
  set (n1 := put_task id _ _).
  assert (H1 : tasks_ n1 !! id = Some (worker_task k (filled_worker w s)))
    by (by eapply put_task_at).
  destruct (Z.eqb_spec count (-1)) as [|_]; [lia|].
  destruct (verify_loop_run (Z.to_nat count) (worker_index w) (worker_buf_ (filled_worker w s))
    (n1, e)) as (b & Hv & Hiff); [lia| |].
  { cbn. rewrite overwrite_length; unfold vsize in *; fold count; lia. }
  apply wp_bind. eapply (run_wp _ _ _ _ b).
  { destruct (Z.gtb_spec count 0); [exact Hv|].
    replace (Z.to_nat count) with 0%nat in Hv by lia. exact Hv. }
  unfold count in Hiff. rewrite verify_expected in Hiff by done.
  destruct b; cbn [negb].
  - apply wp_bind, wp_int; [lims|]. eapply wp_upd_worker; [exact H1|]. unfold n1.
    autorewrite with node. apply HQ. by apply Hiff.
  - eapply wp_abort; [done|exact H1|cbn; by eapply put_sock_at|]. intros e' He'.
    unfold n1. autorewrite with node. apply HQn; [|done]. by intros ?%Hiff.
Qed.

(** ** Every tick of every task *)

(** Room for one more tick: sequence numbers for the client's buffer, and a
    position that the worker can still count. *)
Definition task_ready (t : TcpManager) (k : TimerTask) : Prop :=
  match body_ k with
  | ClientTask c => forall s, sock_at (client_sock_ c) s t ->
      sndNxt_ s + vsize (client_buf_ c) <= SEQ_LIMIT
  | ServerTask _ => True
  | WorkerTask w => worker_pos_ w + vsize (worker_buf_ w) <= INT_MAX
  end.

Lemma task_of_node n id k : node_ok n -> tasks_ n !! id = Some k -> task_ok (tcpMan_ n) k.
Proof. intros Hn Hk. eapply Forall_lookup_1; [apply Hn|done]. Qed.

Lemma stopped_ok t k : task_ok t k -> task_ok t (stopped k).
Proof. intros [_ Hb]. split; [|done]. unfold interval_ok. cbn. lims. Qed.

(** A task and a socket of a node changed together. *)
Lemma node_ok_both n id k t :
  node_ok n -> tm_ok t -> grows (tcpMan_ n) t -> task_ok (tcpMan_ n) k ->
  node_ok (put_task id k (set_tcpMan t n)).
Proof.
  intros Hn Ht Hg Hk. apply node_ok_put_task; [by apply node_ok_tcp|].
  by eapply task_ok_grows.
Qed.

Lemma put_sock_grows sk s t : grows t (put_sock sk s t).
Proof. split; [done|]. by rewrite sockets_put, length_insert. Qed.

Lemma release_grows sk s t : sock_at sk s t -> grows t (release_spec sk s t).
Proof.
  intros Hs. destruct (framed_release (H0 := any_env (H := no_env)) sk (t, tt)) as [[Hg _] _].
  by rewrite (release_run _ s) in Hg.
Qed.

Lemma begun_ok t k c now :
  task_ok t (client_task k c) -> 0 <= now <= TIME_LIMIT -> task_ok t (client_task k (begun now c)).
Proof.
  intros [Hi Hb] Hn. split; [done|]. unfold begun. case_match; [|done]. cbn in *. intuition.
Qed.

Lemma client_buffer_size c : vsize (client_buffer c) = vsize (client_buf_ c).
Proof. unfold client_buffer. case_match; [|done]. unfold vsize. by rewrite fill_length. Qed.

Lemma client_buf_ok t k c : task_ok t (client_task k c) ->
  task_ok t (client_task k (set_client_buf (client_buffer c) c)).
Proof.
  intros [Hi Hb]. split; [done|]. cbn in *. unfold buffer_ok in *.
  rewrite client_buffer_size. intuition.
Qed.

Lemma client_offer_le c : client_offer c <= amount_ c.
Proof. unfold client_offer. lia. Qed.

Lemma advanced_client_ok t k c count :
  task_ok t (client_task k c) -> 0 <= count <= Z.max 0 (amount_ c) ->
  0 < amount_ c -> task_ok t (client_task k (advanced_client count c)).
Proof.
  intros [Hi (H1 & H2 & H3 & H4 & H5 & H6)] Hc Ha. split; [done|]. cbn in *.
  unfold buffer_ok in *. rewrite client_buffer_size. split; [done|]. split; [done|]. lims.
Qed.

Implicit Types (K : unit -> StackNode * E -> Prop).

(** What is left after a tick: a node in its invariant that still has the task. *)
Definition after_tick (id : nat) (e : E) (Q : unit -> StackNode * E -> Prop) : Prop :=
  forall n' e' l, node_ok n' -> is_Some (tasks_ n' !! id) -> sends e l e' -> Q tt (n', e').

Lemma put_task_some id k n t :
  is_Some (tasks_ n !! id) -> is_Some (tasks_ (put_task id k (set_tcpMan t n)) !! id).
Proof. intros [x Hx]. exists k. by eapply put_task_at. Qed.

Lemma wp_client_safe id k c n e K :
  mgr_ok e -> node_ok n -> tasks_ n !! id = Some (client_task k c) ->
  task_ready (tcpMan_ n) (client_task k c) -> after_tick id e K ->
  wp (client_execute id c) (n, e) K node_fault.
Proof.
  intros He Hn Hk Hready HQ. pose proof (task_of_node _ _ _ Hn Hk) as Hok.
  pose proof (proj2 Hok) as ([s Hs] & Hb & Ham & Hp & Hm & Hst). cbn in Hready.
  pose proof (no_tcp _ Hn) as Ht. pose proof (tm_socks _ Ht _ _ Hs) as Hsok.
  assert (Hsome : is_Some (tasks_ n !! id)) by (by eexists).
  assert (Hsame : K tt (n, e)) by (eapply HQ; [done|done|by apply sends_refl]).
  unfold client_execute. apply wp_bind. eapply wp_socket_of; [done|].
  unfold isConnectionPending, isConnected, isClosurePending, isClosed.
  destruct (state_ s) eqn:Est; decide_states.
  - eapply wp_client_closed; [done..|]. intros now e' Hnow He'. eapply HQ; [|by apply put_task_some|done].
    apply node_ok_both; [done|by eapply tm_ok_release|by apply release_grows|].
    apply stopped_ok. split; apply Hok.
  - node_go. eapply HQ; done.
  - by apply wp_ret.
  - eapply wp_client_connected; [done..|by apply Hready| | |].
    + intros _ now e' Hnow He'. eapply HQ; [|by apply put_task_some|done].
      apply node_ok_both; [done| |apply put_sock_grows|by apply begun_ok].
      eapply tm_ok_put; [done|done|by apply closed_ok|apply closed_step].
    + intros _ now e' Hnow He'. eapply HQ; [|by apply put_task_some|done].
      apply node_ok_both; [done|by eapply tm_ok_release|by apply release_grows|].
      apply stopped_ok. destruct (begun_fields now c) as (_ & E1 & _ & E3).
      replace (client_buffer c) with (client_buffer (begun now c))
        by (unfold client_buffer, client_index; by rewrite E1, E3).
      by apply client_buf_ok, begun_ok.
    + intros Hpos now now' segs e' Hnow Hn' count Hf He'.
      destruct (begun_fields now c) as (_ & E1 & E2 & E3). pose proof (client_offer_le c).
      pose proof (Z.mod_pos_bound (client_pos_ c) _ (proj1 Hb)) as Hidx.
      assert (Hoff : 0 <= client_offer c <= vsize (client_buf_ c) - client_index c)
        by (unfold client_offer, client_index; lia).
      pose proof (write_count_range s (client_offer c) ltac:(lia)) as Hcount. fold count in Hcount.
      eapply HQ; [|by apply put_task_some|done].
      apply node_ok_both; [done| |apply put_sock_grows|].
      * eapply tm_ok_put; [done|done| |apply written_step; by rewrite Est].
        eapply written_ok; [done|done| | |done].
        -- apply piece_size; [apply Hidx|lia|]. rewrite client_buffer_size. unfold client_index in *. lia.
        -- specialize (Hready s Hs). unfold client_index in *. lia.
      * apply advanced_client_ok; [by apply begun_ok|rewrite E2; lia|by rewrite E2].
  - by apply wp_ret.
Qed.

Lemma filled_worker_ok t k w s pos :
  task_ok t (worker_task k w) -> sock_ok s -> 0 <= pos <= INT_MAX ->
  task_ok t (worker_task k (set_worker_pos pos (filled_worker w s))).
Proof.
  intros [Hi (H1 & H2 & H3)] Hok Hpos. split; [done|].
  destruct (worker_bounds w s Hok H2 (proj1 H3)) as (? & ? & ? & ?).
  split; [done|]. split; [|done]. unfold buffer_ok, vsize in *. cbn.
  rewrite overwrite_length; unfold vsize in *; lia.
Qed.

Lemma wp_worker_safe id k w n e K :
  mgr_ok e -> node_ok n -> tasks_ n !! id = Some (worker_task k w) ->
  task_ready (tcpMan_ n) (worker_task k w) -> after_tick id e K ->
  wp (worker_execute id w) (n, e) K node_fault.
Proof.
  intros He Hn Hk Hready HQ. pose proof (task_of_node _ _ _ Hn Hk) as Hok.
  pose proof (proj2 Hok) as ([s Hs] & Hb & Hp). cbn in Hready.
  pose proof (no_tcp _ Hn) as Ht. pose proof (tm_socks _ Ht _ _ Hs) as Hsok.
  assert (Hsome : is_Some (tasks_ n !! id)) by (by eexists).
  assert (Hrel : forall w' s' t', task_ok (tcpMan_ n) (worker_task k w') -> tm_ok t' ->
    sock_at (worker_sock_ w) s' t' -> grows (tcpMan_ n) t' ->
    forall e', sends e [] e' ->
    K tt (put_task id (stopped (worker_task k w'))
            (set_tcpMan (release_spec (worker_sock_ w) s' t') n), e')).
  { intros w' s' t' Hw Ht' Hs' Hg e' He'. eapply HQ; [|by apply put_task_some|done].
    apply node_ok_both; [done|by eapply tm_ok_release| |by apply stopped_ok].
    etrans; [done|by apply release_grows]. }
  destruct (readable s) eqn:Hr.
  - pose proof (worker_bounds w s Hsok Hb (proj1 Hp)) as (Hi & Hc0 & Hle & Hrb).
    assert (Ht1 : tm_ok (put_sock (worker_sock_ w) (consumed (worker_count w s) s) (tcpMan_ n))).
    { eapply tm_ok_put; [done|done|apply consumed_ok; [done|]|apply consumed_step].
      destruct (ok_buf _ Hsok). lia. }
    eapply wp_worker_read; [done..| |].
    + intros _. eapply HQ; [|by apply put_task_some|by apply sends_refl].
      apply node_ok_both; [done|done|apply put_sock_grows|].
      apply filled_worker_ok; [done|done|lia].
    + intros _. apply Hrel; [|done|by eapply put_sock_at|apply put_sock_grows].
      by apply (filled_worker_ok _ _ _ _ (worker_pos_ w)).
  - unfold worker_execute. apply wp_bind. eapply wp_socket_of; [done|].
    destruct (isClosed s); cbn [negb].
    + node_go. eapply wp_stop; [done|]. eapply HQ; [|eexists; by eapply put_task_at|done].
      apply node_ok_put_task; [done|by apply stopped_ok].
    + destruct Hb as [Hb1 Hb2]. pose proof (Z.mod_pos_bound (worker_pos_ w) _ Hb1).
      apply wp_bind, wp_rem_int; [lims|lia|]. apply wp_bind, wp_int; [lims|].
      apply wp_bind, wp_tcp. eapply run_wp.
      { apply (read_refused_run _ _ _ _ s); [done|]. rewrite Hr. by intros []. }
      cbn [fst snd default]. rewrite set_tcpMan_id. apply wp_bind.
      eapply wp_upd_worker; [done|]. rewrite Z.eqb_refl.
      eapply wp_abort; [done|by eapply put_task_at|done|]. intros e' He'.
      autorewrite with node. apply Hrel; [|done..]. by destruct w.
Qed.

Lemma wp_server_safe id k srv n e K :
  mgr_ok e -> node_ok n -> tasks_ n !! id = Some (set_body (ServerTask srv) k) ->
  after_tick id e K -> wp (server_execute id srv) (n, e) K node_fault.
Proof.
  intros He Hn Hk HQ. pose proof (task_of_node _ _ _ Hn Hk) as Hok.
  pose proof (proj2 Hok) as ([s Hs] & Hw & Hsz & Hmax).
  assert (Hsome : is_Some (tasks_ n !! id)) by (by eexists).
  unfold server_execute. apply wp_bind. eapply wp_socket_of; [done|].
  destruct (isClosed s); cbn [negb].
  - node_go. eapply wp_stop; [done|]. eapply HQ; [|eexists; by eapply put_task_at|done].
    apply node_ok_put_task; [done|by apply stopped_ok].
  - apply wp_bind, wp_tcp_ok; [done|auto with frame|].
    eapply wp_accept_safe; [done|apply Hn|done|]. intros r t' Ht' _ Hr.
    split; [done|]. cbn [fst snd]. intros Hn' Hg.
    destruct r as [conn|]; [|apply wp_ret; eapply HQ; [done|done|by apply sends_refl]].
    destruct (Hr conn eq_refl) as [cs Hcs]. node_go.
    destruct (new_TransferWorker conn (workerInterval_ srv) (bufSize_ srv)) as [x|kw] eqn:Hkw.
    { unfold new_TransferWorker, new_buffer in Hkw.
      destruct (Z.ltb_spec (bufSize_ srv) 0); [lia|done]. }
    node_go. apply wp_launch; [mgr_here|done| |].
    + eapply new_worker_ok; [done|by eexists|done|lia|lia].
    + intros e2 Hn2 He2. sends_merge. eapply HQ; [done| |done].
      destruct Hsome as [x Hx]. exists x. cbn. by apply lookup_app_l_Some.
Qed.

(** A timer's task runs and is armed again. *)
Lemma wp_tick_safe id k n e K :
  mgr_ok e -> node_ok n -> tasks_ n !! id = Some k -> task_ready (tcpMan_ n) k ->
  (forall n' e' l, node_ok n' -> sends e l e' -> K tt (n', e')) ->
  wp (tick id) (n, e) K node_fault.
Proof.
  intros He Hn Hk Hready HQ. unfold tick. apply wp_bind.
  assert (Hafter : after_tick id e (fun _ s => wp (schedule id) s K node_fault)).
  { intros n' e' l Hn' [k' Hk'] He'. eapply wp_schedule; [mgr_here|done| |].
    - by apply (task_of_node _ _ _ Hn' Hk').
    - intros e2 He2. sends_merge. by eapply HQ. }
  unfold execute. apply wp_bind. eapply wp_task_of; [done|].
  destruct k as [ms [c|srv|w]]; cbn [body_].
  - by eapply (wp_client_safe _ (mkTimerTask ms (ClientTask c))).
  - by eapply (wp_server_safe _ (mkTimerTask ms (ServerTask srv))).
  - by eapply (wp_worker_safe _ (mkTimerTask ms (WorkerTask w))).
Qed.
End apps.

(** ** Timers *)

(** Room for what a timer of the node does. *)
Definition timer_ready (n : StackNode) (cb : NodeTimer) : Prop :=
  match cb with
  | PingTimedOut _ => True
  | RetransmissionTick _ =>
      timeouts_below (Z.of_nat (size (establishedByKey_ (tcpMan_ n)))) (tcpMan_ n)
  | TaskTick _ id => exists k, tasks_ n !! id = Some k /\ task_ready (tcpMan_ n) k
  end.

Lemma wp_timer `{ManagerLaws E} `{MapOrder} cb n (e : E) (Q : unit -> StackNode * E -> Prop) :
  mgr_ok e -> node_ok n -> timer_ready n cb ->
  (forall n' e' l, node_ok n' -> sends e l e' -> Q tt (n', e')) ->
  wp (timer cb) (n, e) Q node_fault.
Proof.
  intros He Hn Hr HQ. destruct cb as [a|a|a id]; cbn in Hr |- *.
  - apply wp_pingTimedOut; [done|apply Hn|]. intros now e' Hnow He'. eapply HQ; [|done].
    apply node_ok_pings; [done|]. pose proof (no_pings _ Hn) as Hp.
    rewrite Forall_forall in Hp |- *. intros p [_ Hin]%list_elem_of_filter. by apply Hp.
  - apply wp_tcp_ok; [done|auto with frame|].
    apply (retransmissionTick_inv (fun _ _ => True) (fun _ => True)); try done.
    + intros. by apply Forall_forall.
    + apply Hn.
    + intros t' e' l Ht' He' _ _ _. split; [done|]. intros Hn' _. by eapply HQ.
  - destruct Hr as (k & Hk & Hready). by eapply wp_tick_safe.
Qed.
