(* ===== verification/PatternTcp.v ===== *)
(** * The stream in the transport layer

    An invariant of sockets and tables under which data are where they should
    be, and what an operation does to a socket as far as its tasks can see.
    Nothing is assumed of counters, windows or times: a run that overflows
    is undefined, and every other one keeps the invariant. *)

From S2P Require Import Prelude CppStrings Doubles Packet Transport Runtime TcpData TcpSend TcpSocket TcpManager TcpRun Pattern TcpFlow.

Section data.
Context (byte_of : Z -> byte).

(** ** Sockets *)

(** How many bytes were taken out of the receive buffer. *)
Definition taken (s : TcpSocket) : Z := rcvNxt_ s - 1 - vsize (recvBuf_ s).

Definition seg_inv (g : OutstandingSeg) : Prop :=
  INT_MIN <= seqStart g <= INT_MAX /\ stream byte_of (seqStart g - 1) (data g).

Record sock_inv (s : TcpSocket) : Prop := {
  si_buf : stream byte_of (taken s) (recvBuf_ s);
  si_used : recvBufUsed_ s = vsize (recvBuf_ s);
  si_nxt : INT_MIN <= sndNxt_ s <= INT_MAX;
  si_segs : Forall seg_inv (outstanding_ s);
  si_syn : state_ s = SYN_SENT -> recvBuf_ s = []
}.

(** What a socket may become while its tasks do nothing: nothing is taken, a
    connection is established from position 1 or stays where it is, and a
    closed socket stays closed. *)
Record calm (s s' : TcpSocket) : Prop := {
  cm_taken : state_ s <> SYN_SENT -> taken s' = taken s /\ state_ s' <> SYN_SENT;
  cm_est : state_ s' = ESTABLISHED ->
    (state_ s = ESTABLISHED /\ sndNxt_ s' = sndNxt_ s) \/ (state_ s = SYN_SENT /\ sndNxt_ s' = 1);
  cm_closed : state_ s = CLOSED -> state_ s' = CLOSED
}.

#[export] Instance calm_preorder : PreOrder calm.
Proof.
  split.
  - intros s. constructor; auto.
  - intros s1 s2 s3 [T1 E1 C1] [T2 E2 C2]. constructor.
    + intros Hs. destruct (T1 Hs) as [<- Hs2]. by apply T2.
    + intros H3. destruct (E2 H3) as [[H2 ->]|[H2 Hn]].
      * by apply E1.
      * right. split; [|done]. destruct (decide (state_ s1 = SYN_SENT)); [done|].
        by destruct (T1 n) as [_ ?].
    + auto.
Qed.

(** A change of members that the stream has little to do with. *)
Record mild (s s' : TcpSocket) : Prop := {
  md_taken : taken s' = taken s;
  md_queue : pendingConnQueue_ s' `sublist_of` pendingConnQueue_ s;
  md_state : state_ s' = state_ s \/ state_ s' = CLOSED \/
    (state_ s = ESTABLISHED /\ state_ s' = SHUTDOWN);
  md_nxt : state_ s' = ESTABLISHED -> sndNxt_ s' = sndNxt_ s
}.

Lemma mild_calm s s' : mild s s' -> calm s s'.
Proof.
  intros [T Q S N]. constructor.
  - intros Hs. split; [done|]. destruct S as [->|[->|[_ ->]]]; done.
  - intros He. left. split; [|by apply N]. destruct S as [<-|[E|[E _]]]; [done|congruence|done].
  - intros Hc. destruct S as [->|[->|[E _]]]; [done..|congruence].
Qed.

(** ** The manager *)

(** The accepted sockets that no task has yet. *)
Definition queued (t : TcpManager) : list ptr := concat (pendingConnQueue_ <$> allSockets_ t).

Record mgr_inv (t : TcpManager) : Prop := {
  mi_socks : Forall sock_inv (allSockets_ t);
  mi_queue : NoDup (queued t);
  mi_child : forall sk, sk ∈ queued t ->
    exists s, sock_at sk s t /\ state_ s <> SYN_SENT /\ taken s = 0;
  mi_pend : forall k sk, synPendingByKey_ t !! k = Some sk ->
    exists s, sock_at sk s t /\ (state_ s = SYN_SENT \/ state_ s = CLOSED);
  mi_once : forall k k' sk, synPendingByKey_ t !! k = Some sk ->
    synPendingByKey_ t !! k' = Some sk -> k = k'
}.

(** What the tasks see of a step: their sockets are calm, and sockets that are
    new in the queues of connections are new altogether. *)
Record quiet (t t' : TcpManager) : Prop := {
  qt_old : forall sk s, sock_at sk s t -> exists s', sock_at sk s' t' /\ calm s s';
  qt_queue : forall sk, sk ∈ queued t' -> sk ∈ queued t \/ allSockets_ t !! sk = None
}.

#[export] Instance quiet_preorder : PreOrder quiet.
Proof.
  split.
  - intros t. constructor; [|auto]. intros sk s Hs. exists s. by split.
  - intros t1 t2 t3 [O1 Q1] [O2 Q2]. constructor.
    + intros sk s Hs. destruct (O1 sk s Hs) as (s2 & H2 & C2).
      destruct (O2 sk s2 H2) as (s3 & H3 & C3). exists s3. split; [done|by etrans].
    + intros sk [H2|H2]%Q2; [by apply Q1|]. right.
      destruct (allSockets_ t1 !! sk) as [s|] eqn:Hs; [|done].
      destruct (O1 sk s Hs) as (s2 & Hs2 & _). unfold sock_at in Hs2. congruence.
Qed.

Lemma mgr_sock sk s t : mgr_inv t -> sock_at sk s t -> sock_inv s.
Proof. intros Ht Hs. exact (Forall_lookup_1 _ _ _ _ (mi_socks _ Ht) Hs). Qed.

Lemma new_mgr_inv addr : mgr_inv (new_TcpManager addr).
Proof. constructor; [constructor|constructor| |done|done]. intros sk []%not_elem_of_nil. Qed.

(** The queue of one socket among the others. *)
Lemma queued_split sk s t :
  sock_at sk s t ->
  exists rest, queued t ≡ₚ pendingConnQueue_ s ++ rest /\
    forall s', queued (put_sock sk s' t) ≡ₚ pendingConnQueue_ s' ++ rest.
Proof.
  intros Hs. unfold queued.
  exists (concat (pendingConnQueue_ <$> take sk (allSockets_ t)) ++
          concat (pendingConnQueue_ <$> drop (S sk) (allSockets_ t))).
  assert (Hlen : (sk < length (allSockets_ t))%nat) by (by eapply lookup_lt_Some).
  assert (Hsplit : forall s', concat (pendingConnQueue_ <$>
      (take sk (allSockets_ t) ++ s' :: drop (S sk) (allSockets_ t))) ≡ₚ
    pendingConnQueue_ s' ++ concat (pendingConnQueue_ <$> take sk (allSockets_ t)) ++
      concat (pendingConnQueue_ <$> drop (S sk) (allSockets_ t))).
  { intros s'. rewrite fmap_app, concat_app. cbn [fmap list_fmap concat].
    by rewrite Permutation_app_swap_app. }
  split; [|intros s'].
  - rewrite <- (take_drop_middle _ _ _ Hs) at 1. apply Hsplit.
  - rewrite sockets_put, insert_take_drop by done. apply Hsplit.
Qed.

Lemma sock_at_put_cases sk s x sk' s' t :
  sock_at sk s t -> sock_at sk' s' t ->
  exists s'', sock_at sk' s'' (put_sock sk x t) /\
    ((sk' = sk /\ s' = s /\ s'' = x) \/ (sk' <> sk /\ s'' = s')).
Proof.
  intros Hs Hs'. destruct (decide (sk' = sk)) as [->|Hne].
  - exists x. split; [by eapply put_sock_at|]. left. unfold sock_at in *. split; [done|]. split; congruence.
  - exists s'. split; [by apply put_sock_ne|by right].
Qed.

(** What the tasks of other sockets than [sk] see. *)
Definition quiet_for_others (sk : ptr) (t t' : TcpManager) : Prop :=
  (forall sk' s, sk' <> sk -> sock_at sk' s t -> exists s', sock_at sk' s' t' /\ calm s s') /\
  (forall sk', sk' ∈ queued t' -> sk' ∈ queued t \/ allSockets_ t !! sk' = None).

(** A socket changes that no one will accept, or one that stays as it is accepted. *)
Lemma mgr_inv_put_any sk s s' t :
  mgr_inv t -> sock_at sk s t -> sock_inv s' ->
  (sk ∈ queued t -> state_ s <> SYN_SENT -> taken s' = taken s /\ state_ s' <> SYN_SENT) ->
  pendingConnQueue_ s' `sublist_of` pendingConnQueue_ s ->
  (forall k, synPendingByKey_ t !! k = Some sk -> state_ s' = SYN_SENT \/ state_ s' = CLOSED) ->
  mgr_inv (put_sock sk s' t) /\ quiet_for_others sk t (put_sock sk s' t).
Proof.
  intros Ht Hs Hi Hc Hq Hp. destruct (queued_split sk s t Hs) as (rest & Q & Q').
  assert (Hsub : forall x, x ∈ queued (put_sock sk s' t) -> x ∈ queued t).
  { intros x. rewrite Q, Q', !elem_of_app. intros [Hx|Hx]; [|by right]. left.
    by eapply elem_of_sublist. }
  split; [constructor|split].
  - rewrite sockets_put. by apply Forall_insert; [apply Ht|].
  - rewrite Q'. pose proof (mi_queue _ Ht) as Hn. rewrite Q in Hn.
    eapply sublist_NoDup; [exact Hn|]. by apply sublist_app.
  - intros x Hx%Hsub. destruct (mi_child _ Ht x Hx) as (y & Hy & Hy1 & Hy2).
    destruct (sock_at_put_cases sk s s' x y t Hs Hy) as (z & Hz & [(-> & -> & ->)|(_ & ->)]); [|by eauto].
    exists s'. split; [done|]. by destruct (Hc Hx Hy1) as [-> ?].
  - intros k x. rewrite pending_put. intros Hx. destruct (mi_pend _ Ht k x Hx) as (y & Hy & Hy').
    destruct (sock_at_put_cases sk s s' x y t Hs Hy) as (z & Hz & [(-> & -> & ->)|(_ & ->)]); [|by eauto].
    exists s'. split; [done|]. by apply (Hp k).
  - rewrite pending_put. apply Ht.
  - intros x y Hne Hy. exists y. split; [|done]. by apply put_sock_ne.
  - intros x Hx%Hsub. by left.
Qed.

(** A socket changes. *)
Lemma mgr_inv_put sk s s' t :
  mgr_inv t -> sock_at sk s t -> sock_inv s' -> calm s s' ->
  pendingConnQueue_ s' `sublist_of` pendingConnQueue_ s ->
  (forall k, synPendingByKey_ t !! k = Some sk -> state_ s' = SYN_SENT \/ state_ s' = CLOSED) ->
  mgr_inv (put_sock sk s' t) /\ quiet t (put_sock sk s' t).
Proof.
  intros Ht Hs Hi Hc Hq Hp.
  destruct (mgr_inv_put_any sk s s' t Ht Hs Hi) as [Ht' [Ho Hq']]; [|done..|].
  { intros _. apply Hc. }
  split; [done|]. constructor; [|done]. intros x y Hy.
  destruct (sock_at_put_cases sk s s' x y t Hs Hy) as (z & Hz & [(-> & -> & ->)|(Hne & ->)]).
  - exists s'. by split.
  - exists y. by split.
Qed.

Lemma mgr_inv_mild sk s s' t :
  mgr_inv t -> sock_at sk s t -> sock_inv s' -> mild s s' ->
  mgr_inv (put_sock sk s' t) /\ quiet t (put_sock sk s' t).
Proof.
  intros Ht Hs Hi Hm. apply (mgr_inv_put sk s); [done..|by apply mild_calm|apply Hm|].
  intros k Hk. destruct (mi_pend _ Ht k sk Hk) as (y & Hy & Hst).
  unfold sock_at in *. assert (y = s) as -> by congruence.
  destruct (md_state _ _ Hm) as [->|[->|[E _]]]; [done|by right|]. destruct Hst; congruence.
Qed.

(** The tables change, but no socket starts to wait for an answer. *)
Lemma mgr_inv_tables t t' :
  mgr_inv t -> allSockets_ t' = allSockets_ t -> synPendingByKey_ t' ⊆ synPendingByKey_ t ->
  mgr_inv t' /\ quiet t t'.
Proof.
  intros [S1 Q1 C1 P1 O1] Hs Hp.
  assert (Hsock : forall sk s, sock_at sk s t -> sock_at sk s t') by (intros; unfold sock_at; by rewrite Hs).
  assert (Hqu : queued t' = queued t) by (unfold queued; by rewrite Hs).
  split; constructor.
  - by rewrite Hs.
  - by rewrite Hqu.
  - rewrite Hqu. intros sk Hsk. destruct (C1 sk Hsk) as (s & ? & ?). eauto.
  - intros k sk Hk. destruct (P1 k sk) as (s & ? & ?); [by eapply lookup_weaken|]. eauto.
  - intros k k' sk Hk Hk'. apply (O1 k k' sk); by eapply lookup_weaken.
  - intros sk s Hsk. exists s. split; [by apply Hsock|done].
  - rewrite Hqu. by left.
Qed.
End data.

(** ** Running operations *)

Section rules.
Context (byte_of : Z -> byte) {E : Type} `{Manager E} `{!Carrier byte_of E}.
Implicit Types (t : TcpManager) (e : E) (s : TcpSocket).

(** No call of the transport layer ends in an exception. *)
Definition tcp_ends (f : fault) (st : TcpManager * E) : Prop := stops (carries byte_of) f st.2.

Definition gentle {A} (m : M (TcpManager * E) A) : Prop :=
  forall t e, mgr_inv byte_of t -> carries byte_of e ->
    wp m (t, e) (fun _ st => mgr_inv byte_of st.1 /\ carries byte_of st.2 /\ quiet t st.1) tcp_ends.

Lemma gentle_ret {A} (a : A) : gentle (ret a).
Proof. intros t e Ht He. by apply wp_ret. Qed.

Lemma gentle_bind {A B} (m : M (TcpManager * E) A) (k : A -> M (TcpManager * E) B) :
  gentle m -> (forall a, gentle (k a)) -> gentle (bind m k).
Proof.
  intros Hm Hk t e Ht He. apply wp_bind. eapply wp_conseq; [by apply Hm| |done].
  intros a [t1 e1] (Ht1 & He1 & Q1). eapply wp_conseq; [by apply Hk| |done].
  intros b [t2 e2] (Ht2 & He2 & Q2). split; [done|]. split; [done|]. by etrans.
Qed.

Lemma gentle_when (b : bool) m : gentle m -> gentle (when b m).
Proof. destruct b; [done|intros _; apply gentle_ret]. Qed.

Lemma wp_int_quiet z t e (Q : Z -> TcpManager * E -> Prop) :
  (INT_MIN <= z <= INT_MAX -> Q z (t, e)) -> wp (int z) (t, e) Q tcp_ends.
Proof.
  intros HQ. unfold int. destruct (in_int z) eqn:Hz; [|done].
  apply wp_ret, HQ. by apply in_int_spec.
Qed.

Lemma wp_long_quiet z t e (Q : Z -> TcpManager * E -> Prop) :
  Q z (t, e) -> wp (long z) (t, e) Q tcp_ends.
Proof. intros HQ. unfold long. by destruct (in_long z). Qed.

Lemma wp_deref_any sk t e (Q : TcpSocket -> TcpManager * E -> Prop) :
  (forall s, sock_at sk s t -> Q s (t, e)) -> wp (deref sk) (t, e) Q tcp_ends.
Proof.
  intros HQ. unfold deref. apply wp_bind, wp_tget.
  destruct (allSockets_ t !! sk) as [s|] eqn:Hs; [|done]. by apply wp_ret, HQ.
Qed.

Lemma gentle_int z : gentle (int z).
Proof. intros t e Ht He. by apply wp_int_quiet. Qed.

Lemma gentle_long z : gentle (long z).
Proof. intros t e Ht He. by apply wp_long_quiet. Qed.

Lemma gentle_double_int d : gentle (double_to_int d).
Proof. unfold double_to_int. case_match; [apply gentle_int|]. by intros t e Ht He. Qed.

Lemma gentle_tget {A} (f : TcpManager -> A) : gentle (tget f).
Proof. intros t e Ht He. by apply wp_tget. Qed.

Lemma gentle_deref sk : gentle (deref sk).
Proof. intros t e Ht He. by apply wp_deref_any. Qed.

(** Behind [deref] the socket is known. *)
Lemma gentle_deref_bind {A} sk (k : TcpSocket -> M (TcpManager * E) A) :
  (forall s t e, mgr_inv byte_of t -> carries byte_of e -> sock_at sk s t ->
     wp (k s) (t, e) (fun _ st => mgr_inv byte_of st.1 /\ carries byte_of st.2 /\ quiet t st.1) tcp_ends) ->
  gentle (bind (deref sk) k).
Proof. intros Hk t e Ht He. apply wp_bind, wp_deref_any. intros s Hs. by apply Hk. Qed.

Lemma wp_upd_mild sk f s t e :
  mgr_inv byte_of t -> carries byte_of e -> sock_at sk s t ->
  sock_inv byte_of (f s) -> mild s (f s) ->
  wp (upd sk f) (t, e)
    (fun _ st => mgr_inv byte_of st.1 /\ carries byte_of st.2 /\ quiet t st.1) tcp_ends.
Proof.
  intros Ht He Hs Hi Hm. eapply wp_upd; [done|]. cbn.
  destruct (mgr_inv_mild byte_of sk s (f s) t) as [Hput Hq]; done.
Qed.

Lemma gentle_upd sk f :
  (forall s, sock_inv byte_of s -> sock_inv byte_of (f s) /\ mild s (f s)) -> gentle (upd sk f).
Proof.
  intros Hf t e Ht He. unfold upd. apply wp_bind, wp_deref_any. intros s Hs.
  destruct (Hf s) as [Hi Hm]; [by eapply mgr_sock|].
  pose proof (wp_upd_mild sk f s t e Ht He Hs Hi Hm) as Hw. unfold upd in Hw.
  unfold wp, bind at 1 in Hw. rewrite (deref_run _ _ _ _ Hs) in Hw. exact Hw.
Qed.

Lemma gentle_tmodify f :
  (forall t, allSockets_ (f t) = allSockets_ t /\ synPendingByKey_ (f t) ⊆ synPendingByKey_ t) ->
  gentle (tmodify f).
Proof.
  intros Hf t e Ht He. apply wp_tmodify. destruct (Hf t) as [Hs Hp].
  by destruct (mgr_inv_tables byte_of t (f t) Ht Hs Hp).
Qed.

Lemma wp_env_emit o t e (Q : unit -> TcpManager * E -> Prop) :
  carries byte_of e -> harmless o -> (forall e', carries byte_of e' -> Q tt (t, e')) ->
  wp (env (mgr_emit o)) (t, e) Q tcp_ends.
Proof.
  intros He Ho HQ. apply wp_env. eapply wp_conseq; [by apply ca_emit| |by intros [] ?].
  intros [] e' He'. by apply HQ.
Qed.

Lemma gentle_cout str : gentle (cout str).
Proof. intros t e Ht He. apply wp_env_emit; [done|apply harmless_cout|done]. Qed.

Lemma gentle_now : gentle managerNowMs.
Proof.
  intros t e Ht He. apply wp_env. eapply wp_conseq; [by apply ca_now| |by intros [] ?]. done.
Qed.

Lemma gentle_timer node delta cb : gentle (env (mgr_addTimer node delta cb)).
Proof.
  intros t e Ht He. apply wp_env. eapply wp_conseq; [by apply ca_addTimer| |by intros [] ?]. done.
Qed.

(** ** Sending *)

(** A segment is sent or reported; the manager is the same. *)
Lemma wp_transmit_genuine sp dp ty w n payload dest trace err t e (Q : bool -> TcpManager * E -> Prop) :
  carries byte_of e ->
  (ty = DATA -> w = 0 /\ INT_MIN <= n <= INT_MAX /\ stream byte_of (n - 1) payload) ->
  (forall x, err +:+ x <> corrupted) ->
  (forall b e', carries byte_of e' -> Q b (t, e')) ->
  wp (transmit (new_Transport sp dp ty w n payload) dest trace err) (t, e) Q tcp_ends.
Proof.
  intros He Hd Herr HQ.
  assert (Hlog : forall x e', carries byte_of e' ->
    wp (TcpSend.logError (err +:+ what x) ;; ret false) (t, e') Q tcp_ends).
  { intros x e' He'. unfold TcpSend.logError. apply wp_bind, wp_bind, wp_tget.
    apply wp_env_emit; [done|by apply harmless_log|]. intros. by apply wp_ret, HQ. }
  unfold transmit. apply wp_try.
  destruct (new_Transport sp dp ty w n payload) as [x|seg] eqn:Hseg; cbn [lift_exn].
  { apply wp_bind, wp_fail. by apply Hlog. }
  apply wp_bind, wp_ret, wp_bind, wp_tget, wp_bind.
  destruct (new_Packet _ _ _ _ _ _) as [x|p] eqn:Hp; cbn [lift_exn]; [apply wp_fail; by apply Hlog|].
  pose proof (genuine_transport byte_of _ _ _ _ _ _ _ _ _ _ _ Hseg Hd Hp) as Hg.
  apply wp_ret, wp_bind, wp_env. eapply wp_conseq; [by apply ca_sendPkt| |].
  - intros b e' He'. apply wp_bind. unfold cout, wp at 1.
    pose proof (wp_env_emit (Cout trace) t e' (fun _ st => st.1 = t /\ carries byte_of st.2) He'
      (harmless_cout _) ltac:(done)) as Hw.
    unfold wp in Hw. destruct (env (mgr_emit (Cout trace)) (t, e')) as [[[]|[]] [t' e'']]; try done.
    destruct Hw as [<- Hw]. by apply wp_ret, HQ.
  - intros [x| | |] e' He'; try done. by apply Hlog.
Qed.

Lemma gentle_transmit sp dp ty w n payload dest trace err :
  (ty = DATA -> w = 0 /\ INT_MIN <= n <= INT_MAX /\ stream byte_of (n - 1) payload) ->
  (forall x, err +:+ x <> corrupted) ->
  gentle (transmit (new_Transport sp dp ty w n payload) dest trace err).
Proof. intros Hd Herr t e Ht He. by apply wp_transmit_genuine. Qed.

Lemma gentle_sendSyn sk a p : gentle (sendSyn sk a p).
Proof.
  intros t e Ht He. destruct (allSockets_ t !! sk) as [s|] eqn:Hs.
  - eapply wp_eq; [by apply sendSyn_transmit|]. by apply gentle_transmit.
  - unfold sendSyn. by apply wp_try, wp_bind, wp_bind, wp_tget; rewrite Hs.
Qed.

Lemma gentle_sendFin sk a p : gentle (sendFin sk a p).
Proof.
  intros t e Ht He. destruct (allSockets_ t !! sk) as [s|] eqn:Hs.
  - eapply wp_eq; [by apply sendFin_transmit|]. by apply gentle_transmit.
  - unfold sendFin. by apply wp_try, wp_bind, wp_bind, wp_tget; rewrite Hs.
Qed.

Lemma gentle_sendAck sp a p n b w : gentle (sendAck sp a p n b w).
Proof. rewrite sendAck_transmit. by apply gentle_transmit. Qed.

Lemma gentle_sendFinFromPorts sp a p : gentle (sendFinFromPorts sp a p).
Proof. rewrite sendFinFromPorts_transmit. by apply gentle_transmit. Qed.

Lemma wp_sendData_genuine sk a p n payload b s t e (Q : bool -> TcpManager * E -> Prop) :
  carries byte_of e -> sock_at sk s t ->
  INT_MIN <= n <= INT_MAX -> stream byte_of (n - 1) payload ->
  (forall b e', carries byte_of e' -> Q b (t, e')) ->
  wp (sendData sk a p n payload b) (t, e) Q tcp_ends.
Proof.
  intros He Hs Hn Hd HQ. eapply wp_eq; [by apply sendData_transmit|].
  by apply wp_transmit_genuine.
Qed.
End rules.

Create HintDb gentle.
#[export] Hint Resolve gentle_ret gentle_int gentle_long gentle_double_int gentle_tget gentle_deref
  gentle_cout gentle_now gentle_timer gentle_sendSyn gentle_sendFin gentle_sendAck
  gentle_sendFinFromPorts : gentle.

(** The change of one member. *)
Ltac soft :=
  intros [] []; split; [constructor; cbn in *; auto; done|constructor; cbn in *; auto].

Ltac gentle_step :=
  lazymatch goal with
  | |- gentle _ (bind _ _) => apply gentle_bind; [|intros ?]
  | |- gentle _ (when _ _) => apply gentle_when
  | |- gentle _ (upd _ _) => apply gentle_upd; soft
  | |- gentle _ (tmodify _) => apply gentle_tmodify; intros ?; split; cbn; [done|try done]
  | |- gentle _ (match _ with _ => _ end) => case_match
  | |- gentle _ (let '(_, _) := _ in _) => case_match
  | |- gentle _ _ => solve [eauto with gentle]
  end.
Ltac gentle := repeat first [progress cbv zeta | gentle_step].

Section operations.
Context (byte_of : Z -> byte) {E : Type} `{Manager E} `{!Carrier byte_of E} `{MapOrder}.

Lemma gentle_bind_ sk p : gentle byte_of (bind_ sk p).
Proof. unfold bind_. gentle. Qed.

Lemma gentle_unregister sk : gentle byte_of (unregisterSocket sk).
Proof. unfold unregisterSocket. gentle. apply map_filter_subseteq. Qed.

Lemma gentle_release sk : gentle byte_of (release sk).
Proof.
  unfold release, onRelease. pose proof (gentle_unregister sk). gentle.
  apply sublist_nil_l.
Qed.

Lemma gentle_registerListener sk p : gentle byte_of (registerListener sk p).
Proof. unfold registerListener. gentle. Qed.

Lemma gentle_registerEstablished sk a p : gentle byte_of (registerEstablished sk a p).
Proof. unfold registerEstablished. gentle. Qed.
Hint Resolve gentle_release gentle_registerEstablished : gentle.

Lemma gentle_drain sk : gentle byte_of (maybeSendFinOnDrain sk).
Proof. unfold maybeSendFinOnDrain. gentle. Qed.
Hint Resolve gentle_drain : gentle.

Lemma gentle_close sk : gentle byte_of (close sk).
Proof.
  unfold close. apply gentle_deref_bind. intros s t e Ht He Hs.
  destruct (state_ s) eqn:Hst; try (by apply wp_ret).
  - by apply (gentle_upd byte_of); [soft|..].
  - by apply (gentle_upd byte_of); [soft|..].
  - apply wp_bind. eapply wp_conseq; [eapply (wp_upd_mild byte_of); [done..| |]| |done].
    + destruct (mgr_sock _ _ _ _ Ht Hs). by constructor.
    + constructor; cbn; auto.
    + intros [] [t1 e1] (Ht1 & He1 & Q1). eapply wp_conseq; [by apply gentle_drain| |done].
      intros [] [t2 e2] (Ht2 & He2 & Q2). split; [done|]. split; [done|]. by etrans.
Qed.

Lemma gentle_markClosed sk : gentle byte_of (markClosed sk).
Proof. unfold markClosed. gentle. Qed.

Lemma gentle_additiveIncrease sk : gentle byte_of (additiveIncreaseCwnd sk).
Proof. unfold additiveIncreaseCwnd. gentle. Qed.

Lemma gentle_multiplicativeDecrease sk : gentle byte_of (multiplicativeDecreaseCwnd sk).
Proof. unfold multiplicativeDecreaseCwnd. gentle. Qed.

Lemma gentle_onSampleRTT sk ms : gentle byte_of (onSampleRTT sk ms).
Proof. unfold onSampleRTT. gentle. Qed.

Lemma gentle_doubleRto sk : gentle byte_of (doubleRto sk).
Proof. unfold doubleRto. gentle. Qed.
Hint Resolve gentle_markClosed gentle_additiveIncrease gentle_multiplicativeDecrease
  gentle_onSampleRTT gentle_doubleRto : gentle.

(** ** Acknowledgments and timeouts *)

Definition kept (t0 : TcpManager) (st : TcpManager * E) : Prop :=
  mgr_inv byte_of st.1 /\ carries byte_of st.2 /\ quiet t0 st.1.

Lemma wp_kept {A} (m : M (TcpManager * E) A) t0 t e :
  gentle byte_of m -> mgr_inv byte_of t /\ quiet t0 t -> carries byte_of e ->
  wp m (t, e) (fun _ => kept t0) (tcp_ends byte_of).
Proof.
  intros Hm [Ht Hq] He. eapply wp_conseq; [by apply Hm| |done].
  intros a [t1 e1] (Ht1 & He1 & Q1). split; [done|]. split; [done|]. by etrans.
Qed.

Lemma gentle_deref_known {A} sk (k : TcpSocket -> M (TcpManager * E) A) :
  (forall s, sock_inv byte_of s -> gentle byte_of (k s)) -> gentle byte_of (bind (deref sk) k).
Proof.
  intros Hk. apply gentle_deref_bind. intros s t e Ht He Hs. apply Hk; [|done..].
  by eapply mgr_sock.
Qed.

Lemma wp_pop_loop a l o t e (Q : _ -> TcpManager * E -> Prop) :
  (forall l' o', l' `suffix_of` l -> Q (l', o') (t, e)) ->
  wp (pop_loop a l o) (t, e) Q (tcp_ends byte_of).
Proof.
  revert o. induction l as [|g l IH]; intros o HQ; cbn [pop_loop]; [by apply wp_ret, HQ|].
  apply wp_bind, wp_int_quiet. intros _. destruct (_ <=? _); [|by apply wp_ret, HQ].
  apply IH. intros l' o' Hl. apply HQ. by apply suffix_cons_r.
Qed.

Lemma gentle_popAckedThrough sk a : gentle byte_of (popAckedThrough sk a).
Proof.
  unfold popAckedThrough. apply gentle_deref_bind. intros s t e Ht He Hs.
  apply wp_bind, wp_pop_loop. intros l' o' [pre Hl].
  pose proof (mgr_sock _ _ _ _ Ht Hs) as [B U N G Y]. rewrite Hl in G.
  apply Forall_app in G as [_ G]. apply wp_bind. eapply wp_upd; [done|].
  apply (wp_kept (A := option OutstandingSeg)); [gentle| |done].
  apply (mgr_inv_mild byte_of sk s); [done|done|by constructor|constructor; cbn; auto].
Qed.

Lemma resend_inv i l :
  Forall (seg_inv byte_of) l -> Forall (seg_inv byte_of) (alter set_retransmitted i l).
Proof. intros Hl. apply Forall_alter; [done|]. by intros g _ [? ?]. Qed.

Lemma gentle_resend_loop sk i l :
  Forall (seg_inv byte_of) l -> gentle byte_of (resend_loop sk i l).
Proof.
  revert i. induction l as [|g l IH]; intros i Hl; cbn [resend_loop]; [apply gentle_ret|].
  apply Forall_cons in Hl as [[Hn Hg] Hl]. apply gentle_deref_bind. intros s t e Ht He Hs.
  apply wp_bind. eapply (wp_sendData_genuine byte_of); [done..|]. intros b e' He'.
  apply (wp_kept (A := unit)); [|done|done]. apply gentle_bind; [|intros _; by apply IH].
  apply gentle_upd. intros x [B U N G Y]. split; [constructor; try done|constructor; cbn; auto].
  by apply resend_inv.
Qed.

Lemma gentle_tick_socket now sk : gentle byte_of (tick_socket now sk).
Proof.
  unfold tick_socket. apply gentle_deref_known. intros s Hs.
  pose proof (gentle_resend_loop sk 0 _ (si_segs _ _ Hs)). gentle.
Qed.

Lemma gentle_tick_loop now l : gentle byte_of (tick_loop now l).
Proof.
  pose proof gentle_tick_socket. induction l as [|kv l IH]; cbn [tick_loop]; gentle.
Qed.
Hint Resolve gentle_tick_loop gentle_popAckedThrough : gentle.

Lemma gentle_retransmissionTick : gentle byte_of retransmissionTick.
Proof. unfold retransmissionTick. gentle. Qed.

Lemma gentle_start : gentle byte_of TcpManager.start.
Proof. unfold TcpManager.start. gentle. Qed.

Lemma gentle_onAck_established sk ack : gentle byte_of (onAck_established sk ack).
Proof. unfold onAck_established, setRwnd. gentle. Qed.

Lemma gentle_markPeerFin sk : gentle byte_of (markPeerFinReceived sk).
Proof.
  unfold markPeerFinReceived. apply gentle_bind; [gentle|]. intros _. apply gentle_deref_bind.
  intros s t e Ht He Hs. destruct (decide (state_ s = ESTABLISHED)) as [Hst|Hst].
  - rewrite bool_decide_true by done. destruct (mgr_sock _ _ _ _ Ht Hs).
    eapply (wp_upd_mild byte_of); [done..|by constructor|constructor; cbn; auto].
  - rewrite bool_decide_false by done. by apply wp_ret.
Qed.
Hint Resolve gentle_onAck_established gentle_markPeerFin : gentle.
End operations.
#[export] Hint Resolve gentle_bind_ gentle_release gentle_registerListener gentle_registerEstablished
  gentle_drain gentle_close gentle_markClosed gentle_retransmissionTick gentle_start
  gentle_onAck_established gentle_markPeerFin : gentle.
