(* ===== verification/PatternFlow.v ===== *)
(** * The stream through the operations of the transport layer

    The segments that arrive, the connections that open, and the calls of the
    tasks: what [write] sends and what [read] returns are the bytes of the
    stream at the socket's position; a connection that [accept] returns is at
    the beginning; and a socket that [connect] or [listen] opened is one that no
    task had. *)

From S2P Require Import Prelude CppStrings Doubles Packet Transport Runtime TcpData TcpSend TcpSocket TcpManager TcpRun TcpGrow Pattern TcpInv TcpFlow AppSpec PatternTcp.

(** ** New sockets *)

Definition with_socket (s : TcpSocket) (t : TcpManager) : TcpManager :=
  set_allSockets (allSockets_ t ++ [s]) t.

Definition next_sock (t : TcpManager) : ptr := length (allSockets_ t).

Lemma with_socket_at s t : sock_at (next_sock t) s (with_socket s t).
Proof. unfold sock_at, with_socket, next_sock. cbn. by rewrite lookup_app_r, Nat.sub_diag. Qed.

Lemma with_socket_old s sk s' t : sock_at sk s' t -> sock_at sk s' (with_socket s t).
Proof. unfold sock_at, with_socket. cbn. intros Hs. by apply lookup_app_l_Some. Qed.

Lemma put_with_socket s s' t : put_sock (next_sock t) s' (with_socket s t) = with_socket s' t.
Proof.
  Transparent put_sock. unfold put_sock, with_socket, next_sock, set_allSockets. cbn.
  by rewrite insert_app_r_alt, Nat.sub_diag by lia. Opaque put_sock.
Qed.

Lemma put_set_pending sk s m t :
  set_synPendingByKey m (put_sock sk s t) = put_sock sk s (set_synPendingByKey m t).
Proof. Transparent put_sock. done. Opaque put_sock. Qed.

Lemma queued_with s t : pendingConnQueue_ s = [] -> queued (with_socket s t) = queued t.
Proof.
  intros Hq. unfold queued, with_socket. cbn. rewrite fmap_app, concat_app. cbn.
  by rewrite Hq, !app_nil_r.
Qed.

Section flow.
Context (byte_of : Z -> byte) {E : Type} `{Manager E} `{!Carrier byte_of E}.
Implicit Types (t : TcpManager) (e : E) (s : TcpSocket).

Lemma queued_old sk t : mgr_inv byte_of t -> sk ∈ queued t -> (sk < next_sock t)%nat.
Proof. intros Ht Hsk. destruct (mi_child _ _ Ht sk Hsk) as (s & Hs & _). by eapply lookup_lt_Some. Qed.

Lemma mgr_inv_with s t :
  mgr_inv byte_of t -> sock_inv byte_of s -> pendingConnQueue_ s = [] ->
  mgr_inv byte_of (with_socket s t) /\ quiet t (with_socket s t).
Proof.
  intros Ht Hs Hq. split; constructor.
  - cbn. apply Forall_app_2; [apply Ht|by constructor].
  - rewrite queued_with by done. apply Ht.
  - intros sk. rewrite queued_with by done. intros Hsk.
    destruct (mi_child _ _ Ht sk Hsk) as (x & Hx & ?). exists x. split; [by apply with_socket_old|done].
  - intros k sk Hk. destruct (mi_pend _ _ Ht k sk Hk) as (x & Hx & ?).
    exists x. split; [by apply with_socket_old|done].
  - apply Ht.
  - intros sk x Hx. exists x. split; [by apply with_socket_old|done].
  - intros sk. rewrite queued_with by done. by left.
Qed.

Lemma new_sock_inv : sock_inv byte_of new_TcpSocket.
Proof. by constructor. Qed.

Lemma wp_socket_new t e (Q : ptr -> TcpManager * E -> Prop) X :
  Q (next_sock t) (with_socket new_TcpSocket t, e) -> wp socket (t, e) Q X.
Proof. done. Qed.

(** ** Connections that arrive *)

(** A socket that an arriving connection made. *)
Definition child_of (lp ra rp : Z) : TcpSocket :=
  set_state ESTABLISHED (set_cwnd INITIAL_CWND_BYTES (set_rcvNxt 1 (set_sndNxt 1 (set_sndUna 1
    (set_remotePort rp (set_remoteAddr ra (set_localPort lp new_TcpSocket))))))).

Lemma child_inv lp ra rp : sock_inv byte_of (child_of lp ra rp).
Proof. constructor; try done. Qed.

Lemma wp_initAccepted lp ra rp t e (Q : unit -> TcpManager * E -> Prop) X :
  Q tt (with_socket (child_of lp ra rp) t, e) ->
  wp (initAccepted (next_sock t) lp ra rp) (with_socket new_TcpSocket t, e) Q X.
Proof.
  intros HQ. unfold initAccepted.
  do 7 (apply wp_bind; eapply wp_upd; [apply with_socket_at|]; rewrite put_with_socket).
  eapply wp_upd; [apply with_socket_at|]. rewrite put_with_socket. exact HQ.
Qed.

(** The socket goes into the queue of its listener. *)
Lemma mgr_inv_enqueue lis s child c t :
  mgr_inv byte_of t -> sock_at lis s t -> sock_at child c t ->
  state_ c <> SYN_SENT -> taken c = 0 -> child ∉ queued t ->
  let t' := put_sock lis (set_pendingConnQueue (pendingConnQueue_ s ++ [child]) s) t in
  mgr_inv byte_of t' /\
  (forall sk x, sock_at sk x t -> exists x', sock_at sk x' t' /\ calm x x') /\
  (forall sk, sk ∈ queued t' -> sk ∈ queued t \/ sk = child).
Proof.
  intros Ht Hs Hc Hst Htk Hno t'. set (s' := set_pendingConnQueue _ s) in *.
  destruct (queued_split lis s t Hs) as (rest & Q & Q'). specialize (Q' s').
  assert (Hq : queued t' ≡ₚ child :: queued t).
  { unfold t'. rewrite Q', Q. cbn. rewrite <- app_assoc. cbn. by rewrite <- Permutation_middle. }
  assert (Hold : forall sk x, sock_at sk x t -> exists x', sock_at sk x' t' /\
    state_ x' = state_ x /\ taken x' = taken x /\ calm x x').
  { intros sk x Hx. destruct (sock_at_put_cases lis s s' sk x t Hs Hx) as (y & Hy & [(-> & -> & ->)|(_ & ->)]).
    - exists s'. split; [done|]. split; [done|]. split; [done|]. constructor; auto.
    - exists x. by split. }
  split; [constructor|split].
  - unfold t'. rewrite sockets_put. apply Forall_insert; [apply Ht|].
    destruct (mgr_sock _ _ _ _ Ht Hs). by constructor.
  - rewrite Hq. constructor; [done|apply Ht].
  - intros sk. rewrite Hq. intros [->|Hsk]%elem_of_cons.
    + destruct (Hold _ _ Hc) as (c' & Hc' & E1 & E2 & _). exists c'. by rewrite E1, E2.
    + destruct (mi_child _ _ Ht sk Hsk) as (x & Hx & ? & ?).
      destruct (Hold _ _ Hx) as (x' & Hx' & E1 & E2 & _). exists x'. by rewrite E1, E2.
  - intros k sk. unfold t'. rewrite pending_put. intros Hk.
    destruct (mi_pend _ _ Ht k sk Hk) as (x & Hx & ?).
    destruct (Hold _ _ Hx) as (x' & Hx' & E1 & _). exists x'. by rewrite E1.
  - unfold t'. rewrite pending_put. apply Ht.
  - intros sk x Hx. destruct (Hold _ _ Hx) as (x' & Hx' & _ & _ & Hca). by exists x'.
  - intros sk. rewrite Hq. intros [->|Hsk]%elem_of_cons; [by right|by left].
Qed.

Lemma gentle_onSyn a syn : gentle byte_of (onSyn a syn).
Proof.
  intros t e Ht He. unfold onSyn. apply wp_bind, wp_tget.
  destruct (listenersByPort_ t !! _) as [lis|].
  2: { apply (wp_kept byte_of); [gentle|done|done]. }
  set (lp := destPort_ syn). set (rp := srcPort_ syn). set (c := child_of lp a rp).
  apply wp_bind, wp_socket_new, wp_bind, wp_initAccepted. fold c.
  destruct (mgr_inv_with c t Ht (child_inv _ _ _) eq_refl) as [Ht1 Hq1].
  set (t1 := with_socket c t) in *. apply wp_bind. unfold enqueueAccepted.
  apply wp_bind, (wp_deref_any byte_of). intros s Hs. apply wp_when; intros Hback.
  - eapply wp_upd; [done|]. cbv beta.
    assert (Hne : lis <> next_sock t).
    { intros ->. pose proof (with_socket_at c t) as Hc. unfold sock_at in *. fold t1 in Hc.
      assert (s = c) as -> by congruence. cbn in Hback. done. }
    assert (Hno : next_sock t ∉ queued t1).
    { unfold t1. rewrite queued_with by done. intros Hx%queued_old; [lia|done]. }
    destruct (mgr_inv_enqueue lis s (next_sock t) c t1 Ht1 Hs (with_socket_at c t) ltac:(done)
      eq_refl Hno) as (Ht2 & Ho2 & Hn2).
    set (t2 := put_sock lis _ t1) in *.
    apply (wp_kept byte_of); [gentle|split; [done|]|done]. constructor.
    + intros sk x Hx. destruct (qt_old _ _ Hq1 _ _ Hx) as (y & Hy & C1).
      destruct (Ho2 _ _ Hy) as (z & Hz & C2). exists z. split; [done|by etrans].
    + intros sk [Hx| ->]%Hn2; [by apply (qt_queue _ _ Hq1)|]. right. by apply lookup_ge_None_2.
  - by apply (wp_kept byte_of); [gentle| |done].
Qed.

(** ** Acknowledgments, closing and data *)

(** A connection whose SYN was acknowledged. *)
Definition opened (w : Z) (s : TcpSocket) : TcpSocket :=
  set_state ESTABLISHED (set_peerFinReceived false (set_cwnd INITIAL_CWND_BYTES
    (set_rcvNxt 1 (set_sndNxt 1 (set_sndUna 1 (setRwnd w s)))))).

Lemma opened_inv w s : sock_inv byte_of s -> state_ s = SYN_SENT -> sock_inv byte_of (opened w s).
Proof.
  intros [B U N G Y] Hs. specialize (Y Hs). constructor; cbn; try done.
  rewrite Y. by intros ? ? ?.
Qed.

Lemma opened_calm w s : state_ s = SYN_SENT -> calm s (opened w s).
Proof. intros Hs. constructor; cbn; [done|by right|congruence]. Qed.


Lemma gentle_onAck a ack : gentle byte_of (onAck a ack).
Proof.
  unfold onAck. set (key := mkKey _ _ _). intros t e Ht He. apply wp_bind, wp_tget.
  destruct (synPendingByKey_ t !! key) as [sk|] eqn:Hk.
  - apply wp_bind, (wp_deref_any byte_of). intros s Hs. apply wp_bind, (wp_int_quiet byte_of).
    intros _. destruct (_ =? _); [|by apply gentle_cout].
    set (t1 := set_synPendingByKey (delete key (synPendingByKey_ t)) t).
    destruct (mgr_inv_tables byte_of t t1 Ht eq_refl) as [Ht1 Hq1]; [apply delete_subseteq|].
    destruct (mi_pend _ _ Ht key sk Hk) as (s' & Hs' & Hst).
    unfold sock_at in *. assert (s' = s) as -> by congruence. clear Hs'.
    assert (Hno : forall k, synPendingByKey_ t1 !! k <> Some sk).
    { intros k. cbn. intros [Hne Hk']%lookup_delete_Some. apply Hne.
      by apply (mi_once _ _ Ht key k sk). }
    assert (Hrest : forall x, sock_inv byte_of x -> calm s x ->
      pendingConnQueue_ x = pendingConnQueue_ s ->
      wp (tmodify (fun t => set_synPendingByKey (delete key (synPendingByKey_ t)) t) ;;
          registerEstablished sk a (srcPort_ ack) ;; cout ":") (put_sock sk x t, e)
        (fun _ => kept byte_of t) (tcp_ends byte_of)).
    { intros x Hx Hc Hqx. apply wp_bind, wp_tmodify. rewrite pending_put, put_set_pending.
      fold t1. destruct (mgr_inv_put byte_of sk s x t1 Ht1 Hs Hx Hc) as [Ht2 Hq2].
      { by rewrite Hqx. }
      { by intros k Hk'%Hno. }
      apply (wp_kept byte_of); [gentle|split; [done|by etrans]|done]. }
    pose proof (mgr_sock _ _ _ _ Ht Hs) as Hi.
    apply wp_bind. eapply wp_upd; [done|]. apply wp_bind. unfold markEstablished.
    apply wp_bind, wp_deref with (s := setRwnd (window_ ack) s); [by eapply put_sock_at|].
    change (state_ (setRwnd (window_ ack) s)) with (state_ s).
    destruct Hst as [Hst|Hst]; rewrite Hst.
    + rewrite bool_decide_false by done. cbn [negb when].
      do 5 (apply wp_bind; eapply wp_upd; [by eapply put_sock_at|]; rewrite put_sock_put).
      eapply wp_upd; [by eapply put_sock_at|]. rewrite put_sock_put. fold (opened (window_ ack) s).
      apply Hrest; [by apply opened_inv|by apply opened_calm|done].
    + rewrite bool_decide_true by done. apply wp_ret.
      apply Hrest; [destruct Hi; by constructor| |done].
      apply mild_calm. constructor; cbn; auto.
  - apply wp_bind, wp_tget. apply (wp_kept byte_of); [|done|done].
    case_match; gentle. all: try apply delete_subseteq.
Qed.

Lemma gentle_onFin a fin : gentle byte_of (onFin a fin).
Proof. unfold onFin. gentle. apply delete_subseteq. Qed.

(** A socket with more data in its buffer. *)
Definition received (l : list byte) (s : TcpSocket) : TcpSocket :=
  set_rcvNxt (rcvNxt_ s + vsize l) (set_recvBufUsed (recvBufUsed_ s + vsize l)
    (set_recvBuf (recvBuf_ s ++ l) s)).

Lemma received_inv l s :
  sock_inv byte_of s -> state_ s <> SYN_SENT -> stream byte_of (rcvNxt_ s - 1) l ->
  sock_inv byte_of (received l s) /\ mild s (received l s).
Proof.
  intros [B U N G Y] Hs Hl.
  assert (Ht : taken (received l s) = taken s) by (unfold taken; cbn; rewrite vsize_app; lia).
  split; [|by constructor; cbn; auto]. constructor; cbn; try done.
  - rewrite Ht. apply stream_app; [done|]. unfold taken.
    by replace (rcvNxt_ s - 1 - vsize (recvBuf_ s) + vsize (recvBuf_ s)) with (rcvNxt_ s - 1) by lia.
  - rewrite vsize_app. lia.
Qed.

Lemma wp_append_genuine sk payload s t e (Q : Z -> TcpManager * E -> Prop) :
  sock_at sk s t -> 0 < vsize payload <= getRecvBufAvailable s ->
  (let s' := set_recvBufUsed (recvBufUsed_ s + vsize payload)
               (set_recvBuf (recvBuf_ s ++ payload) s) in
   Q (vsize payload) (put_sock sk s' t, e)) ->
  wp (appendToRecvBuf sk payload 0 (vsize payload)) (t, e) Q (tcp_ends byte_of).
Proof.
  intros Hs [Hp Ha] HQ. unfold appendToRecvBuf. apply wp_bind. eapply wp_deref; [done|].
  replace (vsize payload <=? 0) with false by lia.
  apply wp_bind, (wp_int_quiet byte_of). intros _. unfold getRecvBufAvailable in Ha.
  rewrite Z.min_l by lia. rewrite Z.max_r by lia. apply wp_bind. unfold slice.
  replace ((0 <=? 0) && (0 <=? vsize payload) && (0 + vsize payload <=? vsize payload)) with true by lia.
  apply wp_ret. change (Z.to_nat 0) with 0%nat. rewrite drop_0, take_ge by (unfold vsize; lia).
  apply wp_bind. eapply wp_upd; [done|]. apply wp_bind, (wp_int_quiet byte_of). intros _.
  apply wp_bind. eapply wp_upd; [by eapply put_sock_at|]. rewrite put_sock_put. by apply wp_ret.
Qed.

Lemma gentle_onData a seg : genuine_seg byte_of seg -> type_ seg = DATA -> gentle byte_of (onData a seg).
Proof.
  intros Hseg Hty. unfold onData. apply gentle_bind; [gentle|]. intros est.
  destruct (est !! _) as [sk|]; [|apply gentle_ret]. apply gentle_deref_bind. intros s t e Ht He Hs.
  destruct (negb _) eqn:Hopen; [by apply wp_ret|].
  assert (Hsyn : state_ s <> SYN_SENT).
  { unfold isConnected, isClosurePending in Hopen. by destruct (state_ s). }
  destruct (_ =? 0) eqn:H0; [by apply (gentle_bind byte_of); [gentle|intros ?; apply gentle_ret|..]|].
  destruct (_ =? rcvNxt_ s) eqn:Hseq; [|by apply (wp_kept byte_of); [gentle|..]].
  destruct (_ <? _) eqn:Hroom; [by apply (wp_kept byte_of); [gentle|..]|].
  apply wp_bind, (wp_append_genuine _ _ s); [done|unfold vsize in *; lia|].
  apply wp_bind, (wp_int_quiet byte_of). intros _. apply wp_bind.
  eapply wp_upd; [by eapply put_sock_at|]. rewrite put_sock_put. cbv beta.
  fold (received (Transport.payload_ seg) s).
  destruct (received_inv (Transport.payload_ seg) s) as [Hi Hm]; [by eapply mgr_sock|done| |].
  { apply Z.eqb_eq in Hseq as <-. by apply Hseg. }
  apply (wp_kept byte_of); [gentle| |done]. by apply mgr_inv_mild with s.
Qed.

Lemma gentle_receiveTransport a seg : genuine_seg byte_of seg -> gentle byte_of (receiveTransport a seg).
Proof.
  intros Hseg. unfold receiveTransport. pose proof (gentle_onSyn a seg). pose proof (gentle_onAck a seg).
  pose proof (gentle_onFin a seg). destruct (type_ seg =? DATA) eqn:Hty.
  - pose proof (gentle_onData a seg Hseg (proj1 (Z.eqb_eq _ _) Hty)). gentle.
  - gentle.
Qed.
End flow.

Section calls.
Context (byte_of : Z -> byte) {E : Type} `{Manager E} `{!Carrier byte_of E}.
Implicit Types (t : TcpManager) (e : E) (s : TcpSocket).

(** ** write *)

(** The socket after [r] bytes were written, or after an error. *)
Record written (r : Z) (s s' : TcpSocket) : Prop := {
  wr_inv : sock_inv byte_of s';
  wr_taken : taken s' = taken s;
  wr_state : state_ s' = state_ s;
  wr_queue : pendingConnQueue_ s' = pendingConnQueue_ s;
  wr_nxt : r <> -1 -> 0 <= r /\ sndNxt_ s' = sndNxt_ s + r
}.

Lemma written_more n r s s1 s2 :
  0 <= n -> written n s s1 -> written r s1 s2 ->
  written (if r =? -1 then -1 else n + r) s s2.
Proof.
  intros Hn [I1 T1 S1 Q1 N1] [I2 T2 S2 Q2 N2]. constructor; [done|congruence..|].
  destruct (r =? -1) eqn:Hr; [done|]. intros _. destruct N1 as [_ N1]; [lia|].
  destruct N2 as [? N2]; lia.
Qed.

Lemma stream_slice buf pos len chunk p :
  0 <= pos -> 0 <= chunk <= len -> stream byte_of p (take (Z.to_nat len) (drop (Z.to_nat pos) buf)) ->
  stream byte_of p (take (Z.to_nat chunk) (drop (Z.to_nat pos) buf)) /\
  stream byte_of (p + chunk) (take (Z.to_nat (len - chunk)) (drop (Z.to_nat (pos + chunk)) buf)).
Proof.
  intros Hp Hc Hs. split.
  - apply (stream_take byte_of p (Z.to_nat chunk)) in Hs. by rewrite take_take, Nat.min_l in Hs by lia.
  - apply (stream_drop byte_of p (Z.to_nat chunk)) in Hs. rewrite Z2Nat.id in Hs by lia.
    rewrite skipn_firstn_comm, drop_drop in Hs.
    by rewrite <- Z2Nat.inj_add, <- Z2Nat.inj_sub in Hs by lia.
Qed.

Lemma wp_write_loop_genuine fuel sk s buf pos len tot t e (Q : Z + Z -> TcpManager * E -> Prop) :
  carries byte_of e -> sock_at sk s t -> sock_inv byte_of s -> 0 <= pos -> 0 <= tot ->
  stream byte_of (sndNxt_ s - 1) (take (Z.to_nat len) (drop (Z.to_nat pos) buf)) ->
  (forall r s' e', carries byte_of e' -> written r s s' ->
     Q (if r =? -1 then inl (-1) else inr (tot + r)) (put_sock sk s' t, e')) ->
  wp (write_loop fuel sk buf pos len tot) (t, e) Q (tcp_ends byte_of).
Proof.
  revert s pos len tot t e Q.
  induction fuel as [|fuel IH]; intros s pos len tot t e Q He Hs Hi Hpos Htot Hst HQ; [done|].
  cbn [write_loop].
  assert (Hend : Q (inr tot) (t, e)).
  { rewrite <- (put_sock_id sk s t) by done. rewrite <- (Z.add_0_r tot).
    apply (HQ 0); [done|]. by constructor; [..|lia]. }
  destruct (Z.leb_spec len 0); [by apply wp_ret|].
  apply wp_bind. eapply wp_deref; [done|]. apply wp_bind, (wp_int_quiet byte_of). intros _.
  case_match; [by apply wp_ret|]. apply wp_bind, (wp_int_quiet byte_of). intros _.
  set (chunk := Z.min len _). destruct (Z.leb_spec chunk 0); [by apply wp_ret|].
  apply wp_bind. unfold slice. destruct (_ && _); [|done]. apply wp_ret, wp_bind.
  destruct (stream_slice buf pos len chunk _ Hpos ltac:(lia) Hst) as [Hpl Hrest].
  set (payload := take (Z.to_nat chunk) _) in *.
  apply (wp_sendData_genuine byte_of) with (s := s); [done|done|apply Hi|done|].
  intros ok e1 He1. destruct ok; cbn [negb].
  2: { apply wp_ret. rewrite <- (put_sock_id sk s t) by done. apply (HQ (-1)); [done|by constructor]. }
  apply wp_bind, wp_env. eapply wp_conseq; [by apply ca_now| |by intros [] ?].
  intros now e2 He2. cbn [snd fst].
  apply wp_bind. eapply wp_upd; [done|]. cbv beta.
  apply wp_bind. eapply wp_deref; [by eapply put_sock_at|].
  apply wp_bind, (wp_int_quiet byte_of). intros Hnxt. cbn [sndNxt_ set_outstanding] in Hnxt.
  apply wp_bind. eapply wp_upd; [by eapply put_sock_at|]. rewrite put_sock_put. cbv beta.
  set (s1 := set_sndNxt _ _). do 3 (apply wp_bind, (wp_int_quiet byte_of); intros _).
  assert (Hw : written chunk s s1).
  { constructor; try done; [|intros _; split; [lia|done]]. destruct Hi as [B U N G Y].
    constructor; try done. apply Forall_app_2; [done|]. by constructor; [split|constructor]. }
  eapply (IH s1); [done|by eapply put_sock_at|apply Hw|lia|lia| |].
  - change (sndNxt_ s1) with (sndNxt_ s + chunk).
    by replace (sndNxt_ s + chunk - 1) with (sndNxt_ s - 1 + chunk) by lia.
  - intros r s' e' He' Hr. rewrite put_sock_put.
    pose proof (written_more chunk r s s1 s' ltac:(lia) Hw Hr) as Hm.
    specialize (HQ _ _ _ He' Hm). destruct (Z.eqb_spec r (-1)); [done|].
    destruct (wr_nxt _ _ _ Hr) as [? _]; [done|].
    replace (chunk + r =? -1) with false in HQ by lia. by rewrite <- Z.add_assoc.
Qed.

Lemma wp_write_genuine sk s buf pos len t e (Q : Z -> TcpManager * E -> Prop) :
  carries byte_of e -> sock_at sk s t -> sock_inv byte_of s ->
  stream byte_of (sndNxt_ s - 1) (take (Z.to_nat len) (drop (Z.to_nat pos) buf)) ->
  (forall r s' e', carries byte_of e' -> written r s s' -> Q r (put_sock sk s' t, e')) ->
  wp (write sk (Some buf) pos len) (t, e) Q (tcp_ends byte_of).
Proof.
  intros He Hs Hi Hst HQ. unfold write. apply wp_bind. eapply wp_deref; [done|].
  assert (Hsame : forall r, r = -1 \/ r = 0 -> Q r (t, e)).
  { intros r Hr. rewrite <- (put_sock_id sk s t) by done. apply HQ; [done|].
    constructor; done || lia. }
  destruct (_ || _) eqn:Hbad; [apply wp_ret, Hsame; by left|].
  destruct (len =? 0); [apply wp_ret, Hsame; by right|]. apply wp_bind.
  eapply (wp_write_loop_genuine _ _ s); [done|done|done|lia|done|done|]. intros r s' e' He' Hw.
  destruct (r =? -1) eqn:Hr; [apply Z.eqb_eq in Hr as ->; by apply wp_ret, HQ|].
  rewrite Z.add_0_l. apply wp_bind, wp_when; intros _; [|by apply wp_ret, HQ].
  apply wp_bind, wp_env. eapply wp_conseq; [by apply ca_now| |by intros [] ?].
  intros now e2 He2. cbn [snd fst].
  apply wp_bind. eapply wp_deref; [by eapply put_sock_at|]. apply wp_bind, (wp_long_quiet byte_of).
  eapply wp_upd; [by eapply put_sock_at|]. rewrite put_sock_put. apply wp_ret, HQ; [done|].
  destruct Hw as [[] ? ? ? ?]. by constructor.
Qed.

(** ** read *)

Lemma read_loop_inv n pos buf src buf' src' :
  read_loop n pos buf src = Some (buf', src') ->
  (n <= length src)%nat /\ src' = drop n src /\ length buf' = length buf /\
  forall j, (j < n)%nat -> buf' !! (pos + j)%nat = src !! j.
Proof.
  intros Hl.
  assert ((n <= length src)%nat /\ (n = 0%nat \/ (pos + n <= length buf)%nat)) as [Hn Hb].
  { revert pos buf src Hl. induction n as [|n IH]; intros pos buf src; [lia|]. cbn.
    destruct src as [|b src]; [done|]. case_decide; [|done]. intros [? ?]%IH. cbn.
    rewrite length_insert in *. lia. }
  destruct Hb as [-> |Hb].
  - injection Hl as <- <-. split; [done|]. split; [done|]. split; [done|]. lia.
  - rewrite read_loop_run in Hl by done. injection Hl as <- <-. split; [done|]. split; [done|].
    split; [by apply overwrite_length|]. intros j Hj. by apply overwrite_lookup.
Qed.

(** The socket after [n] bytes were read. *)
Record drawn (n : Z) (s s' : TcpSocket) : Prop := {
  dr_inv : sock_inv byte_of s';
  dr_taken : taken s' = taken s + n;
  dr_state : state_ s' = state_ s \/ state_ s' = CLOSED;
  dr_queue : pendingConnQueue_ s' = pendingConnQueue_ s
}.

Lemma drawn_close n s s' : drawn n s s' -> drawn n s (set_state CLOSED s').
Proof. intros [[] ? ? ?]. constructor; [by constructor|done|by right|done]. Qed.

(** [n] bytes of the stream were written to [buf], from [pos] on. *)
Definition filled_with (p : Z) (pos n : Z) (buf buf' : list byte) : Prop :=
  length buf' = length buf /\
  forall j, (j < Z.to_nat n)%nat -> buf' !! (Z.to_nat pos + j)%nat = Some (byte_of (p + Z.of_nat j)).

Lemma wp_read_genuine sk s buf pos len t e (Q : Z * option (list byte) -> TcpManager * E -> Prop) :
  sock_at sk s t -> sock_inv byte_of s -> state_ s <> SYN_SENT ->
  Q (-1, Some buf) (t, e) ->
  (forall n s' buf', state_open (state_ s) = true -> 0 <= n -> drawn n s s' -> filled_with (taken s) pos n buf buf' ->
     Q (n, Some buf') (put_sock sk s' t, e)) ->
  wp (read sk (Some buf) pos len) (t, e) Q (tcp_ends byte_of).
Proof.
  intros Hs Hi Hsyn Hno HQ. unfold read. apply wp_bind. eapply wp_deref; [done|].
  destruct (_ || _ || _) eqn:Hbad; [by apply wp_ret|]. rewrite !orb_false_iff in Hbad.
  assert (Hopen : state_open (state_ s) = true).
  { destruct Hbad as [[Hst _] _]. by destruct (state_ s). }
  assert (Hclose : forall b (x : Z * option (list byte)) s1, sock_at sk s t ->
    Q x (put_sock sk s1 t, e) -> Q x (put_sock sk (set_state CLOSED s1) t, e) ->
    wp (when b (upd sk (set_state CLOSED)) ;; ret x) (put_sock sk s1 t, e) Q (tcp_ends byte_of)).
  { intros b x s1 _ H1 H2. apply wp_bind, wp_when; intros _; [|by apply wp_ret].
    eapply wp_upd; [by eapply put_sock_at|]. rewrite put_sock_put. by apply wp_ret. }
  destruct (_ || _) eqn:Hz.
  - assert (Hd : drawn 0 s s) by (constructor; [done|lia|by left|done]).
    assert (Hf : filled_with (taken s) pos 0 buf buf) by (split; [done|cbn; lia]).
    rewrite <- (put_sock_id sk s t) at 1 by done. apply Hclose; [done| |].
    + by apply HQ.
    + apply HQ; [done|done|by apply drawn_close|done].
  - set (n := Z.min len _). destruct (read_loop _ _ _ _) as [[buf' src']|] eqn:Hl; [|done].
    apply read_loop_inv in Hl as (Hn & -> & Hlen & Hgot). pose proof Hi as [B U N G Y].
    apply wp_bind. eapply wp_upd; [done|]. apply wp_bind, (wp_int_quiet byte_of). intros _.
    apply wp_bind. eapply wp_upd; [by eapply put_sock_at|]. rewrite put_sock_put. cbv beta.
    assert (H0 : 0 <= n) by (rewrite U in *; unfold vsize in *; lia).
    assert (Hv : vsize (drop (Z.to_nat n) (recvBuf_ s)) = vsize (recvBuf_ s) - n)
      by (unfold vsize in *; rewrite length_drop; lia).
    set (s1 := set_recvBufUsed _ _).
    assert (Ht1 : taken s1 = taken s + n) by (unfold taken; cbn; lia).
    assert (Hd : drawn n s s1).
    { constructor; [constructor; cbn; try done|done|by left|done].
      - rewrite Ht1. pose proof (stream_drop byte_of _ (Z.to_nat n) _ B) as Hb.
        by rewrite Z2Nat.id in Hb by lia.
      - lia. }
    assert (Hf : filled_with (taken s) pos n buf buf').
    { split; [done|]. intros j Hj. rewrite Hgot by done.
      destruct (lookup_lt_is_Some_2 (recvBuf_ s) j) as [b Hb]; [lia|].
      rewrite Hb. by rewrite (B _ _ Hb). }
    apply Hclose; [done|by apply HQ|]. apply HQ; [done|done|by apply drawn_close|done].
Qed.

(** ** accept *)

Lemma wp_accept_genuine sk t e (Q : option ptr -> TcpManager * E -> Prop) :
  mgr_inv byte_of t -> Q None (t, e) ->
  (forall conn c t', mgr_inv byte_of t' -> sock_at conn c t' -> state_ c <> SYN_SENT -> taken c = 0 ->
     queued t ≡ₚ conn :: queued t' -> quiet_for_others conn t t' -> Q (Some conn) (t', e)) ->
  wp (accept sk) (t, e) Q (tcp_ends byte_of).
Proof.
  intros Ht Hno HQ. unfold accept. apply wp_bind, (wp_deref_any byte_of). intros s Hs.
  destruct (negb _) eqn:Hl; [by apply wp_ret|].
  destruct (pendingConnQueue_ s) as [|conn rest] eqn:Hq; [by apply wp_ret|].
  apply wp_bind. eapply wp_upd; [done|]. cbv beta. set (s1 := set_pendingConnQueue rest s).
  set (t1 := put_sock sk s1 t).
  assert (Hperm : queued t ≡ₚ conn :: queued t1).
  { destruct (queued_split sk s t Hs) as (more & Q1 & Q2). rewrite Q1, Hq. unfold t1.
    by rewrite (Q2 s1). }
  assert (Hconn : conn ∈ queued t) by (rewrite Hperm; left).
  assert (Hnot : conn ∉ queued t1).
  { pose proof (mi_queue _ _ Ht) as Hnd. rewrite Hperm in Hnd. by apply NoDup_cons in Hnd as [? _]. }
  destruct (mgr_inv_mild byte_of sk s s1 t) as [Ht1 Hq1]; [done|done| | |].
  { destruct (mgr_sock _ _ _ _ Ht Hs). by constructor. }
  { constructor; cbn; auto. rewrite Hq. by apply sublist_cons. }
  fold t1 in Ht1, Hq1.
  destruct (mi_child _ _ Ht conn Hconn) as (c0 & Hc0 & Hsyn0 & Htk0).
  destruct (qt_old _ _ Hq1 _ _ Hc0) as (c & Hc & Hcalm).
  destruct (cm_taken _ _ Hcalm Hsyn0) as [Htk Hsyn]. rewrite Htk0 in Htk.
  assert (Hothers : quiet_for_others conn t t1).
  { split; [|apply Hq1]. intros sk' x _ Hx. by apply (qt_old _ _ Hq1). }
  apply wp_bind, wp_deref with (s := c); [done|]. apply wp_bind, wp_when; intros Hst.
  - eapply wp_upd; [done|]. apply wp_ret.
    destruct (mgr_inv_put_any byte_of conn c (set_state ESTABLISHED c) t1) as [Ht2 [Ho Hq2]];
      [done|done| |done|done| |].
    + destruct (mgr_sock _ _ _ _ Ht1 Hc). by constructor.
    + intros k Hk. exfalso. destruct (mi_pend _ _ Ht1 k conn Hk) as (x & Hx & Hx').
      unfold sock_at in *. assert (x = c) as -> by congruence.
      destruct Hx' as [E1|E1]; [done|]. by rewrite E1 in Hst.
    + destruct (queued_split conn c t1 Hc) as (more & Q1 & Q2).
      eapply HQ; [done|by eapply put_sock_at|done|done| |].
      * rewrite Hperm, Q1. by rewrite (Q2 (set_state ESTABLISHED c)).
      * split; [|intros x [?|Hx]%Hq2; [by apply Hothers|]].
        -- intros sk' x Hne Hx. destruct (proj1 Hothers _ _ Hne Hx) as (y & Hy & C1).
           destruct (Ho _ _ Hne Hy) as (z & Hz & C2). exists z. split; [done|by etrans].
        -- right. destruct (allSockets_ t !! x) as [y|] eqn:Hy; [|done].
           destruct (qt_old _ _ Hq1 _ _ Hy) as (z & Hz & _). unfold sock_at in Hz. congruence.
  - apply wp_ret. by eapply HQ.
Qed.

(** ** connect and listen, on a new socket *)

Record fresh (sk : ptr) (t : TcpManager) : Prop := {
  fr_queue : sk ∉ queued t;
  fr_pend : forall k, synPendingByKey_ t !! k <> Some sk
}.

Lemma next_fresh t :
  mgr_inv byte_of t -> fresh (next_sock t) (with_socket new_TcpSocket t).
Proof.
  intros Ht. constructor.
  - rewrite queued_with by done. intros Hx%(queued_old byte_of); [lia|done].
  - intros k Hk. destruct (mi_pend _ _ Ht k _ Hk) as (s & Hs & _).
    apply lookup_lt_Some in Hs. unfold next_sock in Hs. lia.
Qed.

Lemma wp_connect_fresh sk s dest port t e (Q : Z -> TcpManager * E -> Prop) :
  mgr_inv byte_of t -> carries byte_of e -> fresh sk t -> sock_at sk s t ->
  state_ s = CLOSED -> recvBuf_ s = [] ->
  (forall r s' t' e', mgr_inv byte_of t' -> carries byte_of e' -> sk ∉ queued t' ->
     quiet_for_others sk t t' -> sock_at sk s' t' -> state_ s' <> ESTABLISHED -> Q r (t', e')) ->
  wp (connect sk dest port) (t, e) Q (tcp_ends byte_of).
Proof.
  intros Ht He [Fq Fp] Hs Hcl Hbuf HQ. pose proof (mgr_sock _ _ _ _ Ht Hs) as Hi.
  assert (Hput : forall t1 s1, mgr_inv byte_of t1 -> allSockets_ t1 = allSockets_ t ->
    sock_inv byte_of s1 -> state_ s1 <> ESTABLISHED ->
    (forall k, synPendingByKey_ t1 !! k = Some sk -> state_ s1 = SYN_SENT \/ state_ s1 = CLOSED) ->
    pendingConnQueue_ s1 = pendingConnQueue_ s ->
    forall r e', carries byte_of e' -> Q r (put_sock sk s1 t1, e')).
  { intros t1 s1 Ht1 Heq Hi1 Hst Hp Hqe r e' He'.
    assert (Hs1 : sock_at sk s t1) by (unfold sock_at; by rewrite Heq).
    assert (Hqu : queued t1 = queued t) by (unfold queued; by rewrite Heq).
    destruct (mgr_inv_put_any byte_of sk s s1 t1) as [Ht2 [Ho Hq2]];
      [done|done|done|by rewrite Hqu|by rewrite Hqe|done|].
    apply (HQ r s1); [done|done| | |by eapply put_sock_at|done].
    - destruct (queued_split sk s t1 Hs1) as (more & Q1 & Q2). rewrite (Q2 s1), Hqe, <- Q1.
      by rewrite Hqu.
    - split.
      + intros sk' x Hne Hx. apply Ho; [done|]. unfold sock_at. by rewrite Heq.
      + intros x Hx%Hq2. by rewrite Hqu, Heq in Hx. }
  unfold connect. apply wp_bind. eapply wp_deref; [done|].
  assert (Hsame : forall r e', carries byte_of e' -> forall s1, sock_inv byte_of s1 ->
    state_ s1 = CLOSED -> pendingConnQueue_ s1 = pendingConnQueue_ s -> Q r (put_sock sk s1 t, e')).
  { intros r e' He' s1 Hi1 Hst1 Hq1. apply Hput; [done|done|done|by rewrite Hst1| |done|done].
    by right. }
  destruct (_ || _).
  { apply wp_ret. rewrite <- (put_sock_id sk s t) by done. by apply Hsame. }
  apply wp_bind. eapply wp_upd; [done|]. do 2 (apply wp_bind; eapply wp_upd; [by eapply put_sock_at|];
    rewrite put_sock_put). cbv beta. set (s1 := set_synSeq _ _).
  assert (Hi1 : sock_inv byte_of s1) by (destruct Hi; by constructor).
  apply wp_bind. eapply wp_eq; [apply sendSyn_transmit with (s := s1); by eapply put_sock_at|].
  apply (wp_transmit_genuine byte_of); [done|done|done|]. intros ok e1 He1.
  destruct ok; cbn [negb]; [|apply wp_ret; by apply Hsame].
  apply wp_bind. unfold registerSynPending. apply wp_bind. eapply wp_deref; [by eapply put_sock_at|].
  apply wp_tmodify. rewrite pending_put, put_set_pending. set (m := <[ _ := sk]> _).
  apply wp_bind. eapply wp_upd; [eapply put_sock_at; exact Hs|]. rewrite put_sock_put. apply wp_ret.
  apply Hput; [|done| |done|by left|done|done].
  - pose proof Ht as [S1 Q1 C1 P1 O1]. constructor; [done..| |].
    + intros k x. cbn. unfold m. intros [[_ <-]|[_ Hk]]%lookup_insert_Some; [|by apply (P1 k)].
      exists s. split; [done|by right].
    + intros k k' x. cbn. unfold m.
      intros [[<- <-]|[_ Hk]]%lookup_insert_Some [[<- H1]|[_ H1]]%lookup_insert_Some; [done| | |].
      * by apply Fp in H1.
      * subst x. by apply Fp in Hk.
      * by apply (O1 k k' x).
  - destruct Hi1. by constructor.
Qed.

Lemma wp_listen_fresh sk s backlog t e (Q : Z -> TcpManager * E -> Prop) :
  mgr_inv byte_of t -> carries byte_of e -> fresh sk t -> sock_at sk s t -> state_ s = CLOSED ->
  (forall r t', mgr_inv byte_of t' -> quiet_for_others sk t t' -> queued t' ≡ₚ queued t -> Q r (t', e)) ->
  wp (listen sk backlog) (t, e) Q (tcp_ends byte_of).
Proof.
  intros Ht He [Fq Fp] Hs Hcl HQ. unfold listen. apply wp_bind. eapply wp_deref; [done|].
  rewrite bool_decide_true by done. cbn [negb]. apply wp_bind. eapply wp_upd; [done|].
  apply wp_bind. eapply wp_upd; [by eapply put_sock_at|]. rewrite put_sock_put.
  set (s1 := set_backlog _ _). apply wp_bind, wp_tmodify, wp_ret.
  destruct (mgr_inv_put_any byte_of sk s s1 t) as [Ht1 [Ho Hq1]]; [done|done| |done|done| |].
  { destruct (mgr_sock _ _ _ _ Ht Hs). by constructor. }
  { by intros k Hk%Fp. }
  set (t1 := put_sock sk s1 t) in *. set (t2 := set_listenersByPort _ t1).
  destruct (mgr_inv_tables byte_of t1 t2 Ht1 eq_refl) as [Ht2 _]; [done|].
  apply HQ; [done|by split|].
  destruct (queued_split sk s t Hs) as (more & Q1 & Q2). rewrite Q1. apply (Q2 s1).
Qed.
End calls.
