(* ===== verification/PatternNode.v ===== *)
(** * The stream in a node

    The invariant of a node and its tasks, for transfer buffers that are
    compatible with one size, and the rules for steps of a node: each keeps the
    invariant, sends genuine packets and shows no alarm. *)

From S2P Require Import Prelude CppStrings Doubles DoubleText Packet Transport Runtime TcpData TcpSend TcpSocket TcpManager TcpRun TcpGrow TcpOps Pattern TcpFlow Node Apps StackNode NodeRun AppSpec PatternTcp PatternFlow.

(** ** The stream of a size *)

Definition byte_at (size k : Z) : byte := u8 (k mod size).

Lemma pattern_stream size p n : stream (byte_at size) p (pattern size p n).
Proof.
  intros i b Hb. pose proof (lookup_lt_Some _ _ _ Hb) as Hi. rewrite pattern_length in Hi.
  rewrite pattern_lookup in Hb by done. by injection Hb as <-.
Qed.

Lemma byte_at_compatible size size' k :
  compatible size size' -> byte_at size k = byte_at size' k.
Proof.
  intros Hc. pose proof (pattern_compatible size size' k 1 Hc) as Hp.
  injection Hp as Hp. by rewrite Z.add_0_r in Hp.
Qed.

Lemma elem_of_concat {A} (L : list (list A)) x : x ∈ concat L <-> exists l, x ∈ l /\ l ∈ L.
Proof.
  rewrite list_elem_of_In, in_concat. split; intros (l & H1 & H2); exists l; rewrite ?list_elem_of_In in *; auto.
Qed.

Section inv.
Context (size : Z).

(** ** Tasks *)

(** The sockets that a task reads from or writes to. *)
Definition owned (k : TimerTask) : list ptr :=
  match body_ k with
  | ClientTask c => [client_sock_ c]
  | ServerTask _ => []
  | WorkerTask w => [worker_sock_ w]
  end.

(** What the client wrote is what its socket numbered. *)
Definition client_view (pos : Z) (s : TcpSocket) : Prop :=
  (state_ s = SYN_SENT -> pos = 0) /\ (state_ s = ESTABLISHED -> sndNxt_ s = 1 + pos).

(** What the worker read is what was taken out of its socket. *)
Definition worker_view (pos : Z) (s : TcpSocket) : Prop :=
  state_ s <> SYN_SENT /\ taken s = pos.

Definition task_inv (t : TcpManager) (k : TimerTask) : Prop :=
  match body_ k with
  | ClientTask c =>
      compatible (vsize (client_buf_ c)) size /\ 0 <= client_pos_ c /\
      (client_pos_ c = 0 \/ client_buf_ c = fill (client_buf_ c)) /\
      exists s, sock_at (client_sock_ c) s t /\ client_view (client_pos_ c) s
  | ServerTask s => compatible (bufSize_ s) size
  | WorkerTask w =>
      compatible (vsize (worker_buf_ w)) size /\ 0 <= worker_pos_ w /\
      exists s, sock_at (worker_sock_ w) s t /\ worker_view (worker_pos_ w) s
  end.

Lemma client_view_calm pos s s' : client_view pos s -> calm s s' -> client_view pos s'.
Proof.
  intros [V1 V2] [T E _]. split.
  - intros Hs. destruct (decide (state_ s = SYN_SENT)); [by apply V1|].
    by destruct (T n) as [_ ?].
  - intros [[He ->]|[Hs ->]]%E; [by apply V2|]. by rewrite V1.
Qed.

Lemma worker_view_calm pos s s' : worker_view pos s -> calm s s' -> worker_view pos s'.
Proof. intros [V1 V2] [T _ _]. destruct (T V1) as [<- ?] in V2. done. Qed.

(** ** The node *)

Definition all_owned (n : StackNode) : list ptr := concat (owned <$> tasks_ n).

Record node_inv (n : StackNode) : Prop := {
  ni_tcp : mgr_inv (byte_at size) (tcpMan_ n);
  ni_owned : NoDup (queued (tcpMan_ n) ++ all_owned n);
  ni_tasks : Forall (task_inv (tcpMan_ n)) (tasks_ n)
}.

Lemma new_node_inv addr : node_inv (new_StackNode addr).
Proof. constructor; [apply new_mgr_inv|constructor|constructor]. Qed.

Lemma task_inv_at n id k : node_inv n -> tasks_ n !! id = Some k -> task_inv (tcpMan_ n) k.
Proof. intros Hn Hk. exact (Forall_lookup_1 _ _ _ _ (ni_tasks _ Hn) Hk). Qed.

Lemma owned_at n sk : node_inv n -> sk ∈ all_owned n -> exists s, sock_at sk s (tcpMan_ n).
Proof.
  intros Hn (l & Hsk & Hl)%elem_of_concat. apply list_elem_of_fmap in Hl as (k & -> & Hk).
  apply list_elem_of_lookup in Hk as [id Hk]. pose proof (task_inv_at _ _ _ Hn Hk) as Hi.
  unfold owned, task_inv in *. destruct (body_ k); [|by apply not_elem_of_nil in Hsk|].
  - apply list_elem_of_singleton in Hsk as ->. destruct Hi as (_ & _ & _ & s & ? & _). by exists s.
  - apply list_elem_of_singleton in Hsk as ->. destruct Hi as (_ & _ & s & ? & _). by exists s.
Qed.

Lemma elem_of_owned n id k sk :
  tasks_ n !! id = Some k -> sk ∈ owned k -> sk ∈ all_owned n.
Proof.
  intros Hk Hsk. apply elem_of_concat. exists (owned k). split; [done|].
  apply list_elem_of_fmap. exists k. split; [done|]. by eapply list_elem_of_lookup_2.
Qed.

Lemma NoDup_concat_ne {A} (L : list (list A)) i j l1 l2 x :
  NoDup (concat L) -> L !! i = Some l1 -> L !! j = Some l2 -> x ∈ l1 -> x ∈ l2 -> i = j.
Proof.
  assert (Hin : forall (L : list (list A)) j l x, L !! j = Some l -> x ∈ l -> x ∈ concat L).
  { intros L' j' l x' Hl Hx. apply elem_of_concat. exists l. split; [done|].
    by eapply list_elem_of_lookup_2. }
  revert i j. induction L as [|l L IH]; intros i j; [done|]. cbn.
  intros (N1 & N2 & N3)%NoDup_app H1 H2 X1 X2.
  destruct i as [|i], j as [|j]; cbn in H1, H2; [done| | |f_equal; by eapply IH].
  - injection H1 as ->. destruct (N2 _ X1). by eapply Hin.
  - injection H2 as ->. destruct (N2 _ X2). by eapply Hin.
Qed.

Lemma owned_once n id id' k k' sk :
  node_inv n -> tasks_ n !! id = Some k -> tasks_ n !! id' = Some k' ->
  sk ∈ owned k -> sk ∈ owned k' -> id = id'.
Proof.
  intros Hn Hk Hk' H1 H2. pose proof (ni_owned _ Hn) as (_ & _ & Hnd)%NoDup_app.
  eapply (NoDup_concat_ne _ id id' (owned k) (owned k')); [exact Hnd|..|exact H1|exact H2].
  - by rewrite list_lookup_fmap, Hk.
  - by rewrite list_lookup_fmap, Hk'.
Qed.

(** A task's sockets elsewhere are calm, so it stays as it should be. *)
Lemma task_inv_calm t t' k :
  task_inv t k ->
  (forall sk s, sk ∈ owned k -> sock_at sk s t -> exists s', sock_at sk s' t' /\ calm s s') ->
  task_inv t' k.
Proof.
  unfold task_inv, owned. destruct (body_ k) as [c|srv|w]; [|done|].
  - intros (H1 & H2 & H3 & s & Hs & Hv) Hq. do 3 (split; [done|]).
    destruct (Hq _ s (list_elem_of_here _ _) Hs) as (s' & ? & Hc). exists s'.
    split; [done|]. by eapply client_view_calm.
  - intros (H1 & H2 & s & Hs & Hv) Hq. do 2 (split; [done|]).
    destruct (Hq _ s (list_elem_of_here _ _) Hs) as (s' & ? & Hc). exists s'.
    split; [done|]. by eapply worker_view_calm.
Qed.

Lemma owned_apart n t' :
  node_inv n -> mgr_inv (byte_at size) t' ->
  (forall sk, sk ∈ queued t' -> sk ∈ queued (tcpMan_ n) \/ allSockets_ (tcpMan_ n) !! sk = None) ->
  NoDup (queued t' ++ all_owned n).
Proof.
  intros Hn Ht' Hq. pose proof (ni_owned _ Hn) as (_ & Hd & Ho)%NoDup_app.
  apply NoDup_app. split; [apply Ht'|]. split; [|done]. intros sk [Hx|Hx]%Hq; [by apply Hd|].
  intros Hsk. destruct (owned_at n sk Hn Hsk) as [s Hs]. unfold sock_at in Hs. congruence.
Qed.

(** A quiet step of the transport layer. *)
Lemma node_inv_quiet n t' :
  node_inv n -> mgr_inv (byte_at size) t' -> quiet (tcpMan_ n) t' -> node_inv (set_tcpMan t' n).
Proof.
  intros Hn Ht' [O Q]. constructor; [done|exact (owned_apart n t' Hn Ht' Q)|]. cbn.
  apply Forall_lookup. intros id k Hk. eapply task_inv_calm; [by eapply task_inv_at|].
  intros sk s _. apply O.
Qed.

Lemma owned_put_task id k k' n :
  tasks_ n !! id = Some k -> owned k' = owned k -> all_owned (put_task id k' n) = all_owned n.
Proof.
  intros Hk Ho. Transparent put_task. unfold all_owned, put_task. Opaque put_task. cbn.
  rewrite list_fmap_insert, Ho. f_equal. apply list_insert_id. by rewrite list_lookup_fmap, Hk.
Qed.

(** A task changes. *)
Lemma node_inv_task n id k k' :
  node_inv n -> tasks_ n !! id = Some k -> owned k' = owned k -> task_inv (tcpMan_ n) k' ->
  node_inv (put_task id k' n).
Proof.
  intros Hn Hk Ho Hi. constructor; [apply Hn| |].
  - erewrite owned_put_task by done. apply Hn.
  - apply Forall_insert; [apply Hn|done].
Qed.

(** A task and the socket that it owns. *)
Lemma node_inv_owned n id k k' sk t' :
  node_inv n -> tasks_ n !! id = Some k -> owned k = [sk] -> owned k' = [sk] ->
  mgr_inv (byte_at size) t' -> quiet_for_others sk (tcpMan_ n) t' -> task_inv t' k' ->
  node_inv (put_task id k' (set_tcpMan t' n)).
Proof.
  intros Hn Hk Ho Ho' Ht' [O Q] Hi. constructor; [done| |].
  - erewrite owned_put_task by (done || by rewrite Ho).
    exact (owned_apart n t' Hn Ht' Q).
  - apply Forall_lookup. intros j kj. cbn.
    intros [(<- & <- & _)|[Hne Hj]]%list_lookup_insert_Some; [done|].
    eapply task_inv_calm; [by eapply task_inv_at|]. intros sk' s Hsk'. apply O. intros ->.
    apply Hne. eapply (owned_once n id j); [done..|by rewrite Ho; left|done].
Qed.

(** A new task. *)
Lemma node_inv_push n k :
  node_inv n -> NoDup (owned k) -> (forall sk, sk ∈ owned k -> sk ∉ queued (tcpMan_ n) ++ all_owned n) ->
  task_inv (tcpMan_ n) k -> node_inv (set_tasks (tasks_ n ++ [k]) n).
Proof.
  intros [H1 H2 H3] Hnd Hno Hi. constructor; [done| |].
  - unfold all_owned. cbn. rewrite fmap_app, concat_app. cbn. rewrite app_nil_r, app_assoc.
    apply NoDup_app. split; [done|]. split; [|done]. intros x Hx Hk. by apply (Hno x).
  - cbn. apply Forall_app_2; [done|by constructor].
Qed.
End inv.
