(* ===== verification/PatternTasks.v ===== *)
(** * The stream through the tasks and the node

    The client writes the stream from its position on, the worker finds the
    stream at its position, and no step of a task ends with the alarm.  Then the
    server's accepting, the timers, the packets that arrive and the commands
    that are typed: every entry point of a node keeps its invariant, if arriving
    packets are genuine and the buffer sizes of the commands are compatible. *)

From S2P Require Import Prelude CppStrings Doubles DoubleText Packet Transport Runtime TcpData TcpSend TcpSocket TcpManager TcpRun TcpGrow Pattern TcpInv TcpOps TcpFlow Node Apps StackNode NodeRun NodeSpec AppSpec PatternTcp PatternFlow PatternNode.

Section rules.
Context (size : Z) {E : Type} `{Manager E} `{!Carrier (byte_at size) E} `{MapOrder}.
Implicit Types (n : StackNode) (e : E).

Definition node_ends (f : fault) (st : StackNode * E) : Prop :=
  match f with
  | UB => True
  | Thrown _ => node_inv size st.1 /\ carries (byte_at size) st.2
  | NoFuel | Exited _ => carries (byte_at size) st.2
  end.

Definition meek {A} (m : M (StackNode * E) A) : Prop :=
  forall n e, node_inv size n -> carries (byte_at size) e ->
    wp m (n, e) (fun _ st => node_inv size st.1 /\ carries (byte_at size) st.2) node_ends.

Lemma meek_ret {A} (a : A) : meek (ret a).
Proof. intros n e Hn He. by apply wp_ret. Qed.

Lemma meek_throw {A} x : meek (fail (A := A) (Thrown x)).
Proof. intros n e Hn He. by apply wp_fail. Qed.

Lemma meek_lift {A} (r : exn + A) : meek (lift_exn r).
Proof. destruct r; [apply meek_throw|apply meek_ret]. Qed.

Lemma meek_bind {A B} (m : M (StackNode * E) A) (k : A -> M (StackNode * E) B) :
  meek m -> (forall a, meek (k a)) -> meek (bind m k).
Proof.
  intros Hm Hk n e Hn He. apply wp_bind. eapply wp_conseq; [by apply Hm| |done].
  intros a [n1 e1] [Hn1 He1]. by apply Hk.
Qed.

Lemma meek_try {A} (m : M (StackNode * E) A) h :
  meek m -> (forall x, meek (h x)) -> meek (try_catch m h).
Proof.
  intros Hm Hh n e Hn He. apply wp_try. eapply wp_conseq; [by apply Hm|done|].
  intros [x| | |] [n1 e1]; cbn; try done. intros [? ?]. by apply Hh.
Qed.

Lemma meek_int z : meek (int z).
Proof. intros n e Hn He. unfold int. case_match; [by apply wp_ret|done]. Qed.

Lemma meek_long z : meek (long z).
Proof. intros n e Hn He. unfold long. case_match; [by apply wp_ret|done]. Qed.

Lemma wp_int_node z n e (Q : Z -> StackNode * E -> Prop) :
  Q z (n, e) -> wp (int z) (n, e) Q node_ends.
Proof. intros HQ. unfold int. case_match; [by apply wp_ret|done]. Qed.

Lemma wp_long_node z n e (Q : Z -> StackNode * E -> Prop) :
  Q z (n, e) -> wp (long z) (n, e) Q node_ends.
Proof. intros HQ. unfold long. case_match; [by apply wp_ret|done]. Qed.

(** ** The environment: the node is the same *)

Lemma node_ends_stops f n e : stops (carries (byte_at size)) f e -> node_ends f (n, e).
Proof. by destruct f. Qed.

Lemma wp_now_node n e (Q : Z -> StackNode * E -> Prop) :
  carries (byte_at size) e -> (forall now e', carries (byte_at size) e' -> Q now (n, e')) ->
  wp (manager mgr_now) (n, e) Q node_ends.
Proof.
  intros He HQ. apply wp_manager. eapply wp_conseq; [by apply ca_now| |].
  - intros now e' He'. by apply HQ.
  - intros f e'. apply node_ends_stops.
Qed.

Lemma wp_timer_node a d cb n e (Q : unit -> StackNode * E -> Prop) :
  carries (byte_at size) e -> (forall e', carries (byte_at size) e' -> Q tt (n, e')) ->
  wp (manager (mgr_addTimer a d cb)) (n, e) Q node_ends.
Proof.
  intros He HQ. apply wp_manager. eapply wp_conseq; [by apply ca_addTimer| |].
  - intros [] e' He'. by apply HQ.
  - intros f e'. apply node_ends_stops.
Qed.

Lemma wp_emit_node o n e (Q : unit -> StackNode * E -> Prop) :
  carries (byte_at size) e -> harmless o -> (forall e', carries (byte_at size) e' -> Q tt (n, e')) ->
  wp (manager (mgr_emit o)) (n, e) Q node_ends.
Proof.
  intros He Ho HQ. apply wp_manager. eapply wp_conseq; [by apply ca_emit| |].
  - intros [] e' He'. by apply HQ.
  - intros f e'. apply node_ends_stops.
Qed.

Lemma wp_output_node s n e (Q : unit -> StackNode * E -> Prop) :
  carries (byte_at size) e -> (forall e', carries (byte_at size) e' -> Q tt (n, e')) -> wp (logOutput s) (n, e) Q node_ends.
Proof.
  intros He HQ. apply wp_bind, wp_node_get, wp_emit_node; [done|apply harmless_cout|done].
Qed.

Lemma wp_error_node s n e (Q : unit -> StackNode * E -> Prop) :
  carries (byte_at size) e -> s <> corrupted -> (forall e', carries (byte_at size) e' -> Q tt (n, e')) ->
  wp (Node.logError s) (n, e) Q node_ends.
Proof.
  intros He Hs HQ. apply wp_bind, wp_node_get, wp_emit_node; [done|by apply harmless_log|done].
Qed.

Lemma meek_now : meek (manager mgr_now).
Proof. intros n e Hn He. by apply wp_now_node. Qed.

Lemma meek_timer a d cb : meek (manager (mgr_addTimer a d cb)).
Proof. intros n e Hn He. by apply wp_timer_node. Qed.

Lemma meek_output s : meek (logOutput s).
Proof. intros n e Hn He. by apply wp_output_node. Qed.

Lemma meek_error s : s <> corrupted -> meek (Node.logError s).
Proof. intros Hs n e Hn He. by apply wp_error_node. Qed.

Lemma meek_node_get {A} (f : StackNode -> A) : meek (node_get f).
Proof. intros n e Hn He. by apply wp_node_get. Qed.

Lemma meek_pings l : meek (node_put (set_pings l)).
Proof. intros n e [] He. by apply wp_node_put. Qed.

Lemma meek_add_ping p : meek (node_put (fun n => set_pings (pings_ n ++ [p]) n)).
Proof. intros n e [] He. by apply wp_node_put. Qed.

(** ** The transport layer *)

Lemma wp_tcp_node {A} (m : M (TcpManager * E) A) n e (Q : A -> StackNode * E -> Prop) :
  wp m (tcpMan_ n, e) (fun a te => Q a (set_tcpMan te.1 n, te.2)) (tcp_ends (byte_at size)) ->
  wp (tcp m) (n, e) Q node_ends.
Proof.
  intros Hm. apply wp_zoom. eapply wp_conseq; [exact Hm|done|]. by intros [] [].
Qed.

Lemma meek_tcp {A} (m : M (TcpManager * E) A) : gentle (byte_at size) m -> meek (tcp m).
Proof.
  intros Hm n e Hn He. apply wp_tcp_node. eapply wp_conseq; [apply Hm; [apply Hn|done]| |done].
  intros a [t' e'] (Ht' & He' & Hq). split; [|done]. by apply node_inv_quiet.
Qed.

Lemma wp_socket_node sk n e (Q : TcpSocket -> StackNode * E -> Prop) :
  (forall s, sock_at sk s (tcpMan_ n) -> Q s (n, e)) -> wp (socket_of sk) (n, e) Q node_ends.
Proof.
  intros HQ. apply wp_tcp_node, (wp_deref_any (byte_at size)). intros s Hs. cbn [fst snd].
  rewrite set_tcpMan_id. by apply HQ.
Qed.

(** ** Tasks *)

Lemma wp_task_node id n e (Q : TimerTask -> StackNode * E -> Prop) :
  (forall k, tasks_ n !! id = Some k -> Q k (n, e)) -> wp (task_of id) (n, e) Q node_ends.
Proof.
  intros HQ. apply wp_bind, wp_node_get. destruct (tasks_ n !! id) as [k|] eqn:Hk; [|done].
  by apply wp_ret, HQ.
Qed.

Lemma meek_task_of id : meek (task_of id).
Proof. intros n e Hn He. by apply wp_task_node. Qed.

Lemma meek_upd_task id f :
  (forall t k, task_inv size t k -> owned (f k) = owned k /\ task_inv size t (f k)) ->
  meek (upd_task id f).
Proof.
  intros Hf n e Hn He. apply wp_bind, wp_task_node. intros k Hk. apply wp_node_put.
  destruct (Hf (tcpMan_ n) k) as [Ho Hi]; [by eapply task_inv_at|].
  erewrite list_alter_insert by done. split; [|done].
  exact (node_inv_task size n id k (f k) Hn Hk Ho Hi).
Qed.

Lemma meek_stop id : meek (stop id).
Proof. apply meek_upd_task. intros t [ms b] Hk. by split. Qed.

Lemma meek_schedule id : meek (schedule id).
Proof.
  apply meek_bind; [apply meek_task_of|]. intros k. case_match; [apply meek_ret|].
  apply meek_bind; [apply meek_node_get|]. intros a. apply meek_timer.
Qed.

Lemma meek_upd_client id f :
  (forall c, client_sock_ (f c) = client_sock_ c /\ client_buf_ (f c) = client_buf_ c /\
     client_pos_ (f c) = client_pos_ c) -> meek (upd_client id f).
Proof.
  intros Hf. apply meek_upd_task. intros t k Hk. unfold owned, task_inv in *.
  destruct (body_ k) as [c| |] eqn:Hb; cbn; rewrite ?Hb; try done.
  destruct (Hf c) as (-> & -> & ->). done.
Qed.
End rules.

Create HintDb meek.
#[export] Hint Resolve meek_ret meek_throw meek_lift meek_int meek_long meek_now meek_timer meek_output
  meek_node_get meek_pings meek_add_ping meek_task_of meek_stop meek_schedule : meek.

Ltac meek_step :=
  lazymatch goal with
  | |- meek _ (bind _ _) => apply meek_bind; [|intros ?]
  | |- meek _ (try_catch _ _) => apply meek_try; [|intros ?]
  | |- meek _ (Node.logError _) => apply meek_error; first [discriminate | assumption]
  | |- meek _ (upd_client _ _) => apply meek_upd_client; by intros []
  | |- meek _ (tcp _) => apply meek_tcp; solve [eauto with gentle]
  | |- meek _ (match _ with _ => _ end) => case_match
  | |- meek _ (let '(_, _) := _ in _) => case_match
  | |- meek _ _ => solve [eauto with meek]
  end.
Ltac meek := repeat first [progress cbv zeta | meek_step].

(** Calls of the environment one after the other. *)
Ltac calls :=
  repeat (apply wp_bind; lazymatch goal with
  | |- wp (manager mgr_now) _ _ _ => apply (wp_now_node _); [assumption|intros ? ? ?]
  | |- wp (Node.logError _) _ _ _ => apply (wp_error_node _); [assumption|discriminate || assumption|intros ? ?]
  | |- wp (logOutput _) _ _ _ => apply (wp_output_node _); [assumption|intros ? ?]
  end).

Section tasks.
Context (size : Z) {E : Type} `{Manager E} `{!Carrier (byte_at size) E} `{MapOrder}.
Implicit Types (n : StackNode) (e : E).

(** ** The client *)

Lemma client_stream c len :
  compatible (vsize (client_buf_ c)) size -> 0 < vsize (client_buf_ c) -> 0 <= client_pos_ c ->
  client_pos_ c = 0 \/ client_buf_ c = fill (client_buf_ c) ->
  len <= vsize (client_buf_ c) - client_index c ->
  stream (byte_at size) (client_pos_ c)
    (take (Z.to_nat len) (drop (Z.to_nat (client_index c)) (client_buffer c))).
Proof.
  intros Hc Hs Hp Hf Hl. fold (piece (client_buffer c) (client_index c) len).
  destruct (Z.le_gt_cases 0 len).
  - assert (client_buffer c = fill (client_buf_ c)) as ->.
    { unfold client_buffer. destruct (_ =? 0) eqn:Hi; [done|].
      destruct Hf as [Hf|Hf]; [|done]. unfold client_index in Hi. rewrite Hf, Zmod_0_l in Hi. done. }
    unfold client_index in *. rewrite fill_piece by lia.
    rewrite (pattern_compatible _ size) by done. apply pattern_stream.
  - unfold piece. by replace (Z.to_nat len) with 0%nat by lia.
Qed.

Lemma wp_rem_any a b n e (Q : Z -> StackNode * E -> Prop) :
  (b <> 0 -> Q (Z.rem a b) (n, e)) -> wp (rem_int a b) (n, e) Q (node_ends size).
Proof.
  intros HQ. unfold rem_int. case_decide; [done|]. case_match; [by apply wp_ret, HQ|done].
Qed.

Lemma client_task_inv t k c :
  task_inv size t (client_task k c) <->
  compatible (vsize (client_buf_ c)) size /\ 0 <= client_pos_ c /\
  (client_pos_ c = 0 \/ client_buf_ c = fill (client_buf_ c)) /\
  exists s, sock_at (client_sock_ c) s t /\ client_view (client_pos_ c) s.
Proof. by destruct k. Qed.

Lemma quiet_for_others_trans sk s t1 t2 t3 :
  quiet_for_others sk t1 t2 -> sock_at sk s t2 -> quiet t2 t3 -> quiet_for_others sk t1 t3.
Proof.
  intros [O1 Q1] Hs2 [O2 Q2]. split.
  - intros sk' x Hne Hx. destruct (O1 _ _ Hne Hx) as (y & Hy & C1).
    destruct (O2 _ _ Hy) as (z & Hz & C2). exists z. split; [done|by etrans].
  - intros x Hx. destruct (Q2 x Hx) as [?|Hn]; [by apply Q1|]. right.
    destruct (allSockets_ t1 !! x) as [y|] eqn:Hy; [|done]. unfold sock_at in *.
    destruct (decide (x = sk)) as [->|Hne]; [congruence|].
    destruct (O1 x y Hne Hy) as (z & Hz & _). congruence.
Qed.

Lemma release_closes sk s t e :
  mgr_inv (byte_at size) t -> carries (byte_at size) e -> sock_at sk s t ->
  let t' := release_spec sk s t in
  mgr_inv (byte_at size) t' /\ quiet t t' /\ exists s', sock_at sk s' t' /\ state_ s' = CLOSED.
Proof.
  intros Ht He Hs t'. pose proof (gentle_release (byte_at size) sk t e Ht He) as Hw.
  unfold wp in Hw. rewrite (release_run sk s t e Hs) in Hw. destruct Hw as (? & _ & ?).
  split; [done|]. split; [done|]. unfold t', release_spec. case_decide; [by exists s|].
  exists (released s). split; [|done]. by eapply put_sock_at, unregistered_at.
Qed.

(** A client whose socket is closed. *)
Lemma client_view_closed pos s : state_ s = CLOSED -> client_view pos s.
Proof. intros Hs. split; congruence. Qed.

Lemma owned_not_queued n id k sk :
  node_inv size n -> tasks_ n !! id = Some k -> sk ∈ owned k -> sk ∉ queued (tcpMan_ n).
Proof.
  intros Hn Hk Hsk Hq. pose proof (ni_owned _ _ Hn) as (_ & Hd & _)%NoDup_app.
  apply (Hd _ Hq). by eapply elem_of_owned.
Qed.

(** The socket that a task owns changes its numbers. *)
Lemma mgr_inv_open n id k sk s s' :
  node_inv size n -> tasks_ n !! id = Some k -> sk ∈ owned k -> sock_at sk s (tcpMan_ n) ->
  sock_inv (byte_at size) s' -> state_open (state_ s) = true ->
  pendingConnQueue_ s' = pendingConnQueue_ s ->
  let t' := put_sock sk s' (tcpMan_ n) in
  mgr_inv (byte_at size) t' /\ quiet_for_others sk (tcpMan_ n) t'.
Proof.
  intros Hn Hk Hsk Hs Hi Hopen Hq. apply mgr_inv_put_any with s; [apply Hn|done|done| | |].
  - intros Hx. by destruct (owned_not_queued n id k sk Hn Hk Hsk).
  - by rewrite Hq.
  - intros x Hx. destruct (mi_pend _ _ (ni_tcp _ _ Hn) x sk Hx) as (y & Hy & Hst).
    unfold sock_at in *. assert (y = s) as -> by congruence. destruct Hst as [Hst|Hst]; by rewrite Hst in Hopen.
Qed.

Lemma put_task_same id k n : put_task id k n = set_tasks (<[id := k]> (tasks_ n)) n.
Proof. Transparent put_task. done. Opaque put_task. Qed.

Lemma client_filled_any c :
  client_pos_ c = 0 \/ client_buf_ c = fill (client_buf_ c) ->
  client_buffer c = fill (client_buffer c).
Proof.
  intros Hf. unfold client_buffer, client_index. destruct (_ =? 0) eqn:Hi; [by rewrite fill_fill|].
  destruct Hf as [Hf|Hf]; [|done]. by rewrite Hf, Zmod_0_l in Hi.
Qed.

Lemma wp_client_write id k c c' s n e :
  node_inv size n -> carries (byte_at size) e -> tasks_ n !! id = Some (client_task k c') ->
  client_sock_ c' = client_sock_ c -> client_buf_ c' = client_buf_ c -> client_pos_ c' = client_pos_ c ->
  sock_at (client_sock_ c) s (tcpMan_ n) -> state_ s = ESTABLISHED ->
  wp (let size := vsize (client_buf_ c) in
      let! index := rem_int (client_pos_ c) size in
      let buf := if index =? 0 then fill (client_buf_ c) else client_buf_ c in
      upd_client id (set_client_buf buf) ;;
      let! room := int (size - index) in
      let! count := tcp (write (client_sock_ c) (Some buf) index (Z.min room (amount_ c))) in
      if count =? -1
      then
        let! now := manager mgr_now in
        Node.logError ("time = " +:+ to_string now +:+ " msec") ;;
        Node.logError "sending aborted" ;;
        Node.logError ("position = " +:+ to_string (client_pos_ c)) ;;
        Node.logError "releasing connection..." ;;
        tcp (release (client_sock_ c)) ;;
        stop id
      else
        let! pos := int (client_pos_ c + count) in
        upd_client id (set_client_pos pos) ;;
        let! amount := int (amount_ c - count) in
        upd_client id (set_amount amount)) (n, e)
    (fun _ st => node_inv size st.1 /\ carries (byte_at size) st.2) (node_ends size).
Proof.
  intros Hn He Hk E1 E2 E3 Hs Hst.
  pose proof (proj1 (client_task_inv _ k c') (task_inv_at _ _ _ _ Hn Hk))
    as (Hc & Hp & Hf & s0 & Hs0 & Hv).
  rewrite E1, E2, E3 in *. unfold sock_at in *. assert (s0 = s) as -> by congruence. clear Hs0.
  pose proof (proj2 Hv Hst) as Hnxt.
  pose proof (mgr_sock _ _ _ _ (ni_tcp _ _ Hn) Hs) as Hi. cbv zeta.
  apply wp_bind, wp_rem_any. intros Hsz. pose proof (vsize_nonneg (client_buf_ c)).
  rewrite Z.rem_mod_nonneg by lia. fold (client_index c) (client_buffer c).
  apply wp_bind. eapply wp_upd_client; [done|]. set (n1 := put_task id _ n).
  apply wp_bind, wp_int_node, wp_bind, wp_tcp_node.
  apply (wp_write_genuine (byte_at size)) with (s := s); [done|done|done| |].
  { rewrite Hnxt. replace (1 + client_pos_ c - 1) with (client_pos_ c) by lia.
    apply client_stream; done || lia. }
  intros r s' e1 He1 Hw. cbn [fst snd].
  assert (Ho : owned (client_task k c') = [client_sock_ c]) by (by rewrite <- E1).
  destruct (mgr_inv_open n id _ (client_sock_ c) s s' Hn Hk) as [Ht' Hq'];
    [rewrite Ho; by left|done|apply Hw|by rewrite Hst|apply Hw|].
  set (t' := put_sock _ s' _) in *.
  assert (Hs' : sock_at (client_sock_ c) s' t') by (by eapply put_sock_at).
  set (c1 := set_client_buf (client_buffer c) c') in *.
  assert (Hc1 : vsize (client_buf_ c1) = vsize (client_buf_ c)).
  { cbn. unfold client_buffer, vsize. case_match; [by rewrite fill_length|done]. }
  destruct (Z.eqb_spec r (-1)) as [Hr|Hr].
  - calls. apply wp_bind, wp_tcp_node. eapply run_wp; [by apply (release_run _ s')|]. cbn [fst snd].
    destruct (release_closes (client_sock_ c) s' t' e1) as (Ht2 & Hq2 & s2 & Hs2 & Hcl); [done..|].
    eapply wp_stop; [by apply (put_task_at _ _ (client_task k c'))|].
    unfold n1. autorewrite with node. split; [|done]. cbn [fst].
    change (node_inv size (put_task id (stopped (client_task k c1))
      (set_tcpMan (release_spec (client_sock_ c) s' t') n))).
    eapply node_inv_owned with (sk := client_sock_ c); [done|exact Hk|done|exact Ho|done| |].
    + by eapply quiet_for_others_trans.
    + apply (client_task_inv _ (stopped k) c1). rewrite Hc1. split; [done|]. cbn. rewrite E1, E3.
      split; [done|]. split; [right; by apply client_filled_any|]. exists s2. split; [done|].
      by apply client_view_closed.
  - destruct (wr_nxt _ _ _ _ Hw Hr) as [Hr0 Hnxt'].
    apply wp_bind, wp_int_node, wp_bind. eapply wp_upd_client; [by apply (put_task_at _ _ (client_task k c'))|].
    apply wp_bind, wp_int_node. eapply wp_upd_client; [eapply put_task_at; by apply (put_task_at _ _ (client_task k c'))|].
    unfold n1. autorewrite with node. split; [|done]. cbn [fst].
    eapply node_inv_owned with (sk := client_sock_ c); [done|exact Hk|done|exact Ho|done|done|].
    apply client_task_inv. split; [by rewrite <- Hc1 in Hc|]. cbn. rewrite E1.
    split; [lia|]. split; [right; by apply client_filled_any|]. exists s'. split; [done|].
    split; [|lia]. rewrite (wr_state _ _ _ _ Hw). congruence.
Qed.

(** A step leaves the node and the environment as they should be. *)
Definition good {A} (_ : A) (st : StackNode * E) : Prop :=
  node_inv size st.1 /\ carries (byte_at size) st.2.

Lemma wp_client_connected_good id k c s n e :
  node_inv size n -> carries (byte_at size) e -> tasks_ n !! id = Some (client_task k c) ->
  sock_at (client_sock_ c) s (tcpMan_ n) -> state_ s = ESTABLISHED ->
  wp (client_connected id c) (n, e) good (node_ends size).
Proof.
  intros Hn He Hk Hs Hst. unfold client_connected. apply wp_bind.
  lazymatch goal with |- wp _ _ (fun _ st => wp ?m st _ _) _ =>
    assert (Hrest : forall c' n' e', node_inv size n' -> carries (byte_at size) e' ->
      tasks_ n' !! id = Some (client_task k c') -> tcpMan_ n' = tcpMan_ n ->
      client_sock_ c' = client_sock_ c -> client_buf_ c' = client_buf_ c ->
      client_pos_ c' = client_pos_ c -> wp m (n', e') good (node_ends size))
  end.
  2: { destruct (startTime_ c =? 0); [|by apply wp_ret, (Hrest c)].
       calls. apply wp_bind. eapply wp_upd_client; [done|]. calls. apply wp_output_node; [done|].
       intros e4 He4. eapply (Hrest (set_startTime _ c)); [|done|by eapply put_task_at|done..].
       eapply (node_inv_task _ _ _ _ _ Hn Hk); [done|]. exact (task_inv_at _ _ _ _ Hn Hk). }
  intros c' n' e' Hn' He' Hk' Ht E1 E2 E3. destruct (amount_ c =? 0).
  - apply (meek_bind size); [meek|intros ?; meek|done|done].
  - eapply wp_client_write; [done|done|exact Hk'|done..| |exact Hst]. by rewrite Ht.
Qed.

Lemma meek_client_closed id c : meek size (client_closed id c).
Proof. unfold client_closed. meek. Qed.

Lemma wp_client_good id k c n e :
  node_inv size n -> carries (byte_at size) e -> tasks_ n !! id = Some (client_task k c) ->
  wp (client_execute id c) (n, e) good (node_ends size).
Proof.
  intros Hn He Hk. unfold client_execute. apply wp_bind, wp_socket_node. intros s Hs.
  destruct (isConnectionPending s); [by apply wp_ret|].
  destruct (isConnected s) eqn:Hst.
  { eapply wp_client_connected_good; [done|done|exact Hk|exact Hs|].
    unfold isConnected in Hst. by apply bool_decide_eq_true in Hst. }
  destruct (isClosurePending s); [by apply wp_ret|].
  destruct (isClosed s); [by apply meek_client_closed|]. by apply meek_error.
Qed.

(** ** The worker *)

Lemma worker_task_inv t k w :
  task_inv size t (worker_task k w) <->
  compatible (vsize (worker_buf_ w)) size /\ 0 <= worker_pos_ w /\
  exists s, sock_at (worker_sock_ w) s t /\ worker_view (worker_pos_ w) s.
Proof. by destruct k. Qed.

Lemma wp_verify_good (n : nat) i buf st (Q : bool -> StackNode * E -> Prop) :
  (forall j b, (j < n)%nat -> buf !! Z.to_nat (i + Z.of_nat j) = Some b -> b = u8 (i + Z.of_nat j)) ->
  Q true st -> wp (verify_loop n i buf) st Q (node_ends size).
Proof.
  revert i. induction n as [|n IH]; intros i Hb HQ; cbn [verify_loop]; [by apply wp_ret|].
  destruct (buf !! Z.to_nat i) as [b|] eqn:Hi; [|by destruct st].
  rewrite decide_True by (specialize (Hb 0%nat b); rewrite Z.add_0_r in Hb; apply Hb; [lia|done]).
  apply IH; [|done]. intros j b' Hj Hb'.
  replace (i + 1 + Z.of_nat j) with (i + Z.of_nat (S j)) in * by lia. apply Hb; [lia|done].
Qed.

Lemma meek_abort id w reason : reason <> corrupted -> meek size (worker_abort id w reason).
Proof. intros Hr. unfold worker_abort. meek. Qed.

(** The bytes that are read into the buffer are the worker's bytes. *)
Lemma filled_expected w buf' (n : Z) j b :
  compatible (vsize (worker_buf_ w)) size -> 0 < vsize (worker_buf_ w) -> 0 <= worker_pos_ w ->
  let index := worker_pos_ w mod vsize (worker_buf_ w) in
  filled_with (byte_at size) (worker_pos_ w) index n (worker_buf_ w) buf' ->
  (j < Z.to_nat n)%nat -> buf' !! Z.to_nat (index + Z.of_nat j) = Some b ->
  b = u8 (index + Z.of_nat j).
Proof.
  intros Hc Hs Hp index [Hl Hf] Hj Hb. pose proof (Z.mod_pos_bound (worker_pos_ w) _ Hs) as Hi.
  fold index in Hi. replace (Z.to_nat (index + Z.of_nat j)) with (Z.to_nat index + j)%nat in Hb by lia.
  pose proof (lookup_lt_Some _ _ _ Hb) as Hlt. rewrite Hf in Hb by done. injection Hb as <-.
  rewrite <- (byte_at_compatible _ _ _ Hc). unfold byte_at. f_equal.
  rewrite <- (Z.mod_small (index + Z.of_nat j) (vsize (worker_buf_ w))) by (unfold vsize in *; lia).
  unfold index. by rewrite Zplus_mod_idemp_l.
Qed.

Lemma wp_worker_good id k w n e :
  node_inv size n -> carries (byte_at size) e -> tasks_ n !! id = Some (worker_task k w) ->
  wp (worker_execute id w) (n, e) good (node_ends size).
Proof.
  intros Hn He Hk. unfold worker_execute. apply wp_bind, wp_socket_node. intros s Hs.
  pose proof (proj1 (worker_task_inv _ k w) (task_inv_at _ _ _ _ Hn Hk))
    as (Hc & Hp & s0 & Hs0 & Hsyn & Htk).
  unfold sock_at in *. assert (s0 = s) as -> by congruence. clear Hs0.
  destruct (isClosed s); cbn [negb]; [by apply (meek_bind size); [meek|intros ?; meek|..]|].
  cbv zeta. apply wp_bind, wp_rem_any. intros Hsz. pose proof (vsize_nonneg (worker_buf_ w)).
  rewrite Z.rem_mod_nonneg by lia. set (index := _ mod _).
  pose proof (mgr_sock _ _ _ _ (ni_tcp _ _ Hn) Hs) as Hi.
  apply wp_bind, wp_int_node, wp_bind, wp_tcp_node.
  apply (wp_read_genuine (byte_at size)) with (s := s); [done|done|done| |].
  - cbn [fst snd default]. rewrite set_tcpMan_id. apply wp_bind. eapply wp_upd_worker; [done|].
    rewrite Z.eqb_refl. apply meek_abort; [discriminate| |done].
    eapply (node_inv_task _ _ _ _ _ Hn Hk); [done|]. exact (task_inv_at _ _ _ _ Hn Hk).
  - intros r s' buf' Hopen Hr Hd Hf. cbn [fst snd default]. apply wp_bind. eapply wp_upd_worker; [done|].
    replace (r =? -1) with false by lia. apply wp_bind.
    assert (Hgood : forall Q : bool -> StackNode * E -> Prop, forall st, Q true st ->
      wp (if r >? 0 then verify_loop (Z.to_nat r) index buf' else ret true) st Q (node_ends size)).
    { intros Q st HQ. case_match; [|by apply wp_ret]. apply wp_verify_good; [|done].
      intros j b Hj Hb. rewrite Htk in Hf. by eapply (filled_expected w); [done|lia|done|exact Hf|..]. }
    apply Hgood. cbn [negb]. apply wp_bind, wp_int_node.
    eapply wp_upd_worker; [by eapply (put_task_at _ _ (worker_task k w))|].
    rewrite put_task_put. split; [|done]. cbn [fst].
    destruct (mgr_inv_open n id _ (worker_sock_ w) s s' Hn Hk) as [Ht' Hq'];
      [by left|done|apply Hd|done|apply Hd|].
    eapply node_inv_owned with (sk := worker_sock_ w); [done|exact Hk|done..|].
    apply worker_task_inv. cbn. destruct Hf as [Hf _]. unfold vsize in *. rewrite Hf.
    split; [done|]. split; [lia|]. exists s'. split; [by eapply put_sock_at|].
    split; [|rewrite (dr_taken _ _ _ _ Hd); lia].
    destruct (dr_state _ _ _ _ Hd) as [-> | ->]; done.
Qed.
End tasks.

(** ** Commands whose buffers fit *)

Definition size_word (word : option string) : exn + Z :=
  match word with Some s => stoi s | None => inr DEFAULT_BUFFER_SZ end.

(** The buffer size that a command asks for is compatible with [size]. *)
Definition line_fits (size : Z) (command : string) : Prop :=
  let words := splitSpaceVec command in
  (words !! 0%nat = Some "transfer" ->
     forall z, size_word (words !! 6%nat) = inr z -> compatible z size) /\
  (words !! 0%nat = Some "server" ->
     forall z, size_word (words !! 5%nat) = inr z -> compatible z size).

Section serve.
Context (size : Z) {E : Type} `{Manager E} `{!Carrier (byte_at size) E} `{MapOrder}.
Implicit Types (n : StackNode) (e : E).

(** ** New tasks *)

Lemma node_inv_others n sk t' :
  node_inv size n -> mgr_inv (byte_at size) t' -> quiet_for_others sk (tcpMan_ n) t' ->
  sk ∉ all_owned n -> node_inv size (set_tcpMan t' n).
Proof.
  intros Hn Ht' [O Q] Hsk. constructor; [done|exact (owned_apart size n t' Hn Ht' Q)|]. cbn.
  apply Forall_lookup. intros id k Hk. eapply task_inv_calm; [by eapply task_inv_at|].
  intros sk' s Hsk'. apply O. intros ->. by eapply Hsk, elem_of_owned.
Qed.

Lemma wp_push_good k n e (Q : nat -> StackNode * E -> Prop) X :
  Q (length (tasks_ n)) (set_tasks (tasks_ n ++ [k]) n, e) -> wp (push_task k) (n, e) Q X.
Proof. done. Qed.

(** A task that owns a new socket. *)
Lemma node_inv_push_one n k sk :
  node_inv size n -> owned k = [sk] -> sk ∉ queued (tcpMan_ n) -> sk ∉ all_owned n ->
  task_inv size (tcpMan_ n) k -> node_inv size (set_tasks (tasks_ n ++ [k]) n).
Proof.
  intros Hn Ho H1 H2 Hi. apply node_inv_push; [done|..|done]; rewrite Ho.
  - apply NoDup_singleton.
  - intros x Hx%list_elem_of_singleton. subst x. by intros [?|?]%elem_of_app.
Qed.

Lemma new_buffer_size z buf : new_buffer z = inr buf -> vsize buf = z.
Proof.
  unfold new_buffer. case_match; [done|]. intros [= <-]. unfold vsize. rewrite length_replicate. lia.
Qed.

Lemma setInterval_owned ms k : owned (setInterval ms k) = owned k.
Proof. unfold setInterval. by case_match. Qed.

Lemma setInterval_inv ms t k : task_inv size t (setInterval ms k) <-> task_inv size t k.
Proof. unfold setInterval. by case_match. Qed.

Lemma new_worker_inv t sk ms z k s :
  new_TransferWorker sk ms z = inr k -> compatible z size ->
  sock_at sk s t -> state_ s <> SYN_SENT -> taken s = 0 ->
  owned k = [sk] /\ task_inv size t k.
Proof.
  unfold new_TransferWorker. destruct (new_buffer z) as [|buf] eqn:Hb; [done|]. intros [= <-].
  apply new_buffer_size in Hb. intros Hz Hs H1 H2. rewrite setInterval_owned, setInterval_inv.
  split; [done|]. cbn. rewrite Hb. split; [done|]. split; [done|]. by exists s.
Qed.

Lemma new_client_inv t sk amount ms z k s :
  new_TransferClient sk amount ms z = inr k -> compatible z size ->
  sock_at sk s t -> state_ s <> ESTABLISHED ->
  owned k = [sk] /\ task_inv size t k.
Proof.
  unfold new_TransferClient. destruct (new_buffer z) as [|buf] eqn:Hb; [done|]. intros [= <-].
  apply new_buffer_size in Hb. intros Hz Hs H1. rewrite setInterval_owned, setInterval_inv.
  split; [done|]. cbn. rewrite Hb. split; [done|]. split; [done|]. split; [by left|].
  exists s. split; [done|]. by split.
Qed.

(** ** The server *)

Lemma meek_server id srv : compatible (bufSize_ srv) size -> meek size (server_execute id srv).
Proof.
  intros Hsz n e Hn He. unfold server_execute. apply wp_bind, wp_socket_node. intros s _.
  destruct (isClosed s); cbn [negb]; [by apply (meek_bind size); [meek|intros ?; meek|..]|].
  apply wp_bind, wp_tcp_node, (wp_accept_genuine (byte_at size)); [apply Hn| |].
  { cbn [fst snd]. rewrite set_tcpMan_id. by apply wp_ret. }
  intros conn c t' Ht' Hc Hsyn Htk Hperm Ho. cbn [fst snd].
  assert (Hown : (conn ∉ all_owned n) /\ (conn ∉ queued t')).
  { pose proof (ni_owned _ _ Hn) as Hnd. rewrite Hperm in Hnd. cbn in Hnd.
    apply NoDup_cons in Hnd as [Hnd _]. rewrite elem_of_app in Hnd. tauto. }
  assert (Hn' : node_inv size (set_tcpMan t' n)) by (eapply node_inv_others; [done..|apply Hown]).
  calls. apply wp_bind. destruct (new_TransferWorker _ _ _) as [x|k] eqn:Hk; [by apply wp_fail|].
  apply wp_ret, wp_bind, wp_push_good. apply (meek_schedule size); [|done].
  destruct (new_worker_inv t' conn _ _ k c Hk) as [Hok Hik]; [done..|].
  eapply node_inv_push_one; [done|done|apply Hown|apply Hown|done].
Qed.

(** ** Timers *)

Lemma meek_execute id : meek size (execute id).
Proof.
  intros n e Hn He. apply wp_bind, wp_task_node. intros k Hk.
  pose proof (task_inv_at _ _ _ _ Hn Hk) as Hi. destruct k as [ms b]. cbn [body_].
  destruct b as [c|srv|w].
  - by apply (wp_client_good size id (mkTimerTask ms (ClientTask c))).
  - by apply meek_server.
  - by apply (wp_worker_good size id (mkTimerTask ms (WorkerTask w))).
Qed.

Lemma meek_tick id : meek size (tick id).
Proof. pose proof (meek_execute id). unfold tick. meek. Qed.

Lemma meek_ping_loop now pings : meek size (ping_loop now pings).
Proof. induction pings as [|p pings IH]; cbn [ping_loop]; meek. Qed.

Lemma meek_add_ping_timer : meek size add_ping_timer.
Proof. unfold add_ping_timer. meek. Qed.

Lemma meek_timer_callback cb : meek size (timer cb).
Proof.
  pose proof meek_ping_loop. pose proof meek_add_ping_timer. destruct cb; cbn [timer].
  - unfold pingTimedOut. meek.
  - meek.
  - apply meek_tick.
Qed.

Lemma meek_start : meek size StackNode.start.
Proof. pose proof meek_add_ping_timer. unfold StackNode.start. meek. Qed.

(** ** Packets *)

Lemma meek_lift_bind {A B} (r : exn + A) (k : A -> M (StackNode * E) B) :
  (forall a, r = inr a -> meek size (k a)) -> meek size (bind (lift_exn r) k).
Proof.
  intros Hk n e Hn He. apply wp_bind. destruct r as [x|a]; [by apply wp_fail|]. by apply wp_ret, Hk.
Qed.

Lemma meek_send from dest bytes :
  genuine (byte_at size) bytes -> meek size (manager (mgr_sendPkt from dest bytes)).
Proof.
  intros Hb n e Hn He. apply wp_manager. eapply wp_conseq; [by apply ca_sendPkt|done|].
  by intros [].
Qed.

Lemma meek_sendPacket dest p : genuine (byte_at size) (Packet.pack p) -> meek size (sendPacket dest p).
Proof. intros Hp. pose proof (fun a => meek_send a dest _ Hp). unfold sendPacket. meek. Qed.

Lemma plain_genuine dest src ttl protocol payload p :
  new_Packet dest src ttl protocol 0 payload = inr p -> protocol <> TRANSPORT_PKT ->
  genuine (byte_at size) (Packet.pack p).
Proof. intros Hp Hne. eapply genuine_packet; [exact Hp|]. done. Qed.

Lemma meek_receivePing p : meek size (receivePing p).
Proof.
  unfold receivePing. apply meek_bind; [meek|]. intros _. apply meek_try; [|intros ?; meek].
  apply meek_bind; [meek|]. intros a. apply meek_lift_bind. intros r Hr.
  apply meek_sendPacket. by eapply plain_genuine.
Qed.

Lemma meek_receivePingReply p : meek size (receivePingReply p).
Proof. unfold receivePingReply. meek. Qed.

Lemma meek_onReceive from bytes : genuine (byte_at size) bytes -> meek size (onReceive from bytes).
Proof.
  intros Hg. pose proof meek_receivePing. pose proof meek_receivePingReply. unfold onReceive.
  destruct (Packet.unpack bytes) as [p|] eqn:Hp; [|meek]. unfold receivePacket.
  destruct (protocol_ p =? TRANSPORT_PKT) eqn:Ht; [|meek]. apply Z.eqb_eq in Ht.
  unfold StackNode.receiveTransport.
  destruct (Transport.unpack (Packet.payload_ p)) as [seg|] eqn:Hs; [|meek].
  pose proof (gentle_receiveTransport (byte_at size) (src_ p) seg (Hg p seg Hp Ht Hs)). meek.
Qed.

(** ** Commands *)

Lemma meek_optional arg parse d : meek size (optional_arg arg parse d).
Proof. unfold optional_arg. meek. Qed.
Hint Resolve meek_optional : meek.

Lemma meek_attempt m : meek size m -> meek size (attempt m).
Proof. intros Hm. unfold attempt. apply meek_try; [|intros ?]; meek. Qed.

(** The size of the buffer, as the rest of the command gets it. *)
Lemma meek_size {A} arg (k : Z -> M (StackNode * E) A) :
  (forall z, size_word arg = inr z -> meek size (k z)) ->
  meek size (bind (optional_arg arg stoi DEFAULT_BUFFER_SZ) k).
Proof.
  intros Hk. unfold optional_arg. destruct arg as [w|]; [by apply meek_lift_bind|].
  intros n e Hn He. apply wp_bind, wp_ret. by apply Hk.
Qed.

(** A new socket with a port. *)
Lemma wp_socket_bound {A} port (k : ptr -> M (StackNode * E) A) n e Q X :
  node_inv size n ->
  (forall sk t', node_inv size (set_tcpMan t' n) -> sock_at sk (bound_sock port) t' ->
     fresh sk t' -> sk ∉ all_owned n -> wp (k sk) (set_tcpMan t' n, e) Q X) ->
  wp (let! sock := tcp socket in tcp (bind_ sock port) ;; k sock) (n, e) Q X.
Proof.
  intros Hn Hk. set (t := tcpMan_ n) in *. pose proof (ni_tcp _ _ Hn) as Ht. fold t in Ht.
  set (sk := next_sock t). set (t' := with_socket (bound_sock port) t).
  assert (H1 : tcp socket (n, e) = (Ret sk, (set_tcpMan (with_socket new_TcpSocket t) n, e))) by done.
  assert (H2 : tcp (bind_ sk port) (set_tcpMan (with_socket new_TcpSocket t) n, e) =
    (Ret 0, (set_tcpMan t' n, e))).
  { unfold tcp, zoom, bind_, bind. cbn [fst snd set_tcpMan tcpMan_].
    erewrite upd_run by apply with_socket_at. unfold sk. by rewrite put_with_socket. }
  unfold wp. erewrite bind_run by exact H1. erewrite bind_run by exact H2.
  destruct (mgr_inv_with (byte_at size) (bound_sock port) t Ht) as [Ht' Hq]; [|done|].
  { by constructor. }
  apply Hk; [by apply node_inv_quiet|apply with_socket_at| |].
  - destruct (next_fresh (byte_at size) t Ht) as [F1 F2]. constructor; [|done].
    unfold t'. rewrite queued_with by done. by rewrite queued_with in F1 by done.
  - intros Hin. destruct (owned_at size n sk Hn Hin) as [s Hs]. unfold sock_at in Hs.
    apply lookup_lt_Some in Hs. unfold sk, next_sock, t in Hs. lia.
Qed.

Lemma meek_transfer command : line_fits size command -> meek size (matchTransferCommand command).
Proof.
  intros [Hfit _]. unfold matchTransferCommand.
  destruct (splitSpaceVec command) as [|name [|dest [|port [|local [|bytes more]]]]]; try apply meek_ret.
  destruct (_ || _) eqn:Hname; [apply meek_ret|]. apply orb_false_iff in Hname as [_ Hname].
  apply negb_false_iff, String.eqb_eq in Hname as ->. specialize (Hfit eq_refl). cbn in Hfit.
  apply meek_attempt. do 5 (apply meek_bind; [meek|intros ?]). apply meek_size. intros z Hz.
  specialize (Hfit z Hz). intros n e Hn He. apply wp_socket_bound; [done|].
  intros sk t' Hn' Hs [Fq Fp] Hown. apply wp_bind, wp_tcp_node.
  eapply (wp_connect_fresh (byte_at size)); [apply Hn'|done|done|exact Hs|done|done|].
  intros r s' t2 e2 Ht2 He2 Fq2 Ho2 Hs2 Hst2. cbn [fst snd].
  assert (Hn2 : node_inv size (set_tcpMan t2 n)) by exact (node_inv_others _ sk t2 Hn' Ht2 Ho2 Hown).
  apply wp_bind. destruct (new_TransferClient _ _ _ _) as [x|k] eqn:Hk; [by apply wp_fail|].
  apply wp_ret, wp_bind, wp_push_good. apply (meek_schedule size); [|done].
  destruct (new_client_inv t2 sk _ _ _ k s' Hk) as [Hok Hik]; [done..|].
  by eapply node_inv_push_one.
Qed.

Lemma meek_server_command command : line_fits size command -> meek size (matchServerCommand command).
Proof.
  intros [_ Hfit]. unfold matchServerCommand.
  destruct (splitSpaceVec command) as [|name [|port [|backlog more]]]; try apply meek_ret.
  destruct (_ || _) eqn:Hname; [apply meek_ret|]. apply orb_false_iff in Hname as [_ Hname].
  apply negb_false_iff, String.eqb_eq in Hname as ->. specialize (Hfit eq_refl). cbn in Hfit.
  apply meek_attempt. do 4 (apply meek_bind; [meek|intros ?]). apply meek_size. intros z Hz.
  specialize (Hfit z Hz). intros n e Hn He. apply wp_socket_bound; [done|].
  intros sk t' Hn' Hs Hfr Hown. apply wp_bind, wp_tcp_node.
  eapply (wp_listen_fresh (byte_at size)); [apply Hn'|done|done|exact Hs|done|].
  intros r t2 Ht2 Ho2 Hq2. cbn [fst snd].
  assert (Hn2 : node_inv size (set_tcpMan t2 n)) by exact (node_inv_others _ sk t2 Hn' Ht2 Ho2 Hown).
  apply wp_bind, wp_push_good. apply (meek_bind size); [apply meek_schedule|intros ?; meek| |done].
  apply node_inv_push; [done|..]; unfold new_TransferServer; rewrite ?setInterval_owned, ?setInterval_inv.
  - constructor.
  - intros x Hx. by apply not_elem_of_nil in Hx.
  - done.
Qed.

Lemma meek_ping_command command : meek size (matchPingCommand command).
Proof.
  unfold matchPingCommand. destruct (split_first command) as [[dest text]|]; [|apply meek_ret].
  apply meek_attempt. apply meek_bind; [meek|]. intros d. apply meek_bind; [meek|]. intros a.
  apply meek_lift_bind. intros p Hp. pose proof (meek_sendPacket d p) as Hs.
  specialize (Hs (plain_genuine _ _ _ _ _ _ Hp ltac:(done))). meek.
Qed.

Lemma meek_onCommand command : line_fits size command -> meek size (onCommand command).
Proof.
  intros Hf. pose proof (meek_transfer command Hf). pose proof (meek_server_command command Hf).
  pose proof (meek_ping_command command). unfold onCommand. meek.
Qed.
End serve.
