(* ===== verification/TransferStream.v ===== *)
(** * The file transfer over the network

    The client task's writes in the transition system of TcpStream.v: what the
    server's sockets deliver is the client's pattern, whatever the network
    does, so that the worker's check succeeds. *)

From S2P Require Import Prelude CppStrings Doubles DoubleText Packet Transport EventQueue Runtime TcpData TcpSend TcpSocket TcpManager TcpRun TcpGrow TcpInv TcpOps TcpSpec TcpFlow TcpSafe TcpHandlers TcpNet TcpStream Node Apps StackNode NodeRun NodeSpec AppSpec.

Section transfer.
Context `{MapOrder}.

(** The client task writes to the client's socket what [client_connected]
    passes to [write]; everything else is as before and writes nothing. *)
Inductive transfer_step : World * TransferClient -> World * TransferClient -> Prop :=
| transfer_write now w c r t e :
    clock_ok now -> 0 < amount_ c ->
    vsize (accepted_bytes w) + client_offer c + 1 + Transport.MAX_PAYLOAD_SIZE <= SEQ_LIMIT ->
    write client_sock (Some (client_buffer c)) (client_index c) (client_offer c)
      (client w, net_at now) = (Ret r, (t, e)) -> r <> -1 ->
    transfer_step (w, c)
      (mkWorld t (server w) (to_server w ++ net_sent e) (to_client w)
         (accepted_bytes w ++ piece (client_buffer c) (client_index c) r) (delivered w),
       advanced_client r c)
| transfer_other w w' c :
    world_step w w' -> accepted_bytes w' = accepted_bytes w ->
    transfer_step (w, c) (w', c).

Record transfer_ok (size : Z) (wc : World * TransferClient) : Prop := {
  tr_world : world_ok wc.1;
  tr_size : vsize (client_buf_ wc.2) = size;
  tr_buf : buffer_ok (client_buf_ wc.2);
  tr_pos : 0 <= client_pos_ wc.2;
  tr_fill : client_pos_ wc.2 = 0 \/ client_buf_ wc.2 = fill (client_buf_ wc.2);
  tr_sent : accepted_bytes wc.1 = pattern size 0 (Z.to_nat (client_pos_ wc.2))
}.

Lemma client_buffer_fill c :
  client_pos_ c = 0 \/ client_buf_ c = fill (client_buf_ c) ->
  client_buffer c = fill (client_buf_ c).
Proof.
  unfold client_buffer, client_index. intros [->|Hf].
  - by rewrite Zmod_0_l.
  - by case_match.
Qed.

(** What [write] can return on the client's socket. *)
Lemma write_result acc t out now bytes pos len r t' e :
  client_ok acc t out -> clock_ok now -> pos + len <= vsize bytes <= INT_MAX ->
  vsize acc + len + 1 + Transport.MAX_PAYLOAD_SIZE <= SEQ_LIMIT ->
  write client_sock (Some bytes) pos len (t, net_at now) = (Ret r, (t', e)) ->
  r = -1 \/ 0 <= r <= len.
Proof.
  intros Hc Hn Hb Hroom Hrun. pose proof (net_at_ok _ Hn) as He.
  destruct (client_sock_at _ _ _ Hc) as [s Hs]. pose proof (cl_ok _ _ _ Hc) as Ht.
  destruct (decide (state_ s = ESTABLISHED /\ 0 <= pos /\ 0 <= len))
    as [(Hst & Hp & Hl)|Hbad].
  - assert (Ho : state_open (state_ s) = true) by (by rewrite Hst).
    pose proof (snd_nxt _ _ (cl_sender _ _ _ Hc _ _ Hs) Ho) as Hnx.
    eapply (wp_ran _ _ _ _ (fun r _ => r = -1 \/ 0 <= r <= len) _ Hrun).
    apply (wp_write _ _ _ _ s); try done; [by eapply open_peer|rewrite Hnx; lims|].
    intros. right. by apply write_count_range.
  - rewrite (write_refused_run _ _ _ _ s) in Hrun by done. left. congruence.
Qed.

Lemma transfer_step_ok size wc wc' :
  transfer_ok size wc -> transfer_step wc wc' -> transfer_ok size wc'.
Proof.
  intros [Hw Hsize Hb Hpos Hfill Hsent] Hstep. destruct Hstep as
    [now w c r t e Hn Ha Hroom Hrun Hr|w w' c Hstep Hacc]; cbn [fst snd] in *.
  - pose proof (Z.mod_pos_bound (client_pos_ c) _ (proj1 Hb)) as Hidx.
    fold (client_index c) in Hidx. pose proof (client_buffer_size c) as Hcb.
    assert (Hoff : client_index c + client_offer c <= vsize (client_buf_ c))
      by (unfold client_offer; lia).
    pose proof (write_result _ _ _ _ _ _ _ _ _ _ (w_client _ Hw) Hn
      ltac:(rewrite Hcb; split; [exact Hoff|apply Hb]) Hroom Hrun) as [->|Hrange]; [done|].
    pose proof (client_buffer_fill c Hfill) as Hcf.
    assert (Hw' : world_step w (mkWorld t (server w) (to_server w ++ net_sent e) (to_client w)
      (accepted_bytes w ++ piece (client_buffer c) (client_index c) r) (delivered w))).
    { left. eapply client_write; [done| |exact Hroom|exact Hrun].
      rewrite Hcb. split; [lia|apply Hb]. }
    constructor; cbn [fst snd].
    + eapply world_reachable_ok; [exact Hw|]. by apply rtc_once.
    + cbn. by rewrite client_buffer_size.
    + cbn. unfold buffer_ok. rewrite client_buffer_size. exact Hb.
    + cbn. lia.
    + right. cbn. by rewrite Hcf, fill_fill.
    + cbn. rewrite Hsent, Hcf. unfold client_index in *.
      rewrite fill_piece by (lia || apply Hb). rewrite Hsize.
      rewrite Z2Nat.inj_add, pattern_add by lia. rewrite Z2Nat.id by lia. done.
  - constructor; cbn [fst snd]; try done.
    + eapply world_reachable_ok; [exact Hw|]. by apply rtc_once.
    + by rewrite Hacc.
Qed.

Lemma transfer_reachable_ok size wc wc' :
  transfer_ok size wc -> rtc transfer_step wc wc' -> transfer_ok size wc'.
Proof. intros Hok Hr. induction Hr; [done|]. eauto using transfer_step_ok. Qed.

Lemma transfer_started_ok w c :
  started w -> buffer_ok (client_buf_ c) -> client_pos_ c = 0 ->
  transfer_ok (vsize (client_buf_ c)) (w, c).
Proof.
  intros Hw Hb Hp. constructor; cbn [fst snd]; try done.
  - by apply started_ok.
  - by rewrite Hp.
  - by left.
  - rewrite Hp. by apply (st_accepted _ Hw).
Qed.

(** A buffer that continues the delivered part of a pattern is what a worker
    at that position expects. *)
Lemma stream_expected size N m wk s got :
  sock_ok s -> buffer_ok (worker_buf_ wk) ->
  compatible size (vsize (worker_buf_ wk)) -> worker_pos_ wk = vsize got ->
  got ++ recvBuf_ s = take m (pattern size 0 N) -> expected wk s.
Proof.
  intros Hok Hb Hc Hpos Hs. pose proof (vsize_nonneg got).
  destruct (worker_bounds wk s Hok Hb ltac:(lia)) as (_ & Hc0 & _ & Hle).
  unfold expected. rewrite <- (pattern_compatible _ _ _ _ Hc).
  apply list_eq. intros j. set (count := worker_count wk s) in *.
  destruct (decide (j < Z.to_nat count)%nat) as [Hj|Hj].
  - rewrite lookup_take_lt by done. rewrite pattern_lookup by done.
    assert (Hl : recvBuf_ s !! j = take m (pattern size 0 N) !! (length got + j)%nat).
    { rewrite <- Hs, lookup_app_r by lia. f_equal. lia. }
    assert (Hlt : (length got + j < length (take m (pattern size 0 N)))%nat).
    { rewrite <- Hs, length_app. unfold vsize in *. lia. }
    rewrite length_take, pattern_length in Hlt.
    rewrite Hl, lookup_take_lt, pattern_lookup by lia. do 3 f_equal.
    rewrite Hpos. unfold vsize. lia.
  - rewrite !lookup_ge_None_2; [done|rewrite pattern_length; lia|rewrite length_take; lia].
Qed.

Lemma transfer_expected w0 c0 w c wk s :
  started w0 -> buffer_ok (client_buf_ c0) -> client_pos_ c0 = 0 ->
  rtc transfer_step (w0, c0) (w, c) ->
  buffer_ok (worker_buf_ wk) -> compatible (vsize (client_buf_ c0)) (vsize (worker_buf_ wk)) ->
  sock_at (worker_sock_ wk) s (server w) ->
  worker_pos_ wk = vsize (delivered w (worker_sock_ wk)) -> expected wk s.
Proof.
  intros Hw Hb Hp Hr Hwb Hc Hs Hpos.
  pose proof (transfer_reachable_ok _ _ _ (transfer_started_ok _ _ Hw Hb Hp) Hr) as Hok.
  pose proof (w_server _ (tr_world _ _ Hok)) as Hsv. cbn [fst snd] in *.
  pose proof (rcv_stream _ _ _ (sv_recv _ _ _ _ Hsv _ _ Hs)) as Hstr.
  pose proof (tr_sent _ _ Hok) as Hsent. cbn [fst snd] in Hsent. rewrite Hsent in Hstr.
  eapply stream_expected; [eapply tm_socks; [apply Hsv|done]|done|done|done|exact Hstr].
Qed.
End transfer.
