(* ===== verification/NodeTheorems.v ===== *)
(** * Theorems about the node and the file transfer *)

From S2P Require Import Prelude CppStrings Doubles DoubleText Packet Transport EventQueue Runtime TcpData TcpSend TcpSocket TcpManager TcpRun TcpGrow TcpInv TcpOps TcpSpec TcpFlow TcpSafe TcpHandlers TcpNet TcpStream TcpTheorems Node Apps StackNode NodeRun NodeSpec AppSpec TransferStream.

Section theorems.
Context `{ManagerLaws E}.
Implicit Types (n : StackNode) (e : E).

(** C32: Whatever bytes arrive from whatever sender, a node decodes them or
    reports them, answers what must be answered, and stays in its invariant: no
    exception and no undefined behaviour, the one exclusion being a SYN or FIN
    with the largest 32-bit sequence number. *)
Theorem node_receive_safe from bytes n e :
  mgr_ok e -> node_ok n -> all_rcv_room (tcpMan_ n) -> wire_ok bytes ->
  wp (onReceive from bytes) (n, e)
    (fun _ st => node_ok st.1 /\ exists l, sends e l st.2) node_fault.
Proof. intros He Hn Hr Hw. apply wp_onReceive; eauto. Qed.

(** C33: Any line a user can type is executed or reported without a fault, and
    the node stays in its invariant; excluded are the transfer and server
    arguments that the program forgets to check ([args_sane]). *)
Theorem node_command_safe command n e :
  mgr_ok e -> node_ok n -> args_sane (splitSpaceVec command) ->
  wp (onCommand command) (n, e)
    (fun _ st => node_ok st.1 /\ exists l, sends e l st.2) node_fault.
Proof. intros He Hn Ha. apply wp_onCommand; eauto. Qed.

(** C34: Every timer of a node (the ping timeout, the retransmission timer, the
    ticks of its client, server and worker tasks) runs without a fault and keeps
    the node's invariant, if its counters have room ([timer_ready]): a client's
    socket for a buffer's length of sequence numbers, a worker's position for a
    buffer's length, the sockets' counts of timeouts for one more on every
    connection.  The invariant ([node_ok]) has tasks with buffers of at least one
    byte, which the commands do not enforce. *)
Theorem node_timer_safe `{MapOrder} cb n e :
  mgr_ok e -> node_ok n -> timer_ready n cb ->
  wp (timer cb) (n, e)
    (fun _ st => node_ok st.1 /\ exists l, sends e l st.2) node_fault.
Proof.
  intros He Hn Hr. apply wp_timer; [done..|]. intros n' e' l Hn' He'.
  split; [done|]. by exists l.
Qed.

(** A ping and its answer.  The command [<dest> <text>] sends exactly one
    ping packet and remembers it with its time; the destination answers it with
    exactly one reply that carries the same bytes; the reply takes the oldest
    ping it answers out of the list and no other; and the timer forgets exactly
    the pings that are more than ten seconds old. *)
Theorem ping_contract n e dest text :
  mgr_ok e -> node_ok n -> 0 <= dest <= 255 -> vsize (stringToBytes text) <= 119 ->
  let bytes := stringToBytes text in
  wp (onCommand (to_string dest +:+ " " +:+ text)) (n, e)
    (fun _ st => exists now, st.1 = set_pings (pings_ n ++ [mkPing dest bytes now]) n /\
       sends e [node_datagram (node_addr_ n) dest PING_PKT bytes] st.2) node_fault /\
  (forall n' from, node_addr_ n' = dest ->
     wp (onReceive from (node_datagram (node_addr_ n) dest PING_PKT bytes).2) (n', e)
       (fun _ st => st.1 = n' /\
          sends e [node_datagram dest (node_addr_ n) PING_REPLY_PKT bytes] st.2) node_fault) /\
  (forall n' from before after now,
     pings_ n' = before ++ mkPing dest bytes now :: after ->
     Forall (fun q => ~ (destAddr q = dest /\ msg q = bytes)) before ->
     wp (onReceive from (node_datagram dest (node_addr_ n) PING_REPLY_PKT bytes).2) (n', e)
       (fun _ st => st.1 = set_pings (before ++ after) n' /\ sends e [] st.2) node_fault) /\
  wp pingTimedOut (n, e)
    (fun _ st => exists now, 0 <= now <= TIME_LIMIT /\
       st.1 = set_pings (filter (fun p => now <= timeSentMs p + 10000) (pings_ n)) n /\
       sends e [] st.2) node_fault.
Proof.
  intros He Hn Hd Hl bytes. pose proof (node_addr_range _ Hn) as Ha.
  assert (Hok : forall a b p, 0 <= a <= 255 -> 0 <= b <= 255 -> 0 <= p <= 4 ->
    packet_ok (node_packet a b p bytes)).
  { intros a b p **. by apply (node_packet_new a b p bytes), node_packet_ok. }
  split; [|split; [|split]].
  - apply wp_ping_command; [done..|]. intros now e' He'. by exists now.
  - intros n' from Hn'. unfold onReceive. cbn [node_datagram snd].
    rewrite packet_unpack_pack by (apply Hok; unfold PING_PKT; lia).
    apply wp_receivePing; [done|lia|apply Hok; unfold PING_PKT; lia|].
    intros e' He'. split; [done|]. by rewrite Hn' in He'.
  - intros n' from before after now Hp Hb. unfold onReceive. cbn [node_datagram snd].
    rewrite packet_unpack_pack by (apply Hok; unfold PING_REPLY_PKT; lia).
    apply wp_receivePingReply; [done|]. intros e' He'. split; [|done].
    cbn [node_packet src_ Packet.payload_]. by rewrite Hp, take_ping_first.
  - apply wp_pingTimedOut; [done|apply Hn|]. intros now e' Hnow He'. by exists now.
Qed.

(** C23: A tick of the transfer client on an established connection that has
    sequence numbers left for a buffer, and whose buffer is filled or not yet used.
    With bytes left it offers to [write] the rest of its buffer, and exactly the
    accepted bytes leave as data segments: they are the next bytes of the
    repeating pattern, and position and amount move by their number.  With nothing
    left it closes the connection.  A negative amount makes it release the socket
    and stop. *)
Theorem client_contract id k c s n e :
  mgr_ok e -> node_ok n -> tasks_ n !! id = Some k -> body_ k = ClientTask c ->
  sock_at (client_sock_ c) s (tcpMan_ n) -> state_ s = ESTABLISHED ->
  sndNxt_ s + vsize (client_buf_ c) <= SEQ_LIMIT ->
  client_pos_ c = 0 \/ client_buf_ c = fill (client_buf_ c) ->
  let size := vsize (client_buf_ c) in
  let room := Z.min (rwnd_ s) (cwnd_ s) - (sndNxt_ s - sndUna_ s) in
  let offer := Z.min (size - client_pos_ c mod size) (amount_ c) in
  let count := Z.max 0 (Z.min offer room) in
  wp (execute id) (n, e) (fun _ st =>
    exists k' c', tasks_ st.1 !! id = Some k' /\ body_ k' = ClientTask c' /\
    client_sock_ c' = client_sock_ c /\
    if amount_ c =? 0
    then client_pos_ c' = client_pos_ c /\ intervalMs_ k' = intervalMs_ k /\
      tcpMan_ st.1 = put_sock (client_sock_ c) (closed s) (tcpMan_ n) /\
      sends e (close_sends (node_addr_ n) s) st.2
    else if amount_ c <? 0
    then intervalMs_ k' = 0 /\ tcpMan_ st.1 = release_spec (client_sock_ c) s (tcpMan_ n) /\
      sends e [] st.2
    else intervalMs_ k' = intervalMs_ k /\ client_pos_ c' = client_pos_ c + count /\
      amount_ c' = amount_ c - count /\ client_buf_ c' = fill (client_buf_ c) /\
      exists segs now, tcpMan_ st.1 =
          put_sock (client_sock_ c) (written segs count now s) (tcpMan_ n) /\
        map data segs = split_mss (pattern size (client_pos_ c) (Z.to_nat count)) /\
        sends e (map (data_datagram (node_addr_ n) s) segs) st.2) node_fault.
Proof.
  intros He Hn Hk Hb Hs Hst Hq Hfill size room offer count.
  rewrite <- (client_task_body k c Hb) in Hk. pose proof (task_of_node _ _ _ Hn Hk) as Hok.
  destruct (proj2 Hok) as (_ & [Hb1 Hb2] & Ham & Hp & Hm & _).
  pose proof (Z.mod_pos_bound (client_pos_ c) _ Hb1) as Hidx. fold size in Hidx.
  unfold execute. apply wp_bind. eapply wp_task_of; [done|]. cbn [body_ client_task set_body].
  unfold client_execute. apply wp_bind. eapply wp_socket_of; [done|].
  unfold isConnectionPending, isConnected. rewrite Hst. decide_states.
  rewrite <- (no_addr _ Hn).
  eapply (wp_client_connected _ k); try done.
  - intros Hz now e' _ He'. eexists _, _. split; [by eapply put_task_at|]. split; [done|].
    destruct (begun_fields now c) as (-> & _ & _ & ->). rewrite Hz. by rewrite Z.eqb_refl.
  - intros Hneg now e' _ He'. eexists _, _. split; [by eapply put_task_at|]. split; [done|].
    cbn. destruct (begun_fields now c) as (-> & _). split; [done|].
    destruct (Z.eqb_spec (amount_ c) 0); [lia|]. by destruct (Z.ltb_spec (amount_ c) 0); [|lia].
  - intros Hpos now now' segs e' _ _ cnt Hf He'. eexists _, _.
    split; [by eapply put_task_at|]. split; [done|]. unfold advanced_client. cbn.
    destruct (begun_fields now c) as (-> & E1 & E2 & E3). split; [done|].
    destruct (Z.eqb_spec (amount_ c) 0); [lia|]. destruct (Z.ltb_spec (amount_ c) 0); [lia|].
    rewrite E2, E3. do 3 (split; [done|]). split.
    + rewrite client_buffer_fill; rewrite E1; [done|]. by rewrite E3.
    + exists segs, now'. split; [done|]. split; [|done]. rewrite (fresh_data _ _ _ Hf).
      rewrite client_buffer_fill by done. unfold client_index.
      rewrite fill_piece; try done; fold size;
        unfold cnt, write_count, client_offer, client_index; fold size; lia.
Qed.

(** C35: A tick of the transfer worker on a readable socket takes the bytes that
    are there, up to the end of its buffer, and compares each with the pattern:
    if all agree its position moves by their number and nothing else happens;
    if one differs the connection is released and the worker stops. *)
Theorem worker_contract id k w s n e :
  mgr_ok e -> node_ok n -> tasks_ n !! id = Some k -> body_ k = WorkerTask w ->
  sock_at (worker_sock_ w) s (tcpMan_ n) -> state_ s = ESTABLISHED \/ state_ s = SHUTDOWN ->
  worker_pos_ w + vsize (worker_buf_ w) <= INT_MAX ->
  let size := vsize (worker_buf_ w) in
  let count := Z.min (size - worker_pos_ w mod size) (recvBufUsed_ s) in
  wp (execute id) (n, e) (fun _ st =>
    exists k' w', tasks_ st.1 !! id = Some k' /\ body_ k' = WorkerTask w' /\
    let t := put_sock (worker_sock_ w) (consumed count s) (tcpMan_ n) in
    if decide (take (Z.to_nat count) (recvBuf_ s) =
               pattern size (worker_pos_ w) (Z.to_nat count))
    then worker_pos_ w' = worker_pos_ w + count /\ intervalMs_ k' = intervalMs_ k /\
      tcpMan_ st.1 = t /\ st.2 = e
    else worker_pos_ w' = worker_pos_ w /\ intervalMs_ k' = 0 /\ sends e [] st.2 /\
      tcpMan_ st.1 = release_spec (worker_sock_ w) (consumed count s) t) node_fault.
Proof.
  intros He Hn Hk Hb Hs Hst Hroom size count. rewrite <- (worker_task_body k w Hb) in Hk.
  unfold execute. apply wp_bind. eapply wp_task_of; [done|]. cbn [body_ worker_task set_body].
  eapply (wp_worker_read _ k _ s); try done.
  - unfold readable. by destruct Hst as [-> | ->].
  - intros Hx. eexists _, _. split; [by eapply put_task_at|]. split; [done|].
    rewrite decide_True by exact Hx. done.
  - intros Hx e' He'. eexists _, _. split; [by eapply put_task_at|]. split; [done|].
    rewrite decide_False by exact Hx. done.
Qed.

(** The file transfer end to end.  A client task that starts at position 0
    and a worker that has read every byte its socket delivered: whatever the
    network loses, repeats or reorders, if the two buffer sizes are equal or
    both multiples of 256 then no tick of the worker reports corruption; it
    takes what has arrived and goes on. *)
Theorem transfer_integrity `{MapOrder} w0 c0 w c id k wk s n e :
  started w0 -> buffer_ok (client_buf_ c0) -> client_pos_ c0 = 0 ->
  rtc transfer_step (w0, c0) (w, c) ->
  mgr_ok e -> node_ok n -> tcpMan_ n = server w ->
  tasks_ n !! id = Some k -> body_ k = WorkerTask wk ->
  compatible (vsize (client_buf_ c0)) (vsize (worker_buf_ wk)) ->
  sock_at (worker_sock_ wk) s (server w) -> state_ s = ESTABLISHED \/ state_ s = SHUTDOWN ->
  worker_pos_ wk = vsize (delivered w (worker_sock_ wk)) ->
  worker_pos_ wk + vsize (worker_buf_ wk) <= INT_MAX ->
  wp (execute id) (n, e) (fun _ st =>
    st.2 = e /\ exists k' wk', tasks_ st.1 !! id = Some k' /\ body_ k' = WorkerTask wk' /\
      intervalMs_ k' = intervalMs_ k /\
      worker_pos_ wk' = worker_pos_ wk + worker_count wk s) node_fault.
Proof.
  intros Hw Hb Hp Hr He Hn Ht Hk Hbody Hc Hs Hst Hpos Hroom.
  rewrite <- (worker_task_body k wk Hbody) in Hk.
  pose proof (task_of_node _ _ _ Hn Hk) as Hok. destruct (proj2 Hok) as (_ & Hwb & _).
  pose proof (transfer_expected _ _ _ _ _ _ Hw Hb Hp Hr Hwb Hc Hs Hpos) as Hx.
  unfold execute. apply wp_bind. eapply wp_task_of; [done|]. cbn [body_ worker_task set_body].
  eapply (wp_worker_read _ k _ s); try done.
  - by rewrite Ht.
  - unfold readable. by destruct Hst as [-> | ->].
  - intros _. split; [done|]. eexists _, _. split; [by eapply put_task_at|]. done.
Qed.
End theorems.

(** ** Witnesses *)

Section witnesses.
#[local] Existing Instance list_order.

Definition sample_stack : StackNode := mkStackNode 2 [] sample_server [].

Lemma sample_stack_ok : node_ok sample_stack.
Proof. constructor; try done. apply sample_server_ok. Qed.

Lemma node_receive_safe_witness :
  wp (onReceive 1 syn_datagram.2) (sample_stack, net_at 2000)
    (fun _ st => node_ok st.1 /\ exists l, sends (net_at 2000) l st.2) node_fault.
Proof.
  apply node_receive_safe; [apply sample_net_ok|apply sample_stack_ok|apply sample_server_room|].
  intros p seg Hp Hs _. vm_compute in Hp. injection Hp as <-. vm_compute in Hs.
  injection Hs as <-. numerals.
Defined.

Lemma node_command_safe_witness :
  wp (onCommand "transfer 2 21 30 1000 50 256") (sample_stack, net_at 2000)
    (fun _ st => node_ok st.1 /\ exists l, sends (net_at 2000) l st.2) node_fault.
Proof.
  apply node_command_safe; [apply sample_net_ok|apply sample_stack_ok|].
  apply args_saneb_sound. vm_compute. reflexivity.
Defined.

Definition sample_client_task : TransferClient := mkTransferClient 0 (replicate 4 x00) 10 0 0 0.

Definition sample_sender : StackNode :=
  mkStackNode 1 [] sample_client [mkTimerTask 1000 (ClientTask sample_client_task)].

Lemma sample_sender_ok : node_ok sample_sender.
Proof.
  constructor; try done; [apply sample_client_ok|].
  constructor; [|done]. split; [numerals|]. split; [by eexists|]. numerals.
Qed.

Lemma node_timer_safe_witness :
  wp (timer (TaskTick 1 0)) (sample_sender, net_at 2000)
    (fun _ st => node_ok st.1 /\ exists l, sends (net_at 2000) l st.2) node_fault.
Proof.
  apply node_timer_safe; [apply sample_net_ok|apply sample_sender_ok|].
  eexists. split; [reflexivity|]. intros s [= <-]. numerals.
Defined.

Lemma ping_contract_witness :
  wp (onCommand (to_string 7 +:+ " " +:+ "hello")) (sample_stack, net_at 2000)
    (fun _ st => exists now,
       st.1 = set_pings (pings_ sample_stack ++ [mkPing 7 (stringToBytes "hello") now])
                sample_stack /\
       sends (net_at 2000)
         [node_datagram (node_addr_ sample_stack) 7 PING_PKT (stringToBytes "hello")] st.2)
    node_fault.
Proof.
  refine (proj1 (ping_contract sample_stack (net_at 2000) 7 "hello" _ _ _ _));
    [apply sample_net_ok|apply sample_stack_ok|numerals|numerals].
Defined.

Lemma client_contract_witness :
  wp (execute 0) (sample_sender, net_at 2000) (fun _ st =>
    exists k' c', tasks_ st.1 !! 0%nat = Some k' /\ body_ k' = ClientTask c' /\
    client_sock_ c' = 0%nat /\ intervalMs_ k' = 1000 /\ client_pos_ c' = 4 /\
    amount_ c' = 6 /\ client_buf_ c' = [x00; x01; x02; x03] /\
    exists segs now, tcpMan_ st.1 = put_sock 0 (written segs 4 now sample_conn) sample_client /\
      map data segs = split_mss (pattern 4 0 4) /\
      sends (net_at 2000) (map (data_datagram 1 sample_conn) segs) st.2) node_fault.
Proof.
  apply (client_contract 0 (mkTimerTask 1000 (ClientTask sample_client_task))
    sample_client_task sample_conn sample_sender (net_at 2000));
    [apply sample_net_ok|apply sample_sender_ok|reflexivity|reflexivity|reflexivity|
     reflexivity|numerals|left; reflexivity].
Defined.

(** A worker whose bytes are not the pattern. *)
Definition sample_worker_task : TransferWorker := mkTransferWorker 0 (replicate 8 x00) 0.

Definition sample_receiver : StackNode :=
  mkStackNode 1 [] sample_reading [mkTimerTask 1000 (WorkerTask sample_worker_task)].

Lemma sample_receiver_ok : node_ok sample_receiver.
Proof.
  constructor; try done.
  - constructor; try done.
    + intros sk s [-> ->]%(sample_single _ sample_reader); [apply sample_reader_ok|done].
    + intros sk s [-> ->]%(sample_single _ sample_reader); [intros; numerals|done].
    + intros k sk Hk. cbn in Hk. apply lookup_singleton_Some in Hk as [<- <-].
      exists sample_reader. split; [done|]. split; [numerals|done].
    + intros l s c [-> ->]%(sample_single _ sample_reader) Hc; [|done].
      by apply not_elem_of_nil in Hc.
  - constructor; [|done]. split; [numerals|]. split; [by eexists|]. numerals.
Qed.

Lemma worker_contract_witness :
  wp (execute 0) (sample_receiver, net_at 2000) (fun _ st =>
    exists k' w', tasks_ st.1 !! 0%nat = Some k' /\ body_ k' = WorkerTask w' /\
    worker_pos_ w' = 0 /\ intervalMs_ k' = 0 /\ sends (net_at 2000) [] st.2 /\
    tcpMan_ st.1 = release_spec 0 (consumed 8 sample_reader)
      (put_sock 0 (consumed 8 sample_reader) sample_reading)) node_fault.
Proof.
  apply (worker_contract 0 (mkTimerTask 1000 (WorkerTask sample_worker_task))
    sample_worker_task sample_reader sample_receiver (net_at 2000));
    [apply sample_net_ok|apply sample_receiver_ok|reflexivity|reflexivity|reflexivity|
     left; reflexivity|numerals].
Defined.

(** A transfer of twelve bytes: handshake, the client's write, its arrival
    twice over. *)
Definition transfer_client : TransferClient := mkTransferClient 0 (replicate 16 x00) 12 0 0 0.

Definition transfer_writes (now : Z) (c : TransferClient) (w : World) : World :=
  let '(t, e) := after (write client_sock (Some (client_buffer c)) (client_index c)
                          (client_offer c) (client w, net_at now)) in
  mkWorld t (server w) (to_server w ++ net_sent e) (to_client w)
    (accepted_bytes w ++ piece (client_buffer c) (client_index c) 12) (delivered w).

Definition transfer_data : datagram :=
  tcp_datagram 1 2 (mkTransport 30 21 DATA 0 1 (pattern 16 0 12)).

Definition transfer_run : World :=
  server_gets 50 transfer_data (server_gets 40 transfer_data
    (transfer_writes 30 transfer_client (client_gets 20 syn_ack_datagram
      (server_gets 10 syn_datagram sample_start)))).

Lemma transfer_writes_step now c w t e :
  clock_ok now -> 0 < amount_ c ->
  vsize (accepted_bytes w) + client_offer c + 1 + Transport.MAX_PAYLOAD_SIZE <= SEQ_LIMIT ->
  write client_sock (Some (client_buffer c)) (client_index c) (client_offer c)
    (client w, net_at now) = (Ret 12, (t, e)) ->
  transfer_step (w, c) (transfer_writes now c w, advanced_client 12 c).
Proof. intros Hn Ha Hroom Hr. unfold transfer_writes. rewrite Hr. by eapply transfer_write. Qed.

Lemma transfer_reached :
  rtc transfer_step (sample_start, transfer_client)
    (transfer_run, advanced_client 12 transfer_client).
Proof.
  eapply rtc_l; [apply transfer_other;
    [eapply (server_gets_step 10 syn_datagram); [numerals|left|vm_compute; reflexivity]|vm_compute; reflexivity]|].
  eapply rtc_l; [apply transfer_other;
    [eapply (client_gets_step 20 syn_ack_datagram);
       [numerals|vm_compute; left| |vm_compute; reflexivity]|vm_compute; reflexivity]|].
  { intros sk s [-> ->]%(sample_single _ sample_connecting); [numerals|done]. }
  eapply rtc_l; [eapply (transfer_writes_step 30 transfer_client);
    [numerals|numerals|numerals|vm_compute; reflexivity]|].
  eapply rtc_l; [apply transfer_other;
    [eapply (server_gets_step 40 transfer_data);
       [numerals|vm_compute; right; left|vm_compute; reflexivity]|vm_compute; reflexivity]|].
  eapply rtc_l; [apply transfer_other;
    [eapply (server_gets_step 50 transfer_data);
       [numerals|vm_compute; right; left|vm_compute; reflexivity]|vm_compute; reflexivity]|].
  apply rtc_refl.
Qed.

Definition transfer_worker : TransferWorker := mkTransferWorker 1 (replicate 16 x00) 0.
Definition transfer_task : TimerTask := mkTimerTask 1000 (WorkerTask transfer_worker).
Definition transfer_server_node : StackNode :=
  mkStackNode 2 [] (server transfer_run) [transfer_task].

Definition transfer_sock : TcpSocket :=
  Eval vm_compute in default new_TcpSocket (allSockets_ (server transfer_run) !! 1%nat).

Lemma transfer_world_ok : transfer_ok 16 (transfer_run, advanced_client 12 transfer_client).
Proof.
  eapply transfer_reachable_ok; [|exact transfer_reached].
  apply (transfer_started_ok sample_start transfer_client);
    [apply sample_started|numerals|reflexivity].
Qed.

Lemma transfer_server_ok : node_ok transfer_server_node.
Proof.
  constructor.
  - apply (sv_ok _ _ _ _ (w_server _ (tr_world _ _ transfer_world_ok))).
  - vm_compute. reflexivity.
  - constructor.
  - constructor; [|constructor]. split; [numerals|]. split; [|numerals].
    exists transfer_sock. vm_compute. reflexivity.
Qed.

Lemma transfer_integrity_witness :
  wp (execute 0) (transfer_server_node, net_at 60) (fun _ st =>
    st.2 = net_at 60 /\ exists k' wk', tasks_ st.1 !! 0%nat = Some k' /\
      body_ k' = WorkerTask wk' /\ intervalMs_ k' = intervalMs_ transfer_task /\
      worker_pos_ wk' = worker_pos_ transfer_worker + worker_count transfer_worker transfer_sock)
    node_fault.
Proof.
  apply (transfer_integrity sample_start transfer_client transfer_run
    (advanced_client 12 transfer_client));
    [apply sample_started|numerals|reflexivity|apply transfer_reached|numerals|
     apply transfer_server_ok|reflexivity|reflexivity|reflexivity|left; reflexivity|
     vm_compute; reflexivity|left; reflexivity|vm_compute; reflexivity|numerals].
Defined.

Example transfer_taken : worker_count transfer_worker transfer_sock = 12.
Proof. vm_compute. reflexivity. Qed.
End witnesses.
