(* ===== verification/Emulator.v ===== *)
(** * The emulator (src/emu/emulator.cpp, src/sim/emulation_commands_parser.cpp)

    One node on the emulated network, driven by the clock, datagrams, the
    trawler's lines and the console.  The answers of the operating system that
    are not streams of the network's state come with each iteration of the main
    loop. *)

From Stdlib Require Import Strings.Ascii.
From S2P Require Import Prelude CppStrings Doubles DoubleText Packet EmulatorPacket EventQueue Runtime Edge EmulatedLink Arp Posix EmuNet Parser TcpData Node Apps StackNode.

Record Emulator : Type := mkEmulator {
  enet : EmuNet;
  node_ : option StackNode;
  assignedNodeId_ : Z;
  localUdpPort_ : Z;
  emu_running_ : bool;
  udpReady_ : bool;
  stdinReady_ : bool;
  stdinEof_ : bool;
  stdinBuf : string
}.

#[export] Instance eta_Emulator : Eta Emulator := fun s =>
  mkEmulator (enet s) (node_ s) (assignedNodeId_ s) (localUdpPort_ s) (emu_running_ s)
    (udpReady_ s) (stdinReady_ s) (stdinEof_ s) (stdinBuf s).

Definition set_enet (v : EmuNet) (s : Emulator) : Emulator := ltac:(set_field enet v s).
Definition set_node (v : option StackNode) (s : Emulator) : Emulator := ltac:(set_field node_ v s).
Definition set_assignedNodeId (v : Z) (s : Emulator) : Emulator :=
  ltac:(set_field assignedNodeId_ v s).
Definition set_emu_running (v : bool) (s : Emulator) : Emulator := ltac:(set_field emu_running_ v s).
Definition set_udpReady (v : bool) (s : Emulator) : Emulator := ltac:(set_field udpReady_ v s).
Definition set_stdinReady (v : bool) (s : Emulator) : Emulator := ltac:(set_field stdinReady_ v s).
Definition set_stdinEof (v : bool) (s : Emulator) : Emulator := ltac:(set_field stdinEof_ v s).
Definition set_stdinBuf (v : string) (s : Emulator) : Emulator := ltac:(set_field stdinBuf v s).

(** ** Access *)

Definition on_enet {A} (m : M EmuNet A) : M Emulator A := zoom enet set_enet m.

Definition set_erm (r : RuntimeManager EmuEvent) (s : Emulator) : Emulator :=
  set_enet (set_emu_rm r (enet s)) s.

(** [node_->m(...)]; a null pointer is undefined. *)
Definition on_stack {A} (m : M (StackNode * EmuNet) A) : M Emulator A :=
  fun s =>
    match node_ s with
    | None => (Fault UB, s)
    | Some n =>
        let '(r, (n', e')) := m (n, enet s) in
        (r, set_node (Some n') (set_enet e' s))
    end.

Definition say (o : output) : M Emulator unit := on_enet (emu_emit o).

Section emulator.
Context `{MapOrder} `{Platform}.

(** ** The commands *)

Definition emu_sendNodeMsg (msg : string) : M Emulator bool :=
  let! node := gets node_ in
  match node with
  | Some _ => on_stack (onCommand msg)
  | None => ret tt
  end ;;
  ret true.

Fixpoint say_all (l : list output) : M Emulator unit :=
  match l with
  | [] => ret tt
  | o :: l => say o ;; say_all l
  end.

(** [RuntimeManager::stop]. *)
Definition emu_stop : M Emulator unit :=
  let! t := on_enet EmuNet.now in
  let! r := gets (fun s => emu_rm (enet s)) in
  long (t - startMs_ r) ;;
  say_all (stop_report t r) ;;
  fail (Exited 0).

#[export] Instance Emulator_commands : CommandOps Emulator := {|
  p_emit := say;
  exitCmd cmd := if is_cmd "exit" cmd then emu_stop else ret tt;
  parseNodeCmd cmd := emu_sendNodeMsg (pop_back (append_words cmd)) ;; ret tt
|}.

Definition emu_parseLine (line : string) (nowMicros : Z) : M Emulator Z :=
  if skipLine line then ret (-1) else parseCommonCmds (splitSpaces line) nowMicros.

Definition handleStdinLine (line : string) : M Emulator unit :=
  if String.eqb line EmptyString then ret tt
  else
    let! t := on_enet clockMicros in
    emu_parseLine line t ;;
    ret tt.

(** ** Events *)

Definition run_emu_event (ev : EmuEvent) : M Emulator unit :=
  match ev with
  | EmuCallback cb => on_stack (timer cb)
  | PhysicalSend pkt ip prt => on_enet (physicalSend pkt ip prt)
  end.

(** The loop over the events whose time has come. *)
Fixpoint due_loop (fuel : nat) (nowMicros : Z) : M Emulator unit :=
  match fuel with
  | O => fail NoFuel
  | S fuel =>
      let! q := gets (fun s => sortedEvents_ (emu_rm (enet s))) in
      match getNextEvent q with
      | None => ret tt
      | Some next =>
          if timeToOccur next <=? nowMicros
          then
            let! ev := on_enet (emu_base (zoom sortedEvents_ set_sortedEvents removeNextEvent)) in
            try_catch
              (match callback ev with
               | Some cb => run_emu_event cb
               | None => throw bad_function_call
               end)
              (fun e => say (Cerr (endl ("Exception while invoking method in Emulator: " +:+ what e)))) ;;
            due_loop fuel nowMicros
          else ret tt
      end
  end.

(** A run of an event makes no other event due, so that the queue's length is
    enough. *)
Definition due_fuel (s : Emulator) : nat := S (length (sortedEvents_ (emu_rm (enet s)))).

(** ** Datagrams *)

(** A datagram with the sender's address, if [recvfrom] returned one; one
    without bytes is passed over. *)
Definition processUdpPacket (received : option (list byte * string * Z)) : M Emulator unit :=
  match received with
  | None => ret tt
  | Some (bytes, ip, prt) =>
      if vsize bytes <=? 0 then ret tt
      else
        match EmulatorPacket.unpack bytes with
        | None =>
            say (Cerr (endl ("Was unable to extract packet received from " +:+ ip +:+ ":" +:+
                             to_string prt)))
        | Some p =>
            let srcAddr := EmulatorPacket.srcAddr_ p in
            let destAddr := EmulatorPacket.destAddr_ p in
            let! arp := gets (fun s => arp_ (enet s)) in
            let newArp :=
              match arp !! srcAddr with
              | None => true
              | Some data => negb (String.eqb (arp_ip data) ip) || negb (arp_port data =? prt)
              end in
            (if newArp
             then on_enet (modify (fun e => set_arp (<[srcAddr := mkARPData ip prt None]> (arp_ e)) e))
             else ret tt) ;;
            let! self := gets assignedNodeId_ in
            if (destAddr =? self) || (destAddr =? BROADCAST_ADDRESS)
            then on_stack (onReceive srcAddr (EmulatorPacket.payload_ p))
            else ret tt
        end
  end.

(** ** The console *)

Inductive StdinRead : Type :=
| StdinData (bytes : string)
| StdinEnd
| StdinNothing.

(** The loop of reads; [StdinNothing] is an error, such as nothing to read. *)
Fixpoint stdin_reads (reads : list StdinRead) : M Emulator unit :=
  match reads with
  | StdinData bytes :: reads =>
      modify (fun s => set_stdinBuf (stdinBuf s +:+ bytes) s) ;;
      stdin_reads reads
  | StdinEnd :: _ => modify (set_stdinEof true)
  | StdinNothing :: _ | [] => ret tt
  end.

Fixpoint stdin_lines (fuel : nat) : M Emulator unit :=
  match fuel with
  | O => fail NoFuel
  | S fuel =>
      let! buf := gets stdinBuf in
      match split_line buf with
      | None => ret tt
      | Some (line, rest) =>
          modify (set_stdinBuf rest) ;;
          handleStdinLine (chomp line) ;;
          stdin_lines fuel
      end
  end.

(** ** Waiting *)

(** What [poll] returns; the standard input is asked for unless it has ended. *)
Inductive PollResult : Type :=
| PollFailed (error : option string)
| PollTimeout
| PollReady (udp stdin stdin_hangup : bool).

Definition pollIO (poll : Z -> PollResult) (deadlineMicros : Z) : M Emulator bool :=
  let! timeoutMs :=
    if deadlineMicros =? -1 then ret (-1)
    else
      let! t := on_enet clockMicros in
      let! delta := long (deadlineMicros - t) in
      let delta := if delta <? 0 then 0 else delta in
      let! up := long (delta + 999) in
      ret (wrap32 (Z.quot up 1000)) in
  match poll timeoutMs with
  | PollFailed None => ret false
  | PollFailed (Some error) => say (Cerr (endl ("poll() failed: " +:+ error))) ;; ret false
  | PollTimeout => ret false
  | PollReady udp stdin hangup =>
      modify (set_udpReady udp) ;;
      let! eof := gets stdinEof_ in
      (if negb eof
       then
         (if stdin then modify (set_stdinReady true) else ret tt) ;;
         (if hangup then modify (set_stdinEof true) else ret tt)
       else ret tt) ;;
      ret true
  end.

(** [waitTill] *)
Definition wait_till (deferParsingTill : Z) : M Emulator Z :=
  let! q := gets (fun s => sortedEvents_ (emu_rm (enet s))) in
  match getNextEvent q with
  | None => ret deferParsingTill
  | Some next =>
      if deferParsingTill =? -1 then ret (timeToOccur next)
      else if deferParsingTill =? 0 then on_enet clockMicros
      else ret (Z.min (timeToOccur next) deferParsingTill)
  end.

(** ** The main loop *)

(** What the operating system answers in one iteration. *)
Record Answers : Type := mkAnswers {
  ans_poll : Z -> PollResult;
  ans_udp : option (list byte * string * Z);
  ans_stdin : list StdinRead
}.

Definition emu_iteration (io : Answers) (deferParsingTill : Z) : M Emulator Z :=
  let! nowMicros := on_enet clockMicros in
  let! deferParsingTill :=
    readCommandFile (fun s => emu_rm (enet s)) set_erm (on_enet EmuNet.now) emu_parseLine
      deferParsingTill in
  let! fuel := gets due_fuel in
  due_loop fuel nowMicros ;;
  let! waitTill := wait_till deferParsingTill in
  let! early :=
    if waitTill =? -1 then ret true
    else let! t := on_enet clockMicros in ret (t <? waitTill) in
  (if early then pollIO (ans_poll io) waitTill ;; ret tt else ret tt) ;;
  on_enet refreshARP ;;
  let! udp := gets udpReady_ in
  (if udp then modify (set_udpReady false) ;; processUdpPacket (ans_udp io) else ret tt) ;;
  let! stdin := gets stdinReady_ in
  (if stdin
   then
     modify (set_stdinReady false) ;;
     stdin_reads (ans_stdin io) ;;
     let! buf := gets stdinBuf in
     stdin_lines (S (String.length buf))
   else ret tt) ;;
  ret deferParsingTill.

Fixpoint emu_loop (ios : list Answers) (deferParsingTill : Z) : M Emulator Z :=
  let! running := gets emu_running_ in
  if negb running then ret deferParsingTill
  else
    match ios with
    | [] => ret deferParsingTill
    | io :: ios =>
        let! deferParsingTill := emu_iteration io deferParsingTill in
        emu_loop ios deferParsingTill
    end.

(** ** Starting *)

(** The answers while connecting: [None] is success, [Some] an error's text. *)
Record Connecting : Type := mkConnecting {
  con_resolved : bool;
  con_socket : bool;
  con_connect : option string;
  con_udp_socket : bool;
  con_bind : bool;
  con_sent : bool;
  con_reply : list (option ascii)
}.

Definition connectToTrawler (trawlerHost : string) (c : Connecting) : M Emulator unit :=
  if negb (con_resolved c)
  then throw (runtime_error ("Could not resolve trawler host: " +:+ trawlerHost))
  else if negb (con_socket c) then throw (runtime_error "trawler socket() failed")
  else
    match con_connect c with
    | Some error => throw (runtime_error ("connect() to trawler failed: " +:+ error))
    | None => ret tt
    end.

Definition openUdpSocket (c : Connecting) : M Emulator unit :=
  if negb (con_udp_socket c) then throw (runtime_error "udp socket() failed")
  else if negb (con_bind c)
  then
    let! p := gets localUdpPort_ in
    throw (invalid_argument ("Illegal local udp port " +:+ to_string p))
  else ret tt.

(** The loop that reads a line, byte by byte. *)
Fixpoint read_reply (line : string) (reply : list (option ascii)) : exn + string :=
  match reply with
  | Some c :: reply =>
      if Ascii.eqb c "010" then inr line
      else if Ascii.eqb c "013" then read_reply line reply
      else read_reply (line +:+ String c EmptyString) reply
  | None :: _ | [] => inl (runtime_error "Trawler closed during handshake")
  end.

Definition handshake (c : Connecting) : M Emulator unit :=
  (if con_sent c then ret tt else throw (runtime_error "Failed to send udp port to trawler")) ;;
  let! line := lift_exn (read_reply EmptyString (con_reply c)) in
  try_catch
    (let! id := lift_exn (stoi line) in modify (set_assignedNodeId id))
    (fun _ =>
     say (Cerr (endl ("Msg received from trawler is not an int, thus is not a " +:+
                      "fish address!!"))) ;;
     fail (Exited 1)) ;;
  let! id := gets assignedNodeId_ in
  let! p := gets localUdpPort_ in
  if id =? BROADCAST_ADDRESS
  then
    say (Cerr (endl ("Port " +:+ to_string p +:+ " is already in use. Pick another"))) ;;
    throw (invalid_argument ("Illegal local port " +:+ to_string p))
  else ret tt.

Definition emu_start (trawlerHost : string) (c : Connecting) (ios : list Answers) : M Emulator Z :=
  connectToTrawler trawlerHost c ;;
  openUdpSocket c ;;
  handshake c ;;
  let! id := gets assignedNodeId_ in
  modify (set_node (Some (new_StackNode id))) ;;
  on_stack StackNode.start ;;
  modify (set_emu_running true) ;;
  emu_loop ios 0.

(** The constructor, which reads the clock. *)
Definition new_Emulator (localUdpPort : Z) (e : EmuNet) : Emulator :=
  mkEmulator
    (set_emu_rm (new_RuntimeManager (clock_ e O)) (set_clock (fun n => clock_ e (S n)) e))
    None (-1) localUdpPort false false false false EmptyString.
End emulator.
