(* ===== verification/EmuFrame.v ===== *)
(** * What a node does to the emulated network

    Whatever the node does, the queue grows by events later than every reading
    of the clock so far, provided that every link has a bandwidth and a delay,
    the links that the trawler's text still to come describes included. *)

From S2P Require Import Prelude CppStrings Doubles DoubleText Frame Packet EmulatorPacket EventQueue Runtime Edge LinkRules EmulatedLink Arp Posix EmuNet EmuTable Parser TcpData TcpGrow Node NodeFrame StackNode Emulator.

Definition emu_events (e : EmuNet) : OrderedEventQueue EmuEvent := sortedEvents_ (emu_rm e).

Definition tame_link (l : EmulatedLink) : Prop := tame_options (link_options_ l).

Definition emu_tame (e : EmuNet) : Prop := links_ok tame_link e /\ feed_ok tame_options e.

(** No reading of the clock before [t]. *)
Definition clock_from (t : Z) (e : EmuNet) : Prop := forall n, t <= clock_ e n.

Definition later (t : Z) (ev : ScheduledEvent EmuEvent) : Prop :=
  t < timeToOccur ev /\ is_Some (callback ev).

(** The clock has been read some times. *)
Definition clock_read (e e' : EmuNet) : Prop :=
  exists k, forall n, clock_ e' n = clock_ e (k + n)%nat.

Lemma clock_read_from t e e' : clock_read e e' -> clock_from t e -> clock_from t e'.
Proof. intros [k Hk] Hc n. rewrite Hk. apply Hc. Qed.

#[export] Instance clock_read_preorder : PreOrder clock_read.
Proof.
  split.
  - intros e. by exists O.
  - intros e1 e2 e3 [k1 H1] [k2 H2]. exists (k1 + k2)%nat. intros n. rewrite H2, H1. f_equal. lia.
Qed.

(** The queue grows by events after [t]. *)
Definition grown (t : Z) (e e' : EmuNet) : Prop :=
  exists evs, emu_events e' = add_all evs (emu_events e) /\ Forall (later t) evs.

Lemma grown_refl t e : grown t e e.
Proof. by exists []. Qed.

Lemma grown_trans t e1 e2 e3 : grown t e1 e2 -> grown t e2 e3 -> grown t e1 e3.
Proof.
  intros (l1 & Q1 & F1) (l2 & Q2 & F2). exists (l1 ++ l2). unfold add_all in *.
  rewrite fold_left_app, <- Q1. split; [done|]. by apply Forall_app_2.
Qed.

Record emu_rel (e e' : EmuNet) : Prop := {
  er_clock : clock_read e e';
  er_tame : emu_tame e -> emu_tame e';
  er_grown : forall t, clock_from t e -> emu_tame e -> grown t e e'
}.

#[export] Instance emu_rel_preorder : PreOrder emu_rel.
Proof.
  split.
  - intros e. constructor; [done|done|]. intros. apply grown_refl.
  - intros e1 e2 e3 [C1 T1 G1] [C2 T2 G2]. constructor; [by etrans|by auto|].
    intros t Hc Ht. eapply grown_trans; [by apply G1|]. apply G2; [|by apply T1].
    by eapply clock_read_from.
Qed.

(** A change of none of queue, clock, links and text. *)
Lemma emu_rel_same e e' :
  emu_events e' = emu_events e -> clock_ e' = clock_ e -> arp_ e' = arp_ e ->
  trawlerBuf_ e' = trawlerBuf_ e -> feed_ e' = feed_ e -> emu_rel e e'.
Proof.
  intros Hq Hc Ha Hb Hd. constructor.
  - exists O. intros n. by rewrite Hc.
  - intros [Hl Htext]. split; [unfold links_ok; by rewrite Ha|].
    intros n. unfold fed. rewrite Hb, Hd. apply Htext.
  - intros t _ _. exists []. by split.
Qed.

Lemma emu_rel_rm e r : rm_same (emu_rm e) r -> emu_rel e (set_emu_rm r e).
Proof. intros [Hq _]. by apply emu_rel_same. Qed.

Lemma emu_keeps_emit o : keeps emu_rel has_fuel (emu_emit o).
Proof. apply keeps_modify; [apply _|]. intros e. by apply emu_rel_same. Qed.

Lemma emu_keeps_clock : keeps emu_rel has_fuel clockMicros.
Proof.
  intros e. split; [|done]. constructor; [by exists 1%nat|done|]. intros. by exists [].
Qed.

Lemma emu_keeps_now : keeps emu_rel has_fuel EmuNet.now.
Proof. unfold EmuNet.now. pose proof emu_keeps_clock. frame. Qed.

Lemma emu_keeps_sendto : keeps emu_rel has_fuel (next sendto_ set_sendto).
Proof. intros e. split; [|done]. by apply emu_rel_same. Qed.

Lemma emu_keeps_refresh : keeps emu_rel has_fuel refreshARP.
Proof.
  intros e. destruct (closes (feed_ e O)) eqn:Hc.
  - unfold refreshARP, next, bind, gets, modify, ret. rewrite drain_loop_run, Hc.
    cbv beta iota zeta. split; [|done]. cbn [snd]. constructor; [by exists O| |].
    + intros [Hl Hf]. split; [done|]. intros n. specialize (Hf (S n)). unfold fed in *.
      cbn in Hf |- *. by rewrite string_app_assoc.
    + intros t _ _. by exists [].
  - rewrite refreshARP_run by done. split; [|done]. cbn [snd].
    destruct (arp_steps_spec (lines_of (trawlerBuf_ e +:+ drained (feed_ e O)))
      (set_feed (fun n => feed_ e (S n)) e)) as [[K1 K2 K3 K4 K5 K6] _].
    change (emu_rel e (refreshed e)). constructor.
    + exists O. intros n. unfold refreshed. cbn. by rewrite K3.
    + intros [Hl Hf]. split; [|by apply (feed_ok_refreshed _ _ Hf)].
      by apply (links_ok_refreshed tame_options).
    + intros t _ _. exists []. split; [|done]. unfold emu_events, refreshed. cbn. by rewrite K1.
Qed.

Section sending.
Context `{Platform}.

Lemma emu_keeps_physicalSend pkt ip prt : keeps emu_rel has_fuel (physicalSend pkt ip prt).
Proof.
  unfold physicalSend. pose proof emu_keeps_emit. pose proof emu_keeps_sendto.
  assert (forall e0, keeps emu_rel has_fuel (modify (fun e => set_sent (sent_ e ++ e0) e)))
    by (intros; apply keeps_modify; [apply _|]; intros e; by apply emu_rel_same).
  frame.
Qed.

(** The time rounded up is not earlier. *)
Lemma wp_round_up t {S} (s : S) :
  wp (round_up_ms t) s (fun t' s' => t <= t' /\ s' = s) (fun f s' => f = UB /\ s' = s).
Proof.
  unfold round_up_ms. cbv zeta. destruct (negb _); [|by apply wp_ret].
  apply wp_long_any; [intros _|done]. split; [|done].
  pose proof (Z.rem_bound_abs t 1000 ltac:(lia)). lia.
Qed.

Lemma emu_rel_add e e1 ev :
  emu_rel e e1 -> (forall t, clock_from t e -> emu_tame e -> later t ev) ->
  emu_rel e (set_emu_rm (set_sortedEvents (addEvent ev (emu_events e1)) (emu_rm e1)) e1).
Proof.
  intros [C1 T1 G1] Hev. constructor; [done|done|]. intros t Hc Ht.
  eapply grown_trans; [by apply G1|]. exists [ev]. split; [done|].
  constructor; [by apply Hev|constructor].
Qed.

(** A packet on the link of an entry. *)
Lemma emu_rel_link e dest ip prt l l' r :
  arp_ e !! dest = Some (mkARPData ip prt (Some l)) -> link_options_ l' = link_options_ l ->
  rm_same (emu_rm e) r ->
  emu_rel e (set_arp (<[dest := mkARPData ip prt (Some l')]> (arp_ e)) (set_emu_rm r e)).
Proof.
  intros Ha Ho [Hq Hf]. constructor; [by exists O| |].
  - intros [Hl Ht]. split; [|done]. apply map_Forall_insert_2; [|done]. cbn. unfold tame_link.
    rewrite Ho. exact (Hl _ _ Ha).
  - intros t _ _. exists []. by split.
Qed.

Lemma emu_keeps_schedule pkt dest :
  vsize pkt <= EmulatorPacket.MAX_PACKET_SIZE ->
  keeps emu_rel has_fuel (emu_schedulePkt pkt dest).
Proof.
  intros Hsize e. unfold emu_schedulePkt. change (bind (gets arp_) ?k e) with (k (arp_ e) e).
  cbv beta.
  destruct (arp_ e !! dest) as [[ip prt [l|]]|] eqn:Ha; [|apply emu_keeps_physicalSend|by split].
  cbn [arp_link arp_ip arp_port]. set (size := if _ <? 0 then _ else _).
  assert (Hs : 0 <= size <= Packet.MAX_PACKET_SIZE).
  { unfold size. pose proof (vsize_nonneg pkt).
    unfold EmulatorPacket.MAX_PACKET_SIZE, EmulatorPacket.HEADER_SIZE, Packet.MAX_PACKET_SIZE in *.
    destruct (Z.ltb_spec (vsize pkt - 3) 0); lia. }
  destruct (emu_keeps_clock e) as [Hclock _].
  set (e1 := (clockMicros e).2) in *.
  change (bind clockMicros ?k e) with (k (clock_ e O) e1). cbv beta.
  unfold link_call, bind. change (arp_ e1) with (arp_ e). rewrite Ha.
  change (emu_rm e1) with (emu_rm e).
  pose proof (link_schedulePkt_keeps (C := EmuEvent) size (clock_ e O) l (emu_rm e) (proj2 Hs))
    as [[Ho Hr] Hf].
  assert (Hlater : emu_tame e -> wp (link_schedulePkt size (clock_ e O)) (l, emu_rm e)
    (fun t _ => t = -1 \/ clock_ e O < t) (fun _ _ => True)).
  { intros [Hl _]. apply link_schedulePkt_later; [exact (Hl _ _ Ha)|done]. }
  unfold wp in Hlater.
  destruct (link_schedulePkt _ _ _) as [[t|f] [l' r]]; cbn [fst snd] in *.
  - assert (Hrel : emu_rel e (set_arp (<[dest := mkARPData ip prt (Some l')]> (arp_ e))
      (set_emu_rm r e1))) by (etrans; [exact Hclock|]; by apply (emu_rel_link e1 _ _ _ l)).
    destruct (Z.eqb_spec t (-1)) as [->|Hne]; [by split|].
    pose proof (wp_round_up t (set_arp (<[dest := mkARPData ip prt (Some l')]> (arp_ e))
      (set_emu_rm r e1))) as Hround. unfold wp in Hround.
    destruct (round_up_ms t _) as [[t'|f] e2]; [destruct Hround as [Ht' ->]|].
    + unfold emu_base, zoom, addEventAtMicros, addEvent_. destruct (t' <? 0); cbn.
      * split; [|done]. etrans; [exact Hrel|]. by apply emu_rel_rm.
      * split; [|done]. apply (emu_rel_add e _ _ Hrel). intros t0 Hc Htame.
        split; [|by eexists]. cbn. specialize (Hc O). destruct (Hlater Htame); lia.
    + by destruct Hround as [-> ->].
  - split; [|done]. etrans; [exact Hclock|]. by apply (emu_rel_link e1 _ _ _ l).
Qed.

Lemma emu_keeps_broadcast pkt l :
  vsize pkt <= EmulatorPacket.MAX_PACKET_SIZE ->
  keeps emu_rel has_fuel (broadcast_arp pkt l).
Proof.
  intros Hs. induction l as [|[dest d] l IH]; cbn [broadcast_arp]; [by apply keeps_ret, _|].
  pose proof (emu_keeps_schedule pkt dest Hs). frame.
Qed.

Lemma emu_keeps_base {A} (m : M (RuntimeManager EmuEvent) A) :
  keeps rm_same has_fuel m -> keeps emu_rel has_fuel (emu_base m).
Proof. intros Hm. eapply keeps_zoom; [apply _|exact Hm|]. intros e r. apply emu_rel_rm. Qed.

Lemma emu_keeps_sendPkt from to pkt : keeps emu_rel has_fuel (EmuNet.sendPkt from to pkt).
Proof.
  unfold EmuNet.sendPkt. pose proof (emu_keeps_base _ (base_sendPkt_keeps from to pkt)).
  pose proof emu_keeps_refresh. pose proof emu_keeps_emit.
  apply keeps_bind; [apply _|done|intros _]. apply keeps_bind; [apply _|done|intros _].
  destruct (new_EmulatorPacket to from pkt) as [x|p] eqn:Hp.
  { intros e. by split. }
  assert (Hs : vsize (pack p) <= MAX_PACKET_SIZE).
  { apply new_EmulatorPacket_spec in Hp as [-> Hs]. by rewrite emulator_pack_length. }
  pose proof (fun dest => emu_keeps_schedule (pack p) dest Hs).
  pose proof (fun l => emu_keeps_broadcast (pack p) l Hs).
  change (bind (lift_exn (inr p)) ?k) with (k p). cbv beta. frame.
Qed.

Lemma emu_keeps_timer node delta cb :
  0 < delta -> keeps emu_rel has_fuel (mgr_addTimer (E := EmuNet) node delta cb).
Proof.
  intros Hd e. cbn. unfold EmuNet.now. destruct (emu_keeps_clock e) as [Hclock _].
  set (e1 := (clockMicros e).2) in *.
  change (bind (bind clockMicros ?k) ?k' e) with (k' (Z.quot (clock_ e O) 1000) e1). cbv beta.
  unfold emu_base, zoom, addTimer, addTimerAt, bind, long.
  destruct (in_long (_ + delta)); cbn; [|split; [etrans; [exact Hclock|]; by apply emu_rel_rm|done]].
  destruct (in_long (_ * 1000)); cbn; [|split; [etrans; [exact Hclock|]; by apply emu_rel_rm|done]].
  split; [|done]. apply (emu_rel_add e _ _ Hclock). intros t Hc _. split; [|by eexists].
  cbn. specialize (Hc O). Z.to_euclidean_division_equations. lia.
Qed.

#[export] Instance EmuNet_frame : EnvFrame EmuNet := {|
  ef_rel := emu_rel;
  ef_fault := has_fuel;
  ef_preorder := emu_rel_preorder;
  ef_plain := has_fuel_plain;
  ef_now := emu_keeps_now;
  ef_sendPkt := emu_keeps_sendPkt;
  ef_addTimer := emu_keeps_timer;
  ef_emit := emu_keeps_emit
|}.
End sending.
