(* ===== verification/EmuSafe.v ===== *)
(** * The emulated network keeps its promises to the node

    In its invariant (readings of the clock and counters in range, links with
    sane options, the links still to come in the trawler's text included) the
    network is an environment in the sense of the node's interface.  Its faults
    are the overflow of a packet counter and the end of the process when the
    trawler's connection closes; all it ever gives to the operating system are
    the node's packets, framed. *)

From S2P Require Import Prelude CppStrings Doubles DoubleText Frame Packet EmulatorPacket EventQueue Runtime Edge LinkRules EmulatedLink Arp Posix EmuNet EmuTable TcpGrow Node NodeFrame Emulator EmuFrame.

Record emu_ok (e : EmuNet) : Prop := {
  eo_clock : forall n, 0 <= clock_ e n <= MICROS_LIMIT;
  eo_counts : counts_ok (emu_rm e);
  eo_links : links_ok link_ok e;
  eo_feed : feed_ok options_ok e
}.

Definition emu_fault (f : fault) (e : EmuNet) : Prop :=
  (f = UB /\ count_full (emu_rm e)) \/ f = Exited 1.

(** The frame of a packet that was sent. *)
Definition carried (l : list datagram) (bytes : list byte) : Prop :=
  exists from to pkt, (from, to, pkt) ∈ l /\ bytes = pack (mkEmulatorPacket to from pkt).

Definition carries (l : list datagram) (ev : ScheduledEvent EmuEvent) : Prop :=
  match callback ev with
  | Some (PhysicalSend bytes _ _) => carried l bytes
  | Some (EmuCallback _) => True
  | None => False
  end.

Record emu_sends (e : EmuNet) (l : list datagram) (e' : EmuNet) : Prop := {
  es_clock : clock_read e e';
  es_sent : exists out, sent_ e' = sent_ e ++ out /\ Forall (fun d => carried l d.1.1) out;
  es_events : exists evs, emu_events e' = add_all evs (emu_events e) /\ Forall (carries l) evs
}.

Lemma carried_incl l l' b : l ⊆ l' -> carried l b -> carried l' b.
Proof. intros Hl (from & to & pkt & Hin & ->). exists from, to, pkt. split; [by apply Hl|done]. Qed.

Lemma carries_incl l l' ev : l ⊆ l' -> carries l ev -> carries l' ev.
Proof. unfold carries. intros Hl. destruct (callback ev) as [[]|]; [done|by apply carried_incl|done]. Qed.

Lemma emu_sends_incl e l l' e' : l ⊆ l' -> emu_sends e l e' -> emu_sends e l' e'.
Proof.
  intros Hl [C (o & So & Fo) (v & Qv & Fv)]. constructor; [done| |].
  - exists o. split; [done|]. eapply List.Forall_impl; [|exact Fo]. intros d. by apply carried_incl.
  - exists v. split; [done|]. eapply List.Forall_impl; [|exact Fv]. intros ev. by apply carries_incl.
Qed.

(** One after the other, of the same packets. *)
Lemma emu_sends_join e1 e2 e3 l : emu_sends e1 l e2 -> emu_sends e2 l e3 -> emu_sends e1 l e3.
Proof.
  intros [C1 (o1 & S1 & F1) (v1 & Q1 & V1)] [C2 (o2 & S2 & F2) (v2 & Q2 & V2)].
  constructor; [by etrans| |].
  - exists (o1 ++ o2). rewrite S2, S1, app_assoc. split; [done|]. by apply Forall_app_2.
  - exists (v1 ++ v2). unfold add_all in *. rewrite fold_left_app, <- Q1. split; [done|].
    by apply Forall_app_2.
Qed.

Lemma emu_sends_same e e' l :
  clock_read e e' -> sent_ e' = sent_ e -> emu_events e' = emu_events e -> emu_sends e l e'.
Proof.
  intros Hc Hs Hq. constructor; [done| |].
  - exists []. by rewrite app_nil_r.
  - exists []. by split.
Qed.

Lemma emu_sends_idle e e' l :
  clock_ e' = clock_ e -> sent_ e' = sent_ e -> emu_events e' = emu_events e -> emu_sends e l e'.
Proof. intros Hc. apply emu_sends_same. exists O. intros n. by rewrite Hc. Qed.

Lemma emu_sends_refl e : emu_sends e [] e.
Proof. by apply emu_sends_idle. Qed.

Lemma emu_sends_trans e1 e2 e3 l l' :
  emu_sends e1 l e2 -> emu_sends e2 l' e3 -> emu_sends e1 (l ++ l') e3.
Proof.
  intros H1 H2. eapply emu_sends_join; (eapply emu_sends_incl; [|eassumption]);
    intros x Hx; apply elem_of_app; auto.
Qed.

(** In the invariant still, and sent at most [l]. *)
Definition emu_did (l : list datagram) (e e' : EmuNet) : Prop := emu_ok e' /\ emu_sends e l e'.

Lemma emu_did_refl l e : emu_ok e -> emu_did l e e.
Proof. intros He. split; [done|]. by apply emu_sends_idle. Qed.

Lemma emu_did_trans l e1 e2 e3 : emu_did l e1 e2 -> emu_did l e2 e3 -> emu_did l e1 e3.
Proof. intros [_ H1] [H2 H3]. split; [done|]. by eapply emu_sends_join. Qed.

(** A rule for a call and what follows. *)
Lemma wp_did {A B} l (m : M EmuNet A) (k : A -> M EmuNet B) (P : A -> Prop) e
    (Q : B -> EmuNet -> Prop) :
  wp m e (fun a e' => P a /\ emu_did l e e') emu_fault ->
  (forall a e', P a -> emu_did l e e' -> wp (k a) e' Q emu_fault) ->
  wp (bind m k) e Q emu_fault.
Proof.
  intros Hm Hk. apply wp_bind. eapply wp_conseq; [exact Hm| |done].
  intros a e' [Ha He']. by apply Hk.
Qed.

(** ** Reading the clock, the console and the trawler's text *)

Lemma emu_ok_rm r e : counts_ok r -> emu_ok e -> emu_ok (set_emu_rm r e).
Proof. intros Hr []. by constructor. Qed.

Lemma wp_clock l e :
  emu_ok e ->
  wp clockMicros e (fun t e' => 0 <= t <= MICROS_LIMIT /\ t = clock_ e O /\ emu_rm e' = emu_rm e /\
    arp_ e' = arp_ e /\ emu_did l e e') emu_fault.
Proof.
  intros [Hc Hr Hl Hf]. unfold clockMicros, next. apply wp_bind, wp_gets, wp_bind, wp_modify, wp_ret.
  split; [apply Hc|]. do 3 (split; [done|]). split; [constructor; [intros n; apply Hc|done..]|].
  apply emu_sends_same; [by exists 1%nat|done|done].
Qed.

Lemma wp_emu_now l e :
  emu_ok e -> wp EmuNet.now e (fun t e' => 0 <= t <= TIME_LIMIT /\ emu_did l e e') emu_fault.
Proof.
  intros He. unfold EmuNet.now. apply wp_bind. eapply wp_conseq; [by apply wp_clock| |done].
  intros t e' (Ht & _ & _ & _ & Hd). apply wp_ret. split; [|done]. unfold MICROS_LIMIT in Ht.
  rewrite Z.quot_div_nonneg by lia. split; [apply Z.div_pos; lia|].
  apply Z.div_le_upper_bound; lia.
Qed.

Lemma wp_emu_emit l o e : emu_ok e -> wp (emu_emit o) e (fun _ e' => emu_did l e e') emu_fault.
Proof. intros []. apply wp_modify. split; [by constructor|]. by apply emu_sends_idle. Qed.

Lemma wp_refreshARP l e :
  emu_ok e ->
  wp refreshARP e (fun _ e' => emu_did l e e' /\ emu_rm e' = emu_rm e) emu_fault.
Proof.
  intros He. destruct (closes (feed_ e O)) eqn:Hc.
  - destruct (refreshARP_closed e Hc) as (e' & Hr & _). unfold wp. rewrite Hr. by right.
  - eapply run_wp; [by apply refreshARP_run|].
    destruct (arp_steps_spec (lines_of (trawlerBuf_ e +:+ drained (feed_ e O)))
      (set_feed (fun n => feed_ e (S n)) e)) as [[K1 K2 K3 K4 K5 K6] _].
    assert (Hrm : emu_rm (refreshed e) = emu_rm e) by exact K1.
    assert (Hck : clock_ (refreshed e) = clock_ e) by exact K3.
    split; [|done]. split.
    + constructor.
      * rewrite Hck. apply He.
      * rewrite Hrm. apply He.
      * apply (links_ok_refreshed options_ok); [apply new_link_ok|apply He|apply He].
      * apply feed_ok_refreshed, He.
    + apply emu_sends_idle; [exact Hck|exact K6|].
      unfold emu_events. by rewrite Hrm.
Qed.

(** ** Sending *)

Section laws.
Context `{Platform}.

Lemma wp_physicalSend l bytes ip prt e :
  emu_ok e -> carried l bytes ->
  wp (physicalSend bytes ip prt) e (fun _ e' => emu_did l e e') emu_fault.
Proof.
  intros He Hb. unfold physicalSend. destruct (negb _); [by apply wp_emu_emit|].
  set (e1 := set_sent (sent_ e ++ [(bytes, ip, prt mod 2 ^ 16)]) e).
  assert (H1 : emu_did l e e1).
  { destruct He. split; [by constructor|]. constructor; [by exists O| |by exists []].
    eexists [_]. split; [done|]. by repeat constructor. }
  set (e2 := set_sendto (fun n => sendto_ e (S n)) e1).
  assert (H2 : emu_did l e e2).
  { eapply emu_did_trans; [exact H1|]. pose proof (proj1 H1) as []. split; [by constructor|].
    by apply emu_sends_idle. }
  apply wp_bind, wp_modify. change (set_sent _ e) with e1. unfold next.
  apply wp_bind, wp_bind, wp_gets, wp_bind, wp_modify, wp_ret. change (set_sendto _ e1) with e2.
  destruct (sendto_ e1 O) as [message|]; [|by apply wp_ret].
  eapply wp_conseq; [apply (wp_emu_emit l), H2| |done]. intros [] e3. by apply emu_did_trans.
Qed.

(** A packet on the link of an entry. *)
Lemma wp_link_call l dest ip prt k size now e :
  emu_ok e -> arp_ e !! dest = Some (mkARPData ip prt (Some k)) ->
  0 <= size <= Packet.MAX_PACKET_SIZE -> 0 <= now <= MICROS_LIMIT ->
  wp (link_call dest (link_schedulePkt size now)) e
    (fun t e' => -1 <= t <= 2 ^ 62 /\ emu_did l e e') emu_fault.
Proof.
  intros [Hc Hr Hl Hf] Ha Hs Hn.
  pose proof (wp_link_schedulePkt size now k (emu_rm e) (Hl _ _ Ha) Hr Hs Hn) as Hw.
  unfold wp, link_call in *. rewrite Ha.
  destruct (link_schedulePkt _ _ _) as [[t|f] [k' r]]; cbn [fst snd] in Hw.
  - destruct Hw as (Hk & Hcr & Ht & Hq & _). split; [done|]. split.
    + constructor; try done. by apply map_Forall_insert_2.
    + by apply emu_sends_idle.
  - destruct Hw as (-> & _ & _ & Hfull). by left.
Qed.

Lemma wp_round_up_ok t (e : EmuNet) X :
  -1 <= t <= 2 ^ 62 ->
  wp (round_up_ms t) e (fun _ e' => e' = e) X.
Proof.
  intros Ht. unfold round_up_ms. cbv zeta. destruct (negb _); [|by apply wp_ret].
  pose proof (Z.rem_bound_abs t 1000 ltac:(lia)).
  apply wp_long; [|done]. unfold LONG_MIN, LONG_MAX. lia.
Qed.

(** The size that the link is told. *)
Lemma link_size n :
  0 <= n <= MAX_PACKET_SIZE ->
  0 <= (if n - HEADER_SIZE <? 0 then n else n - HEADER_SIZE) <= Packet.MAX_PACKET_SIZE.
Proof.
  unfold MAX_PACKET_SIZE, HEADER_SIZE, Packet.MAX_PACKET_SIZE. intros.
  destruct (Z.ltb_spec (n - 3) 0); lia.
Qed.

Lemma wp_emu_schedulePkt l bytes dest e :
  emu_ok e -> carried l bytes -> vsize bytes <= EmulatorPacket.MAX_PACKET_SIZE ->
  wp (emu_schedulePkt bytes dest) e (fun _ e' => emu_did l e e') emu_fault.
Proof.
  intros He Hb Hsize. unfold emu_schedulePkt. apply wp_bind, wp_gets.
  destruct (arp_ e !! dest) as [[ip prt [k|]]|] eqn:Ha;
    [|by apply wp_physicalSend|by apply wp_ret, emu_did_refl].
  cbn [arp_link arp_ip arp_port]. cbv zeta. set (size := if _ <? 0 then _ else _).
  assert (Hs : 0 <= size <= Packet.MAX_PACKET_SIZE) 
    by (apply link_size; split; [apply vsize_nonneg|done]).
  apply wp_bind. eapply wp_conseq; [by apply (wp_clock l)| |done].
  intros now e1 (Hn & _ & Hrm & Harp & H1). rewrite <- Harp in Ha.
  apply (wp_did l _ _ (fun t => -1 <= t <= 2 ^ 62)).
  { eapply wp_conseq; [apply (wp_link_call l _ _ _ _ _ _ _ (proj1 H1) Ha Hs Hn)|done|done]. }
  intros t e2 Ht H2. pose proof (emu_did_trans _ _ _ _ H1 H2) as H3.
  destruct (t =? -1); [by apply wp_ret|]. apply wp_bind.
  eapply wp_conseq; [by apply (wp_round_up_ok t e2 no_fault)| |by intros].
  intros t' _ ->. apply wp_zoom. unfold addEventAtMicros, addEvent_.
  destruct (t' <? 0); [apply wp_ret|apply wp_modify]; eapply emu_did_trans; try exact H3;
    pose proof (proj1 H3) as []; (split; [by apply emu_ok_rm|]).
  - by apply emu_sends_idle.
  - constructor; [by exists O|by exists []; rewrite app_nil_r|].
    eexists [_]. split; [done|]. by repeat constructor.
Qed.

Lemma wp_broadcast_arp l bytes neighbors e :
  emu_ok e -> carried l bytes -> vsize bytes <= EmulatorPacket.MAX_PACKET_SIZE ->
  wp (broadcast_arp bytes neighbors) e (fun _ e' => emu_did l e e') emu_fault.
Proof.
  intros He Hb Hsize. revert e He. induction neighbors as [|[dest d] neighbors IH];
    intros e He; cbn [broadcast_arp]; [by apply wp_ret, emu_did_refl|].
  apply (wp_did l _ _ (fun _ => True)).
  { eapply wp_conseq; [by apply (wp_emu_schedulePkt l)|done|done]. }
  intros _ e1 _ H1. eapply wp_conseq; [apply IH, H1| |done]. intros [] e2. by apply emu_did_trans.
Qed.

Lemma wp_emu_base_sendPkt l from to pkt e :
  emu_ok e -> sendable from to pkt ->
  wp (emu_base (Runtime.sendPkt from to pkt)) e (fun _ e' => emu_did l e e') emu_fault.
Proof.
  intros He Hs. apply wp_zoom. destruct (eo_counts _ He) as (Hc & Hd & Hl).
  destruct (decide (pktsSent_ (emu_rm e) = INT_MAX)) as [Hm|Hm].
  - unfold wp, Runtime.sendPkt. destruct Hs as (Hf & Ht & Hsz & p & Hu & Hv).
    rewrite Hf, Ht, Hu, Hv. replace (vsize pkt >? Packet.MAX_PACKET_SIZE) with false by lia.
    cbn [negb orb]. unfold gets, bind. rewrite Hm. unfold int.
    replace (in_int (INT_MAX + 1)) with false by done. left. split; [done|]. by left.
  - unfold wp, in_count in *. rewrite sendPkt_sendable by (try done; lia). split.
    + apply emu_ok_rm; [|done]. split; [|done]. cbn. unfold in_count. lia.
    + by apply emu_sends_idle.
Qed.

Lemma wp_emu_sendPkt from to pkt e :
  emu_ok e -> sendable from to pkt ->
  wp (EmuNet.sendPkt from to pkt) e (fun _ e' => emu_did [(from, to, pkt)] e e') emu_fault.
Proof.
  intros He Hs. pose proof Hs as (_ & _ & Hsize & _). set (l := [(from, to, pkt)]).
  unfold EmuNet.sendPkt. apply (wp_did l _ _ (fun _ => True)).
  { eapply wp_conseq; [by apply (wp_emu_base_sendPkt l)|done|done]. }
  intros _ e1 _ H1. apply (wp_did l _ _ (fun _ => True)).
  { eapply wp_conseq; [apply (wp_refreshARP l), H1| |done]. by intros _ e2 []. }
  intros _ e2 _ H2. pose proof (emu_did_trans _ _ _ _ H1 H2) as H3.
  rewrite new_EmulatorPacket_inr by (unfold HEADER_SIZE, MAX_PACKET_SIZE, HEADER_SIZE; lia).
  apply wp_bind, wp_ret. set (bytes := pack _).
  assert (Hb : carried l bytes).
  { exists from, to, pkt. split; [by apply list_elem_of_singleton|done]. }
  assert (Hlen : vsize bytes = 3 + vsize pkt) by apply emulator_pack_length.
  assert (Hmax : vsize bytes <= MAX_PACKET_SIZE)
    by (unfold MAX_PACKET_SIZE, HEADER_SIZE; lia).
  pose proof (vsize_nonneg pkt). replace (vsize bytes =? 0) with false by lia.
  assert (Hsent : wp
      (let! arp := gets arp_ in
       if to =? BROADCAST_ADDRESS then broadcast_arp bytes (int_order arp) ;; ret true
       else if bool_decide (is_Some (arp !! to)) then emu_schedulePkt bytes to ;; ret true
       else
         emu_emit (Cerr (endl ("Node " +:+ to_string to +:+ " is not a neighbor of node " +:+
                               to_string from))) ;;
         ret false) e2 (fun _ e' => emu_did l e e') emu_fault).
  { assert (Hend : forall (b : bool) (m : M EmuNet unit), wp m e2 (fun _ e' => emu_did l e2 e') emu_fault ->
      wp (m ;; ret b) e2 (fun _ e' => emu_did l e e') emu_fault).
    { intros b m Hm. apply wp_bind. eapply wp_conseq; [exact Hm| |done].
      intros [] e4 H4. apply wp_ret. by eapply emu_did_trans. }
    apply wp_bind, wp_gets. case_match; [|case_match]; apply Hend.
    - by apply wp_broadcast_arp; [apply H3|..].
    - by apply wp_emu_schedulePkt; [apply H3|..].
    - apply wp_emu_emit, H3. }
  apply wp_try. eapply wp_conseq; [exact Hsent|done|].
  intros [x|c| |] e4 H4; try done. by destruct H4 as [[[=] _]|[=]].
Qed.

(** The emulated network obeys the laws of the node's interface. *)
#[export] Instance EmuNet_laws : ManagerLaws EmuNet.
Proof.
  refine {| mgr_ok := emu_ok; mgr_sends := emu_sends; mgr_fault := emu_fault |}.
  - apply emu_sends_refl.
  - apply emu_sends_trans.
  - by intros x e [[[=] _]|[=]].
  - intros e He. eapply wp_conseq; [by apply (wp_emu_now [])| |done]. by intros t e' (Ht & H1 & H2).
  - intros from to pkt e He Hs. by apply wp_emu_sendPkt.
  - intros node delta cb e He Hd. apply (wp_did [] _ _ (fun t => 0 <= t <= TIME_LIMIT)); [by apply wp_emu_now|].
    intros t e1 Ht H1. apply wp_zoom. unfold Runtime.addTimer, addTimerAt, addEvent_, TIME_LIMIT in *.
    apply wp_bind, wp_long; [unfold LONG_MIN, LONG_MAX; lia|].
    apply wp_bind, wp_long; [unfold LONG_MIN, LONG_MAX; lia|]. apply wp_modify.
    apply (emu_did_trans [] _ _ _ H1). pose proof (proj1 H1) as [].
    split; [by apply emu_ok_rm|]. constructor; [by exists O|by exists []; rewrite app_nil_r|].
    eexists [_]. split; [done|]. by repeat constructor.
  - intros o e He. by apply wp_emu_emit.
Defined.
End laws.
