(* ===== verification/EmuLoop.v ===== *)
(** * The main loop of the emulator

    Its fuel lasts: an event that runs takes an event whose time has come out of
    the queue and puts only later ones in, as the clock does not run backwards;
    a line that is executed leaves the text.  What holds around an iteration,
    whatever the operating system answers. *)

From S2P Require Import Prelude CppStrings Doubles DoubleText Frame Packet EmulatorPacket EventQueue Runtime Edge LinkRules EmulatedLink Arp Posix EmuNet EmuTable Parser TcpData TcpGrow Node NodeFrame StackNode Emulator EmuFrame.

(** What the node and the commands keep. *)
Record emulator_rel (s s' : Emulator) : Prop := {
  em_net : emu_rel (enet s) (enet s');
  em_text : stdinBuf s' = stdinBuf s;
  em_running : emu_running_ s' = emu_running_ s
}.

#[export] Instance emulator_rel_preorder : PreOrder emulator_rel.
Proof.
  split.
  - by constructor.
  - intros s1 s2 s3 [] []. constructor; [by etrans|congruence..].
Qed.

Lemma emulator_rel_net s e : emu_rel (enet s) e -> emulator_rel s (set_enet e s).
Proof. by constructor. Qed.

Lemma emu_keeps_net {A} (m : M EmuNet A) :
  keeps emu_rel has_fuel m -> keeps emulator_rel has_fuel (on_enet m).
Proof. intros Hm. eapply keeps_zoom; [apply _|exact Hm|]. intros s e. apply emulator_rel_net. Qed.

Lemma emu_keeps_say o : keeps emulator_rel has_fuel (say o).
Proof. apply emu_keeps_net, emu_keeps_emit. Qed.

Lemma emu_keeps_time : keeps emulator_rel has_fuel (on_enet clockMicros).
Proof. apply emu_keeps_net, emu_keeps_clock. Qed.

Lemma emu_keeps_ms : keeps emulator_rel has_fuel (on_enet EmuNet.now).
Proof. apply emu_keeps_net, emu_keeps_now. Qed.
#[export] Hint Resolve emu_keeps_say emu_keeps_time emu_keeps_ms : frame.

Lemma keeps_exit {S A} (R : relation S) `{!PreOrder R} code :
  keeps R has_fuel (fail (A := A) (Exited code)).
Proof. by apply keeps_fail. Qed.

Section keeps.
Context `{MapOrder} `{Platform}.

Lemma emu_keeps_stack {A} (m : M (StackNode * EmuNet) A) :
  node_framed m -> keeps emulator_rel has_fuel (on_stack m).
Proof.
  intros Hm s. unfold on_stack. destruct (node_ s) as [n|]; [|by split].
  destruct (Hm (n, enet s)) as [(_ & _ & Hr) Hf]. destruct (m (n, enet s)) as [r [n' e']].
  split; [by constructor|exact Hf].
Qed.

Lemma emu_keeps_node_msg msg : keeps emulator_rel has_fuel (emu_sendNodeMsg msg).
Proof.
  unfold emu_sendNodeMsg. pose proof (emu_keeps_stack _ (node_framed_onCommand msg)). frame.
Qed.

Lemma emu_keeps_say_all l : keeps emulator_rel has_fuel (say_all l).
Proof. induction l as [|o l IH]; cbn [say_all]; frame. Qed.

Lemma emu_keeps_stop : keeps emulator_rel has_fuel emu_stop.
Proof.
  unfold emu_stop. pose proof emu_keeps_say_all.
  pose proof (keeps_exit (A := unit) emulator_rel 0) as Hx.
  repeat first [exact Hx|frame_step].
Qed.

(** A line of the command file or of the console. *)
Lemma emu_keeps_line line t : keeps emulator_rel has_fuel (emu_parseLine line t).
Proof.
  unfold emu_parseLine, parseCommonCmds, echo, parseTime, printStrArray. cbn.
  pose proof emu_keeps_stop. pose proof emu_keeps_node_msg. frame.
Qed.

Lemma emu_keeps_stdin_line line : keeps emulator_rel has_fuel (handleStdinLine line).
Proof. unfold handleStdinLine. pose proof emu_keeps_line. frame. Qed.

Lemma emu_keeps_event ev : keeps emulator_rel has_fuel (run_emu_event ev).
Proof.
  destruct ev as [cb|pkt ip prt]; cbn.
  - apply emu_keeps_stack, node_framed_timer_cb.
  - apply emu_keeps_net, emu_keeps_physicalSend.
Qed.

Lemma emu_keeps_learn src ip prt :
  keeps emu_rel has_fuel (modify (fun e => set_arp (<[src := mkARPData ip prt None]> (arp_ e)) e)).
Proof.
  apply keeps_modify; [apply _|]. intros e. constructor; [by exists O| |].
  - intros [Hl Ht]. split; [by apply map_Forall_insert_2|done].
  - intros t _ _. by exists [].
Qed.

Lemma emu_keeps_udp received : keeps emulator_rel has_fuel (processUdpPacket received).
Proof.
  unfold processUdpPacket. pose proof (fun src ip prt => emu_keeps_net _ (emu_keeps_learn src ip prt)).
  pose proof (fun src pkt => emu_keeps_stack _ (node_framed_onReceive src pkt)). frame.
Qed.
End keeps.

(** ** The invariant of the main loop *)

Definition emu_queue (s : Emulator) : OrderedEventQueue EmuEvent := emu_events (enet s).

(** The clock does not run backwards. *)
Definition clock_forward (e : EmuNet) : Prop := forall n, clock_ e n <= clock_ e (S n).

Lemma clock_forward_from e : clock_forward e -> clock_from (clock_ e O) e.
Proof.
  intros Hc n. induction n as [|n IH]; [lia|]. specialize (Hc n). lia.
Qed.

Record emu_live (s : Emulator) : Prop := {
  el_tame : emu_tame (enet s);
  el_queue : queue_ok (emu_queue s);
  el_clock : clock_forward (enet s)
}.

(** In the loop over what is due at [t]. *)
Definition live_from (t : Z) (s : Emulator) : Prop := emu_live s /\ clock_from t (enet s).

Lemma clock_forward_read e e' : clock_read e e' -> clock_forward e -> clock_forward e'.
Proof. intros [k Hk] Hc n. rewrite !Hk. replace (k + S n)%nat with (S (k + n)) by lia. apply Hc. Qed.

Lemma later_after t evs : Forall (later t) evs -> Forall (fun ev => t < timeToOccur ev) evs.
Proof. apply List.Forall_impl. by intros ev []. Qed.

Lemma live_kept s s' : emulator_rel s s' -> emu_live s -> emu_live s'.
Proof.
  intros [[Hc Ht Hg] _ _] [Htame Hq Hfw]. constructor; [by apply Ht| |].
  - destruct (Hg _ (clock_forward_from _ Hfw) Htame) as (evs & He & _).
    unfold emu_queue. rewrite He. by apply add_all_ok.
  - by eapply clock_forward_read.
Qed.

Lemma live_from_kept t s s' : emulator_rel s s' -> live_from t s -> live_from t s'.
Proof.
  intros Hr [Hl Hc]. split; [exact (live_kept _ _ Hr Hl)|]. eapply clock_read_from, Hc. apply Hr.
Qed.

Lemma due_kept t s s' :
  emulator_rel s s' -> live_from t s -> due t (emu_queue s') = due t (emu_queue s).
Proof.
  intros [[_ _ Hg] _ _] [[Ht _ _] Hc]. destruct (Hg t Hc Ht) as (evs & He & Hev).
  unfold emu_queue. rewrite He. by apply add_all_due, later_after.
Qed.

Lemma queue_kept t s s' ev :
  emulator_rel s s' -> live_from t s -> ev ∈ emu_queue s -> ev ∈ emu_queue s'.
Proof.
  intros [[_ _ Hg] _ _] [[Ht _ _] Hc] Hev. destruct (Hg t Hc Ht) as (evs & He & _).
  unfold emu_queue. rewrite He. by apply add_all_in.
Qed.

(** ** The loop over what is due *)

Definition drop_due (rest : OrderedEventQueue EmuEvent) (s : Emulator) : Emulator :=
  set_erm (set_sortedEvents rest (emu_rm (enet s))) s.

Lemma drop_due_live t ev rest s :
  emu_queue s = ev :: rest -> live_from t s -> live_from t (drop_due rest s).
Proof.
  intros Hq [[Ht Ho Hc] Hf]. split; [|done]. constructor; [done| |done].
  rewrite Hq in Ho. by eapply queue_ok_tail.
Qed.

Section loops.
Context `{MapOrder} `{Platform}.

(** A run of an event with its handler of exceptions. *)
Definition fire_due (ev : ScheduledEvent EmuEvent) : M Emulator unit :=
  try_catch
    (match callback ev with
     | Some cb => run_emu_event cb
     | None => throw bad_function_call
     end)
    (fun e => say (Cerr (endl ("Exception while invoking method in Emulator: " +:+ what e)))).

(** The events that were called, in their order. *)
Definition emu_ran (t : Z) : Emulator -> list (ScheduledEvent EmuEvent) -> Emulator -> Prop :=
  EventQueue.drained emu_queue drop_due (fun _ => t) fire_due.

(** What the loop leaves: everything that was due is called, nothing is due any
    more, and everything that was not is there. *)
Record due_done (t : Z) (s s' : Emulator) : Prop := {
  dd_live : live_from t s';
  dd_running : emu_running_ s' = emu_running_ s;
  dd_text : stdinBuf s' = stdinBuf s;
  dd_ran : exists l, emu_ran t s l s' /\
    forall ev, ev ∈ emu_queue s -> timeToOccur ev <= t -> ev ∈ l;
  dd_later : Forall (fun ev => t < timeToOccur ev) (emu_queue s');
  dd_kept : forall ev, ev ∈ emu_queue s -> t < timeToOccur ev -> ev ∈ emu_queue s'
}.

Lemma due_done_none t s :
  live_from t s -> Forall (fun ev => t < timeToOccur ev) (emu_queue s) -> due_done t s s.
Proof.
  intros Hs Hl. constructor; try done. exists []. split.
  - constructor. intros ev Hev. destruct (emu_queue s) as [|ev' q]; [done|].
    injection Hev as ->. by apply Forall_cons in Hl as [Hl _].
  - intros ev Hev Hle. apply (proj1 (Forall_forall _ _) Hl) in Hev. lia.
Qed.

Lemma emu_keeps_fire ev : keeps emulator_rel has_fuel (fire_due ev).
Proof. unfold fire_due. pose proof emu_keeps_event. frame. Qed.

Lemma wp_keeps {A} (m : M Emulator A) s :
  keeps emulator_rel has_fuel m ->
  wp m s (fun _ s' => emulator_rel s s') (fun f s' => emulator_rel s s' /\ has_fuel f).
Proof.
  intros Hm. unfold wp. destruct (Hm s) as [H1 H2]. destruct (m s) as [[a|f] s']; [exact H1|by split].
Qed.

Lemma wp_due_loop t fuel s :
  live_from t s -> (due t (emu_queue s) < fuel)%nat ->
  wp (due_loop fuel t) s (fun _ s' => due_done t s s') (fun f _ => has_fuel f).
Proof.
  revert s. induction fuel as [|fuel IH]; intros s Hs Hfuel; [lia|].
  cbn [due_loop]. apply wp_bind, wp_gets.
  change (sortedEvents_ (emu_rm (enet s))) with (emu_queue s).
  destruct (emu_queue s) as [|ev rest] eqn:Hq; cbn [getNextEvent].
  { apply wp_ret, due_done_none; [done|]. rewrite Hq. constructor. }
  destruct (Z.leb_spec (timeToOccur ev) t) as [Hle|Hlt].
  - apply wp_bind. eapply run_wp.
    { unfold on_enet, emu_base, zoom, removeNextEvent. cbn.
      change (sortedEvents_ (emu_rm (enet s))) with (emu_queue s). rewrite Hq. reflexivity. }
    change (set_enet _ s) with (drop_due rest s). fold (fire_due ev).
    pose proof (drop_due_live _ _ _ _ Hq Hs) as Hd. change (bind ?m ?k) with (fire_due ev ;; due_loop fuel t).
    apply wp_bind. eapply wp_conseq; [exact (wp_mark _ _ _ _ (wp_keeps _ (drop_due rest s) (emu_keeps_fire ev)))| |by intros f s' []].
    intros [] s2 [Hrun Hr]. rewrite due_head in Hfuel by done.
    eapply wp_conseq; [apply IH| |done].
    + by eapply live_from_kept.
    + rewrite (due_kept _ _ _ Hr Hd). change (emu_queue (drop_due rest s)) with rest. lia.
    + intros [] s3 [L3 U3 B3 (l & R3 & I3) A3 K3].
      constructor; [done|by rewrite U3, (em_running _ _ Hr)|by rewrite B3, (em_text _ _ Hr)| |done|].
      * exists (ev :: l). split; [by eapply drained_event|]. intros x Hx Hxt. rewrite Hq in Hx.
        apply elem_of_cons in Hx as [->|Hx]; [by left|]. right. apply I3; [|done].
        by apply (queue_kept _ _ _ _ Hr Hd).
      * intros x Hx Hxt. rewrite Hq in Hx. apply elem_of_cons in Hx as [->|Hx]; [lia|].
        apply K3; [|done]. by apply (queue_kept _ _ _ _ Hr Hd).
  - apply wp_ret, due_done_none; [done|]. rewrite Hq. apply later_of_head; [|done].
    rewrite <- Hq. apply Hs.
Qed.

(** The fuel that the main loop gives is enough. *)
Lemma wp_due_loop_fuel t s :
  live_from t s ->
  wp (due_loop (due_fuel s) t) s (fun _ s' => due_done t s s') (fun f _ => has_fuel f).
Proof.
  intros Hs. apply wp_due_loop; [done|]. unfold due_fuel.
  pose proof (due_length t (emu_queue s)). unfold emu_queue, emu_events in *. lia.
Qed.

(** ** Reading *)

Lemma emu_keeps_file :
  forall d, keeps emulator_rel has_fuel
    (readCommandFile (fun s => emu_rm (enet s)) set_erm (on_enet EmuNet.now) emu_parseLine d).
Proof.
  intros d. unfold readCommandFile. pose proof emu_keeps_line.
  assert (forall file, keeps emulator_rel has_fuel
    (modify (fun s => set_erm (set_commandFile file (emu_rm (enet s))) s))).
  { intros file. apply keeps_modify; [apply _|]. intros s. constructor; [|done|done].
    by apply emu_rel_same. }
  frame.
Qed.

(** What the rest of an iteration keeps: the flags and the text may change. *)
Definition net_kept (s s' : Emulator) : Prop :=
  emu_rel (enet s) (enet s') /\ emu_running_ s' = emu_running_ s.

#[export] Instance net_kept_preorder : PreOrder net_kept.
Proof.
  split; unfold net_kept.
  - by intros s.
  - intros s1 s2 s3 [H1 U1] [H2 U2]. split; [by etrans|congruence].
Qed.

Lemma keeps_net {A} (m : M Emulator A) :
  keeps emulator_rel has_fuel m -> keeps net_kept has_fuel m.
Proof. apply keeps_mono; [by intros s s' []|done]. Qed.

Lemma net_keeps_flag f :
  (forall s, enet (f s) = enet s /\ emu_running_ (f s) = emu_running_ s) ->
  keeps net_kept has_fuel (modify f).
Proof.
  intros Hf. apply keeps_modify; [apply _|]. intros s. unfold net_kept. by destruct (Hf s) as [-> ->].
Qed.

Lemma net_keeps_reads reads : keeps net_kept has_fuel (stdin_reads reads).
Proof.
  induction reads as [|[bytes| |] reads IH]; cbn [stdin_reads]; frame; by apply net_keeps_flag.
Qed.

(** Every line leaves the text. *)
Lemma wp_stdin_lines fuel s :
  (String.length (stdinBuf s) < fuel)%nat ->
  wp (stdin_lines fuel) s
    (fun _ s' => net_kept s s' /\ stdinBuf s' = tail_of (stdinBuf s))
    (fun f s' => net_kept s s' /\ has_fuel f).
Proof.
  revert s. induction fuel as [|fuel IH]; intros s Hf; [lia|]. cbn [stdin_lines].
  apply wp_bind, wp_gets. pose proof (split_line_lines (stdinBuf s)) as Hs.
  destruct (split_line (stdinBuf s)) as [[line rest]|].
  2: { apply wp_ret. split; [reflexivity|]. by rewrite tail_of_none. }
  destruct Hs as (_ & Ht & Hlen). apply wp_bind, wp_modify, wp_bind.
  eapply wp_conseq; [apply wp_keeps, emu_keeps_stdin_line| |].
  2: { by intros f s1 [[N1 _ U1] Hx]. }
  intros [] s1 [N1 B1 U1]. cbn in N1, B1, U1.
  assert (H1 : net_kept s s1) by (by split).
  eapply wp_conseq; [apply IH; rewrite B1; lia| |].
  - intros [] s2 [N2 T2]. split; [by transitivity s1|]. by rewrite T2, B1.
  - intros f s2 [N2 Hx]. split; [by transitivity s1|done].
Qed.

Lemma net_keeps_lines :
  keeps net_kept has_fuel
    (let! buf := gets stdinBuf in stdin_lines (S (String.length buf))).
Proof.
  intros s. pose proof (wp_stdin_lines (S (String.length (stdinBuf s))) s ltac:(lia)) as Hw.
  unfold wp in Hw. unfold bind, gets. destruct (stdin_lines _ s) as [[[]|f] s'];
    destruct Hw; by split.
Qed.

Lemma net_keeps_poll poll deadline : keeps net_kept has_fuel (pollIO poll deadline).
Proof.
  unfold pollIO. pose proof (fun o => keeps_net _ (emu_keeps_say o)).
  pose proof (keeps_net _ emu_keeps_time). frame; by apply net_keeps_flag.
Qed.

Lemma net_keeps_wait d : keeps net_kept has_fuel (wait_till d).
Proof. unfold wait_till. pose proof (keeps_net _ emu_keeps_time). frame. Qed.

(** ** An iteration *)

(** What is left of an iteration when nothing is due. *)
Record settled (t : Z) (s s' : Emulator) : Prop := {
  se_live : live_from t s';
  se_running : emu_running_ s' = emu_running_ s;
  se_later : Forall (fun ev => t < timeToOccur ev) (emu_queue s');
  se_kept : forall ev, ev ∈ emu_queue s -> t < timeToOccur ev -> ev ∈ emu_queue s'
}.

Lemma net_kept_live t s s' :
  net_kept s s' -> live_from t s ->
  live_from t s' /\ exists evs, emu_queue s' = add_all evs (emu_queue s) /\ Forall (later t) evs.
Proof.
  intros [[Hc Ht Hg] _] [[Htame Hq Hfw] Hfrom]. destruct (Hg t Hfrom Htame) as (evs & He & Hl).
  split; [|by exists evs]. split; [constructor|].
  - by apply Ht.
  - unfold emu_queue. rewrite He. by apply add_all_ok.
  - by eapply clock_forward_read.
  - by eapply clock_read_from.
Qed.

Lemma settled_kept t s s1 s2 : settled t s s1 -> net_kept s1 s2 -> settled t s s2.
Proof.
  intros [Hl Hu Ha Hk] Hn. destruct (net_kept_live _ _ _ Hn Hl) as (Hl2 & evs & He & Hev).
  constructor; [done|by rewrite (proj2 Hn)| |].
  - rewrite He. apply add_all_Forall; [by apply later_after|done].
  - intros ev Hin Ht. rewrite He. apply add_all_in. by apply Hk.
Qed.

Definition rest_of_iteration (io : Answers) (deferParsingTill : Z) : M Emulator Z :=
  let! waitTill := wait_till deferParsingTill in
  let! early :=
    if waitTill =? -1 then ret true
    else let! t := on_enet clockMicros in ret (t <? waitTill) in
  (if early then pollIO (ans_poll io) waitTill ;; ret tt else ret tt) ;;
  on_enet refreshARP ;;
  let! udp := gets udpReady_ in
  (if udp then modify (set_udpReady false) ;; processUdpPacket (ans_udp io) else ret tt) ;;
  let! stdin := gets stdinReady_ in
  (if stdin
   then
     modify (set_stdinReady false) ;;
     stdin_reads (ans_stdin io) ;;
     let! buf := gets stdinBuf in
     stdin_lines (S (String.length buf))
   else ret tt) ;;
  ret deferParsingTill.

Lemma net_keeps_rest io d : keeps net_kept has_fuel (rest_of_iteration io d).
Proof.
  unfold rest_of_iteration. pose proof net_keeps_wait. pose proof net_keeps_poll.
  pose proof (keeps_net _ emu_keeps_time). pose proof (keeps_net _ (emu_keeps_net _ emu_keeps_refresh)).
  pose proof (fun x => keeps_net _ (emu_keeps_udp x)). pose proof net_keeps_reads.
  pose proof net_keeps_lines as Hlines.
  repeat first [exact Hlines|progress cbv zeta|frame_step]; by apply net_keeps_flag.
Qed.

(** The clock is read once. *)
Definition ticked (s : Emulator) : Emulator :=
  set_enet (set_clock (fun n => clock_ (enet s) (S n)) (enet s)) s.

(** An iteration: a reading of the clock, a line of the command file, everything
    that is due at that reading, and the rest. *)
Definition emu_turn (io : Answers) (d : Z) (s : Emulator) (l : list (ScheduledEvent EmuEvent))
    (d' : Z) (s' : Emulator) : Prop :=
  exists s1 s2,
    readCommandFile (fun s => emu_rm (enet s)) set_erm (on_enet EmuNet.now) emu_parseLine d
      (ticked s) = (Ret d', s1) /\
    emu_ran (clock_ (enet s) O) s1 l s2 /\ rest_of_iteration io d' s2 = (Ret d', s').

(** The iterations with their answers, and the events that each calls. *)
Inductive emu_turns :
    list Answers -> Z -> Emulator -> list (list (ScheduledEvent EmuEvent)) -> Z -> Emulator -> Prop :=
| emu_turns_none d s : emu_turns [] d s [] d s
| emu_turns_more io ios d s l d1 s1 ls d2 s2 :
    emu_turn io d s l d1 s1 -> emu_turns ios d1 s1 ls d2 s2 ->
    emu_turns (io :: ios) d s (l :: ls) d2 s2.

Lemma rest_returns io d s d' s' : rest_of_iteration io d s = (Ret d', s') -> d' = d.
Proof.
  enough (wp (rest_of_iteration io d) s (fun d' _ => d' = d) (fun _ _ => True)) as Hw.
  { intros Hr. unfold wp in Hw. by rewrite Hr in Hw. }
  unfold rest_of_iteration.
  assert (Hany : forall A B (m : M Emulator A) (k : A -> M Emulator B) s Q,
    (forall a s, wp (k a) s Q (fun _ _ => True)) -> wp (bind m k) s Q (fun _ _ => True)).
  { intros A B m k s0 Q Hk. apply wp_bind. unfold wp. destruct (m s0) as [[a|f] s1]; [apply Hk|done]. }
  repeat (apply Hany; intros ? ?). by apply wp_ret.
Qed.

(** An iteration ends, whatever the operating system answers: every event whose
    time had come is called and gone, every other is still there. *)
Lemma wp_emu_iteration io d s :
  emu_live s ->
  wp (emu_iteration io d) s
    (fun d' s' => settled (clock_ (enet s) O) s s' /\
       exists l, emu_turn io d s l d' s' /\
         forall ev, ev ∈ emu_queue s -> timeToOccur ev <= clock_ (enet s) O -> ev ∈ l)
    (fun f _ => has_fuel f).
Proof.
  intros Hs. set (t := clock_ (enet s) O).
  assert (Hlive : live_from t s) by (split; [done|]; apply clock_forward_from, Hs).
  unfold emu_iteration. apply wp_bind.
  set (s0 := ticked s).
  assert (Hck : on_enet clockMicros s = (Ret t, s0)) by done.
  eapply run_wp; [exact Hck|].
  destruct (emu_keeps_time s) as [Hr0 _]. rewrite Hck in Hr0. cbn [snd] in Hr0.
  apply wp_bind. eapply wp_conseq; [apply wp_mark, wp_keeps, emu_keeps_file| |by intros f s' []].
  intros d' s1 [Hfile Hr1]. assert (Hr : emulator_rel s s1) by (by transitivity s0).
  apply wp_bind, wp_gets, wp_bind.
  eapply wp_conseq; [apply (wp_due_loop_fuel t); by eapply live_from_kept| |done].
  intros [] s2 [L2 U2 _ (l & R2 & I2) A2 K2].
  assert (Hset : settled t s s2).
  { constructor; [done|by rewrite U2; apply Hr|done|]. intros ev Hin Ht. apply K2; [|done].
    by apply (queue_kept _ _ _ _ Hr Hlive). }
  fold (rest_of_iteration io d'). destruct (net_keeps_rest io d' s2) as [H1 H2].
  eapply (wp_conseq _ _ (fun r s3 => rest_of_iteration io d' s2 = (Ret r, s3)) _ (fun f _ => has_fuel f)).
  { unfold wp. by destruct (rest_of_iteration io d' s2) as [[r|f] s3]. }
  2: done. intros r s3 Hrest. pose proof (rest_returns _ _ _ _ _ Hrest) as ->. rewrite Hrest in H1.
  split; [by eapply settled_kept|]. exists l. split; [by exists s1, s2|].
  intros ev Hev Hle. apply I2; [|done]. by apply (queue_kept _ _ _ _ Hr Hlive).
Qed.

(** The main loop, as long as the operating system answers. *)
Lemma wp_emu_loop ios d s :
  emu_live s -> emu_running_ s = true ->
  wp (emu_loop ios d) s
    (fun d' s' => emu_live s' /\ exists ls, emu_turns ios d s ls d' s') (fun f _ => has_fuel f).
Proof.
  revert d s. induction ios as [|io ios IH]; intros d s Hs Hrun; cbn [emu_loop];
    apply wp_bind, wp_gets; rewrite Hrun; cbn [negb].
  { apply wp_ret. split; [done|]. exists []. constructor. }
  apply wp_bind. eapply wp_conseq; [by apply wp_emu_iteration| |done].
  intros d1 s1 [[[Hl _] Hu _ _] (l & T1 & _)].
  eapply wp_conseq; [apply IH; [done|congruence]| |done].
  intros d2 s2 [L2 [ls T2]]. split; [done|]. exists (l :: ls). by eapply emu_turns_more.
Qed.

(** ** No exception leaves the main loop *)

Lemma unthrown_enet {A} (m : M EmuNet A) : unthrown m -> unthrown (on_enet m).
Proof. apply unthrown_zoom. Qed.

Lemma unthrown_next {A} (get : EmuNet -> nat -> A) set : unthrown (next get set).
Proof. done. Qed.
Hint Resolve unthrown_enet unthrown_next : unthrown.

Lemma unthrown_emu_emit o : unthrown (emu_emit o).
Proof. done. Qed.
Hint Resolve unthrown_emu_emit : unthrown.

Lemma unthrown_emu_now : unthrown EmuNet.now.
Proof. unfold EmuNet.now, clockMicros. unthrown. Qed.

Lemma unthrown_emu_timer node delta cb : unthrown (mgr_addTimer (E := EmuNet) node delta cb).
Proof.
  pose proof unthrown_emu_now. cbn. unfold emu_base, addTimer, addTimerAt, addEvent_. unthrown.
Qed.

#[export] Instance EmuNet_quiet : QuietManager EmuNet.
Proof. constructor; [exact unthrown_emu_now|exact unthrown_emu_timer|exact unthrown_emu_emit]. Qed.

Lemma unthrown_stack {A} (m : M (StackNode * EmuNet) A) : unthrown m -> unthrown (on_stack m).
Proof.
  intros Hm s x. unfold on_stack. destruct (node_ s) as [n|]; [|done]. specialize (Hm (n, enet s) x).
  by destruct (m (n, enet s)) as [r [n' e']].
Qed.

Lemma unthrown_say o : unthrown (say o).
Proof. done. Qed.
Hint Resolve unthrown_say : unthrown.

Lemma unthrown_emu_line line t : unthrown (emu_parseLine line t).
Proof.
  assert (Hall : forall l, unthrown (say_all l)) by (induction l; cbn [say_all]; unthrown).
  pose proof (unthrown_enet _ unthrown_emu_now).
  assert (unthrown emu_stop) by (unfold emu_stop; unthrown).
  assert (forall m, unthrown (emu_sendNodeMsg m)).
  { intros m. pose proof (unthrown_stack _ (unthrown_onCommand (E := EmuNet) m)).
    unfold emu_sendNodeMsg. unthrown. }
  unfold emu_parseLine, parseCommonCmds, echo, parseTime, printStrArray. cbn. unthrown.
Qed.
Hint Resolve unthrown_emu_line : unthrown.

Lemma unthrown_emu_file d :
  unthrown (readCommandFile (fun s => emu_rm (enet s)) set_erm (on_enet EmuNet.now) emu_parseLine d).
Proof. pose proof (unthrown_enet _ unthrown_emu_now). unfold readCommandFile. unthrown. Qed.

(** Whatever an event throws is reported, and the loop goes on. *)
Lemma unthrown_fire_due ev : unthrown (fire_due ev).
Proof. unfold fire_due. unthrown. Qed.

Lemma unthrown_due_loop fuel t : unthrown (due_loop fuel t).
Proof.
  induction fuel as [|fuel IH]; cbn [due_loop]; [apply unthrown_nofuel|].
  apply unthrown_bind; [apply unthrown_gets|intros q].
  destruct (getNextEvent q) as [ev|]; [|apply unthrown_ret]. destruct (_ <=? _); [|apply unthrown_ret].
  apply unthrown_bind; [|intros ev'].
  { intros s x. unfold on_enet, emu_base, zoom, removeNextEvent. by destruct (sortedEvents_ _). }
  apply unthrown_bind; [apply (unthrown_fire_due ev')|intros _; apply IH].
Qed.

Lemma unthrown_refresh : unthrown refreshARP.
Proof.
  assert (forall reads, unthrown (drain_loop reads)).
  { induction reads as [|[bytes| | |] reads IH]; cbn [drain_loop]; unthrown. }
  assert (forall line, unthrown (arp_line line)) by (intros; unfold arp_line, new_entry; unthrown).
  assert (forall fuel, unthrown (lines_loop fuel)).
  { induction fuel as [|fuel IH]; cbn [lines_loop]; unthrown. }
  unfold refreshARP. unthrown.
Qed.

Lemma unthrown_udp received : unthrown (processUdpPacket received).
Proof.
  pose proof (fun from bytes => unthrown_stack _ (unthrown_onReceive (E := EmuNet) from bytes)).
  unfold processUdpPacket. unthrown.
Qed.

Lemma unthrown_rest io d : unthrown (rest_of_iteration io d).
Proof.
  pose proof (unthrown_enet _ unthrown_refresh). pose proof unthrown_udp.
  assert (unthrown (on_enet clockMicros)) by done.
  assert (forall reads, unthrown (stdin_reads reads)).
  { induction reads as [|[bytes| |] reads IH]; cbn [stdin_reads]; unthrown. }
  assert (forall line, unthrown (handleStdinLine line)) by (intros; unfold handleStdinLine; unthrown).
  assert (forall fuel, unthrown (stdin_lines fuel)).
  { induction fuel as [|fuel IH]; cbn [stdin_lines]; unthrown. }
  unfold rest_of_iteration, wait_till, pollIO. unthrown.
Qed.

Lemma unthrown_emu_iteration io d : unthrown (emu_iteration io d).
Proof.
  pose proof unthrown_due_loop. pose proof unthrown_emu_file.
  assert (unthrown (on_enet clockMicros)) by done. unfold emu_iteration.
  apply unthrown_bind; [done|intros t]. apply unthrown_bind; [done|intros d'].
  apply unthrown_bind; [apply unthrown_gets|intros fuel]. apply unthrown_bind; [done|intros _].
  apply (unthrown_rest io d').
Qed.

Lemma unthrown_emu_loop ios d : unthrown (emu_loop ios d).
Proof.
  pose proof unthrown_emu_iteration. revert d.
  induction ios as [|io ios IH]; intros d; cbn [emu_loop]; unthrown.
Qed.
End loops.
