(* ===== verification/EmuEvents.v ===== *)
(** * Packets and events of an emulator

    What the emulator makes of a packet: the frame goes to the neighbor at once,
    or through the emulated link into the queue; the sending half of the
    emulator as a function of the state.  With the emulated network as its
    environment the node keeps its promises: a timer, a frame that is due and a
    datagram run without a fault and keep the invariant of the emulator. *)

From Stdlib Require Import Strings.Ascii.
From S2P Require Import Prelude CppStrings Doubles DoubleText Frame Packet EmulatorPacket EventQueue Runtime Edge LinkRules EmulatedLink Arp Posix EmuNet EmuTable TcpData TcpGrow TcpSafe TcpHandlers Node Apps StackNode NodeFrame NodeRun NodeSpec AppSpec Emulator EmuFrame EmuSafe.

(** ** The specification *)

Definition frame_of (from to : Z) (pkt : list byte) : list byte :=
  pack (mkEmulatorPacket to from pkt).

(** One more packet sent. *)
Definition emu_counted (e : EmuNet) : EmuNet :=
  set_emu_rm (set_pktsSent (pktsSent_ (emu_rm e) + 1) (emu_rm e)) e.

(** The next time that is a whole number of milliseconds. *)
Definition ms_ceil (t : Z) : Z := 1000 * ((t + 999) / 1000).

Definition say_error (s : string) (e : EmuNet) : EmuNet :=
  set_emu_out (emu_out e ++ [Cerr (endl s)]) e.

Definition send_at_once `{Platform} (bytes : list byte) (ip : string) (prt : Z) (e : EmuNet)
    : EmuNet :=
  if inet_pton ip
  then
    let e' := set_sendto (fun n => sendto_ e (S n))
      (set_sent (sent_ e ++ [(bytes, ip, prt mod 2 ^ 16)]) e) in
    match sendto_ e O with
    | Some message => say_error ("sendto() failed: " +:+ message) e'
    | None => e'
    end
  else say_error ("inet_pton failed for " +:+ ip) e.

(** The link decides when the frame is sent, if it is; [pkt] is what it is told
    the size of. *)
Definition send_on_link (bytes : list byte) (dest : Z) (ip : string) (prt : Z) (l : EmulatedLink)
    (e : EmuNet) : EmuNet :=
  let now := clock_ e O in
  let '(t, (ed, r)) :=
    schedule_spec 0 (vsize bytes - HEADER_SIZE) now (as_edge l) (emu_rm e) in
  let r :=
    if t =? -1 then r
    else set_sortedEvents
      (addEvent (mkEvent (ms_ceil t) (Some (PhysicalSend bytes ip prt))) (sortedEvents_ r)) r in
  set_emu_rm r
    (set_arp (<[dest := mkARPData ip prt (Some (of_edge ed))]> (arp_ e))
       (set_clock (fun n => clock_ e (S n)) e)).

Definition send_frame `{Platform} (bytes : list byte) (dest : Z) (e : EmuNet) : EmuNet :=
  match arp_ e !! dest with
  | None => e
  | Some (mkARPData ip prt None) => send_at_once bytes ip prt e
  | Some (mkARPData ip prt (Some l)) => send_on_link bytes dest ip prt l e
  end.

Definition emu_send_spec `{Platform} (from to : Z) (pkt : list byte) (e : EmuNet) : bool * EmuNet :=
  let e := refreshed (emu_counted e) in
  let bytes := frame_of from to pkt in
  if to =? BROADCAST_ADDRESS
  then (true, fold_left (fun e d => send_frame bytes (fst d) e) (int_order (arp_ e)) e)
  else
    match arp_ e !! to with
    | Some _ => (true, send_frame bytes to e)
    | None =>
        (false, say_error ("Node " +:+ to_string to +:+ " is not a neighbor of node " +:+
                           to_string from) e)
    end.

(** ** The calls *)

Lemma ms_ceil_spec t : t <= ms_ceil t < t + 1000 /\ ms_ceil t mod 1000 = 0.
Proof.
  unfold ms_ceil. split; [Z.to_euclidean_division_equations; lia|].
  rewrite Z.mul_comm. by apply Z.mod_mul.
Qed.

Lemma round_up_run {S} t (s : S) :
  0 <= t <= 2 ^ 62 -> round_up_ms t s = (Ret (ms_ceil t), s).
Proof.
  intros Ht. unfold round_up_ms, ms_ceil. cbv zeta. rewrite Z.rem_mod_nonneg by lia.
  destruct (Z.eqb_spec (t mod 1000) 0) as [Hm|Hm]; cbn [negb].
  - unfold ret. do 2 f_equal. Z.to_euclidean_division_equations. lia.
  - rewrite long_ret by (unfold LONG_MIN, LONG_MAX; Z.to_euclidean_division_equations; lia).
    do 2 f_equal. Z.to_euclidean_division_equations. lia.
Qed.

Section send.
Context `{Platform}.

Lemma physicalSend_run bytes ip prt e :
  physicalSend bytes ip prt e = (Ret tt, send_at_once bytes ip prt e).
Proof.
  unfold physicalSend, send_at_once. destruct (inet_pton ip); cbn [negb]; [|done].
  unfold next, bind, gets, modify, ret. cbn. by destruct (sendto_ e O).
Qed.

(** What a link answers is no time before now. *)
Lemma link_answer size now l {C} (r : RuntimeManager C) :
  link_ok l -> 0 <= size <= Packet.MAX_PACKET_SIZE -> 0 <= now <= MICROS_LIMIT ->
  let t := (schedule_spec 0 size now (as_edge l) r).1 in t = -1 \/ 0 <= t <= 2 ^ 62.
Proof.
  intros Hl Hs Hn. unfold schedule_spec.
  destruct (overflows _ _ _ _); [by left|]. destruct (loses _); [by left|right]. cbn [fst].
  pose proof (sendTime_range 0 (as_edge l) Hl). pose proof (busy_time_range size (as_edge l) Hs (proj1 Hl)).
  destruct Hl as [(_ & Hd & _) _]. unfold finish_time, MICROS_LIMIT, EDGE_TIME_LIMIT, TIME_LIMIT in *. lia.
Qed.

Lemma emu_schedule_run bytes dest e :
  emu_ok e -> counters_ok (emu_rm e) ->
  HEADER_SIZE <= vsize bytes <= EmulatorPacket.MAX_PACKET_SIZE ->
  emu_schedulePkt bytes dest e = (Ret tt, send_frame bytes dest e).
Proof.
  intros He Hr Hs. unfold emu_schedulePkt, send_frame, bind at 1, gets at 1.
  destruct (arp_ e !! dest) as [[ip prt [l|]]|] eqn:Ha; [|apply physicalSend_run|done].
  cbn [arp_link arp_ip arp_port]. cbv zeta. unfold HEADER_SIZE, EmulatorPacket.MAX_PACKET_SIZE in *.
  destruct (Z.ltb_spec (vsize bytes - 3) 0) as [|_]; [lia|].
  assert (Hsize : 0 <= vsize bytes - 3 <= Packet.MAX_PACKET_SIZE) by (unfold HEADER_SIZE in *; lia).
  pose proof (eo_clock _ He O) as Hn. pose proof (eo_links _ He _ _ Ha) as Hl. cbn in Hl.
  assert (Hn' : 0 <= clock_ e O <= EDGE_TIME_LIMIT)
    by (unfold MICROS_LIMIT, EDGE_TIME_LIMIT, TIME_LIMIT in *; lia).
  pose proof (link_schedulePkt_run (vsize bytes - 3) (clock_ e O) l (emu_rm e) Hl Hr Hsize Hn') as Hrun.
  pose proof (link_answer (vsize bytes - 3) (clock_ e O) l (emu_rm e) Hl Hsize Hn) as Ht.
  cbv zeta in Hrun, Ht. unfold send_on_link. change HEADER_SIZE with 3.
  destruct (schedule_spec _ _ _ _ _) as [t [ed r]]. cbn [fst snd] in *.
  unfold bind at 1, clockMicros, next, bind at 1, gets, bind at 1, modify, ret. cbv beta iota zeta.
  unfold bind at 1, link_call. cbn [arp_ set_clock eta_EmuNet emu_rm]. rewrite Ha, Hrun.
  destruct (Z.eqb_spec t (-1)) as [->|Hne]; [done|]. destruct Ht as [?|Ht]; [done|].
  erewrite bind_run; [|by apply round_up_run].
  unfold emu_base, zoom, addEventAtMicros. pose proof (proj1 (ms_ceil_spec t)).
  destruct (Z.ltb_spec (ms_ceil t) 0) as [|_]; [lia|]. done.
Qed.

(** Room for [n] more packets that are dropped or lost. *)
Definition count_room {C} (n : nat) (r : RuntimeManager C) : Prop :=
  0 <= pktsSent_ r < INT_MAX /\ 0 <= pktsDropped_ r /\ 0 <= pktsLost_ r /\
  pktsDropped_ r + Z.of_nat n <= INT_MAX /\ pktsLost_ r + Z.of_nat n <= INT_MAX.

Lemma count_room_ok {C} n (r : RuntimeManager C) : count_room (S n) r -> counters_ok r.
Proof. unfold count_room, counters_ok. lia. Qed.

Lemma send_frame_room n bytes dest e :
  count_room (S n) (emu_rm e) -> count_room n (emu_rm (send_frame bytes dest e)).
Proof.
  intros Hr. unfold send_frame.
  assert (Hweak : count_room n (emu_rm e)) by (unfold count_room in *; lia).
  destruct (arp_ e !! dest) as [[ip prt [l|]]|]; [|unfold send_at_once|done].
  - unfold send_on_link, schedule_spec. destruct (overflows _ _ _ _); [|destruct (loses _)].
    + cbn. unfold count_room in *. cbn. lia.
    + cbn. unfold count_room in *. cbn. lia.
    + by destruct (_ =? -1).
  - destruct (inet_pton ip); [|done]. by destruct (sendto_ e O).
Qed.

Lemma send_frame_ok from to pkt dest e :
  emu_ok e -> counters_ok (emu_rm e) -> vsize pkt <= Packet.MAX_PACKET_SIZE ->
  emu_ok (send_frame (frame_of from to pkt) dest e).
Proof.
  intros He Hr Hs. assert (Hlen : vsize (frame_of from to pkt) = HEADER_SIZE + vsize pkt)
    by apply emulator_pack_length.
  pose proof (vsize_nonneg pkt).
  assert (Hc : carried [(from, to, pkt)] (frame_of from to pkt))
    by (exists from, to, pkt; split; [by left|done]).
  pose proof (wp_emu_schedulePkt [(from, to, pkt)] (frame_of from to pkt) dest e He Hc) as Hw.
  unfold wp in Hw. rewrite emu_schedule_run in Hw; [| done.. |].
  - apply Hw. unfold MAX_PACKET_SIZE. lia.
  - unfold MAX_PACKET_SIZE. lia.
Qed.

Lemma broadcast_run from to pkt l e :
  emu_ok e -> count_room (length l) (emu_rm e) -> vsize pkt <= Packet.MAX_PACKET_SIZE ->
  let bytes := frame_of from to pkt in
  broadcast_arp bytes l e = (Ret tt, fold_left (fun e d => send_frame bytes (fst d) e) l e).
Proof.
  intros He Hr Hs bytes. assert (Hlen : vsize bytes = HEADER_SIZE + vsize pkt)
    by apply emulator_pack_length.
  pose proof (vsize_nonneg pkt). revert e He Hr.
  induction l as [|[dest d] l IH]; intros e He Hr; [done|]. cbn [broadcast_arp length] in *.
  pose proof (count_room_ok _ _ Hr). erewrite bind_run.
  2: { apply emu_schedule_run; [done|done|]. unfold MAX_PACKET_SIZE. lia. }
  rewrite IH; [done|by apply send_frame_ok|by apply send_frame_room].
Qed.

Lemma emu_counted_ok e :
  emu_ok e -> pktsSent_ (emu_rm e) < INT_MAX -> emu_ok (emu_counted e).
Proof.
  intros He Hs. apply emu_ok_rm; [|done]. destruct (eo_counts _ He) as ([? ?] & ? & ?).
  split; [|done]. cbn. unfold in_count in *. lia.
Qed.

Lemma refreshed_ok e : emu_ok e -> closes (feed_ e O) = false -> emu_ok (refreshed e).
Proof.
  intros He Hc. pose proof (wp_refreshARP [] e He) as Hw. unfold wp in Hw.
  rewrite refreshARP_run in Hw by done. apply Hw.
Qed.

Lemma refreshed_rm e : emu_rm (refreshed e) = emu_rm e.
Proof.
  destruct (arp_steps_spec (lines_of (trawlerBuf_ e +:+ drained (feed_ e O)))
    (set_feed (fun n => feed_ e (S n)) e)) as [[Hrm _ _ _ _ _] _]. exact Hrm.
Qed.

Lemma int_order_length {A} (m : gmap Z A) : length (int_order m) = size m.
Proof. by rewrite (Permutation_length (int_order_perm m)), length_map_to_list. Qed.

(** The whole call. *)
Lemma emu_sendPkt_run from to pkt e :
  emu_ok e -> sendable from to pkt -> closes (feed_ e O) = false ->
  let e1 := refreshed (emu_counted e) in
  count_room (S (size (arp_ e1))) (emu_rm e1) ->
  EmuNet.sendPkt from to pkt e =
  (Ret (emu_send_spec from to pkt e).1, (emu_send_spec from to pkt e).2).
Proof.
  intros He Hs Hc e1 Hroom. pose proof Hs as (_ & _ & Hsize & _).
  pose proof (vsize_nonneg pkt).
  assert (Hsent : 0 <= pktsSent_ (emu_rm e) /\ pktsSent_ (emu_rm e) + 1 < INT_MAX).
  { destruct (eo_counts _ He) as ([? _] & _). unfold e1 in Hroom. rewrite refreshed_rm in Hroom.
    destruct Hroom as ([_ Hlt] & _). cbn in Hlt. lia. }
  assert (H1 : emu_ok e1) by (apply refreshed_ok; [apply emu_counted_ok; [done|lia]|done]).
  unfold EmuNet.sendPkt, emu_send_spec. fold e1.
  erewrite bind_run.
  2: { unfold emu_base, zoom. rewrite sendPkt_sendable; [reflexivity|done|lia]. }
  fold (emu_counted e). erewrite bind_run; [|by apply refreshARP_run]. fold e1.
  rewrite new_EmulatorPacket_inr by (unfold MAX_PACKET_SIZE; lia).
  erewrite bind_run; [|reflexivity]. cbv zeta. fold (frame_of from to pkt).
  assert (Hlen : vsize (frame_of from to pkt) = HEADER_SIZE + vsize pkt) by apply emulator_pack_length.
  destruct (Z.eqb_spec (vsize (frame_of from to pkt)) 0) as [|_]; [unfold HEADER_SIZE in *; lia|].
  unfold try_catch. erewrite bind_run; [|reflexivity].
  destruct (Z.eqb_spec to BROADCAST_ADDRESS) as [Hto|Hto].
  - erewrite bind_run; [|apply broadcast_run; [done| |done]]; [done|].
    rewrite int_order_length. unfold count_room in *. lia.
  - destruct (arp_ e1 !! to) as [d|] eqn:Ha.
    + rewrite bool_decide_true by (by eexists). erewrite bind_run; [reflexivity|].
      apply emu_schedule_run; [done|by eapply count_room_ok|unfold MAX_PACKET_SIZE; lia].
    + rewrite bool_decide_false by (by intros []). reflexivity.
Qed.
End send.

(** Network and node are in their invariants. *)
Record emulator_ok (s : Emulator) : Prop := {
  et_net : emu_ok (enet s);
  et_node : forall n, node_ s = Some n -> node_ok n /\ node_addr_ n = assignedNodeId_ s
}.

(** What an event changes: the node, and the network by packets of the node. *)
Record emulator_stepped (s s' : Emulator) : Prop := {
  ep_ok : emulator_ok s';
  ep_flags : s' = set_node (node_ s') (set_enet (enet s') s);
  ep_sends : exists l, emu_sends (enet s) l (enet s')
}.

Definition emulator_fault (f : fault) (s : Emulator) : Prop := emu_fault f (enet s).

Lemma emulator_stepped_refl s : emulator_ok s -> emulator_stepped s s.
Proof. intros Hs. constructor; [done|by destruct s|]. exists []. apply emu_sends_refl. Qed.

Section events.
Context `{MapOrder} `{Platform}.

(** A method of the node that is safe in every environment and keeps its address. *)
Lemma wp_on_stack n (m : M (StackNode * EmuNet) unit) s :
  emulator_ok s -> node_ s = Some n -> node_framed m ->
  wp m (n, enet s)
    (fun _ st => node_ok st.1 /\ exists l, sends (enet s) l st.2) node_fault ->
  wp (on_stack m) s (fun _ s' => emulator_stepped s s' /\ is_Some (node_ s')) emulator_fault.
Proof.
  intros [Hnet Hnodes] Hn Hf Hw. eapply keeps_wp in Hw; [|apply node_rel_preorder|exact Hf].
  unfold wp, on_stack in *. rewrite Hn.
  destruct (m (n, enet s)) as [[[]|f] [n' e']]; cbn [fst snd] in Hw; [|by destruct Hw].
  destruct Hw as [[Hok (l & Hl & Hs)] (Ha & _)]. cbn [fst snd] in *. split; [|by eexists].
  constructor; [constructor|done|by exists l]; cbn; [done|].
  intros n1 [= <-]. split; [done|]. rewrite Ha. by apply Hnodes.
Qed.

Lemma wp_emu_timer cb n s :
  emulator_ok s -> node_ s = Some n -> timer_ready n cb ->
  wp (run_emu_event (EmuCallback cb)) s
    (fun _ s' => emulator_stepped s s' /\ is_Some (node_ s')) emulator_fault.
Proof.
  intros Hs Hn Hr. cbn. eapply wp_on_stack; [done|done|apply node_framed_timer_cb|].
  apply wp_timer; [apply Hs|by apply (et_node _ Hs)|done|].
  intros n' e' l Hn' He'. split; [done|]. by exists l.
Qed.

(** A frame that is due leaves unchanged. *)
Lemma emu_physical_run bytes ip prt s :
  run_emu_event (PhysicalSend bytes ip prt) s =
  (Ret tt, set_enet (send_at_once bytes ip prt (enet s)) s).
Proof.
  cbn [run_emu_event]. unfold on_enet, zoom. by rewrite physicalSend_run.
Qed.

(** ** Datagrams *)

(** The table after a datagram from an end point: a neighbor that is new or has
    moved loses its link. *)
Definition learned (src : Z) (ip : string) (prt : Z) (arp : gmap Z EmulatorARPData)
    : gmap Z EmulatorARPData :=
  match arp !! src with
  | Some d =>
      if String.eqb (arp_ip d) ip && (arp_port d =? prt) then arp
      else <[src := mkARPData ip prt None]> arp
  | None => <[src := mkARPData ip prt None]> arp
  end.

Definition for_me (s : Emulator) (p : EmulatorPacket) : bool :=
  (destAddr_ p =? assignedNodeId_ s) || (destAddr_ p =? BROADCAST_ADDRESS).

Definition with_learned (p : EmulatorPacket) (ip : string) (prt : Z) (s : Emulator) : Emulator :=
  set_enet (set_arp (learned (srcAddr_ p) ip prt (arp_ (enet s))) (enet s)) s.

Lemma processUdpPacket_run bytes ip prt p s :
  unpack bytes = Some p ->
  processUdpPacket (Some (bytes, ip, prt)) s =
  (if for_me s p then on_stack (onReceive (srcAddr_ p) (payload_ p)) else ret tt)
    (with_learned p ip prt s).
Proof.
  intros Hp. unfold processUdpPacket. destruct bytes as [|b bytes]; [done|].
  destruct (Z.leb_spec (vsize (b :: bytes)) 0) as [Hz|_];
    [rewrite vsize_cons in Hz; pose proof (vsize_nonneg bytes); lia|].
  rewrite Hp. cbv zeta. unfold bind at 1, gets at 1.
  unfold with_learned, learned, for_me.
  assert (Hsame : set_enet (set_arp (arp_ (enet s)) (enet s)) s = s)
    by (destruct s as [[]]; reflexivity).
  destruct (arp_ (enet s) !! srcAddr_ p) as [d|]; [|reflexivity].
  destruct (String.eqb (arp_ip d) ip), (arp_port d =? prt); cbn [negb orb andb]; try reflexivity.
  rewrite Hsame. reflexivity.
Qed.

Lemma processUdpPacket_bad bytes ip prt s :
  unpack bytes = None ->
  processUdpPacket (Some (bytes, ip, prt)) s =
  (Ret tt, if decide (bytes = []) then s
           else set_enet (say_error ("Was unable to extract packet received from " +:+ ip +:+ ":" +:+
                                     to_string prt) (enet s)) s).
Proof.
  intros Hp. unfold processUdpPacket. destruct bytes as [|b bytes]; [done|].
  destruct (Z.leb_spec (vsize (b :: bytes)) 0) as [Hz|_];
    [rewrite vsize_cons in Hz; pose proof (vsize_nonneg bytes); lia|].
  rewrite Hp. by rewrite decide_False.
Qed.

Lemma with_learned_ok p ip prt s : emulator_ok s -> emulator_ok (with_learned p ip prt s).
Proof.
  intros [[Hc Hr Hl Hf] Hn]. constructor; [constructor; try done|done].
  unfold links_ok. cbn. unfold learned.
  destruct (arp_ (enet s) !! _) as [d|]; [case_match; [done|]|]; by apply map_Forall_insert_2.
Qed.

Lemma wp_processUdpPacket bytes ip prt p n s :
  emulator_ok s -> unpack bytes = Some p -> node_ s = Some n ->
  all_rcv_room (tcpMan_ n) -> NodeSpec.wire_ok (payload_ p) ->
  wp (processUdpPacket (Some (bytes, ip, prt))) s
    (fun _ s' => emulator_stepped (with_learned p ip prt s) s') emulator_fault.
Proof.
  intros Hs Hp Hn Hroom Hw. unfold wp. rewrite (processUdpPacket_run _ _ _ _ _ Hp).
  pose proof (with_learned_ok p ip prt s Hs) as Hl.
  destruct (for_me s p) eqn:Hm; [|by apply emulator_stepped_refl].
  pose proof (wp_on_stack n (onReceive (srcAddr_ p) (payload_ p)) (with_learned p ip prt s) Hl Hn
    (node_framed_onReceive _ _)) as Hrun.
  unfold wp in Hrun. destruct (on_stack _ _) as [[[]|f] s'].
  - apply Hrun. apply wp_onReceive; [apply Hl|by apply (et_node _ Hs)|done|done|].
    intros n' e' l Hn' He'. split; [done|]. by exists l.
  - apply Hrun. apply wp_onReceive; [apply Hl|by apply (et_node _ Hs)|done|done|].
    intros n' e' l Hn' He'. split; [done|]. by exists l.
Qed.

(** ** The handshake *)

Definition bytes_of (s : string) : list (option ascii) := map Some (String.list_ascii_of_string s).

Lemma read_reply_line line acc rest :
  has_char "010" line = false -> has_char "013" line = false ->
  read_reply acc (bytes_of line ++ Some "010"%char :: rest) = inr (acc +:+ line).
Proof.
  revert acc. induction line as [|c line IH]; intros acc Hlf Hcr; cbn in *.
  - by rewrite string_app_nil_r.
  - apply orb_false_iff in Hlf as [H1 H2], Hcr as [H3 H4]. rewrite H1, H3.
    rewrite IH by done. by rewrite string_app_assoc.
Qed.

Lemma graphic_no_char c s : graphic (String c EmptyString) = false -> graphic s = true -> has_char c s = false.
Proof.
  intros Hc. induction s as [|c' s IH]; [done|]. cbn in *. intros [Hg Hs]%andb_true_iff.
  rewrite IH by done. rewrite orb_false_r. destruct (Ascii.eqb_spec c' c) as [->|]; [|done].
  rewrite andb_true_r in Hc. congruence.
Qed.

(** The reply of the trawler, to the address of the node. *)
Lemma read_reply_address id rest :
  read_reply EmptyString (bytes_of (to_string id) ++ Some "010"%char :: rest) = inr (to_string id).
Proof.
  apply read_reply_line; apply graphic_no_char; try reflexivity; apply to_string_graphic.
Qed.

Lemma read_reply_closed line acc :
  has_char "010" line = false ->
  read_reply acc (bytes_of line ++ [None]) = inl (runtime_error "Trawler closed during handshake").
Proof.
  revert acc. induction line as [|c line IH]; intros acc Hlf; [done|]. cbn in *.
  apply orb_false_iff in Hlf as [H1 H2]. rewrite H1. destruct (Ascii.eqb c "013"); by apply IH.
Qed.
End events.
