(* ===== verification/EmuTheorems.v ===== *)
(** * Theorems about the emulator *)

From Stdlib Require Import Strings.Ascii.
From S2P Require Import Prelude CppStrings Doubles DoubleText Frame Packet EmulatorPacket EventQueue Runtime Edge LinkRules EmulatedLink Arp Posix EmuNet EmuTable Parser TcpData TcpGrow TcpSafe TcpHandlers TcpNet TcpTheorems Node Apps NodeFrame StackNode NodeRun NodeSpec AppSpec TransferStream NodeTheorems Emulator EmuFrame EmuSafe EmuLoop EmuEvents.

(** ** The trawler's commands *)

(** C37: The lines that the trawler writes are read back by the emulator as they
    were meant: a neighbor with or without the options of its link, the removal
    of a neighbor, and the reset; and no line is mistaken for another.  All of the
    options are read exactly but the loss rate, which is what [stod] reads from its
    text: the shortest decimal text, of up to 17 digits, that is read as the
    rate, with [.0] behind it if it has neither a point nor an exponent.  So the
    rate is exact if one of the texts with 1 to 17 digits is read as it, and for
    the rates of 0 to 100 percent this is checked. *)
Theorem arp_roundtrip id ip prt o :
  neighbor_ok id ip prt -> options_range o -> 0 <= id ->
  let add := addNeighbor id ip prt in
  let add_link := addNeighborOptions id ip prt o in
  let remove := removeNeighbor id in
  receiveAddNeighbor add = Some (mkAddNeighbor id ip prt None) /\
  receiveAddNeighbor add_link =
    match stod (javaDouble (lossRate o)) with
    | inr loss => Some (mkAddNeighbor id ip prt (Some (setLossRate loss o)))
    | inl _ => None
    end /\
  (loss_text_ok (lossRate o) = true \/ (exists k, 0 <= k <= 100 /\ lossRate o = percent k) ->
   receiveAddNeighbor add_link = Some (mkAddNeighbor id ip prt (Some o))) /\
  receiveRemoveNeighbor remove = id /\ receiveReset reset_command = true /\
  (forall line, line = add \/ line = add_link ->
     receiveReset line = false /\ receiveRemoveNeighbor line = -1) /\
  receiveReset remove = false /\ receiveAddNeighbor remove = None /\
  receiveRemoveNeighbor reset_command = -1 /\ receiveAddNeighbor reset_command = None.
Proof.
  intros Hn Ho Hid add add_link remove. split; [by apply receive_add|].
  split; [by apply receive_add_link|]. split.
  { intros Hl. unfold add_link. rewrite receive_add_link by done.
    assert (stod (javaDouble (lossRate o)) = inr (lossRate o)) as ->; [|by destruct o].
    destruct Hl as [Hl|(k & Hk & ->)]; [by apply javaDouble_read|by apply percent_read]. }
  split; [apply receive_remove; unfold neighbor_ok in *; lia|].
  split; [done|]. split; [intros line [-> | ->]|].
  - apply add_no_other, Hn.
  - apply add_options_no_other, Hn.
  - destruct (remove_no_add id). do 2 (split; [done|]). split; vm_compute; reflexivity.
Qed.

(** However the connection cuts the trawler's text into pieces, and over
    however many rounds of reads it arrives, the emulator's table of neighbors is
    the one that the complete lines of the whole text make, executed in order;
    what stands behind the last line feed waits in the buffer; and nothing is
    sent. *)
Theorem arp_table_of_text n e e2 m :
  trawlerBuf_ e = tail_of (trawlerBuf_ e) -> trawlerBuf_ e2 = tail_of (trawlerBuf_ e2) ->
  (forall k, (k < n)%nat -> closes (feed_ e k) = false) ->
  (forall k, (k < m)%nat -> closes (feed_ e2 k) = false) ->
  fed e2 m = fed e n -> table e2 = table e ->
  exists e' e2', refresh_rounds n e = (Ret tt, e') /\ refresh_rounds m e2 = (Ret tt, e2') /\
    table e' = read_table (lines_of (fed e n)) (table e) /\ table e2' = table e' /\
    trawlerBuf_ e' = tail_of (fed e n) /\ trawlerBuf_ e2' = trawlerBuf_ e' /\
    emu_rm e' = emu_rm e /\ sent_ e' = sent_ e.
Proof.
  intros Hb Hb2 Hc Hc2 Hf Ht.
  destruct (refresh_rounds_run n e Hb Hc) as (e' & R1 & T1 & B1 & M1 & S1).
  destruct (refresh_rounds_run m e2 Hb2 Hc2) as (e2' & R2 & T2 & B2 & _ & _).
  exists e', e2'. do 3 (split; [done|]). rewrite T2, Hf, Ht, T1, B2, Hf, B1. done.
Qed.

(** C38: The emulator's copy of the link is the simulator's: on every state and
    every size of a packet it computes the result, the counters and the time
    that an edge that is up computes for its first end. *)
Theorem link_equals_edge {C} size now l (r : RuntimeManager C) :
  size <= Packet.MAX_PACKET_SIZE ->
  link_schedulePkt size now (l, r) =
  let '(res, (e, r')) := schedulePkt 0 size now (as_edge l, r) in (res, (of_edge e, r')).
Proof. apply link_schedulePkt_edge. Qed.

Section theorems.
Context `{MapOrder} `{Platform}.

(** C17: A packet that the node sends.  The trawler's pending lines are read
    first; the packet is framed with source and destination; then the frame goes
    to the neighbor's end point at once if it has no link, or else it is put on
    the link, and if that neither drops nor loses it, into the queue, for the
    next whole millisecond at or after its arrival; a broadcast does this for
    every neighbor; an unknown neighbor is reported and nothing is sent. *)
Theorem emulator_send_contract from to pkt e :
  emu_ok e -> sendable from to pkt -> closes (feed_ e O) = false ->
  let e1 := refreshed (emu_counted e) in
  count_room (S (size (arp_ e1))) (emu_rm e1) ->
  EmuNet.sendPkt from to pkt e =
    (Ret (emu_send_spec from to pkt e).1, (emu_send_spec from to pkt e).2) /\
  emu_ok (emu_send_spec from to pkt e).2 /\
  unpack (frame_of from to pkt) = Some (mkEmulatorPacket to from pkt).
Proof.
  intros He Hs Hc e1 Hroom. pose proof (emu_sendPkt_run from to pkt e He Hs Hc Hroom) as Hrun.
  split; [done|]. split.
  - pose proof (wp_emu_sendPkt from to pkt e He Hs) as Hw. unfold wp in Hw. rewrite Hrun in Hw.
    apply Hw.
  - destruct Hs as (Hf & Ht & Hsz & _). unfold validAddress, MAX_ADDRESS in *.
    apply emulator_unpack_pack. unfold emulator_packet_ok, MAX_PACKET_SIZE. cbn. lia.
Qed.

(** C15: The emulator's main loop does not hang.  If the clock does not run
    backwards and every link takes time, then whatever the operating system
    answers to an iteration (datagrams, lines typed, lines of the trawler): the
    iteration reads the clock and a line of the command file, calls the events that
    are due at that reading, in the order of the queue, each in the state that the
    one before left and with an exception reported, and does the rest ([emu_turn]);
    every event that was due is among those called, none of them is left in the
    queue, and every other event is still in it.  The main loop is the sequence of
    such iterations, one for each of the answers.  No exception leaves the loop and
    no fuel runs out: a run that does not return is ended by [exit] or is
    undefined. *)
Theorem emulator_terminates ios io d s :
  emu_live s ->
  wp (emu_iteration io d) s
    (fun d' s' => emu_live s' /\
       (exists called, emu_turn io d s called d' s' /\
          forall ev, ev ∈ emu_queue s -> timeToOccur ev <= clock_ (enet s) O -> ev ∈ called) /\
       Forall (fun ev => clock_ (enet s) O < timeToOccur ev) (emu_queue s') /\
       (forall ev, ev ∈ emu_queue s -> clock_ (enet s) O < timeToOccur ev -> ev ∈ emu_queue s'))
    (fun f _ => f = UB \/ exists code, f = Exited code) /\
  (emu_running_ s = true ->
   wp (emu_loop ios d) s
     (fun d' s' => emu_live s' /\ exists called, emu_turns ios d s called d' s')
     (fun f _ => f = UB \/ exists code, f = Exited code)).
Proof.
  intros Hs. split.
  - apply wp_ended; [apply unthrown_emu_iteration|].
    eapply wp_conseq; [by apply wp_emu_iteration| |done]. by intros d' s' [[[Hl _] _ Ha Hk] Hc].
  - intros Hr. apply wp_ended; [apply unthrown_emu_loop|by apply wp_emu_loop].
Qed.

(** C13: What the emulator does for its node is safe.  In the invariant of node
    and network a timer of the node runs without a fault and keeps the invariant;
    a frame that is due leaves as it was queued; a datagram that is no frame is
    reported and nothing else, one without bytes not even that; a frame teaches the
    table the end point of its sender, and then, exactly if it is addressed to the
    node or to all, the node receives its payload from that sender, which is safe
    if the payload is no SYN or FIN with the largest sequence number and the node's
    sockets have sequence numbers left.  A timer has room in its task and in the
    sequence numbers ([timer_ready]).  The faults left are the end of the trawler's
    connection and counters of 32 bits. *)
Theorem emulator_event_safe n s :
  emulator_ok s -> node_ s = Some n ->
  (forall cb, timer_ready n cb ->
     wp (run_emu_event (EmuCallback cb)) s
       (fun _ s' => emulator_stepped s s' /\ is_Some (node_ s')) emulator_fault) /\
  (forall bytes ip prt,
     run_emu_event (PhysicalSend bytes ip prt) s =
     (Ret tt, set_enet (send_at_once bytes ip prt (enet s)) s)) /\
  (forall bytes ip prt,
     match EmulatorPacket.unpack bytes with
     | None => processUdpPacket (Some (bytes, ip, prt)) s =
         (Ret tt, if decide (bytes = []) then s
                  else set_enet (say_error ("Was unable to extract packet received from " +:+ ip +:+
                                            ":" +:+ to_string prt) (enet s)) s)
     | Some p =>
         processUdpPacket (Some (bytes, ip, prt)) s =
           (if (destAddr_ p =? assignedNodeId_ s) || (destAddr_ p =? BROADCAST_ADDRESS)
            then on_stack (onReceive (srcAddr_ p) (payload_ p)) (with_learned p ip prt s)
            else (Ret tt, with_learned p ip prt s)) /\
         (all_rcv_room (tcpMan_ n) -> NodeSpec.wire_ok (payload_ p) ->
          wp (processUdpPacket (Some (bytes, ip, prt))) s
            (fun _ s' => emulator_stepped (with_learned p ip prt s) s') emulator_fault)
     end).
Proof.
  intros Hs Hn. split; [intros cb Hr; by apply (wp_emu_timer cb n)|].
  split; [intros bytes ip prt; apply emu_physical_run|]. intros bytes ip prt.
  destruct (EmulatorPacket.unpack bytes) as [p|] eqn:Hp.
  - split; [|intros Hroom Hw; by apply (wp_processUdpPacket _ _ _ _ n)].
    rewrite (processUdpPacket_run _ _ _ _ _ Hp). unfold for_me. by destruct (_ || _).
  - by apply processUdpPacket_bad.
Qed.
End theorems.

(** The handshake with the trawler.  A reply line with an address makes it
    the node's, unless it is the broadcast address, which is an exception, as is
    a connection that closes before the line ends; a reply that is no number
    ends the process. *)
Theorem trawler_handshake c s :
  con_sent c = true ->
  (forall id rest, INT_MIN <= id <= INT_MAX ->
     con_reply c = bytes_of (to_string id) ++ Some "010"%char :: rest ->
     if id =? BROADCAST_ADDRESS
     then exists w e, handshake c s =
       (Fault (Thrown (invalid_argument w)), set_assignedNodeId id (set_enet e s))
     else handshake c s = (Ret tt, set_assignedNodeId id s)) /\
  (forall line rest x, con_reply c = bytes_of line ++ Some "010"%char :: rest ->
     has_char "010" line = false -> has_char "013" line = false -> stoi line = inl x ->
     exists e, handshake c s = (Fault (Exited 1), set_enet e s)) /\
  (forall line, con_reply c = bytes_of line ++ [None] -> has_char "010" line = false ->
     exists w, handshake c s = (Fault (Thrown (runtime_error w)), s)).
Proof.
  intros Hc. unfold handshake. rewrite Hc. split; [|split].
  - intros id rest Hid Hr. rewrite Hr, read_reply_address. unfold bind, try_catch. cbn.
    rewrite stoi_to_string by done. cbn.
    destruct (id =? BROADCAST_ADDRESS); [|done]. by do 2 eexists.
  - intros line rest x Hr H1 H2 Hx. rewrite Hr, read_reply_line by done.
    change (EmptyString +:+ line) with line.
    unfold bind, try_catch. cbn. rewrite Hx. by eexists.
  - intros line Hr Hl. rewrite Hr, read_reply_closed by done. by eexists.
Qed.

(** ** Witnesses *)

Section witnesses.
#[local] Existing Instance list_order.

#[local] Instance sample_platform : Platform := {|
  int_order A m := map_to_list m;
  int_order_perm A m := Permutation_refl (map_to_list m);
  inet_pton _ := true
|}.

Definition tenth : double :=
  Eval vm_compute in match stod "0.1" with inr d => d | inl _ => dofZ 0 end.
Definition sample_options : EdgeOptions := mkEdgeOptions tenth 5 1000 100.

Lemma arp_roundtrip_witness :
  receiveAddNeighbor (addNeighborOptions 3 "127.0.0.1" 5003 sample_options) =
  Some (mkAddNeighbor 3 "127.0.0.1" 5003 (Some sample_options)).
Proof.
  refine (proj1 (proj2 (proj2 (arp_roundtrip 3 "127.0.0.1" 5003 sample_options _ _ _))) _).
  - split; [numerals|]. split; [|numerals]. split; [reflexivity|discriminate].
  - numerals.
  - lia.
  - right. exists 10. split; [lia|]. vm_compute. reflexivity.
Defined.

(** The text of the trawler: one neighbor at hand, one behind a link. *)
Definition sample_text : string :=
  addNeighbor 2 "127.0.0.1" 5002 +:+ newline +:+
  addNeighborOptions 3 "127.0.0.1" 5003 sample_options +:+ newline.

Definition feed_of (rs : list (list Recv)) (n : nat) : list Recv := default [] (rs !! n).

(** A network whose connection has the reads [rs] to give. *)
Definition sample_net_of (rs : list (list Recv)) : EmuNet :=
  mkEmuNet (new_RuntimeManager 0) ∅ EmptyString (fun n => Z.min (1000 * Z.of_nat n) 1000000)
    (feed_of rs) (fun _ => None) (fun _ _ => dofZ 1) [] [].

Definition sample_emu : EmuNet := sample_net_of [[Data sample_text; WouldBlock]].

Definition cut_emu : EmuNet :=
  sample_net_of [[Data (String.substring 0 30 sample_text)];
                 [Data (skip 30 sample_text); RecvFailed]].

Lemma arp_table_of_text_witness :
  exists e' e2', refresh_rounds 1 sample_emu = (Ret tt, e') /\
    refresh_rounds 2 cut_emu = (Ret tt, e2') /\
    table e' = read_table (lines_of (fed sample_emu 1)) (table sample_emu) /\
    table e2' = table e' /\
    trawlerBuf_ e' = tail_of (fed sample_emu 1) /\ trawlerBuf_ e2' = trawlerBuf_ e' /\
    emu_rm e' = emu_rm sample_emu /\ sent_ e' = sent_ sample_emu.
Proof.
  apply (arp_table_of_text 1 sample_emu cut_emu 2); try reflexivity.
  - intros [|k] Hk; [reflexivity|lia].
  - intros [|[|k]] Hk; [reflexivity|reflexivity|lia].
Defined.

Example arp_table_read :
  let t := read_table (lines_of (fed sample_emu 1)) ∅ in
  t !! 2 = Some ("127.0.0.1", 5002, None) /\
  t !! 3 = Some ("127.0.0.1", 5003, Some sample_options) /\ t !! 4 = None.
Proof. vm_compute. repeat split. Qed.

Lemma link_equals_edge_witness :
  let l := new_EmulatedLink sample_options (fun _ => dofZ 1) in
  let r := new_RuntimeManager (C := EmuEvent) 0 in
  link_schedulePkt 100 2000 (l, r) =
  let '(res, (e, r')) := schedulePkt 0 100 2000 (as_edge l, r) in (res, (of_edge e, r')).
Proof. intros l r. apply (link_equals_edge 100 2000 l r). vm_compute. discriminate. Defined.

(** What the connection still has to say. *)
Lemma sample_fed n : fed sample_emu n = match n with O => EmptyString | S _ => sample_text end.
Proof.
  destruct n as [|n]; [reflexivity|]. unfold fed. cbn [rounds].
  assert (Hrest : rounds (fun i => feed_ sample_emu (S i)) n = EmptyString).
  { assert (forall f, (forall i, f i = []) -> rounds f n = EmptyString) as Hr.
    { clear. induction n as [|n IH]; intros f Hf; [done|]. cbn [rounds]. rewrite Hf. by apply IH. }
    by apply Hr. }
  rewrite Hrest. vm_compute. reflexivity.
Qed.

Lemma sample_feed_ok (P : EdgeOptions -> Prop) : P sample_options -> feed_ok P sample_emu.
Proof.
  intros HP n. rewrite sample_fed. destruct n; [constructor|].
  assert (lines_of sample_text = [addNeighbor 2 "127.0.0.1" 5002;
    addNeighborOptions 3 "127.0.0.1" 5003 sample_options]) as -> by (vm_compute; reflexivity).
  apply List.Forall_cons; [|apply List.Forall_cons; [|apply List.Forall_nil]]; unfold line_options.
  - replace (receiveAddNeighbor _) with (Some (mkAddNeighbor 2 "127.0.0.1" 5002 None)); [done|].
    vm_compute. reflexivity.
  - replace (receiveAddNeighbor _)
      with (Some (mkAddNeighbor 3 "127.0.0.1" 5003 (Some sample_options))); [done|].
    vm_compute. reflexivity.
Qed.

Lemma sample_emu_ok : emu_ok sample_emu.
Proof.
  constructor.
  - intros n. cbn. unfold MICROS_LIMIT, TIME_LIMIT. lia.
  - numerals.
  - apply map_Forall_empty.
  - apply sample_feed_ok. numerals.
Qed.

Definition ping_frame (dest : Z) : list byte := (node_datagram 1 dest PING_PKT [x61]).2.

Lemma emulator_send_contract_witness :
  EmuNet.sendPkt 1 3 (ping_frame 3) sample_emu =
    (Ret (emu_send_spec 1 3 (ping_frame 3) sample_emu).1,
     (emu_send_spec 1 3 (ping_frame 3) sample_emu).2) /\
  emu_ok (emu_send_spec 1 3 (ping_frame 3) sample_emu).2 /\
  EmulatorPacket.unpack (frame_of 1 3 (ping_frame 3)) = Some (mkEmulatorPacket 3 1 (ping_frame 3)).
Proof.
  apply (emulator_send_contract 1 3 (ping_frame 3) sample_emu).
  - apply sample_emu_ok.
  - split; [reflexivity|]. split; [reflexivity|]. split; [vm_compute; discriminate|].
    eexists. split; [vm_compute; reflexivity|reflexivity].
  - reflexivity.
  - numerals.
Defined.

(** The frame to the neighbor at hand leaves at once; the one behind the link is
    due after 10 ms of transmission and 5 ms of delay. *)
Example frames_sent :
  sent_ (emu_send_spec 1 2 (ping_frame 2) sample_emu).2 =
    [(frame_of 1 2 (ping_frame 2), "127.0.0.1", 5002)] /\
  sent_ (emu_send_spec 1 3 (ping_frame 3) sample_emu).2 = [] /\
  emu_events (emu_send_spec 1 3 (ping_frame 3) sample_emu).2 =
    [mkEvent 15000 (Some (PhysicalSend (frame_of 1 3 (ping_frame 3)) "127.0.0.1" 5003))] /\
  sent_ (emu_send_spec 1 4 (ping_frame 4) sample_emu).2 = [].
Proof. vm_compute. repeat split. Qed.

Definition sample_emulator : Emulator :=
  mkEmulator sample_emu (Some sample_stack) 2 5000 true true false false EmptyString.

Lemma sample_emulator_live : emu_live sample_emulator.
Proof.
  constructor.
  - split; [apply map_Forall_empty|]. apply sample_feed_ok. numerals.
  - constructor.
  - intros n. cbn. lia.
Qed.

Definition sample_answers : Answers :=
  mkAnswers (fun _ => PollTimeout) (Some (frame_of 3 2 (node_datagram 3 2 PING_PKT [x61]).2,
    "127.0.0.1", 5003)) [].

Lemma emulator_terminates_witness :
  emu_live sample_emulator /\
  wp (emu_loop [sample_answers; sample_answers] 0) sample_emulator
    (fun d' s' => emu_live s' /\
       exists called, emu_turns [sample_answers; sample_answers] 0 sample_emulator called d' s')
    (fun f _ => f = UB \/ exists code, f = Exited code).
Proof.
  split; [apply sample_emulator_live|].
  exact (proj2 (emulator_terminates [sample_answers; sample_answers] sample_answers 0
    sample_emulator sample_emulator_live) eq_refl).
Defined.

Lemma sample_emulator_ok : emulator_ok sample_emulator.
Proof.
  constructor; [apply sample_emu_ok|]. intros n [= <-]. split; [apply sample_stack_ok|done].
Qed.

Definition sample_ping : EmulatorPacket :=
  mkEmulatorPacket 2 3 (node_datagram 3 2 PING_PKT [x61]).2.

Lemma sample_ping_ok : emulator_packet_ok sample_ping.
Proof. numerals. Qed.

Lemma emulator_event_safe_witness :
  wp (processUdpPacket (Some (pack sample_ping, "10.0.0.1", 9))) sample_emulator
    (fun _ s' => emulator_stepped (with_learned sample_ping "10.0.0.1" 9 sample_emulator) s')
    emulator_fault.
Proof.
  pose proof (proj2 (proj2 (emulator_event_safe sample_stack sample_emulator sample_emulator_ok
    eq_refl)) (pack sample_ping) "10.0.0.1" 9) as Hudp.
  rewrite (emulator_unpack_pack sample_ping sample_ping_ok) in Hudp. apply Hudp.
  - apply sample_server_room.
  - intros p seg Hp Hs. vm_compute in Hp. injection Hp as <-. by vm_compute in Hs.
Defined.

Definition sample_connecting (reply : list (option ascii)) : Connecting :=
  mkConnecting true true None true true true reply.

Lemma trawler_handshake_witness :
  handshake (sample_connecting (bytes_of (to_string 7) ++ [Some "010"%char])) sample_emulator =
  (Ret tt, set_assignedNodeId 7 sample_emulator).
Proof.
  refine (proj1 (trawler_handshake (sample_connecting (bytes_of (to_string 7) ++ [Some "010"%char]))
    sample_emulator _) 7 [] _ _).
  - reflexivity.
  - numerals.
  - reflexivity.
Defined.
End witnesses.
