(* ===== verification/SimNet.v ===== *)
(** * The simulated network (the sending half of src/sim/simulator.cpp)

    What the nodes of a simulation share: the manager's queue and counters, the
    simulated clock, the topology.  It is an environment of the nodes: a packet
    they send becomes the events of its deliveries. *)

From S2P Require Import Prelude CppStrings Doubles Packet EventQueue Runtime Edge Topology.

(** The callbacks in the queue: those of the nodes' timers, the lambdas of
    [sendPkt], and the one that goes on reading the topology file. *)
Inductive SimEvent : Type :=
| NodeCallback (cb : NodeTimer)
| DeliverPkt (from to : Z) (pkt : list byte)
| ParseRestOfTopoFile.

(** [numNodes_] is the size of the simulator's vector of nodes; the console is
    the one in the cell of the topology. *)
Record SimNet : Type := mkSimNet {
  sim_rm : RuntimeManager SimEvent;
  nowMicros_ : Z;
  sim_topo : TopoCell;
  numNodes_ : Z
}.

#[export] Instance eta_SimNet : Eta SimNet := fun e =>
  mkSimNet (sim_rm e) (nowMicros_ e) (sim_topo e) (numNodes_ e).

Definition set_sim_rm (v : RuntimeManager SimEvent) (e : SimNet) : SimNet :=
  ltac:(set_field sim_rm v e).
Definition set_nowMicros (v : Z) (e : SimNet) : SimNet := ltac:(set_field nowMicros_ v e).
Definition set_sim_topo (v : TopoCell) (e : SimNet) : SimNet := ltac:(set_field sim_topo v e).
Definition set_numNodes (v : Z) (e : SimNet) : SimNet := ltac:(set_field numNodes_ v e).

(** A call of the base class, and of [Topology::instance()]. *)
Definition base {A} (m : M (RuntimeManager SimEvent) A) : M SimNet A := zoom sim_rm set_sim_rm m.

Definition topology {A} (m : M TopoSt A) : M SimNet A :=
  zoom sim_topo set_sim_topo (with_instance false m).

Definition write_console (o : output) (c : TopoCell) : TopoCell :=
  mkTopoCell (instancePtr c) (cell_seeds c) (cell_out c ++ [o]).

Definition emit (o : output) : M SimNet unit :=
  modify (fun e => set_sim_topo (write_console o (sim_topo e)) e).

Definition put_edge (i : nat) (ed : Edge) (c : TopoCell) : TopoCell :=
  mkTopoCell ((fun t => set_edges (<[i := ed]> (edges_ t)) t) <$> instancePtr c)
    (cell_seeds c) (cell_out c).

(** A method of an edge, of the [i]-th edge of the topology. *)
Definition edge_call {A} (i : nat) (m : M (Edge * RuntimeManager SimEvent) A) : M SimNet A :=
  fun e =>
    match (t ← instancePtr (sim_topo e); edges_ t !! i) with
    | None => (Fault UB, e)
    | Some ed =>
        let '(r, (ed', rm')) := m (ed, sim_rm e) in
        (r, set_sim_topo (put_edge i ed' (sim_topo e)) (set_sim_rm rm' e))
    end.

Definition now : M SimNet Z := gets (fun e => Z.quot (nowMicros_ e) 1000).

(** [schedulePkt] on the edge, and the event of the delivery unless the packet
    is dropped or lost. *)
Definition transmit_on (i : nat) (from to : Z) (pkt : list byte) : M SimNet unit :=
  let! nowMicros := gets nowMicros_ in
  let! at_ := edge_call i (schedulePkt from (vsize pkt) nowMicros) in
  if at_ =? -1 then ret tt
  else base (addEventAtMicros at_ (Some (DeliverPkt from to pkt))).

(** The loop over the nodes of a broadcast: [n] of them from [i] on. *)
Fixpoint broadcast_loop (n : nat) (i from : Z) (pkt : list byte) : M SimNet unit :=
  match n with
  | O => ret tt
  | S n =>
      let! edge := topology (getLiveEdge from i) in
      match edge with
      | Some e => transmit_on e from i pkt
      | None => ret tt
      end ;;
      broadcast_loop n (i + 1) from pkt
  end.

Definition sendPkt (from to : Z) (pkt : list byte) : M SimNet bool :=
  base (Runtime.sendPkt from to pkt) ;;
  if to =? BROADCAST_ADDRESS
  then
    let! n := gets numNodes_ in
    broadcast_loop (Z.to_nat n) 0 from pkt ;;
    ret true
  else
    let! edge := topology (getLiveEdge from to) in
    match edge with
    | None =>
        emit (Cerr (endl ("Failed to send pkt from: " +:+ to_string from +:+ " to: " +:+
                          to_string to))) ;;
        ret false
    | Some e => transmit_on e from to pkt ;; ret true
    end.

#[export] Instance SimNet_manager : Manager SimNet := {|
  mgr_now := now;
  mgr_sendPkt := sendPkt;
  mgr_addTimer node delta cb :=
    let! t := now in
    base (addTimer t delta (Some (NodeCallback cb)));
  mgr_emit := emit
|}.
