(* ===== verification/Simulator.v ===== *)
(** * The simulator (src/sim/simulator.cpp, include/nb/simulator.hpp) and its
      command language (src/sim/simulation_commands_parser.cpp, and the default
      hooks of src/sim/commands_parser.cpp)

    The nodes on their common network, the open topology file, and the main
    loop.  An iteration of the loop gets from outside what [waitForLine] and the
    clock give it: a function from the time to wait to the line typed, if any,
    with the microseconds that passed. *)

From S2P Require Import Prelude CppStrings Doubles DoubleText Packet EventQueue Runtime Edge Topology Parser TcpData Node Apps StackNode SimNet.

Definition MAX_NODES_TO_SIMULATE : Z := 254.

Record Simulator : Type := mkSimulator {
  net : SimNet;
  nodes_ : list StackNode;
  topoFileParser_ : option (list string);
  timescale_ : double;
  running_ : bool
}.

#[export] Instance eta_Simulator : Eta Simulator := fun s =>
  mkSimulator (net s) (nodes_ s) (topoFileParser_ s) (timescale_ s) (running_ s).

Definition set_net (v : SimNet) (s : Simulator) : Simulator := ltac:(set_field net v s).
Definition set_nodes (v : list StackNode) (s : Simulator) : Simulator := ltac:(set_field nodes_ v s).
Definition set_topoFileParser (v : option (list string)) (s : Simulator) : Simulator :=
  ltac:(set_field topoFileParser_ v s).
Definition set_timescale (v : double) (s : Simulator) : Simulator := ltac:(set_field timescale_ v s).
Definition set_running (v : bool) (s : Simulator) : Simulator := ltac:(set_field running_ v s).

(** ** Access *)

Definition on_net {A} (m : M SimNet A) : M Simulator A := zoom net set_net m.

Definition set_rm (r : RuntimeManager SimEvent) (s : Simulator) : Simulator :=
  set_net (set_sim_rm r (net s)) s.

(** [nodes_[i]->m(...)]; an index outside the vector is undefined. *)
Definition on_node {A} (i : Z) (m : M (StackNode * SimNet) A) : M Simulator A :=
  fun s =>
    if i <? 0 then (Fault UB, s)
    else
      match nodes_ s !! Z.to_nat i with
      | None => (Fault UB, s)
      | Some n =>
          let '(r, (n', e')) := m (n, net s) in
          (r, set_nodes (<[Z.to_nat i := n']> (nodes_ s)) (set_net e' s))
      end.

Definition sim_emit (o : output) : M Simulator unit := on_net (emit o).

Definition nowMicros : M Simulator Z := gets (fun s => nowMicros_ (net s)).

Definition set_now (t : Z) : M Simulator unit :=
  modify (fun s => set_net (set_nowMicros t (net s)) s).

Definition isNodeAddrValid (nodeAddr : Z) (s : Simulator) : bool :=
  (0 <=? nodeAddr) && (nodeAddr <? vsize (nodes_ s)).

(** ** The commands *)

Fixpoint print_all (l : list output) : M Simulator unit :=
  match l with
  | [] => ret tt
  | o :: l => sim_emit o ;; print_all l
  end.

(** [RuntimeManager::stop]: the report, then the process ends. *)
Definition stop : M Simulator unit :=
  let! t := on_net now in
  let! r := gets (fun s => sim_rm (net s)) in
  long (t - startMs_ r) ;;
  print_all (stop_report t r) ;;
  fail (Exited 0).

Section commands.
Context `{MapOrder}.

Definition sendNodeMsg (nodeAddr : Z) (msg : string) : M Simulator bool :=
  let! valid := gets (isNodeAddrValid nodeAddr) in
  if negb valid then ret false
  else on_node nodeAddr (onCommand msg) ;; ret true.

Definition sim_parseNodeCmd (cmd : list string) : M Simulator unit :=
  match cmd with
  | first :: (_ :: _) as rest =>
      try_catch
        (let! nodeAddr := lift_exn (stoi first) in
         let! found := sendNodeMsg nodeAddr (pop_back (append_words (drop 1 cmd))) in
         if negb found
         then sim_emit (Cerr (endl ("Node address: " +:+ to_string nodeAddr +:+
                                    " does not exist!")))
         else ret tt)
        (fun _ =>
         sim_emit (Cerr "Error parsing command to node: ") ;;
         sim_emit (Cerr (str_array cmd)))
  | _ => ret tt
  end.

#[export] Instance Simulator_commands : CommandOps Simulator := {|
  p_emit := sim_emit;
  exitCmd cmd := if is_cmd "exit" cmd then stop else ret tt;
  parseNodeCmd := sim_parseNodeCmd
|}.

#[export] Instance Simulator_parser : ParserOps Simulator := {|
  createNewEdge a b o := on_net (topology (newEdge a b o));
  failEdgeHook a b := on_net (topology (failEdge a b));
  failNodeHook a := on_net (topology (failNode a));
  restartEdgeHook a b := on_net (topology (restartEdge a b));
  restartNodeHook a := on_net (topology (restartNode a))
|}.

(** ** The events *)

Definition parseRestOfTopoFile : M Simulator unit :=
  let! t := nowMicros in
  let! deferTill := parseRemainder topoFileParser_ set_topoFileParser t in
  if deferTill >=? 0
  then on_net (base (addEventAtMicros deferTill (Some ParseRestOfTopoFile)))
  else ret tt.

Definition deliverPkt (from to : Z) (pkt : list byte) : M Simulator unit :=
  let! valid := gets (isNodeAddrValid to) in
  if valid then on_node to (onReceive from pkt) else ret tt.

Definition timer_node (cb : NodeTimer) : Z :=
  match cb with
  | PingTimedOut node | RetransmissionTick node | TaskTick node _ => node
  end.

Definition run_event (ev : SimEvent) : M Simulator unit :=
  match ev with
  | NodeCallback cb => on_node (timer_node cb) (timer cb)
  | DeliverPkt from to pkt => deliverPkt from to pkt
  | ParseRestOfTopoFile => parseRestOfTopoFile
  end.

(** ** The constructor *)

(** The members' default initializers, with the console and the topology that
    the process has. *)
Definition blank_Simulator (c : TopoCell) : Simulator :=
  mkSimulator (mkSimNet (new_RuntimeManager 0) 0 c 0) [] None (dofZ 1) false.

(** [topoFile] is the name, [file] what opening it gives. *)
Definition construct (numNodes : Z) (topoFile : string) (file : option (list string))
    : M Simulator unit :=
  if (numNodes <=? 0) || (numNodes >? MAX_NODES_TO_SIMULATE)
  then throw (invalid_argument ("Simulator: invalid number of nodes: " +:+ to_string numNodes))
  else
    on_net (zoom sim_topo set_sim_topo reset) ;;
    on_net (topology (ret tt)) ;;
    modify (fun s => set_nodes (map (fun i => new_StackNode (Z.of_nat i))
                                  (seq 0 (Z.to_nat numNodes))) s) ;;
    modify (fun s => set_net (set_numNodes numNodes (net s)) s) ;;
    let! deferTill :=
      if negb (String.eqb topoFile EmptyString)
      then
        let! t := nowMicros in
        parseFile topoFileParser_ set_topoFileParser topoFile file t
      else ret (-1) in
    if deferTill >=? 0
    then on_net (base (addEventAtMicros deferTill (Some ParseRestOfTopoFile)))
    else ret tt.

Definition setTimescale (timescale : double) : M Simulator unit :=
  modify (set_timescale timescale).

(** ** The main loop *)

(** The loop over the events whose time has come. *)
Fixpoint event_loop (fuel : nat) : M Simulator unit :=
  match fuel with
  | O => fail NoFuel
  | S fuel =>
      let! q := gets (fun s => sortedEvents_ (sim_rm (net s))) in
      let! t := nowMicros in
      match getNextEvent q with
      | None => ret tt
      | Some peek =>
          if timeToOccur peek >? t then ret tt
          else
            let! ev := on_net (base (zoom sortedEvents_ set_sortedEvents removeNextEvent)) in
            try_catch
              (match callback ev with Some cb => run_event cb | None => ret tt end)
              (fun e => sim_emit (Cerr (endl ("Simulator: callback threw: " +:+ what e)))) ;;
            event_loop fuel
      end
  end.

(** Every event that runs takes an event out of the queue or a line out of the
    topology file. *)
Definition loop_fuel (s : Simulator) : nat :=
  S (length (sortedEvents_ (sim_rm (net s))) + length (default [] (topoFileParser_ s))).

(** What [waitForLine] returns to a call with a time in milliseconds, and the
    microseconds between the readings of the clock around it. *)
Definition Console_in : Type := Z -> option (string * Z).

Definition iteration (io : Console_in) (deferParsingTill : Z) : M Simulator Z :=
  let! deferParsingTill :=
    readCommandFile (fun s => sim_rm (net s)) set_rm (on_net now) parseLine deferParsingTill in
  let! q := gets (fun s => sortedEvents_ (sim_rm (net s))) in
  let! t := nowMicros in
  let! '(deltaTime, waitTime) :=
    match getNextEvent q with
    | Some ev => let! d := long (timeToOccur ev - t) in ret (d, 0)
    | None =>
        if deferParsingTill >=? 0
        then let! d := long (deferParsingTill - t) in ret (d, 0)
        else ret (0, -1)
    end in
  let! timescale := gets timescale_ in
  let! waitTime :=
    if (deltaTime >? 0) && dltb (dofZ 0) timescale
    then double_to_long (dtrunc (ddiv (dofZ deltaTime) timescale))
    else ret waitTime in
  let waitMs := if waitTime <? 0 then -1 else Z.quot waitTime 1000 in
  match io waitMs with
  | Some (userInput, elapsed) =>
      let! scaled := double_to_long (dtrunc (dmul (dofZ elapsed) timescale)) in
      let! t' := long (t + scaled) in
      set_now t' ;;
      parseLine userInput t' ;;
      ret deferParsingTill
  | None =>
      let! later := long (t + deltaTime) in
      set_now (Z.max t later) ;;
      let! fuel := gets loop_fuel in
      event_loop fuel ;;
      ret deferParsingTill
  end.

(** [while (running_)], for as long as there is an outside; nothing in the
    program clears [running_]. *)
Fixpoint main_loop (ios : list Console_in) (deferParsingTill : Z) : M Simulator Z :=
  let! running := gets running_ in
  if negb running then ret deferParsingTill
  else
    match ios with
    | [] => ret deferParsingTill
    | io :: ios =>
        let! deferParsingTill := iteration io deferParsingTill in
        main_loop ios deferParsingTill
    end.

(** [n->start()] for the nodes from the [i]-th on. *)
Fixpoint start_nodes (n : nat) (i : Z) : M Simulator unit :=
  match n with
  | O => ret tt
  | S n => on_node i StackNode.start ;; start_nodes n (i + 1)
  end.

Definition boot : M Simulator unit :=
  modify (set_running true) ;;
  let! n := gets (fun s => length (nodes_ s)) in
  start_nodes n 0 ;;
  set_now 1.

Definition start (ios : list Console_in) : M Simulator Z :=
  boot ;;
  main_loop ios 0.
End commands.
