(* ===== verification/Trawler.v ===== *)
(** * The trawler (src/emu/trawler_service.cpp, src/emu/emulated_node.cpp,
      src/sim/trawler_commands_parser.cpp)

    It gives every emulator that connects an address, keeps the topology, and
    writes to each emulator the commands that keep its table of neighbors.
    What the operating system answers comes in: readings of the clock and
    results of [send] as streams of the state, a connection with the bytes that
    can be read from it for each [accept].  The texts written are kept, one for
    each connection; a descriptor is the number of its connection, and a pointer
    to a node is the key it is stored under. *)

From Stdlib Require Import Strings.Ascii.
From S2P Require Import Prelude CppStrings Doubles DoubleText Packet Runtime Edge Topology Parser SimNet Arp Posix.

(** ** The state *)

(** [tcpFd_] is [None] when the code has [-1]. *)
Record EmulatedNode : Type := mkEmulatedNode {
  tcpFd_ : option nat;
  fishAddr_ : Z;
  ipAddress_ : string;
  udpPort_ : Z;
  alive_ : bool
}.

#[export] Instance eta_EmulatedNode : Eta EmulatedNode := fun n =>
  mkEmulatedNode (tcpFd_ n) (fishAddr_ n) (ipAddress_ n) (udpPort_ n) (alive_ n).

Definition set_tcpFd (v : option nat) (n : EmulatedNode) : EmulatedNode := ltac:(set_field tcpFd_ v n).
Definition set_alive (v : bool) (n : EmulatedNode) : EmulatedNode := ltac:(set_field alive_ v n).

Definition new_EmulatedNode (tcpFd : nat) (fishAddr : Z) (ipAddress : string) (udpPort : Z)
    : EmulatedNode :=
  mkEmulatedNode (Some tcpFd) fishAddr ipAddress udpPort true.

(** A call of [send]: how many bytes it took, or an error if that is not
    positive; or the end of the process by the signal of a broken pipe, which
    the program does not handle. *)
Inductive SendResult : Type :=
| Took (n : Z)
| BrokenPipe.

Record Trawler : Type := mkTrawler {
  emulatedNodes_ : gmap Z EmulatedNode;
  trawlerParser_ : option (list string);
  trawler_topo : TopoCell;
  wires : list string;
  trawler_sends : nat -> SendResult;
  trawler_clock : nat -> Z
}.

#[export] Instance eta_Trawler : Eta Trawler := fun s =>
  mkTrawler (emulatedNodes_ s) (trawlerParser_ s) (trawler_topo s) (wires s) (trawler_sends s)
    (trawler_clock s).

Definition set_emulatedNodes (v : gmap Z EmulatedNode) (s : Trawler) : Trawler :=
  ltac:(set_field emulatedNodes_ v s).
Definition set_trawlerParser (v : option (list string)) (s : Trawler) : Trawler :=
  ltac:(set_field trawlerParser_ v s).
Definition set_trawler_topo (v : TopoCell) (s : Trawler) : Trawler :=
  ltac:(set_field trawler_topo v s).
Definition set_wires (v : list string) (s : Trawler) : Trawler := ltac:(set_field wires v s).
Definition set_trawler_sends (v : nat -> SendResult) (s : Trawler) : Trawler :=
  ltac:(set_field trawler_sends v s).
Definition set_trawler_clock (v : nat -> Z) (s : Trawler) : Trawler :=
  ltac:(set_field trawler_clock v s).

Definition trawler_emit (o : output) : M Trawler unit :=
  modify (fun s => set_trawler_topo (write_console o (trawler_topo s)) s).

(** [Topology::instance()]. *)
Definition on_topology {A} (m : M TopoSt A) : M Trawler A :=
  zoom trawler_topo set_trawler_topo (with_instance false m).

Definition trawler_now : M Trawler Z :=
  let! clock := gets trawler_clock in
  modify (set_trawler_clock (fun n => clock (S n))) ;;
  ret (clock O).

(** ** Writing to a connection *)

Definition send_result : M Trawler Z :=
  let! sends := gets trawler_sends in
  modify (set_trawler_sends (fun n => sends (S n))) ;;
  match sends O with
  | Took n => ret n
  | BrokenPipe => fail (Exited 141)
  end.

Definition put_wire (fd : nat) (data : string) : M Trawler unit :=
  modify (fun s => set_wires (alter (fun text => text +:+ data) fd (wires s)) s).

Definition writeLineToFd (fd : nat) (line : string) : M Trawler bool :=
  write_all send_result (put_wire fd) (line +:+ newline).

(** ** A node *)

(** [node->f], of a pointer into the table. *)
Definition deref_node (key : Z) : M Trawler EmulatedNode :=
  let! nodes := gets emulatedNodes_ in
  match nodes !! key with
  | Some n => ret n
  | None => fail UB
  end.

Definition upd_node (key : Z) (f : EmulatedNode -> EmulatedNode) : M Trawler unit :=
  modify (fun s => set_emulatedNodes (alter f key (emulatedNodes_ s)) s).

Definition isAlive (n : EmulatedNode) : bool := alive_ n && bool_decide (is_Some (tcpFd_ n)).

Definition close_node (key : Z) : M Trawler unit :=
  upd_node key (fun n => set_alive false (set_tcpFd None n)).

Definition writeLine (key : Z) (line : string) : M Trawler bool :=
  let! n := deref_node key in
  match tcpFd_ n with
  | None => ret false
  | Some fd =>
      let! written := write_all send_result (put_wire fd) (line +:+ newline) in
      if written then ret true
      else upd_node key (set_alive false) ;; ret false
  end.

Definition sendAddNeighbor (key peer : Z) : M Trawler bool :=
  let! n := deref_node key in
  let! p := deref_node peer in
  let! e := on_topology (getLiveEdge (fishAddr_ n) (fishAddr_ p)) in
  let! cmd :=
    match e with
    | Some i =>
        let! edge := on_topology (deref_edge i) in
        ret (addNeighborOptions (fishAddr_ p) (ipAddress_ p) (udpPort_ p) (options_ edge))
    | None => ret (addNeighbor (fishAddr_ p) (ipAddress_ p) (udpPort_ p))
    end in
  writeLine key cmd.

Definition sendRemoveNeighbor (key peerFishAddr : Z) : M Trawler bool :=
  writeLine key (removeNeighbor peerFishAddr).

Definition sendReset (key : Z) : M Trawler bool := writeLine key reset_command.

(** ** The service *)

Definition getEmulatedNode (fishAddr : Z) : M Trawler (option Z) :=
  let! nodes := gets emulatedNodes_ in
  ret (if bool_decide (is_Some (nodes !! fishAddr)) then Some fishAddr else None).

Definition startEdge (a b : Z) : M Trawler unit :=
  let! nA := getEmulatedNode a in
  let! nB := getEmulatedNode b in
  match nA, nB with
  | Some nA, Some nB => sendAddNeighbor nA nB ;; sendAddNeighbor nB nA ;; ret tt
  | _, _ => ret tt
  end.

Definition failEdge_nodes (a b : Z) : M Trawler unit :=
  let! nA := getEmulatedNode a in
  let! nB := getEmulatedNode b in
  match nA, nB with
  | Some nA, Some nB => sendRemoveNeighbor nA b ;; sendRemoveNeighbor nB a ;; ret tt
  | _, _ => ret tt
  end.

Fixpoint free_loop (n : nat) (i : Z) (nodes : gmap Z EmulatedNode) : Z :=
  match n with
  | O => -1
  | S n => if bool_decide (nodes !! i = None) then i else free_loop n (i + 1) nodes
  end.

(** The addresses below the broadcast address, upwards. *)
Definition freeFishAddr (s : Trawler) : Z :=
  free_loop (Z.to_nat BROADCAST_ADDRESS) 0 (emulatedNodes_ s).

(** [Topology::instance().getLiveEdge(a, b) != nullptr] *)
Definition has_live_edge (a b : Z) : M Trawler bool :=
  let! e := on_topology (getLiveEdge a b) in
  ret (bool_decide (is_Some e)).

Section service.
Context `{Platform}.

(** The keys in the order of the table's iterator. *)
Definition node_keys (s : Trawler) : list Z := map fst (int_order (emulatedNodes_ s)).

Definition portConflict (ipAddress : string) (udpPort : Z) (s : Trawler) : bool :=
  existsb (fun kv => String.eqb (ipAddress_ kv.2) ipAddress && (udpPort_ kv.2 =? udpPort))
    (int_order (emulatedNodes_ s)).

(** What several loops share: the command to remove [addr], to a node that has
    a live edge with it and a connection. *)
Definition removal_for (addr key : Z) : M Trawler unit :=
  let! n := deref_node key in
  let! live := has_live_edge (fishAddr_ n) addr in
  if live && isAlive n then sendRemoveNeighbor key addr ;; ret tt else ret tt.

Fixpoint removal_loop (addr : Z) (keys : list Z) : M Trawler unit :=
  match keys with
  | [] => ret tt
  | key :: keys => removal_for addr key ;; removal_loop addr keys
  end.

(** [if (kv.second.get() == dyingNode) continue;] *)
Definition removeAsNeighbor (dyingNode : Z) : M Trawler unit :=
  let! n := deref_node dyingNode in
  let! keys := gets node_keys in
  removal_loop (fishAddr_ n) (filter (fun key => key <> dyingNode) keys).

(** The loop over the table with its [erase]. *)
Fixpoint quit_loop (keys : list Z) : M Trawler unit :=
  match keys with
  | [] => ret tt
  | key :: keys =>
      let! n := deref_node key in
      (if negb (isAlive n)
       then
         close_node key ;;
         modify (fun s => set_emulatedNodes (delete key (emulatedNodes_ s)) s) ;;
         let! others := gets node_keys in
         removal_loop (fishAddr_ n) others
       else ret tt) ;;
      quit_loop keys
  end.

Definition checkNodesQuit : M Trawler unit :=
  let! keys := gets node_keys in
  quit_loop keys.

(** [remove], which nothing calls. *)
Fixpoint remove_loop (dyingAddr : Z) (keys : list Z) : M Trawler unit :=
  match keys with
  | [] => ret tt
  | key :: keys =>
      let! n := deref_node key in
      (if fishAddr_ n =? dyingAddr
       then modify (fun s => set_emulatedNodes (delete key (emulatedNodes_ s)) s)
       else removal_for dyingAddr key) ;;
      remove_loop dyingAddr keys
  end.

Definition remove_node (dyingNode : Z) : M Trawler unit :=
  let! n := deref_node dyingNode in
  trawler_emit (Cerr (endl ("Removing node " +:+ to_string (fishAddr_ n)))) ;;
  let! keys := gets node_keys in
  remove_loop (fishAddr_ n) keys.

Fixpoint neighbors_loop (fishAddr startingNode : Z) (keys : list Z) : M Trawler unit :=
  match keys with
  | [] => ret tt
  | key :: keys =>
      let! n := deref_node key in
      let! start := deref_node startingNode in
      (if negb (fishAddr_ n =? fishAddr)
       then
         let! live := has_live_edge (fishAddr_ n) (fishAddr_ start) in
         if live && isAlive n
         then sendAddNeighbor key startingNode ;; sendAddNeighbor startingNode key ;; ret tt
         else ret tt
       else ret tt) ;;
      neighbors_loop fishAddr startingNode keys
  end.

Definition updateNeighbors (fishAddr : Z) : M Trawler unit :=
  let! startingNode := getEmulatedNode fishAddr in
  match startingNode with
  | None => ret tt
  | Some startingNode =>
      let! keys := gets node_keys in
      neighbors_loop fishAddr startingNode keys
  end.

Definition failNode_nodes (a : Z) : M Trawler unit :=
  let! node := getEmulatedNode a in
  match node with
  | Some node => sendReset node ;; removeAsNeighbor node
  | None => ret tt
  end.

Definition restartNode_nodes (a : Z) : M Trawler unit := updateNeighbors a.

Definition trawler_exit : M Trawler unit :=
  trawler_emit (Cout (endl "Trawler exiting...")) ;;
  fail (Exited 0).

(** ** The commands *)

#[export] Instance Trawler_commands : CommandOps Trawler := {|
  p_emit := trawler_emit;
  exitCmd cmd := if is_cmd "exit" cmd then trawler_exit else ret tt;
  parseNodeCmd cmd :=
    trawler_emit (Cerr "Trawler: Could not understand command: ") ;;
    trawler_emit (Cerr (str_array cmd))
|}.

(** The hooks, each with the base class's call on the topology. *)
Definition trawler_createNewEdge (a b : Z) (opts : EdgeOptions) : M Trawler unit :=
  on_topology (newEdge a b opts) ;;
  startEdge a b.

Definition trawler_failEdgeHook (a b : Z) : M Trawler bool :=
  let! found := on_topology (failEdge a b) in
  if found then failEdge_nodes a b ;; ret true else ret false.

Definition trawler_failNodeHook (a : Z) : M Trawler unit :=
  failNode_nodes a ;;
  on_topology (failNode a).

Definition trawler_restartEdgeHook (a b : Z) : M Trawler bool :=
  let! found := on_topology (restartEdge a b) in
  if found then startEdge a b ;; ret true else ret false.

Definition trawler_restartNodeHook (a : Z) : M Trawler unit :=
  on_topology (restartNode a) ;;
  restartNode_nodes a.

#[export] Instance Trawler_parser : ParserOps Trawler := {|
  createNewEdge := trawler_createNewEdge;
  failEdgeHook := trawler_failEdgeHook;
  failNodeHook := trawler_failNodeHook;
  restartEdgeHook := trawler_restartEdgeHook;
  restartNodeHook := trawler_restartNodeHook
|}.

(** ** Connections *)

(** What one [recv] of a byte returns. *)
Inductive ReadByte : Type :=
| GotByte (c : ascii)
| EndOfInput
| Interrupted
| ReadFailed.

(** A line, and whether the connection ended first; a connection that has
    nothing more to say keeps the trawler waiting, which is left out. *)
Fixpoint readLineFromFd (line : string) (input : list ReadByte) : string * bool :=
  match input with
  | GotByte c :: input =>
      if Ascii.eqb c "010" then (line, false)
      else if Ascii.eqb c "013" then readLineFromFd line input
      else readLineFromFd (line +:+ String c EmptyString) input
  | Interrupted :: input => readLineFromFd line input
  | EndOfInput :: _ | ReadFailed :: _ | [] => (line, true)
  end.

(** What [accept] returns: a peer's address and what it will send. *)
Inductive Accept : Type :=
| AcceptInterrupted
| AcceptFailed (error : string)
| Accepted (ipAddress : string) (input : list ReadByte).

(** The body of the loop behind the first line of the peer.  The [::close] of a peer
    that is rejected shows in nothing of the model: nothing uses its connection
    again. *)
Definition register (clientFd : nat) (ipAddress : string) (portLine : string) : M Trawler unit :=
  match stoi portLine with
  | inl _ => trawler_emit (Cerr ("Msg received from node is not a port number." +:+ newline))
  | inr port =>
      let! conflict := gets (portConflict ipAddress port) in
      if (port <? 1024) || conflict
      then
        trawler_emit (Cerr (endl ("Trawler: Illegal port: " +:+ to_string port))) ;;
        writeLineToFd clientFd (to_string BROADCAST_ADDRESS) ;;
        ret tt
      else
        let! fishAddr := gets freeFishAddr in
        if fishAddr =? -1
        then
          trawler_emit (Cerr (endl "Trawler: out of addresses")) ;;
          writeLineToFd clientFd (to_string BROADCAST_ADDRESS) ;;
          ret tt
        else
          trawler_emit (Cout (endl ("Got port " +:+ to_string port +:+ ": assigning addr: " +:+
                                    to_string fishAddr))) ;;
          writeLineToFd clientFd (to_string fishAddr) ;;
          modify (fun s => set_emulatedNodes
            (<[fishAddr := new_EmulatedNode clientFd fishAddr ipAddress port]>
               (emulatedNodes_ s)) s) ;;
          updateNeighbors fishAddr
  end.

(** A connection: the nodes that are gone leave the table, the rest of the
    topology file may be due, the peer is registered. *)
Definition serve (ipAddress : string) (input : list ReadByte) (deferParsingTill : Z)
    : M Trawler Z :=
  let! clientFd := gets (fun s => length (wires s)) in
  modify (fun s => set_wires (wires s ++ [EmptyString]) s) ;;
  checkNodesQuit ;;
  let! now := trawler_now in
  let! deferParsingTill :=
    if (deferParsingTill >? -1) && (deferParsingTill <? now)
    then parseRemainder trawlerParser_ set_trawlerParser now
    else ret deferParsingTill in
  let '(portLine, closed) := readLineFromFd EmptyString input in
  (if closed then ret tt else register clientFd ipAddress portLine) ;;
  ret deferParsingTill.

Fixpoint accept_loop (accepts : list Accept) (deferParsingTill : Z) : M Trawler unit :=
  match accepts with
  | [] => ret tt
  | AcceptInterrupted :: accepts => accept_loop accepts deferParsingTill
  | AcceptFailed error :: _ =>
      trawler_emit (Cerr (endl ("Trawler: accept() failed: " +:+ error)))
  | Accepted ipAddress input :: accepts =>
      let! deferParsingTill := serve ipAddress input deferParsingTill in
      accept_loop accepts deferParsingTill
  end.

(** How the calls that open the port end. *)
Record Opening : Type := mkOpening {
  op_socket : bool;
  op_bind : bool;
  op_listen : bool
}.

(** [file] is what opening [topoFile] gives; [accepts] what comes in while the
    trawler runs. *)
Definition run (listenPort : Z) (topoFile : string) (file : option (list string))
    (allToAll : bool) (o : Opening) (accepts : list Accept) : M Trawler unit :=
  zoom trawler_topo set_trawler_topo (with_instance allToAll (ret tt)) ;;
  let! deferParsingTill :=
    if negb (String.eqb topoFile EmptyString)
    then
      let! now := trawler_now in
      parseFile trawlerParser_ set_trawlerParser topoFile file now
    else ret (-1) in
  (if op_socket o then ret tt else throw (runtime_error "socket() failed")) ;;
  (if op_bind o then ret tt
   else throw (runtime_error ("bind() failed on port " +:+ to_string listenPort))) ;;
  (if op_listen o then ret tt else throw (runtime_error "listen() failed")) ;;
  trawler_emit (Cout (endl "Trawler awaiting fish...")) ;;
  accept_loop accepts deferParsingTill.

(** ** The program (src/trawler_main.cpp) *)

Definition trawler_usage : string :=
  "Usage: trawler <port> [topo file]" +:+ newline +:+
  "port      : TCP port to listen on for emulated nodes" +:+ newline +:+
  "topo file : optional topology script; when omitted all nodes are" +:+ newline +:+
  "            neighbors of each other by default." +:+ newline.

(** [open] is the file system. *)
Definition trawler_main (open : string -> option (list string)) (args : list string)
    (o : Opening) (accepts : list Accept) : M Trawler Z :=
  match args with
  | [] =>
      trawler_emit (Cerr (endl "Missing arguments")) ;;
      trawler_emit (Cerr trawler_usage) ;;
      ret 1
  | portArg :: rest =>
      let topoFile := default EmptyString (head rest) in
      try_catch
        (let! port := lift_exn (stoi portArg) in
         run port topoFile (open topoFile) (String.eqb topoFile EmptyString) o accepts ;;
         ret 0)
        (fun e =>
         trawler_emit (Cerr (endl ("Exception in trawler: " +:+ what e))) ;;
         ret 1)
  end.
End service.

(** Before [run]. *)
Definition new_Trawler (c : TopoCell) (sends : nat -> SendResult) (clock : nat -> Z) : Trawler :=
  mkTrawler ∅ None c [] sends clock.
