(* ===== verification/TrawlerText.v ===== *)
(** * What the trawler writes to a connection

    A connection's text is the address of its node on a line, then the commands
    that make the table of neighbors; or the address was cut off by an error and
    no later command makes up for it.  A write appends the whole line, or a part
    of it and kills the node. *)

From Stdlib Require Import Strings.Ascii.
From S2P Require Import Prelude CppStrings Doubles DoubleText Packet Runtime Edge Topology Parser SimNet Arp Posix EmulatedLink EmuNet EmuTable Trawler.

(** ** Cutting a text *)

Lemma substring_all n m m' s :
  (String.length s <= m)%nat -> (String.length s <= m')%nat ->
  String.substring n m s = String.substring n m' s.
Proof.
  revert n m m'. induction s as [|c s IH]; intros n m m' Hm Hm'; [by destruct n, m, m'|].
  cbn in Hm, Hm'. destruct m as [|m], m' as [|m']; [lia..|].
  destruct n as [|n]; cbn [String.substring].
  - f_equal. apply IH; lia.
  - apply IH; lia.
Qed.

Lemma skip_S n c s : skip (S n) (String c s) = skip n s.
Proof. unfold skip. cbn [String.substring String.length]. apply substring_all; lia. Qed.

Lemma skip_0 s : skip 0 s = s.
Proof. unfold skip. induction s as [|c s IH]; [done|]. cbn. by rewrite IH. Qed.

Lemma substring_skip n s : String.substring 0 n s +:+ skip n s = s.
Proof.
  revert s. induction n as [|n IH]; intros s.
  - rewrite skip_0. by destruct s.
  - destruct s as [|c s]; [done|]. rewrite skip_S. cbn [String.substring].
    by rewrite string_app_cons, IH.
Qed.

Lemma skip_length n s : (String.length (skip n s) <= String.length s - n)%nat.
Proof.
  revert s. induction n as [|n IH]; intros s.
  - rewrite skip_0. lia.
  - destruct s as [|c s]; [cbn; lia|]. rewrite skip_S. specialize (IH s). cbn. lia.
Qed.

Lemma string_length_app s t : String.length (s +:+ t) = (String.length s + String.length t)%nat.
Proof. induction s as [|c s IH]; [done|]. rewrite string_app_cons. cbn. by rewrite IH. Qed.

(** The text behind a prefix. *)
Fixpoint after (p s : string) : option string :=
  match p, s with
  | EmptyString, _ => Some s
  | String c p, String c' s => if Ascii.eqb c c' then after p s else None
  | String _ _, EmptyString => None
  end.

Lemma after_app p s : after p (p +:+ s) = Some s.
Proof. induction p as [|c p IH]; [done|]. rewrite string_app_cons. cbn. by rewrite Ascii.eqb_refl. Qed.

Lemma after_Some p s t : after p s = Some t -> s = p +:+ t.
Proof.
  revert s. induction p as [|c p IH]; intros s; [by intros [= <-]|].
  destruct s as [|c' s]; [done|]. cbn. destruct (Ascii.eqb_spec c c') as [->|]; [|done].
  intros Ha. rewrite string_app_cons. f_equal. by apply IH.
Qed.

(** ** Lines *)

(** A line that is read as it was written. *)
Definition proper_line (line : string) : Prop :=
  has_char "010" line = false /\ chomp line = line /\ line <> EmptyString.

Lemma lines_of_line line s :
  has_char "010" line = false -> lines_of (line +:+ newline +:+ s) = line :: lines_of s.
Proof.
  induction line as [|c line IH]; intros Hl; [done|]. cbn in Hl.
  apply orb_false_iff in Hl as [Hc Hl]. rewrite string_app_cons. cbn [lines_of].
  by rewrite Hc, IH.
Qed.

Lemma tail_of_line line s :
  has_char "010" line = false -> tail_of (line +:+ newline +:+ s) = tail_of s.
Proof.
  induction line as [|c line IH]; intros Hl; [done|]. cbn in Hl.
  apply orb_false_iff in Hl as [Hc Hl]. rewrite string_app_cons. cbn [tail_of].
  by rewrite Hc, lines_of_line, IH.
Qed.

(** Printable lines with spaces. *)
Fixpoint printable_text (s : string) : bool :=
  match s with
  | EmptyString => true
  | String c s => (32 <=? Z.of_N (N_of_ascii c)) && printable_text s
  end.

Lemma printable_app s t : printable_text (s +:+ t) = printable_text s && printable_text t.
Proof.
  induction s as [|c s IH]; [done|]. rewrite string_app_cons. cbn. by rewrite IH, andb_assoc.
Qed.

Lemma graphic_printable s : graphic s = true -> printable_text s = true.
Proof.
  induction s as [|c s IH]; [done|]. cbn. intros [Hc Hs]%andb_true_iff.
  rewrite IH by done. apply Z.leb_le in Hc. rewrite andb_true_r. apply Z.leb_le. lia.
Qed.

Lemma printable_no_char c s :
  Z.of_N (N_of_ascii c) < 32 -> printable_text s = true -> has_char c s = false.
Proof.
  intros Hc. induction s as [|c' s IH]; [done|]. cbn. intros [Hp Hs]%andb_true_iff.
  rewrite IH by done. rewrite orb_false_r. apply Z.leb_le in Hp.
  destruct (Ascii.eqb_spec c' c) as [->|]; [lia|done].
Qed.

Lemma chomp_no_cr s : has_char "013" s = false -> chomp s = s.
Proof.
  induction s as [|c s IH]; [done|]. cbn [has_char chomp]. intros [Hc Hs]%orb_false_iff.
  destruct s as [|c' s]; [by rewrite Hc|]. by rewrite IH.
Qed.

Lemma printable_proper s : printable_text s = true -> s <> EmptyString -> proper_line s.
Proof.
  intros Hp Hne. split; [by apply printable_no_char|]. split; [|done].
  by apply chomp_no_cr, printable_no_char.
Qed.

Lemma printable_unwords l :
  Forall word l -> printable_text (unwords l) = true.
Proof.
  induction 1 as [|w l [Hw _] Hl IH]; [done|]. apply graphic_printable in Hw.
  destruct l as [|w' l]; [done|]. change (unwords (w :: w' :: l)) with (w +:+ " " +:+ unwords (w' :: l)).
  by rewrite !printable_app, Hw, IH.
Qed.

(** ** The commands are such lines *)

(** A command begins with a letter. *)
Definition letter (c : ascii) : bool := 96 <? Z.of_N (N_of_ascii c).

Definition starts_letter (s : string) : Prop :=
  match s with EmptyString => True | String c _ => letter c = true end.

Definition command_line (line : string) : Prop :=
  proper_line line /\ starts_letter line.

Lemma add_is_command id ip prt : word ip -> command_line (addNeighbor id ip prt).
Proof.
  intros Hip. split; [|done]. apply printable_proper; [|done].
  rewrite addNeighbor_words. by apply printable_unwords, add_words_ok.
Qed.

Lemma add_options_is_command id ip prt o :
  word ip -> command_line (addNeighborOptions id ip prt o).
Proof.
  intros Hip. split; [|done]. apply printable_proper; [|done].
  rewrite addNeighborOptions_words. by apply printable_unwords, option_words_ok.
Qed.

Lemma remove_is_command id : command_line (removeNeighbor id).
Proof.
  split; [|done]. apply printable_proper; [|done]. rewrite removeNeighbor_words.
  apply printable_unwords. arp_words.
Qed.

Lemma reset_is_command : command_line reset_command.
Proof. split; [|done]. by apply printable_proper. Qed.

(** ** The text of a connection *)

Definition greeting (addr : Z) : string := to_string addr +:+ newline.

(** The table that the commands in the text of a connection make. *)
Definition told_by (addr : Z) (wire : string) : option Neighbors :=
  match after (greeting addr) wire with
  | Some text => if String.eqb (tail_of text) EmptyString then Some (read_table (lines_of text) ∅) else None
  | None => None
  end.

(** The greeting is incomplete, and no command completes it. *)
Definition garbled (addr : Z) (wire : string) : Prop :=
  forall rest, starts_letter rest -> after (greeting addr) (wire +:+ rest) = None.

Definition whole (addr : Z) (wire : string) : Prop :=
  exists text, wire = greeting addr +:+ text /\ tail_of text = EmptyString.

Lemma told_whole addr text :
  tail_of text = EmptyString ->
  told_by addr (greeting addr +:+ text) = Some (read_table (lines_of text) ∅).
Proof. intros Ht. unfold told_by. by rewrite after_app, Ht. Qed.

Lemma told_garbled addr wire : garbled addr wire -> told_by addr wire = None.
Proof.
  intros Hg. unfold told_by. specialize (Hg EmptyString I). rewrite string_app_nil_r in Hg.
  by rewrite Hg.
Qed.

(** A whole line more. *)
Lemma told_line addr wire line :
  command_line line -> whole addr wire \/ garbled addr wire ->
  let wire' := wire +:+ line +:+ newline in
  (whole addr wire' \/ garbled addr wire') /\
  told_by addr wire' = table_step line <$> told_by addr wire.
Proof.
  intros [(Hlf & Hcr & Hne) Hst] [(text & -> & Ht)|Hg] wire'.
  - assert (Hw : wire' = greeting addr +:+ (text +:+ line +:+ newline))
      by (unfold wire'; by rewrite string_app_assoc).
    assert (Htail : tail_of (text +:+ line +:+ newline) = EmptyString).
    { rewrite tail_of_app, Ht. change (EmptyString +:+ ?s) with s.
      rewrite <- (string_app_nil_r newline) at 1. by rewrite tail_of_line. }
    split; [left; by eexists|]. rewrite Hw, !told_whole by done. cbn. f_equal.
    rewrite lines_of_app, Ht. change (EmptyString +:+ ?s) with s.
    rewrite <- (string_app_nil_r newline), lines_of_line by done.
    unfold read_table. rewrite fold_left_app. cbn. by rewrite Hcr.
  - assert (Hg' : garbled addr wire').
    { intros rest Hr. unfold wire'. rewrite !string_app_assoc. apply Hg. by destruct line. }
    split; [by right|]. by rewrite !told_garbled.
Qed.

Lemma letter_differs d c : letter d = false -> letter c = true -> Ascii.eqb d c = false.
Proof. intros Hd Hc. destruct (Ascii.eqb_spec d c) as [->|]; congruence. Qed.

Lemma to_string_no_letter z c : letter c = true -> has_char c (to_string z) = false.
Proof.
  intros Hc.
  assert (forall d, has_char c (DecimalString.NilEmpty.string_of_uint d) = false) as Hu.
  { induction d; [done|..]; cbn [DecimalString.NilEmpty.string_of_uint has_char];
      rewrite IHd, orb_false_r; by apply letter_differs. }
  unfold to_string. destruct (Z.to_int z) as [d|d]; cbn -[Ascii.eqb];
    destruct d; cbn -[Ascii.eqb DecimalString.NilEmpty.string_of_uint];
    rewrite ?Hu, ?orb_false_r; repeat (apply orb_false_iff; split);
    first [done | by apply letter_differs | exact (Hu _)].
Qed.

Lemma greeting_no_letter addr c : letter c = true -> has_char c (greeting addr) = false.
Proof.
  intros Hc. unfold greeting. rewrite has_char_app, to_string_no_letter by done.
  cbn -[Ascii.eqb]. rewrite orb_false_r. by apply letter_differs.
Qed.

(** The beginning of a greeting, cut off. *)
Lemma cut_garbled addr p q :
  greeting addr = p +:+ q -> q <> EmptyString -> garbled addr p.
Proof.
  intros Hg Hq rest Hr. rewrite Hg.
  assert (Hno : forall c, letter c = true -> has_char c q = false).
  { intros c Hc. pose proof (greeting_no_letter addr c Hc) as Hn. rewrite Hg in Hn.
    rewrite has_char_app in Hn. by apply orb_false_iff in Hn as [_ Hn]. }
  clear Hg. induction p as [|c p IH].
  - destruct q as [|c q]; [done|]. destruct rest as [|c' rest]; [done|]. cbn -[Ascii.eqb letter] in Hr |- *.
    specialize (Hno c' Hr). cbn -[Ascii.eqb] in Hno. apply orb_false_iff in Hno as [Hno _].
    change (after (String c q) (String c' rest) = None). cbn [after]. by rewrite Hno.
  - rewrite !string_app_cons. cbn. by rewrite Ascii.eqb_refl.
Qed.
