(* ===== verification/TrawlerRun.v ===== *)
(** * The state of the trawler and what its writes do to it

    The invariant of the table of nodes, what each node has been told so far,
    and the rules of the calls that write to nodes or look at the topology. *)

From Stdlib Require Import Strings.Ascii.
From S2P Require Import Prelude CppStrings Doubles DoubleText Frame Packet Runtime Edge Topology Parser SimNet Arp Posix EmulatedLink EmuNet EmuTable Trawler TrawlerText.

(** ** The topology in both modes *)

Definition topo_at (s : Trawler) : Topology :=
  default (mkTopology [] ∅ false) (instancePtr (trawler_topo s)).

(** The options of the link between two nodes, if it is up; in the mode in which
    all nodes are neighbors a pair without an edge is as good as linked. *)
Definition live (t : Topology) (a b : Z) : option EdgeOptions :=
  if isNodeAlive_ a t && isNodeAlive_ b t
  then
    match view t a b with
    | Some (up, o) => if up : bool then Some o else None
    | None => if allToAll_ t then Some default_EdgeOptions else None
    end
  else None.

Definition topo_good (t : Topology) : Prop :=
  topo_ok t /\ Forall (fun e => options_text_ok (options_ e)) (edges_ t).

Lemma view_sym t a b : view t a b = view t b a.
Proof. unfold view, lookup_edge. by rewrite find_edge_sym. Qed.

Lemma live_sym t a b : live t a b = live t b a.
Proof. unfold live. by rewrite (view_sym t a b), (andb_comm (isNodeAlive_ a t)). Qed.

(** What a search for a live edge changes: nothing that can be seen. *)
Record topo_same (t t' : Topology) : Prop := {
  tp_good : topo_good t -> topo_good t';
  tp_all : allToAll_ t' = allToAll_ t;
  tp_failed : failedNodes_ t' = failedNodes_ t;
  tp_live : topo_ok t -> forall a b, live t' a b = live t a b;
  tp_edges : allToAll_ t = false -> edges_ t' = edges_ t
}.

Lemma topo_same_refl t : topo_same t t.
Proof. by constructor. Qed.

Lemma topo_same_trans t1 t2 t3 : topo_good t1 -> topo_same t1 t2 -> topo_same t2 t3 -> topo_same t1 t3.
Proof.
  intros Hg [G1 A1 F1 L1 E1] [G2 A2 F2 L2 E2]. constructor; [auto|congruence|congruence| |].
  - intros Hok a b. rewrite L2, L1; [done|done|]. apply G1, Hg.
  - intros Ha. rewrite E2, E1; [done|done|congruence].
Qed.

Lemma default_text_ok : options_text_ok default_EdgeOptions.
Proof. split; [vm_compute; reflexivity|]. unfold LONG_MIN, LONG_MAX, INT_MIN, INT_MAX. cbn. lia. Qed.

Lemma push_same t a b seed :
  allToAll_ t = true -> find_edge a b (edges_ t) = None ->
  topo_same t (set_edges (edges_ t ++ [new_Edge a b default_EdgeOptions seed]) t).
Proof.
  intros Ha Hf. constructor; [|done|done| |congruence].
  - intros [Hok Ho]. split; [by eapply topo_ok_push|]. apply Forall_app_2; [done|].
    constructor; [apply default_text_ok|constructor].
  - intros Hok x y. unfold live, isNodeAlive_, view.
    rewrite (lookup_edge_push t a b x y); [|done|apply isEdge_spec; by left].
    cbn [failedNodes_ allToAll_ set_edges]. case_decide as Hp; [|done].
    assert (Hn : lookup_edge x y t = None)
      by (unfold lookup_edge; by rewrite <- (find_edge_pair a b x y), Hf).
    by rewrite Hn, Ha.
Qed.

(** The search, in both modes. *)
Lemma getLiveEdge_any a b st :
  topo_ok (this_ st) ->
  exists r st', getLiveEdge a b st = (Ret r, st') /\ topo_same (this_ st) (this_ st') /\
    tout_ st' = tout_ st /\
    match r with
    | Some i => exists e, edges_ (this_ st') !! i = Some e /\ live (this_ st) a b = Some (options_ e)
    | None => live (this_ st) a b = None
    end.
Proof.
  intros Hok. unfold getLiveEdge. unfold bind at 1. rewrite getEdge_run. unfold live, view, lookup_edge.
  destruct (find_edge a b _) as [i|] eqn:Hf.
  - destruct (find_edge_Some _ _ _ _ Hf) as (e & Hi & He).
    unfold deref_edge, topo_get, bind, gets. rewrite Hi. cbn.
    destruct (live_ e), (isNodeAlive_ a (this_ st)), (isNodeAlive_ b (this_ st)); cbn;
      (do 2 eexists; split; [reflexivity|]; split; [apply topo_same_refl|]; split; [done|]);
      first [done|by exists e].
  - destruct (allToAll_ (this_ st)) eqn:Ha.
    + unfold deref_edge, topo_get, bind, gets. cbn [this_ set_this set_edges edges_ seeds_ eta_TopoSt].
      cbn. rewrite list_lookup_middle by done. cbn.
      pose proof (push_same _ a b (seeds_ st O) Ha Hf) as Hs.
      set (t' := set_edges _ _) in *. unfold isNodeAlive_ in *. cbn.
      destruct (bool_decide (a ∈ _)), (bool_decide (b ∈ _)); cbn;
        (do 2 eexists; split; [reflexivity|]; split; [exact Hs|]; split; [done|]); try done.
      eexists. split; [by apply list_lookup_middle|done].
    + cbn. do 2 eexists. split; [reflexivity|]. split; [apply topo_same_refl|]. split; [done|].
      by destruct (_ && _).
Qed.

(** ** The state *)

(** A node's entry in the table: its connection is its own, and the text of it
    is sane as long as the node lives. *)
Record node_good (k : Z) (n : EmulatedNode) (texts : list string) : Prop := {
  ng_addr : fishAddr_ n = k;
  ng_range : 0 <= k < BROADCAST_ADDRESS;
  ng_end : neighbor_ok k (ipAddress_ n) (udpPort_ n);
  ng_text : exists fd text, tcpFd_ n = Some fd /\ texts !! fd = Some text /\
    (alive_ n = true -> whole k text \/ garbled k text)
}.

Record trawler_ok (s : Trawler) : Prop := {
  tk_topo : topo_good (topo_at s);
  tk_node : forall k n, emulatedNodes_ s !! k = Some n -> node_good k n (wires s);
  tk_fd : forall k k' n n', emulatedNodes_ s !! k = Some n -> emulatedNodes_ s !! k' = Some n' ->
    tcpFd_ n = tcpFd_ n' -> k = k'
}.

(** The end points of the nodes. *)
Definition roster (s : Trawler) : gmap Z (string * Z) :=
  (fun n => (ipAddress_ n, udpPort_ n)) <$> emulatedNodes_ s.

(** What a node knows of its neighbors once it has read what was written; dead
    nodes and nodes that were not even told their address know nothing. *)
Definition told (s : Trawler) (k : Z) : option Neighbors :=
  n ← emulatedNodes_ s !! k;
  if isAlive n then fd ← tcpFd_ n; text ← wires s !! fd; told_by k text else None.

Lemma roster_some s k : is_Some (roster s !! k) <-> is_Some (emulatedNodes_ s !! k).
Proof. unfold roster. rewrite lookup_fmap. apply fmap_is_Some. Qed.

(** What the writes have nothing to do with. *)
Definition private (s : Trawler) : option (list string) * (nat -> Z) :=
  (trawlerParser_ s, trawler_clock s).

(** A connection of no node. *)
Definition unowned (fd : nat) (s : Trawler) : Prop :=
  forall k n, emulatedNodes_ s !! k = Some n -> tcpFd_ n <> Some fd.

(** Such a connection stays one, and nothing is written to it. *)
Definition wires_kept (s s' : Trawler) : Prop :=
  length (wires s') = length (wires s) /\
  forall fd, unowned fd s -> unowned fd s' /\ wires s' !! fd = wires s !! fd.

#[export] Instance wires_kept_preorder : PreOrder wires_kept.
Proof.
  split; [by split|]. intros s1 s2 s3 [L1 F1] [L2 F2]. split; [congruence|].
  intros fd Hfd. destruct (F1 fd Hfd) as [Hu <-]. by apply F2.
Qed.

Definition dead_node (s : Trawler) (k : Z) : Prop :=
  exists n, emulatedNodes_ s !! k = Some n /\ isAlive n = false.

(** Every call of [send] takes something. *)
Definition sends_fine (s : Trawler) : Prop :=
  forall i, exists m, trawler_sends s i = Took m /\ 0 < m.

(** Then nobody dies, and nobody is cut off. *)
Definition unharmed (s s' : Trawler) : Prop :=
  sends_fine s ->
  sends_fine s' /\ emulatedNodes_ s' = emulatedNodes_ s /\
  forall k, is_Some (told s k) -> is_Some (told s' k).

#[export] Instance unharmed_preorder : PreOrder unharmed.
Proof.
  split; [by intros s|]. intros s1 s2 s3 H1 H2 Hf. destruct (H1 Hf) as (F2 & N2 & T2).
  destruct (H2 F2) as (F3 & N3 & T3). split; [done|]. split; [congruence|auto].
Qed.

(** A call that changes at most what the node [key] knows, by [f], or kills it. *)
Record wrote (key : Z) (f : Neighbors -> Neighbors) (s s' : Trawler) : Prop := {
  wr_topo : trawler_topo s' = trawler_topo s;
  wr_roster : roster s' = roster s;
  wr_private : private s' = private s;
  wr_wires : wires_kept s s';
  wr_dead : forall k, dead_node s k -> dead_node s' k;
  wr_told : forall k, k <> key -> told s' k = told s k;
  wr_key : told s' key = None \/ told s' key = f <$> told s key;
  wr_fine : unharmed s s'
}.

(** ** The loop that writes *)

Definition after_sends (fd : nat) (p : string) (m : nat) (s : Trawler) : Trawler :=
  set_wires (alter (fun text => text +:+ p) fd (wires s))
    (set_trawler_sends (fun i => trawler_sends s (m + i)%nat) s).

Lemma alter_id_string fd (l : list string) : alter (fun text => text +:+ EmptyString) fd l = l.
Proof. apply list_alter_id. intros x. apply string_app_nil_r. Qed.

Lemma alter_twice fd p q (l : list string) :
  alter (fun text => text +:+ q) fd (alter (fun text => text +:+ p) fd l) =
  alter (fun text => text +:+ (p +:+ q)) fd l.
Proof.
  revert fd. induction l as [|x l IH]; intros [|fd]; cbn; [done..|by rewrite string_app_assoc|].
  f_equal. apply IH.
Qed.

Lemma after_sends_0 fd s : after_sends fd EmptyString 0 s = s.
Proof. unfold after_sends. rewrite alter_id_string. by destruct s. Qed.

Lemma wp_write_all_loop fd fuel data s :
  (String.length data < fuel)%nat ->
  wp (write_all_loop send_result (put_wire fd) fuel data) s
    (fun b s' => exists p q m, data = p +:+ q /\ s' = after_sends fd p m s /\
       if b : bool then q = EmptyString else q <> EmptyString /\ ~ sends_fine s)
    (fun f _ => f = Exited 141).
Proof.
  revert data s. induction fuel as [|fuel IH]; intros data s Hf; [lia|]. cbn [write_all_loop].
  destruct (String.eqb_spec data EmptyString) as [->|Hne].
  { apply wp_ret. exists EmptyString, EmptyString, O. by rewrite after_sends_0. }
  apply wp_bind. unfold send_result. apply wp_bind, wp_gets, wp_bind, wp_modify.
  set (s1 := set_trawler_sends _ s).
  destruct (trawler_sends s O) as [n|] eqn:Hs; [|by apply wp_fail]. apply wp_ret.
  destruct (Z.leb_spec n 0) as [Hn|Hn].
  { apply wp_ret. exists EmptyString, data, 1%nat. split; [done|]. split; [|split; [done|]].
    - unfold after_sends. rewrite alter_id_string. by destruct s.
    - intros Hfine. destruct (Hfine O) as (m & Hm & Hpos). rewrite Hs in Hm. injection Hm as ->. lia. }
  apply wp_bind. unfold put_wire. apply wp_modify.
  assert (Hlen : (String.length (skip (Z.to_nat n) data) < fuel)%nat).
  { pose proof (skip_length (Z.to_nat n) data). destruct data as [|c data]; [done|].
    cbn [String.length] in *. lia. }
  eapply wp_conseq; [apply IH, Hlen| |done].
  intros b s' (p & q & m & Hd & -> & Hq).
  exists (String.substring 0 (Z.to_nat n) data +:+ p), q, (S m). split; [|split].
  - by rewrite string_app_assoc, <- Hd, substring_skip.
  - unfold after_sends. cbn. by rewrite alter_twice.
  - destruct b; [done|]. destruct Hq as [Hq Hno]. split; [done|]. intros Hfine. apply Hno.
    intros i. exact (Hfine (S i)).
Qed.

Lemma wp_write_all fd data s :
  wp (write_all send_result (put_wire fd) data) s
    (fun b s' => exists p q m, data = p +:+ q /\ s' = after_sends fd p m s /\
       if b : bool then q = EmptyString else q <> EmptyString /\ ~ sends_fine s)
    (fun f _ => f = Exited 141).
Proof. apply wp_write_all_loop. lia. Qed.

(** ** A line to a node *)

Definition dead (key : Z) (s : Trawler) : Trawler :=
  set_emulatedNodes (alter (set_alive false) key (emulatedNodes_ s)) s.

Lemma node_good_text k n texts texts' :
  node_good k n texts ->
  (forall fd, tcpFd_ n = Some fd -> texts' !! fd = texts !! fd) -> node_good k n texts'.
Proof.
  intros [Ha Hr He (fd & text & Hfd & Ht & Hw)] Hsame. constructor; [done..|].
  exists fd, text. split; [done|]. by rewrite Hsame.
Qed.

(** Text for one connection is no text for another. *)
Lemma other_text key n fd p m s k n' :
  trawler_ok s -> emulatedNodes_ s !! key = Some n -> tcpFd_ n = Some fd ->
  emulatedNodes_ s !! k = Some n' -> k <> key ->
  forall fd', tcpFd_ n' = Some fd' -> wires (after_sends fd p m s) !! fd' = wires s !! fd'.
Proof.
  intros Hs Hn Hfd Hn' Hk fd' Hfd'. cbn. apply list_lookup_alter_ne. intros <-.
  apply Hk. apply (tk_fd _ Hs _ _ _ _ Hn' Hn). congruence.
Qed.

Lemma told_other key n fd p m s k :
  trawler_ok s -> emulatedNodes_ s !! key = Some n -> tcpFd_ n = Some fd -> k <> key ->
  told (after_sends fd p m s) k = told s k.
Proof.
  intros Hs Hn Hfd Hk. unfold told. cbn [emulatedNodes_ after_sends set_wires set_trawler_sends eta_Trawler].
  destruct (emulatedNodes_ s !! k) as [n'|] eqn:Hn'; [|done]. cbn. destruct (isAlive n'); [|done].
  destruct (tcpFd_ n') as [fd'|] eqn:Hfd'; [|done]. cbn.
  pose proof (other_text _ _ _ p m _ _ _ Hs Hn Hfd Hn' Hk _ Hfd') as Hw. cbn in Hw. by rewrite Hw.
Qed.

Lemma after_sends_kept key n fd p m s :
  emulatedNodes_ s !! key = Some n -> tcpFd_ n = Some fd -> wires_kept s (after_sends fd p m s).
Proof.
  intros Hn Hfd. split; [cbn; apply length_alter|]. intros fd' Hu. split; [done|]. cbn.
  apply list_lookup_alter_ne. intros ->. by apply (Hu key n).
Qed.

Lemma dead_kept key s : wires_kept s (dead key s).
Proof.
  split; [done|]. intros fd Hu. split; [|done]. intros k n Hn. cbn in Hn.
  apply lookup_alter_Some in Hn as [(<- & n0 & Hn & ->)|[_ Hn]]; [exact (Hu key n0 Hn)|exact (Hu k n Hn)].
Qed.

(** The line is written. *)
Lemma line_written key n fd line m s :
  trawler_ok s -> emulatedNodes_ s !! key = Some n -> tcpFd_ n = Some fd -> command_line line ->
  let s' := after_sends fd (line +:+ newline) m s in
  trawler_ok s' /\ wrote key (table_step line) s s'.
Proof.
  intros Hs Hn Hfd Hl s'. destruct (tk_node _ Hs _ _ Hn) as [Ha Hr He (fd' & text & Hfd' & Ht & Hw)].
  assert (fd' = fd) as -> by congruence.
  assert (Ht' : wires s' !! fd = Some (text +:+ line +:+ newline)).
  { cbn. by rewrite list_lookup_alter_eq, Ht. }
  assert (Htold : told s' key = table_step line <$> told s key).
  { unfold told. change (emulatedNodes_ s') with (emulatedNodes_ s). rewrite Hn. cbn [mbind option_bind].
    unfold isAlive. destruct (alive_ n) eqn:Hal; [|done]. rewrite Hfd.
    cbn [andb mbind option_bind]. rewrite Ht', Ht.
    rewrite bool_decide_true by by eexists. exact (proj2 (told_line key text line Hl (Hw eq_refl))). }
  assert (Hothers : forall k, k <> key -> told s' k = told s k) by (intros k; by apply (told_other key n)).
  split; [constructor|constructor; try done].
  - apply Hs.
  - intros k n' Hn'. destruct (decide (k = key)) as [->|Hk].
    + assert (n' = n) as -> by (cbn in Hn'; congruence). constructor; [done..|].
      exists fd. eexists. split; [done|]. split; [exact Ht'|]. intros Hal.
      exact (proj1 (told_line key text line Hl (Hw Hal))).
    + apply (node_good_text k n' (wires s)); [by apply (tk_node _ Hs)|].
      by apply (other_text key n fd _ m s k n').
  - exact (tk_fd _ Hs).
  - by apply (after_sends_kept key n).
  - by right.
  - intros Hfine. split; [intros i; apply Hfine|]. split; [done|]. intros k Hk.
    destruct (decide (k = key)) as [->|Hne]; [|by rewrite Hothers]. rewrite Htold. by apply fmap_is_Some.
Qed.

(** The line is cut off. *)
Lemma line_cut key n fd p m f s :
  trawler_ok s -> emulatedNodes_ s !! key = Some n -> tcpFd_ n = Some fd -> ~ sends_fine s ->
  let s' := dead key (after_sends fd p m s) in
  trawler_ok s' /\ wrote key f s s'.
Proof.
  intros Hs Hn Hfd Hno s'.
  assert (Hkey : emulatedNodes_ s' !! key = Some (set_alive false n)).
  { cbn. by rewrite lookup_alter_eq, Hn. }
  assert (Hother : forall k, k <> key -> emulatedNodes_ s' !! k = emulatedNodes_ s !! k).
  { intros k Hk. cbn. by apply lookup_alter_ne. }
  assert (Hfds : forall k n1, emulatedNodes_ s' !! k = Some n1 ->
    exists n0, emulatedNodes_ s !! k = Some n0 /\ tcpFd_ n1 = tcpFd_ n0).
  { intros k n1 Hk. destruct (decide (k = key)) as [->|Hne].
    - rewrite Hkey in Hk. injection Hk as <-. by exists n.
    - rewrite Hother in Hk by done. by exists n1. }
  split; [constructor|constructor; try done].
  - apply Hs.
  - intros k n' Hn'. destruct (decide (k = key)) as [->|Hk].
    + rewrite Hkey in Hn'. injection Hn' as <-.
      destruct (tk_node _ Hs _ _ Hn) as [Ha Hr He (fd' & text & Hfd' & Ht & Hw)].
      constructor; [done..|]. exists fd'. cbn.
      assert (fd' = fd) as -> by congruence. eexists. split; [done|]. split; [|done].
      by rewrite list_lookup_alter_eq, Ht.
    + rewrite Hother in Hn' by done. apply (node_good_text k n' (wires s)); [by apply (tk_node _ Hs)|].
      by apply (other_text key n fd p m s k n').
  - intros k k' n1 n2 (n1' & Hn1 & ->)%Hfds (n2' & Hn2 & ->)%Hfds. by apply (tk_fd _ Hs).
  - unfold roster. cbn. rewrite (fmap_alter (fun n => (ipAddress_ n, udpPort_ n)) (set_alive false) id)
      by done. apply alter_id. done.
  - etrans; [by apply (after_sends_kept key n)|apply dead_kept].
  - intros k (n0 & Hn0 & Hd). destruct (decide (k = key)) as [->|Hk].
    + by exists (set_alive false n).
    + exists n0. by rewrite Hother.
  - intros k Hk. etrans; [|by apply (told_other key n fd p m)].
    unfold told. by rewrite Hother.
  - left. unfold told. by rewrite Hkey.
Qed.

Lemma wp_deref_node key n s (Q : EmulatedNode -> Trawler -> Prop) X :
  emulatedNodes_ s !! key = Some n -> Q n s -> wp (deref_node key) s Q X.
Proof. intros Hn HQ. unfold deref_node. apply wp_bind, wp_gets. rewrite Hn. by apply wp_ret. Qed.

Definition trawler_killed (f : fault) (_ : Trawler) : Prop := f = Exited 141.

Lemma wp_writeLine key line s :
  trawler_ok s -> is_Some (emulatedNodes_ s !! key) -> command_line line ->
  wp (writeLine key line) s (fun _ s' => trawler_ok s' /\ wrote key (table_step line) s s')
    trawler_killed.
Proof.
  intros Hs [n Hn] Hl. unfold writeLine. apply wp_bind. eapply wp_deref_node; [done|].
  destruct (tk_node _ Hs _ _ Hn) as [_ _ _ (fd & text & Hfd & _ & _)]. rewrite Hfd.
  apply wp_bind. eapply wp_conseq; [apply wp_write_all| |done].
  intros b s' (p & q & m & Hd & -> & Hq). destruct b.
  - apply wp_ret. subst q. rewrite string_app_nil_r in Hd. subst p. by apply (line_written key n).
  - apply wp_bind, wp_modify, wp_ret. destruct Hq. by apply (line_cut key n).
Qed.

(** ** What the commands do to a table *)

Lemma table_step_add_options id ip prt o t :
  neighbor_ok id ip prt -> options_text_ok o -> 0 <= id < BROADCAST_ADDRESS ->
  table_step (addNeighborOptions id ip prt o) t = <[id := (ip, prt, Some o)]> t.
Proof.
  intros Hn Ho Hid. destruct (add_options_no_other id ip prt o (proj1 (proj2 Hn))) as [Hr Hd].
  unfold table_step. rewrite Hr, Hd, receive_add_options by done. cbn [nodeId ipAddress port options].
  unfold validAddress, MAX_ADDRESS, BROADCAST_ADDRESS in *.
  by replace (_ && _) with true by lia.
Qed.

Lemma table_step_add id ip prt t :
  neighbor_ok id ip prt -> 0 <= id < BROADCAST_ADDRESS ->
  table_step (addNeighbor id ip prt) t = <[id := (ip, prt, None)]> t.
Proof.
  intros Hn Hid. destruct (add_no_other id ip prt (proj1 (proj2 Hn))) as [Hr Hd].
  unfold table_step. rewrite Hr, Hd, receive_add by done. cbn [nodeId ipAddress port options].
  unfold validAddress, MAX_ADDRESS, BROADCAST_ADDRESS in *.
  by replace (_ && _) with true by lia.
Qed.

Lemma table_step_remove id t :
  0 <= id <= INT_MAX -> table_step (removeNeighbor id) t = delete id t.
Proof.
  intros Hid. unfold table_step. rewrite (proj1 (remove_no_add id)), receive_remove
    by (unfold INT_MIN; lia). by replace (id >=? 0) with true by lia.
Qed.

Lemma table_step_reset t : table_step reset_command t = ∅.
Proof. done. Qed.

(** ** Calls on the topology *)

(** A call after which a node's table is another, or the node is dead, and the
    topology looks the same. *)
Record acted (key : Z) (f : Neighbors -> Neighbors) (s s' : Trawler) : Prop := {
  ac_topo : topo_same (topo_at s) (topo_at s');
  ac_roster : roster s' = roster s;
  ac_private : private s' = private s;
  ac_wires : wires_kept s s';
  ac_dead : forall k, dead_node s k -> dead_node s' k;
  ac_told : forall k, k <> key -> told s' k = told s k;
  ac_key : told s' key = None \/ told s' key = f <$> told s key;
  ac_fine : unharmed s s'
}.

Record looked (s s' : Trawler) : Prop := {
  lo_topo : topo_same (topo_at s) (topo_at s');
  lo_nodes : emulatedNodes_ s' = emulatedNodes_ s;
  lo_wires : wires s' = wires s;
  lo_private : private s' = private s;
  lo_sends : trawler_sends s' = trawler_sends s
}.

Lemma looked_told s s' k : looked s s' -> told s' k = told s k.
Proof. intros [_ Hn Hw _ _]. unfold told. by rewrite Hn, Hw. Qed.

Lemma looked_unharmed s s' : looked s s' -> unharmed s s'.
Proof.
  intros Hl Hf. split; [intros i; rewrite (lo_sends _ _ Hl); apply Hf|]. split; [apply Hl|].
  intros k. by rewrite (looked_told _ _ _ Hl).
Qed.

Lemma looked_ok s s' : looked s s' -> trawler_ok s -> trawler_ok s'.
Proof.
  intros [Ht Hn Hw _ _] [Hg Hk Hf]. constructor; [by apply Ht|rewrite Hn, Hw; done|by rewrite Hn].
Qed.

Lemma looked_kept s s' : looked s s' -> wires_kept s s'.
Proof.
  intros [_ Hn Hw _ _]. split; [by rewrite Hw|]. intros fd Hu. rewrite Hw. split; [|done].
  intros k n. rewrite Hn. apply Hu.
Qed.

Lemma acted_looked key f s s1 s2 :
  trawler_ok s -> looked s s1 -> wrote key f s1 s2 -> acted key f s s2.
Proof.
  intros Hs Hl [Wt Wr Wd Ww Wl Wo Wk Wf].
  assert (Hsame : forall k, told s1 k = told s k) by (intros k; by apply looked_told).
  assert (Hto : topo_at s2 = topo_at s1) by (unfold topo_at; by rewrite Wt).
  constructor.
  - rewrite Hto. apply Hl.
  - rewrite Wr. unfold roster. by rewrite (lo_nodes _ _ Hl).
  - rewrite Wd. apply Hl.
  - etrans; [|exact Ww]. by apply looked_kept.
  - intros k Hk. apply Wl. unfold dead_node. by rewrite (lo_nodes _ _ Hl).
  - intros k Hk. by rewrite Wo, Hsame.
  - by rewrite Hsame in Wk.
  - etrans; [by apply looked_unharmed|done].
Qed.

Lemma wp_getLiveEdge a b s (Q : option nat -> Trawler -> Prop) X :
  trawler_ok s ->
  (forall r s', looked s s' ->
     match r with
     | Some i => exists e, edges_ (topo_at s') !! i = Some e /\
         live (topo_at s) a b = Some (options_ e)
     | None => live (topo_at s) a b = None
     end -> Q r s') ->
  wp (on_topology (getLiveEdge a b)) s Q X.
Proof.
  intros Hs HQ. unfold wp, on_topology, zoom, with_instance.
  assert ((match instancePtr (trawler_topo s) with
    | Some t => t | None => mkTopology [] ∅ false end) = topo_at s) as ->
    by (unfold topo_at; by destruct (instancePtr _)).
  set (st := mkTopoSt _ _ _).
  destruct (getLiveEdge_any a b st (proj1 (tk_topo _ Hs))) as (r & st' & Hrun & Hsame & Hout & Hr).
  rewrite Hrun. apply HQ; [|exact Hr]. by constructor.
Qed.

(** An index that has just been found. *)
Lemma wp_edge_at i e s (Q : Edge -> Trawler -> Prop) X :
  edges_ (topo_at s) !! i = Some e -> (forall s', looked s s' -> Q e s') ->
  wp (on_topology (deref_edge i)) s Q X.
Proof.
  intros He HQ. unfold wp, on_topology, zoom, with_instance.
  assert ((match instancePtr (trawler_topo s) with
    | Some t => t | None => mkTopology [] ∅ false end) = topo_at s) as ->
    by (unfold topo_at; by destruct (instancePtr _)).
  unfold deref_edge, topo_get, bind, gets. cbn. rewrite He. cbn. apply HQ.
  by constructor.
Qed.

Lemma looked_trans s1 s2 s3 : trawler_ok s1 -> looked s1 s2 -> looked s2 s3 -> looked s1 s3.
Proof.
  intros Hs [T1 N1 W1 R1 F1] [T2 N2 W2 R2 F2]. constructor; [|congruence..].
  eapply topo_same_trans; [apply Hs|done|done].
Qed.

Lemma live_text_ok t a b o : topo_good t -> live t a b = Some o -> options_text_ok o.
Proof.
  intros [_ Hf] Hl. unfold live in Hl. destruct (_ && _); [|done].
  unfold view, lookup_edge in Hl. destruct (find_edge a b (edges_ t)) as [i|].
  - destruct (edges_ t !! i) as [e|] eqn:He; cbn in Hl.
    + destruct (live_ e); [|done]. injection Hl as <-. by apply (Forall_lookup_1 _ _ _ _ Hf He).
    + destruct (allToAll_ t); [|done]. injection Hl as <-. apply default_text_ok.
  - cbn in Hl. destruct (allToAll_ t); [|done]. injection Hl as <-. apply default_text_ok.
Qed.

(** ** Adding a neighbor *)

Lemma wp_sendAddNeighbor key peer p s :
  trawler_ok s -> is_Some (emulatedNodes_ s !! key) -> emulatedNodes_ s !! peer = Some p ->
  wp (sendAddNeighbor key peer) s
    (fun _ s' => trawler_ok s' /\
       acted key (insert peer (ipAddress_ p, udpPort_ p, live (topo_at s) key peer)) s s')
    trawler_killed.
Proof.
  intros Hs [n Hn] Hp. destruct (tk_node _ Hs _ _ Hn) as [Ha _ _ _].
  destruct (tk_node _ Hs _ _ Hp) as [Hpa Hpr Hpe _].
  unfold sendAddNeighbor. apply wp_bind. eapply wp_deref_node; [done|].
  apply wp_bind. eapply wp_deref_node; [done|]. rewrite Ha, Hpa.
  apply wp_bind, wp_getLiveEdge; [done|]. intros r s1 H1 Hr.
  assert (Hwrite : forall line o s2, looked s s2 -> live (topo_at s) key peer = o ->
    command_line line ->
    (forall t, table_step line t = <[peer := (ipAddress_ p, udpPort_ p, o)]> t) ->
    wp (writeLine key line) s2
      (fun _ s' => trawler_ok s' /\
         acted key (insert peer (ipAddress_ p, udpPort_ p, live (topo_at s) key peer)) s s')
      trawler_killed).
  { intros line o s2 H2 <- Hline Hstep. eapply wp_conseq.
    - apply wp_writeLine; [by eapply looked_ok| |done]. rewrite (lo_nodes _ _ H2). by eexists.
    - intros b s3 [Hok [Wt Wr Wd Ww Wl Wo Wk Wf]]. split; [done|]. apply (acted_looked _ _ _ s2); [done..|].
      constructor; [done..| |done]. destruct Wk as [Wk|Wk]; [by left|right]. rewrite Wk.
      destruct (told s2 key); [|done]. cbn. by rewrite Hstep.
    - done. }
  apply wp_bind. destruct r as [i|].
  - destruct Hr as (e & He & Hl). apply wp_bind. eapply wp_edge_at; [done|]. intros s2 H2.
    apply wp_ret. pose proof (looked_trans _ _ _ Hs H1 H2) as H3.
    eapply Hwrite; [done|exact Hl| |].
    + apply add_options_is_command, Hpe.
    + intros t. apply table_step_add_options; [done|by eapply live_text_ok; [apply Hs|]|done].
  - apply wp_ret. eapply Hwrite; [done|exact Hr| |].
    + apply add_is_command, Hpe.
    + intros t. by apply table_step_add.
Qed.

Lemma wp_sendRemoveNeighbor key addr s :
  trawler_ok s -> is_Some (emulatedNodes_ s !! key) -> 0 <= addr <= INT_MAX ->
  wp (sendRemoveNeighbor key addr) s
    (fun _ s' => trawler_ok s' /\ acted key (delete addr) s s') trawler_killed.
Proof.
  intros Hs Hn Ha. eapply wp_conseq; [apply wp_writeLine; [done|done|apply remove_is_command]| |done].
  intros b s' [Hok [Wt Wr Wd Ww Wl Wo Wk Wf]]. split; [done|].
  apply (acted_looked _ _ _ s); [done|by constructor; [apply topo_same_refl|..]|].
  constructor; [done..| |done]. destruct Wk as [Wk|Wk]; [by left|right]. rewrite Wk.
  destruct (told s key); [|done]. cbn. by rewrite table_step_remove.
Qed.

Lemma wp_sendReset key s :
  trawler_ok s -> is_Some (emulatedNodes_ s !! key) ->
  wp (sendReset key) s
    (fun _ s' => trawler_ok s' /\ acted key (fun _ => ∅) s s') trawler_killed.
Proof.
  intros Hs Hn. eapply wp_conseq; [apply wp_writeLine; [done|done|apply reset_is_command]| |done].
  intros b s' [Hok Hw]. split; [done|].
  apply (acted_looked _ _ _ s); [done|by constructor; [apply topo_same_refl|..]|exact Hw].
Qed.

Lemma wp_has_live_edge a b s (Q : bool -> Trawler -> Prop) X :
  trawler_ok s ->
  (forall s', looked s s' -> Q (bool_decide (is_Some (live (topo_at s) a b))) s') ->
  wp (has_live_edge a b) s Q X.
Proof.
  intros Hs HQ. unfold has_live_edge. apply wp_bind, wp_getLiveEdge; [done|].
  intros r s' Hl Hr. apply wp_ret.
  replace (bool_decide (is_Some r)) with (bool_decide (is_Some (live (topo_at s) a b)));
    [by apply HQ|]. apply bool_decide_ext. destruct r.
  - destruct Hr as (e & _ & ->). split; by eexists.
  - rewrite Hr. split; by intros [].
Qed.
