(* ===== verification/TrawlerInv.v ===== *)
(** * The tables of the nodes

    What the table of every node should be, given the topology and the nodes
    that are there, and how each operation of the trawler brings the tables to
    it.  An operation is described by the entries it may have changed; a node
    that a write has failed on is out of the account for good. *)

From S2P Require Import Prelude CppStrings Doubles DoubleText Packet Runtime Edge Topology Parser SimNet Arp Posix EmulatedLink EmuNet EmuTable Trawler TrawlerText TrawlerRun.

(** ** The tables as they should be *)

(** A node's entry for another: its end point, with the options of the link that
    is up between the two. *)
Definition entry (s : Trawler) (k j : Z) : option (string * Z * option EdgeOptions) :=
  match roster s !! j, live (topo_at s) k j with
  | Some (ip, prt), Some o => Some (ip, prt, Some o)
  | _, _ => None
  end.

(** No entry is wrong. *)
Definition pair_sound (s : Trawler) (k j : Z) : Prop :=
  forall T, told s k = Some T -> T !! j = None \/ T !! j = entry s k j.

(** The entry is there. *)
Definition pair_settled (s : Trawler) (k j : Z) : Prop :=
  forall T, told s k = Some T -> T !! j = entry s k j.

Definition pair_ok (s : Trawler) (k j : Z) : Prop :=
  pair_sound s k j /\ (k <> j -> is_Some (told s j) -> pair_settled s k j).

(** Any two nodes that live have each other in their tables if and only if the
    link between them is up, with its options. *)
Definition consistent (s : Trawler) : Prop := forall k j, pair_ok s k j.

Lemma settled_sound s k j : pair_settled s k j -> pair_sound s k j.
Proof. intros H T HT. right. by apply H. Qed.

Lemma settled_ok s k j : pair_settled s k j -> pair_ok s k j.
Proof. intros H. split; [by apply settled_sound|done]. Qed.

Lemma sound_none s k j : pair_sound s k j -> entry s k j = None -> pair_settled s k j.
Proof. intros H He T HT. destruct (H T HT) as [->| ->]; [by rewrite He|done]. Qed.

(** ** Entries that change *)

(** Only entries that [R] allows are new; no node comes back to life. *)
Record moves (R : Z -> Z -> option (string * Z * option EdgeOptions) -> Prop) (s s' : Trawler)
    : Prop := {
  mv_ok : trawler_ok s';
  mv_topo : topo_same (topo_at s) (topo_at s');
  mv_roster : roster s' = roster s;
  mv_private : private s' = private s;
  mv_wires : wires_kept s s';
  mv_dead : forall k, dead_node s k -> dead_node s' k;
  mv_told : forall k T', told s' k = Some T' ->
    exists T, told s k = Some T /\ forall j, T' !! j = T !! j \/ R k j (T' !! j);
  mv_fine : unharmed s s'
}.

Section moves.
Context (R : Z -> Z -> option (string * Z * option EdgeOptions) -> Prop).

Lemma moves_refl s : trawler_ok s -> moves R s s.
Proof. constructor; try done. intros k T HT. exists T. auto. Qed.

Lemma moves_trans s1 s2 s3 : trawler_ok s1 -> moves R s1 s2 -> moves R s2 s3 -> moves R s1 s3.
Proof.
  intros Hs [O1 T1 R1 P1 W1 L1 D1 F1] [O2 T2 R2 P2 W2 L2 D2 F2].
  constructor; [done| |congruence..| |auto| |by etrans].
  - eapply topo_same_trans; [apply Hs|done|done].
  - by etrans.
  - intros k T3 H3. destruct (D2 k T3 H3) as (T2' & H2 & E2).
    destruct (D1 k T2' H2) as (T1' & H1 & E1). exists T1'. split; [done|]. intros j.
    destruct (E2 j) as [->|]; [apply E1|by right].
Qed.

Lemma moves_told s s' k : moves R s s' -> is_Some (told s' k) -> is_Some (told s k).
Proof. intros Hm [T' HT']. destruct (mv_told _ _ _ Hm _ _ HT') as (T & HT & _). by exists T. Qed.

Lemma moves_live s s' k j :
  trawler_ok s -> moves R s s' -> live (topo_at s') k j = live (topo_at s) k j.
Proof. intros Hs Hm. apply (tp_live _ _ (mv_topo _ _ _ Hm)), Hs. Qed.

Lemma moves_entry s s' k j : trawler_ok s -> moves R s s' -> entry s' k j = entry s k j.
Proof. intros Hs Hm. unfold entry. by rewrite (mv_roster _ _ _ Hm), (moves_live s s'). Qed.

Lemma moves_node s s' k :
  moves R s s' -> is_Some (emulatedNodes_ s !! k) -> is_Some (emulatedNodes_ s' !! k).
Proof. intros Hm. by rewrite <- !roster_some, (mv_roster _ _ _ Hm). Qed.

Lemma looked_moves s s' : trawler_ok s -> looked s s' -> moves R s s'.
Proof.
  intros Hs Hl. constructor; [by eapply looked_ok| | | | | | |by apply looked_unharmed].
  - apply Hl.
  - unfold roster. by rewrite (lo_nodes _ _ Hl).
  - apply Hl.
  - by apply looked_kept.
  - intros k. unfold dead_node. by rewrite (lo_nodes _ _ Hl).
  - intros k T'. rewrite (looked_told s s') by done. intros HT. exists T'. auto.
Qed.

Lemma acted_moves key f s s' :
  trawler_ok s' -> acted key f s s' ->
  (forall T j, f T !! j = T !! j \/ R key j (f T !! j)) -> moves R s s'.
Proof.
  intros Hok [Ht Hr Hp Hw Hd Ho Hk Hu] Hf. constructor; [done..| |done]. intros k T' HT'.
  destruct (decide (k = key)) as [->|Hne].
  - destruct Hk as [Hk|Hk]; [congruence|]. rewrite Hk in HT'.
    apply fmap_Some in HT' as (T & HT & ->). exists T. split; [done|]. apply Hf.
  - rewrite Ho in HT' by done. exists T'. auto.
Qed.

(** An entry that does not change. *)
Lemma moves_same s s' k j T' :
  moves R s s' -> (forall v, ~ R k j v) -> told s' k = Some T' ->
  exists T, told s k = Some T /\ T' !! j = T !! j.
Proof.
  intros Hm Hno HT'. destruct (mv_told _ _ _ Hm _ _ HT') as (T & HT & HR). exists T.
  split; [done|]. destruct (HR j) as [|HR']; [done|by destruct (Hno _ HR')].
Qed.

Lemma moves_pair s s' k j :
  trawler_ok s -> moves R s s' -> (forall v, ~ R k j v) -> pair_ok s k j -> pair_ok s' k j.
Proof.
  intros Hs Hm Hno [Hp Hq]. split.
  - intros T' HT'. destruct (moves_same _ _ _ _ _ Hm Hno HT') as (T & HT & ->).
    rewrite (moves_entry s s') by done. by apply Hp.
  - intros Hkj Hj T' HT'. destruct (moves_same _ _ _ _ _ Hm Hno HT') as (T & HT & ->).
    rewrite (moves_entry s s') by done. apply Hq; [done|by eapply moves_told|done].
Qed.
End moves.

Lemma moves_mono (R R' : Z -> Z -> option (string * Z * option EdgeOptions) -> Prop) s s' :
  (forall k j v, R k j v -> R' k j v) -> moves R s s' -> moves R' s s'.
Proof.
  intros HR [O1 T1 R1 P1 W1 L1 D1 F1]. constructor; [done..| |done]. intros k T' HT'.
  destruct (D1 k T' HT') as (T & HT & Hj). exists T. split; [done|]. intros j.
  destruct (Hj j); auto.
Qed.

(** New entries are right ones. *)
Definition right_in (s : Trawler) (k j : Z) (v : option (string * Z * option EdgeOptions)) : Prop :=
  v = entry s k j.

Definition evolves (s s' : Trawler) : Prop := moves (right_in s) s s'.

Lemma evolves_trans s1 s2 s3 : trawler_ok s1 -> evolves s1 s2 -> evolves s2 s3 -> evolves s1 s3.
Proof.
  intros Hs H1 H2. eapply moves_trans; [done|exact H1|]. eapply moves_mono; [|exact H2].
  intros k j v Hv. unfold right_in in *. by rewrite Hv, (moves_entry _ _ _ _ _ Hs H1).
Qed.

Section evolves.
Context (s s' : Trawler) (Hs : trawler_ok s) (He : evolves s s').
#[local] Set Default Proof Using "Type*".

Lemma evolves_sound k j : pair_sound s k j -> pair_sound s' k j.
Proof.
  intros Hp T' HT'. destruct (mv_told _ _ _ He _ _ HT') as (T & HT & Hj).
  rewrite (moves_entry _ _ _ _ _ Hs He). destruct (Hj j) as [->|Hr]; [by apply Hp|by right].
Qed.

Lemma evolves_settled k j : pair_settled s k j -> pair_settled s' k j.
Proof.
  intros Hp T' HT'. destruct (mv_told _ _ _ He _ _ HT') as (T & HT & Hj).
  rewrite (moves_entry _ _ _ _ _ Hs He). destruct (Hj j) as [->|Hr]; [by apply Hp|done].
Qed.

Lemma evolves_pair k j : pair_ok s k j -> pair_ok s' k j.
Proof.
  intros [Hp Hq]. split; [by apply evolves_sound|]. intros Hkj Hj. apply evolves_settled.
  apply Hq; [done|]. by eapply moves_told.
Qed.
End evolves.

(** ** The writes *)

Lemma told_alive s k n : emulatedNodes_ s !! k = Some n -> is_Some (told s k) -> isAlive n = true.
Proof. unfold told. intros Hn [T HT]. rewrite Hn in HT. cbn in HT. by destruct (isAlive n). Qed.

Lemma node_alive s k n :
  trawler_ok s -> emulatedNodes_ s !! k = Some n -> isAlive n = alive_ n.
Proof.
  intros Hs Hn. destruct (tk_node _ Hs _ _ Hn) as [_ _ _ (fd & text & Hfd & _)].
  unfold isAlive. rewrite Hfd, bool_decide_true by by eexists. apply andb_true_r.
Qed.

(** What a command to add a neighbor says: over a link that is down it has no
    options. *)
Definition introduction (s : Trawler) (k j : Z) : option (string * Z * option EdgeOptions) :=
  (fun ep => (ep.1, ep.2, live (topo_at s) k j)) <$> roster s !! j.

Lemma introduction_entry s k j :
  is_Some (live (topo_at s) k j) -> introduction s k j = entry s k j.
Proof.
  unfold introduction, entry. intros [o ->]. by destruct (roster s !! j) as [[ip prt]|].
Qed.

Lemma wp_add R key peer s :
  trawler_ok s -> is_Some (emulatedNodes_ s !! key) -> is_Some (emulatedNodes_ s !! peer) ->
  R key peer (introduction s key peer) ->
  wp (sendAddNeighbor key peer) s
    (fun _ s' => moves R s s' /\ (is_Some (live (topo_at s) key peer) -> pair_settled s' key peer))
    trawler_killed.
Proof.
  intros Hs Hk [p Hp] HR.
  assert (Hi : introduction s key peer =
    Some (ipAddress_ p, udpPort_ p, live (topo_at s) key peer)).
  { unfold introduction, roster. by rewrite lookup_fmap, Hp. }
  eapply wp_conseq; [by apply wp_sendAddNeighbor|intros b s' [Hok Ha]; cbv beta|done].
  assert (Hm : moves R s s').
  { eapply acted_moves; [done|exact Ha|]. intros T j.
    destruct (decide (j = peer)) as [->|Hj].
    - right. rewrite Hi in HR.
      replace (_ !! peer) with (Some (ipAddress_ p, udpPort_ p, live (topo_at s) key peer));
        [done|]. symmetry. apply lookup_insert_eq.
    - left. by apply lookup_insert_ne. }
  split; [done|]. intros Hl T' HT'.
  rewrite (moves_entry _ _ _ _ _ Hs Hm), <- introduction_entry, Hi by done.
  destruct (ac_key _ _ _ _ Ha) as [Hd|Hd]; [congruence|]. rewrite Hd in HT'.
  apply fmap_Some in HT' as (T & HT & ->). apply lookup_insert_eq.
Qed.

(** Over a live link the entry is the right one. *)
Lemma wp_add_right key peer s :
  trawler_ok s -> is_Some (emulatedNodes_ s !! key) -> is_Some (emulatedNodes_ s !! peer) ->
  is_Some (live (topo_at s) key peer) ->
  wp (sendAddNeighbor key peer) s
    (fun _ s' => evolves s s' /\ pair_settled s' key peer) trawler_killed.
Proof.
  intros Hs Hk Hp Hl. eapply wp_conseq; [apply (wp_add (right_in s)); [done..|]| |done].
  - by apply introduction_entry.
  - intros b s' [Hm Hset]. split; [exact Hm|by apply Hset].
Qed.

Section removals.
Context (R : Z -> Z -> option (string * Z * option EdgeOptions) -> Prop).

Definition gone (s : Trawler) (k j : Z) : Prop :=
  forall T, told s k = Some T -> T !! j = None.

Lemma wp_remove key addr s :
  trawler_ok s -> is_Some (emulatedNodes_ s !! key) -> 0 <= addr <= INT_MAX -> R key addr None ->
  wp (sendRemoveNeighbor key addr) s
    (fun _ s' => moves R s s' /\ gone s' key addr) trawler_killed.
Proof.
  intros Hs Hk Hr HR.
  eapply wp_conseq; [by apply wp_sendRemoveNeighbor|intros b s' [Hok Ha]; cbv beta|done].
  split.
  - eapply acted_moves; [done|exact Ha|]. intros T j.
    destruct (decide (j = addr)) as [->|Hj].
    + right. by replace (delete addr T !! addr) with (@None (string * Z * option EdgeOptions))
        by (symmetry; apply lookup_delete_eq).
    + left. by apply lookup_delete_ne.
  - intros T' HT'. destruct (ac_key _ _ _ _ Ha) as [Hd|Hd]; [congruence|]. rewrite Hd in HT'.
    apply fmap_Some in HT' as (T & HT & ->). apply lookup_delete_eq.
Qed.

Lemma wp_reset key s :
  trawler_ok s -> is_Some (emulatedNodes_ s !! key) -> (forall j, R key j None) ->
  wp (sendReset key) s
    (fun _ s' => moves R s s' /\ forall j, gone s' key j) trawler_killed.
Proof.
  intros Hs Hk HR.
  eapply wp_conseq; [by apply wp_sendReset|intros b s' [Hok Ha]; cbv beta|done].
  split.
  - eapply acted_moves; [done|exact Ha|]. intros T j. right. apply HR.
  - intros j T' HT'. destruct (ac_key _ _ _ _ Ha) as [Hd|Hd]; [congruence|]. rewrite Hd in HT'.
    by apply fmap_Some in HT' as (T & HT & ->).
Qed.

(** What is gone stays away where [R] has no entries. *)
Lemma moves_gone s s' k j :
  moves R s s' -> (forall v, R k j v -> v = None) -> gone s k j -> gone s' k j.
Proof.
  intros Hm Hno Hg T' HT'. destruct (mv_told _ _ _ Hm _ _ HT') as (T & HT & HR).
  destruct (HR j) as [->|HR']; [by apply Hg|by apply Hno].
Qed.

Section one_address.
Context `{Platform} (addr : Z) (Haddr : 0 <= addr <= INT_MAX)
  (Honly : forall k v, R k addr v -> v = None).
#[local] Set Default Proof Using "Type*".

Lemma wp_removal_for key s :
  trawler_ok s -> is_Some (emulatedNodes_ s !! key) -> R key addr None ->
  wp (removal_for addr key) s
    (fun _ s' => moves R s s' /\ (is_Some (live (topo_at s) key addr) -> gone s' key addr))
    trawler_killed.
Proof.
  intros Hs [n Hn] HR. unfold removal_for. apply wp_bind. eapply wp_deref_node; [done|].
  destruct (tk_node _ Hs _ _ Hn) as [-> _ _ _].
  apply wp_bind, wp_has_live_edge; [done|]. intros s1 H1.
  pose proof (looked_moves R _ _ Hs H1) as M1. destruct (bool_decide _ && isAlive n) eqn:Hc.
  - apply wp_bind. eapply wp_conseq;
      [apply wp_remove; [apply M1|by eapply moves_node; [exact M1|eexists]|done|done]| |done].
    intros b s2 [M2 Hg]. apply wp_ret. split; [|done]. exact (moves_trans _ _ _ _ Hs M1 M2).
  - apply wp_ret. split; [done|]. intros Hl T HT. rewrite bool_decide_true in Hc by done.
    rewrite (looked_told s s1) in HT by done.
    by rewrite (told_alive s key n Hn) in Hc by by eexists.
Qed.

Lemma wp_removal_loop keys s :
  trawler_ok s -> (forall key, key ∈ keys -> is_Some (emulatedNodes_ s !! key)) ->
  (forall key, key ∈ keys -> R key addr None) ->
  wp (removal_loop addr keys) s
    (fun _ s' => moves R s s' /\
       forall key, key ∈ keys -> is_Some (live (topo_at s) key addr) -> gone s' key addr)
    trawler_killed.
Proof.
  revert s. induction keys as [|key keys IH]; intros s Hs Hk HR; cbn [removal_loop].
  { apply wp_ret. split; [by apply moves_refl|]. intros key Hin. by apply elem_of_nil in Hin. }
  apply wp_bind. eapply wp_conseq; [apply wp_removal_for; [done|apply Hk, list_elem_of_here|apply HR, list_elem_of_here]| |done].
  intros _ s1 [M1 G1]. eapply wp_conseq; [apply IH| |done].
  - apply M1.
  - intros k Hin. by eapply moves_node, Hk, list_elem_of_further.
  - intros k Hin. by apply HR, list_elem_of_further.
  - intros _ s2 [M2 G2]. split; [exact (moves_trans _ _ _ _ Hs M1 M2)|].
    intros k [->|Hin]%elem_of_cons Hl.
    + eapply moves_gone; [exact M2|apply Honly|by apply G1].
    + apply G2; [done|]. by rewrite (moves_live R s s1).
Qed.
End one_address.
End removals.

(** Between the keys and the starting node, in both directions. *)
Definition introduced (start : Z) (s : Trawler) (key : Z) : Prop :=
  pair_settled s key start /\ (is_Some (told s key) -> pair_settled s start key).

Lemma introduced_evolves start s s' key :
  trawler_ok s -> evolves s s' -> introduced start s key -> introduced start s' key.
Proof.
  intros Hs He [H1 H2]. split; [by eapply evolves_settled|].
  intros Hk. eapply evolves_settled; [done|done|]. apply H2. by eapply moves_told.
Qed.

Lemma wp_neighbors_loop start keys s :
  trawler_ok s -> is_Some (emulatedNodes_ s !! start) ->
  (forall key, key ∈ keys -> is_Some (emulatedNodes_ s !! key)) ->
  wp (neighbors_loop start start keys) s
    (fun _ s' => evolves s s' /\
       forall key, key ∈ keys -> key <> start -> is_Some (live (topo_at s) key start) ->
         introduced start s' key)
    trawler_killed.
Proof.
  revert s. induction keys as [|key keys IH]; intros s Hs Hst Hk; cbn [neighbors_loop].
  { apply wp_ret. split; [by apply moves_refl|]. intros key Hin. by apply elem_of_nil in Hin. }
  destruct (Hk key ltac:(apply list_elem_of_here)) as [n Hn]. destruct Hst as [p Hp].
  apply wp_bind. eapply wp_deref_node; [done|]. apply wp_bind. eapply wp_deref_node; [done|].
  destruct (tk_node _ Hs _ _ Hn) as [-> _ _ _]. destruct (tk_node _ Hs _ _ Hp) as [-> _ _ _].
  apply wp_bind.
  apply wp_conseq with (Q := fun _ s1 => evolves s s1 /\
      (key <> start -> is_Some (live (topo_at s) key start) -> introduced start s1 key))
    (X := trawler_killed); [| |done].
  - destruct (Z.eqb_spec key start) as [->|Hne]; cbn [negb].
    { apply wp_ret. split; [by apply moves_refl|done]. }
    apply wp_bind, wp_has_live_edge; [done|]. intros s1 H1.
    pose proof (looked_moves (right_in s) _ _ Hs H1) as M1.
    destruct (bool_decide _) eqn:Hl; cbn [andb].
    2: { apply wp_ret. split; [done|]. intros _ Hl'. by apply bool_decide_eq_false in Hl. }
    apply bool_decide_eq_true in Hl. destruct (isAlive n) eqn:Hal.
    + assert (Hl1 : is_Some (live (topo_at s1) key start)) by by rewrite (moves_live _ _ _ _ _ Hs M1).
      apply wp_bind. eapply wp_conseq; [apply wp_add_right| |done].
      { apply M1. } { eapply moves_node; [done|by eexists]. } { eapply moves_node; [done|by eexists]. }
      { done. }
      intros _ s2 [M2 S2]. pose proof (evolves_trans _ _ _ Hs M1 M2) as M12.
      apply wp_bind. eapply wp_conseq; [apply wp_add_right| |done].
      { apply M2. } { eapply moves_node; [done|by eexists]. } { eapply moves_node; [done|by eexists]. }
      { by rewrite (moves_live _ _ _ _ _ Hs M12), live_sym. }
      intros _ s3 [M3 S3]. apply wp_ret. split; [exact (evolves_trans _ _ _ Hs M12 M3)|].
      intros _ _. split; [|done]. eapply evolves_settled; [apply M2|done|done].
    + apply wp_ret. split; [done|]. intros _ _.
      assert (Hd : told s1 key = None).
      { rewrite (looked_told s s1) by done. destruct (told s key) eqn:Ht; [|done].
        by rewrite (told_alive s key n Hn) in Hal. }
      split; [|by rewrite Hd; intros []]. intros T. by rewrite Hd.
  - intros _ s1 [M1 G1]. eapply wp_conseq; [apply IH| |done].
    + apply M1.
    + eapply moves_node; [done|by eexists].
    + intros k Hin. by eapply moves_node, Hk, list_elem_of_further.
    + intros _ s2 [M2 G2]. split; [exact (evolves_trans _ _ _ Hs M1 M2)|].
      intros k [->|Hin]%elem_of_cons Hne Hl.
      * eapply introduced_evolves; [apply M1|done|by apply G1].
      * apply G2; [done..|]. by rewrite (moves_live _ _ _ _ _ Hs M1).
Qed.

(** ** Changes of the topology *)

(** The links of the pairs in [P] may be other ones; all nodes are as before. *)
Record relinked (P : Z -> Z -> Prop) (s s' : Trawler) : Prop := {
  rl_good : topo_good (topo_at s');
  rl_all : allToAll_ (topo_at s') = allToAll_ (topo_at s);
  rl_nodes : emulatedNodes_ s' = emulatedNodes_ s;
  rl_wires : wires s' = wires s;
  rl_private : private s' = private s;
  rl_live : forall k j, ~ P k j -> live (topo_at s') k j = live (topo_at s) k j
}.

Lemma relinked_told P s s' k : relinked P s s' -> told s' k = told s k.
Proof. intros [_ _ Hn Hw _ _]. unfold told. by rewrite Hn, Hw. Qed.

Lemma relinked_ok P s s' : relinked P s s' -> trawler_ok s -> trawler_ok s'.
Proof. intros [Hg _ Hn Hw _ _] [_ Hk Hf]. constructor; [done|rewrite Hn, Hw; done|by rewrite Hn]. Qed.

Lemma relinked_roster P s s' : relinked P s s' -> roster s' = roster s.
Proof. intros [_ _ Hn _ _ _]. unfold roster. by rewrite Hn. Qed.

Lemma relinked_kept P s s' : relinked P s s' -> wires_kept s s'.
Proof.
  intros [_ _ Hn Hw _ _]. split; [by rewrite Hw|]. intros fd Hu. rewrite Hw. split; [|done].
  intros k n. rewrite Hn. apply Hu.
Qed.

(** A pair whose entry is as before is as right as before. *)
Lemma relinked_same P s s' k j :
  relinked P s s' -> entry s' k j = entry s k j -> pair_ok s k j -> pair_ok s' k j.
Proof.
  intros Hr He [Hp Hq]. unfold pair_ok, pair_sound, pair_settled in *.
  rewrite !(relinked_told _ _ _ _ Hr), He. done.
Qed.

Lemma told_node s k : is_Some (told s k) -> is_Some (emulatedNodes_ s !! k).
Proof. unfold told. intros [T HT]. destruct (emulatedNodes_ s !! k); [by eexists|done]. Qed.

Lemma roster_none s k : ~ is_Some (emulatedNodes_ s !! k) -> roster s !! k = None.
Proof. rewrite <- roster_some. by destruct (roster s !! k) as [x|]; [intros []|]. Qed.

Lemma entry_absent s k j : ~ is_Some (emulatedNodes_ s !! j) -> entry s k j = None.
Proof. intros Hj. unfold entry. by rewrite roster_none. Qed.

(** What is left to be told after a change: only pairs of nodes that are there. *)
Lemma relinked_pairs P `{forall k j, Decision (P k j)} s s' k j :
  consistent s -> relinked P s s' ->
  pair_ok s' k j \/
  (P k j /\ is_Some (emulatedNodes_ s' !! k) /\ is_Some (emulatedNodes_ s' !! j)).
Proof.
  intros Hc Hr. destruct (decide (is_Some (emulatedNodes_ s' !! k))) as [Hk|Hk].
  - destruct (decide (is_Some (emulatedNodes_ s' !! j))) as [Hj|Hj].
    + destruct (decide (P k j)) as [HP|HP]; [by right|]. left. eapply relinked_same; [done| |apply Hc].
      unfold entry. by rewrite (relinked_roster _ _ _ Hr), (rl_live _ _ _ Hr).
    + left. eapply relinked_same; [done| |apply Hc]. rewrite entry_absent by done.
      symmetry. apply entry_absent. by rewrite <- (rl_nodes _ _ _ Hr).
  - left. assert (Ht : told s' k = None).
    { destruct (told s' k) eqn:Ht; [|done]. destruct Hk. apply told_node. by eexists. }
    by split; [intros T|intros _ _ T]; rewrite Ht.
Qed.

(** A call on the topology. *)
Lemma wp_on_topology {A} (m : M TopoSt A) s a st' (Q : A -> Trawler -> Prop) X :
  m (mkTopoSt (topo_at s) (cell_seeds (trawler_topo s)) (cell_out (trawler_topo s))) = (Ret a, st') ->
  (forall s', topo_at s' = this_ st' -> emulatedNodes_ s' = emulatedNodes_ s ->
     wires s' = wires s -> private s' = private s -> Q a s') ->
  wp (on_topology m) s Q X.
Proof.
  intros Hm HQ. unfold wp, on_topology, zoom, with_instance.
  assert ((match instancePtr (trawler_topo s) with
    | Some t => t | None => mkTopology [] ∅ false end) = topo_at s) as ->
    by (unfold topo_at; by destruct (instancePtr _)).
  rewrite Hm. by apply HQ.
Qed.

(** The options of every edge can be looked up. *)
Lemma topo_good_view t :
  topo_ok t -> (forall a b up o, view t a b = Some (up, o) -> options_text_ok o) -> topo_good t.
Proof.
  intros Hok Hv. split; [done|]. apply Forall_lookup_2. intros i e Hi.
  destruct (find_edge (a_ e) (b_ e) (edges_ t)) as [j|] eqn:Hf.
  - destruct (find_edge_Some _ _ _ _ Hf) as (e' & Hj & He).
    assert (j = i) as -> by by apply (Hok j i e' e).
    apply (Hv (a_ e) (b_ e) (live_ e)). unfold view, lookup_edge. by rewrite Hf, Hi.
  - pose proof (find_edge_None _ _ _ Hf i e Hi) as Hn. unfold isEdge in Hn. lia.
Qed.

Lemma view_good t a b up o : topo_good t -> view t a b = Some (up, o) -> options_text_ok o.
Proof.
  intros [_ Hf]. unfold view, lookup_edge. destruct (find_edge a b (edges_ t)) as [i|]; [|done].
  destruct (edges_ t !! i) as [e|] eqn:He; [|done]. intros [= <- <-].
  by apply (Forall_lookup_1 _ _ _ _ Hf He).
Qed.

(** An operation that leaves the nodes and all but one pair alone. *)
Lemma relinked_pair a b s s' v :
  trawler_ok s -> topo_ok (topo_at s') ->
  failedNodes_ (topo_at s') = failedNodes_ (topo_at s) ->
  allToAll_ (topo_at s') = allToAll_ (topo_at s) ->
  (forall x y, view (topo_at s') x y =
     if decide (same_pair a b x y) then v else view (topo_at s) x y) ->
  (forall up o, v = Some (up, o) -> options_text_ok o) ->
  emulatedNodes_ s' = emulatedNodes_ s -> wires s' = wires s -> private s' = private s ->
  relinked (same_pair a b) s s'.
Proof.
  intros Hs Hok Hf Ha Hv Ho Hn Hw Hp. constructor; [|done..|].
  - apply topo_good_view; [done|]. intros x y up o. rewrite Hv. case_decide; [by apply Ho|].
    apply view_good, Hs.
  - intros k j Hkj. unfold live, isNodeAlive_. by rewrite Hf, Hv, Ha, decide_False.
Qed.
