(* ===== verification/TrawlerOps.v ===== *)
(** * The operations of the trawler

    Each hook of the command language, with the change it makes to the topology,
    leaves the tables right, if it is a hook call that a sound script makes: the
    code brings links up without looking at the nodes at their ends. *)

From S2P Require Import Prelude CppStrings Doubles DoubleText Packet Runtime Edge Topology Parser SimNet Arp Posix EmulatedLink EmuNet EmuTable Trawler TrawlerText TrawlerRun TrawlerInv.

(** ** What every operation on links and nodes keeps *)

Record kept (s s' : Trawler) : Prop := {
  kp_roster : roster s' = roster s;
  kp_private : private s' = private s;
  kp_wires : wires_kept s s';
  kp_all : allToAll_ (topo_at s') = allToAll_ (topo_at s)
}.

#[export] Instance kept_preorder : PreOrder kept.
Proof.
  split; [by constructor|]. intros s1 s2 s3 [R1 P1 W1 A1] [R2 P2 W2 A2].
  constructor; try congruence. by etrans.
Qed.

Lemma moves_kept R s s' : moves R s s' -> kept s s'.
Proof. intros [_ [_ Ha _ _ _] Hr Hp Hw _ _ _]. by constructor. Qed.

Lemma relinked_keeps P s s' : relinked P s s' -> kept s s'.
Proof.
  intros Hr. constructor; [by eapply relinked_roster|apply Hr|by eapply relinked_kept|apply Hr].
Qed.

Lemma kept_node s s' k :
  kept s s' -> is_Some (emulatedNodes_ s' !! k) <-> is_Some (emulatedNodes_ s !! k).
Proof. intros Hk. by rewrite <- !roster_some, (kp_roster _ _ Hk). Qed.

(** What is told after a change of the topology, and then is right. *)
Lemma relinked_evolves P `{forall k j, Decision (P k j)} s s1 s2 :
  consistent s -> trawler_ok s1 -> relinked P s s1 -> evolves s1 s2 ->
  (forall k j, P k j -> is_Some (emulatedNodes_ s1 !! k) -> is_Some (emulatedNodes_ s1 !! j) ->
     pair_ok s2 k j) ->
  consistent s2.
Proof.
  intros Hc Hok Hr He HP k j. destruct (relinked_pairs P s s1 k j Hc Hr) as [Hp|(Hkj & Hk & Hj)].
  - by eapply evolves_pair.
  - by apply HP.
Qed.

Lemma moves_introduction R s s' k j :
  trawler_ok s -> moves R s s' -> introduction s' k j = introduction s k j.
Proof.
  intros Hs Hm. unfold introduction. by rewrite (mv_roster _ _ _ Hm), (moves_live R s s').
Qed.

Lemma live_pair t a b k j : same_pair a b k j -> live t k j = live t a b.
Proof. intros [[-> ->]|[-> ->]]; [done|apply live_sym]. Qed.

Lemma same_pair_refl a b : same_pair a b a b.
Proof. by left. Qed.

Lemma same_pair_swap a b : same_pair a b b a.
Proof. by right. Qed.

(** ** The calls that write *)

Lemma wp_getEmulatedNode a s (Q : option Z -> Trawler -> Prop) X :
  (is_Some (emulatedNodes_ s !! a) -> Q (Some a) s) ->
  (~ is_Some (emulatedNodes_ s !! a) -> Q None s) ->
  wp (getEmulatedNode a) s Q X.
Proof.
  intros H1 H2. unfold getEmulatedNode. apply wp_bind, wp_gets, wp_ret.
  destruct (decide (is_Some (emulatedNodes_ s !! a))) as [Ha|Ha].
  - rewrite bool_decide_true by done. by apply H1.
  - rewrite bool_decide_false by done. by apply H2.
Qed.

(** Entries of the pair; right ones if the link is up. *)
Definition of_pair (s : Trawler) (a b k j : Z) (v : option (string * Z * option EdgeOptions)) : Prop :=
  same_pair a b k j /\ (is_Some (live (topo_at s) a b) -> right_in s k j v).

Lemma wp_startEdge a b s :
  trawler_ok s ->
  wp (startEdge a b) s
    (fun _ s' => moves (of_pair s a b) s s' /\
       (is_Some (live (topo_at s) a b) -> is_Some (emulatedNodes_ s !! a) ->
        is_Some (emulatedNodes_ s !! b) -> pair_settled s' a b /\ pair_settled s' b a))
    trawler_killed.
Proof.
  intros Hs. unfold startEdge. apply wp_bind, wp_getEmulatedNode; intros Ha;
    (apply wp_bind, wp_getEmulatedNode; intros Hb);
    try (apply wp_ret; split; [by apply moves_refl|intros _ Ha' Hb'; tauto]).
  apply wp_bind. eapply wp_conseq; [apply (wp_add (of_pair s a b)); [done..|]| |done].
  { split; [apply same_pair_refl|]. intros Hl. by apply introduction_entry. }
  intros _ s1 [M1 S1]. apply wp_bind.
  eapply wp_conseq; [apply (wp_add (of_pair s a b))| |done].
  { apply M1. } { by eapply moves_node. } { by eapply moves_node. }
  { rewrite (moves_introduction _ _ _ _ _ Hs M1). split; [apply same_pair_swap|].
    rewrite live_sym. intros Hl. by apply introduction_entry. }
  intros _ s2 [M2 S2]. apply wp_ret. split; [exact (moves_trans _ _ _ _ Hs M1 M2)|].
  intros Hl _ _. split.
  - assert (E2 : evolves s1 s2).
    { eapply moves_mono; [|exact M2]. intros k j v [_ Hv]. unfold right_in in *.
      by rewrite (moves_entry _ _ _ _ _ Hs M1), Hv. }
    eapply evolves_settled; [apply M1|exact E2|by apply S1].
  - apply S2. by rewrite (moves_live _ _ _ _ _ Hs M1), live_sym.
Qed.

Lemma wp_failEdge_nodes a b s :
  trawler_ok s ->
  wp (failEdge_nodes a b) s
    (fun _ s' => moves (fun k j v => same_pair a b k j /\ v = None) s s' /\
       (is_Some (emulatedNodes_ s !! a) -> is_Some (emulatedNodes_ s !! b) ->
        gone s' a b /\ gone s' b a))
    trawler_killed.
Proof.
  intros Hs. unfold failEdge_nodes. set (R := fun k j v => _).
  apply wp_bind, wp_getEmulatedNode; intros Ha;
    (apply wp_bind, wp_getEmulatedNode; intros Hb);
    try (apply wp_ret; split; [by apply moves_refl|intros Ha' Hb'; tauto]).
  assert (Hrange : forall k, is_Some (emulatedNodes_ s !! k) -> 0 <= k <= INT_MAX).
  { intros k [n Hn]. destruct (tk_node _ Hs _ _ Hn) as [_ Hr _ _].
    unfold BROADCAST_ADDRESS, INT_MAX in *. lia. }
  apply wp_bind. eapply wp_conseq; [apply (wp_remove R); [done..|by apply Hrange|]| |done].
  { split; [apply same_pair_refl|done]. }
  intros _ s1 [M1 G1]. apply wp_bind.
  eapply wp_conseq; [apply (wp_remove R)| |done].
  { apply M1. } { by eapply moves_node. } { by apply Hrange. } { split; [apply same_pair_swap|done]. }
  intros _ s2 [M2 G2]. apply wp_ret. split; [exact (moves_trans _ _ _ _ Hs M1 M2)|].
  intros _ _. split; [|done]. eapply moves_gone; [exact M2| |done]. by intros v [_ ->].
Qed.

Section keys.
Context `{Platform}.

Lemma node_keys_elem s k : k ∈ node_keys s <-> is_Some (emulatedNodes_ s !! k).
Proof.
  unfold node_keys. rewrite list_elem_of_fmap. split.
  - intros ([k' n] & -> & Hin). rewrite (int_order_perm (emulatedNodes_ s)) in Hin.
    apply elem_of_map_to_list in Hin. by exists n.
  - intros [n Hn]. exists (k, n). split; [done|]. rewrite (int_order_perm (emulatedNodes_ s)).
    by apply elem_of_map_to_list.
Qed.

Lemma node_keys_NoDup s : NoDup (node_keys s).
Proof.
  unfold node_keys. rewrite (Permutation_map fst (int_order_perm (emulatedNodes_ s))).
  apply NoDup_fst_map_to_list.
Qed.

Lemma wp_updateNeighbors a s :
  trawler_ok s ->
  wp (updateNeighbors a) s
    (fun _ s' => evolves s s' /\
       (is_Some (emulatedNodes_ s !! a) -> forall key, is_Some (emulatedNodes_ s !! key) ->
          key <> a -> is_Some (live (topo_at s) key a) -> introduced a s' key))
    trawler_killed.
Proof.
  intros Hs. unfold updateNeighbors. apply wp_bind, wp_getEmulatedNode; intros Ha.
  - apply wp_bind, wp_gets. eapply wp_conseq; [apply wp_neighbors_loop| |done].
    + done.
    + done.
    + intros key. apply node_keys_elem.
    + intros _ s' [He Hi]. split; [done|]. intros _ key Hk. by apply Hi, node_keys_elem.
  - apply wp_ret. split; [by apply moves_refl|tauto].
Qed.

(** Only entries for [a] and of [a] go. *)
Definition without (a : Z) (k j : Z) (v : option (string * Z * option EdgeOptions)) : Prop :=
  (k = a \/ j = a) /\ v = None.

Lemma wp_removeAsNeighbor a s :
  trawler_ok s -> is_Some (emulatedNodes_ s !! a) ->
  wp (removeAsNeighbor a) s
    (fun _ s' => moves (without a) s s' /\
       forall k, is_Some (emulatedNodes_ s !! k) -> k <> a ->
         is_Some (live (topo_at s) k a) -> gone s' k a)
    trawler_killed.
Proof.
  intros Hs [n Hn]. unfold removeAsNeighbor. apply wp_bind. eapply wp_deref_node; [done|].
  destruct (tk_node _ Hs _ _ Hn) as [-> Hr _ _]. apply wp_bind, wp_gets.
  eapply wp_conseq; [apply (wp_removal_loop (without a))| |done].
  - unfold BROADCAST_ADDRESS, INT_MAX in *. lia.
  - by intros k v [_ ->].
  - done.
  - intros key [_ Hin]%list_elem_of_filter. by apply node_keys_elem.
  - intros key _. split; [by right|done].
  - intros _ s' [Hm Hg]. split; [done|]. intros k Hk Hne. apply Hg.
    apply list_elem_of_filter. split; [done|by apply node_keys_elem].
Qed.

Lemma wp_failNode_nodes a s :
  trawler_ok s ->
  wp (failNode_nodes a) s
    (fun _ s' => moves (without a) s s' /\
       (is_Some (emulatedNodes_ s !! a) ->
        (forall j, gone s' a j) /\
        forall k, is_Some (emulatedNodes_ s !! k) -> k <> a ->
          is_Some (live (topo_at s) k a) -> gone s' k a))
    trawler_killed.
Proof.
  intros Hs. unfold failNode_nodes. apply wp_bind, wp_getEmulatedNode; intros Ha.
  - apply wp_bind. eapply wp_conseq; [apply (wp_reset (without a)); [done..|]| |done].
    { intros j. split; [by left|done]. }
    intros _ s1 [M1 G1]. eapply wp_conseq; [apply wp_removeAsNeighbor| |done].
    { apply M1. } { by eapply moves_node. }
    intros _ s2 [M2 G2]. split; [exact (moves_trans _ _ _ _ Hs M1 M2)|]. intros _. split.
    + intros j. eapply moves_gone; [exact M2|by intros v [_ ->]|apply G1].
    + intros k Hk Hne Hl. apply G2; [by eapply moves_node|done|].
      by rewrite (moves_live _ _ _ _ _ Hs M1).
  - apply wp_ret. split; [by apply moves_refl|tauto].
Qed.
End keys.

(** ** Sound scripts *)

(** What a script knows of the topology: the nodes that are down, and pairs of
    nodes whose link may be down. *)
Record Script : Type := mkScript {
  sc_failed : gset Z;
  sc_down : gset (Z * Z)
}.

Definition norm (a b : Z) : Z * Z := (Z.min a b, Z.max a b).

Definition agrees (sc : Script) (t : Topology) : Prop :=
  failedNodes_ t = sc_failed sc /\
  forall a b o, view t a b = Some (false, o) -> norm a b ∈ sc_down sc.

(** A link is made, or brought up, between two nodes that are up. *)
Definition both_up (sc : Script) (a b : Z) : bool :=
  negb (bool_decide (a ∈ sc_failed sc)) && negb (bool_decide (b ∈ sc_failed sc)).

Definition script_edge (a b : Z) (sc : Script) : option Script :=
  if both_up sc a b && negb (bool_decide (norm a b ∈ sc_down sc)) then Some sc else None.

Definition script_failEdge (a b : Z) (sc : Script) : option Script :=
  Some (mkScript (sc_failed sc) ({[norm a b]} ∪ sc_down sc)).

Definition script_failNode (a : Z) (sc : Script) : option Script :=
  Some (mkScript ({[a]} ∪ sc_failed sc) (sc_down sc)).

Definition script_restartEdge (a b : Z) (sc : Script) : option Script :=
  if both_up sc a b then Some (mkScript (sc_failed sc) (sc_down sc ∖ {[norm a b]})) else None.

Definition script_restartNode (a : Z) (sc : Script) : option Script :=
  Some (mkScript (sc_failed sc ∖ {[a]}) (sc_down sc)).

(** The step of a script and the call of the trawler that it stands for. *)
Definition follows (step : Script -> option Script) (s s' : Trawler) : Prop :=
  forall sc sc', agrees sc (topo_at s) -> consistent s -> step sc = Some sc' ->
    agrees sc' (topo_at s') /\ consistent s'.

Lemma norm_pair a b x y : norm a b = norm x y <-> same_pair a b x y.
Proof. unfold norm, same_pair. split; [intros [= H1 H2]; lia|intros; f_equal; lia]. Qed.

Lemma moves_view R s s' a b :
  allToAll_ (topo_at s) = false -> moves R s s' ->
  view (topo_at s') a b = view (topo_at s) a b.
Proof.
  intros Ha Hm. unfold view, lookup_edge. by rewrite (tp_edges _ _ (mv_topo _ _ _ Hm) Ha).
Qed.

Lemma moves_agrees R s s' sc :
  allToAll_ (topo_at s) = false -> moves R s s' -> agrees sc (topo_at s) -> agrees sc (topo_at s').
Proof.
  intros Ha Hm [Hf Hv]. split.
  - by rewrite (tp_failed _ _ (mv_topo _ _ _ Hm)).
  - intros a b o. rewrite (moves_view _ _ _ _ _ Ha Hm). apply Hv.
Qed.

Lemma both_up_alive sc t a b :
  agrees sc t -> both_up sc a b = true -> isNodeAlive_ a t && isNodeAlive_ b t = true.
Proof. intros [Hf _]. unfold both_up, isNodeAlive_. by rewrite Hf. Qed.

(** A pair that is told what it should know after its link has changed. *)
Lemma pair_follows a b s s1 s2 :
  consistent s -> trawler_ok s1 -> relinked (same_pair a b) s s1 -> evolves s1 s2 ->
  (is_Some (emulatedNodes_ s1 !! a) -> is_Some (emulatedNodes_ s1 !! b) ->
   pair_settled s2 a b /\ pair_settled s2 b a) ->
  consistent s2.
Proof.
  intros Hc Hok Hr He Hp. apply (relinked_evolves (same_pair a b) s s1); [done..|].
  intros k j [[<- <-]|[<- <-]] H1 H2; apply settled_ok; by apply Hp.
Qed.

(** ** The hooks *)

Lemma wp_createNewEdge a b o s :
  trawler_ok s -> allToAll_ (topo_at s) = false -> options_text_ok o ->
  wp (trawler_createNewEdge a b o) s
    (fun _ s' => trawler_ok s' /\ kept s s' /\ follows (script_edge a b) s s') trawler_killed.
Proof.
  intros Hs Hall Ho. unfold trawler_createNewEdge.
  destruct (newEdge_run a b o (mkTopoSt (topo_at s) (cell_seeds (trawler_topo s))
    (cell_out (trawler_topo s)))) as (st' & Hrun & Hok & Hf & Ha & Hv); [done|apply Hs|].
  cbn [this_] in *. apply wp_bind. eapply wp_on_topology; [exact Hrun|].
  intros s1 Ht Hn Hw Hp. rewrite <- Ht in Hok, Hf, Ha, Hv.
  assert (Hr : relinked (same_pair a b) s s1).
  { eapply relinked_pair; [done|done|done|by rewrite Hall|exact Hv| |done..].
    intros up o' [= _ <-]. exact Ho. }
  pose proof (relinked_ok _ _ _ Hr Hs) as Hok1.
  eapply wp_conseq; [by apply wp_startEdge| |done]. intros _ s2 [M2 S2].
  split; [apply M2|]. split; [by etrans; [eapply relinked_keeps|eapply moves_kept]|].
  intros sc sc' Hag Hc Hsc. unfold script_edge in Hsc.
  destruct (both_up sc a b && _) eqn:Hup; [|done]. injection Hsc as <-.
  apply andb_true_iff in Hup as [Hup Hnd]. apply negb_true_iff, bool_decide_eq_false in Hnd.
  assert (Hag1 : agrees sc (topo_at s1)).
  { split; [rewrite Hf; apply Hag|]. intros x y o'. rewrite Hv. case_decide as Hxy; [|apply Hag].
    intros [= Hl _]. rewrite <- (proj2 (norm_pair a b x y) Hxy).
    destruct (view (topo_at s) a b) as [[l o0]|] eqn:Hold; [|done]. subst l.
    by apply (proj2 Hag a b o0). }
  assert (Hl : is_Some (live (topo_at s1) a b)).
  { unfold live. rewrite (both_up_alive sc) by done. rewrite Hv, decide_True by apply same_pair_refl.
    destruct (view (topo_at s) a b) as [[[] o0]|] eqn:Hold; [by eexists| |by eexists].
    destruct Hnd. by apply (proj2 Hag a b o0). }
  assert (He : evolves s1 s2).
  { eapply moves_mono; [|exact M2]. intros k j v [_ Hright]. by apply Hright. }
  split; [by eapply moves_agrees|]. eapply pair_follows; [done|done|done|done|].
  intros H1 H2. by apply S2.
Qed.

Lemma wp_failEdgeHook a b s :
  trawler_ok s -> allToAll_ (topo_at s) = false ->
  wp (trawler_failEdgeHook a b) s
    (fun _ s' => trawler_ok s' /\ kept s s' /\ follows (script_failEdge a b) s s') trawler_killed.
Proof.
  intros Hs Hall. unfold trawler_failEdgeHook, failEdge.
  destruct (changeEdge_run a b false (mkTopoSt (topo_at s) (cell_seeds (trawler_topo s))
    (cell_out (trawler_topo s)))) as (st' & Hrun & Hok & Hf & Ha & Hv); [done|apply Hs|].
  cbn [this_] in *. apply wp_bind. eapply wp_on_topology; [exact Hrun|].
  intros s1 Ht Hn Hw Hp. rewrite <- Ht in Hok, Hf, Ha, Hv.
  assert (Hr : relinked (same_pair a b) s s1).
  { eapply relinked_pair; [done|done|done|by rewrite Hall|exact Hv| |done..].
    intros up o Hvo. destruct (view (topo_at s) a b) as [[l o0]|] eqn:Hold; [|done].
    injection Hvo as _ <-. by eapply view_good; [apply Hs|]. }
  pose proof (relinked_ok _ _ _ Hr Hs) as Hok1.
  assert (Hag1 : forall sc, agrees sc (topo_at s) ->
    agrees (mkScript (sc_failed sc) ({[norm a b]} ∪ sc_down sc)) (topo_at s1)).
  { intros sc Hag. split; [rewrite Hf; apply Hag|]. intros x y o. rewrite Hv. cbn [sc_down].
    case_decide as Hxy.
    - intros _. rewrite (proj2 (norm_pair a b x y) Hxy). by apply elem_of_union_l, elem_of_singleton.
    - intros Hxo. apply elem_of_union_r. by apply (proj2 Hag x y o). }
  assert (Hnone : forall k j, same_pair a b k j -> live (topo_at s1) k j = None).
  { intros k j Hkj. unfold live. rewrite Hv, decide_True, Ha by done.
    destruct (_ && _); [|done]. by destruct (view (topo_at s) a b) as [[]|]. }
  destruct (bool_decide _) eqn:Hfound.
  - apply wp_bind. eapply wp_conseq; [by apply wp_failEdge_nodes| |done]. intros _ s2 [M2 G2].
    apply wp_ret. split; [apply M2|]. split; [by etrans; [eapply relinked_keeps|eapply moves_kept]|].
    intros sc sc' Hag Hc [= <-]. split; [by eapply moves_agrees; [| |apply Hag1]|].
    assert (Hent : forall k j, same_pair a b k j -> entry s1 k j = None).
    { intros k j Hkj. unfold entry. rewrite Hnone by done. by destruct (roster s1 !! j) as [[]|]. }
    eapply pair_follows; [done|done|done| |].
    + eapply moves_mono; [|exact M2]. intros k j v [Hkj ->]. unfold right_in. by rewrite Hent.
    + intros H1 H2. destruct (G2 H1 H2) as [G3 G4].
      split; intros T HT; rewrite (moves_entry _ _ _ _ _ Hok1 M2), Hent
        by (apply same_pair_refl || apply same_pair_swap); [by apply G3|by apply G4].
  - apply wp_ret. split; [done|]. split; [by eapply relinked_keeps|].
    intros sc sc' Hag Hc [= <-]. split; [by apply Hag1|]. intros k j.
    eapply relinked_same; [done| |apply Hc]. unfold entry. rewrite (relinked_roster _ _ _ Hr).
    replace (live (topo_at s1) k j) with (live (topo_at s) k j); [done|].
    unfold live, isNodeAlive_. rewrite Hf, Hv, Ha, Hall. case_decide as Hkj; [|done].
    apply bool_decide_eq_false in Hfound.
    destruct (view (topo_at s) a b) eqn:Hab; [by destruct Hfound; eexists|]. cbn.
    assert (view (topo_at s) k j = view (topo_at s) a b) as ->
      by (destruct Hkj as [[-> ->]|[-> ->]]; [done|apply view_sym]).
    by rewrite Hab.
Qed.

Lemma wp_restartEdgeHook a b s :
  trawler_ok s -> allToAll_ (topo_at s) = false ->
  wp (trawler_restartEdgeHook a b) s
    (fun _ s' => trawler_ok s' /\ kept s s' /\ follows (script_restartEdge a b) s s')
    trawler_killed.
Proof.
  intros Hs Hall. unfold trawler_restartEdgeHook, restartEdge.
  destruct (changeEdge_run a b true (mkTopoSt (topo_at s) (cell_seeds (trawler_topo s))
    (cell_out (trawler_topo s)))) as (st' & Hrun & Hok & Hf & Ha & Hv); [done|apply Hs|].
  cbn [this_] in *. apply wp_bind. eapply wp_on_topology; [exact Hrun|].
  intros s1 Ht Hn Hw Hp. rewrite <- Ht in Hok, Hf, Ha, Hv.
  assert (Hr : relinked (same_pair a b) s s1).
  { eapply relinked_pair; [done|done|done|by rewrite Hall|exact Hv| |done..].
    intros up o Hvo. destruct (view (topo_at s) a b) as [[l o0]|] eqn:Hold; [|done].
    injection Hvo as _ <-. by eapply view_good; [apply Hs|]. }
  pose proof (relinked_ok _ _ _ Hr Hs) as Hok1.
  assert (Hag1 : forall sc, agrees sc (topo_at s) ->
    agrees (mkScript (sc_failed sc) (sc_down sc ∖ {[norm a b]})) (topo_at s1)).
  { intros sc Hag. split; [rewrite Hf; apply Hag|]. intros x y o. rewrite Hv. cbn [sc_down].
    case_decide as Hxy.
    - by destruct (view (topo_at s) a b).
    - intros Hxo. apply elem_of_difference. split; [by apply (proj2 Hag x y o)|].
      rewrite elem_of_singleton. intros He. apply Hxy. by apply norm_pair. }
  destruct (bool_decide _) eqn:Hfound.
  - apply bool_decide_eq_true in Hfound as [[l o] Hab].
    apply wp_bind. eapply wp_conseq; [by apply wp_startEdge| |done]. intros _ s2 [M2 S2].
    apply wp_ret. split; [apply M2|]. split; [by etrans; [eapply relinked_keeps|eapply moves_kept]|].
    intros sc sc' Hag Hc Hsc. unfold script_restartEdge in Hsc.
    destruct (both_up sc a b) eqn:Hup; [|done]. injection Hsc as <-.
    assert (Hl : is_Some (live (topo_at s1) a b)).
    { unfold live. unfold isNodeAlive_ in *. rewrite Hf. fold (isNodeAlive_ a (topo_at s)).
      fold (isNodeAlive_ b (topo_at s)). rewrite (both_up_alive sc) by done.
      rewrite Hv, decide_True, Hab by apply same_pair_refl. by eexists. }
    assert (He : evolves s1 s2).
    { eapply moves_mono; [|exact M2]. intros k j v [_ Hright]. by apply Hright. }
    split; [by eapply moves_agrees; [| |apply Hag1]|].
    eapply pair_follows; [done|done|done|done|]. intros H1 H2. by apply S2.
  - apply bool_decide_eq_false in Hfound.
    destruct (view (topo_at s) a b) eqn:Hab; [by destruct Hfound; eexists|].
    apply wp_ret. split; [done|]. split; [by eapply relinked_keeps|].
    intros sc sc' Hag Hc Hsc. unfold script_restartEdge in Hsc.
    destruct (both_up sc a b); [|done]. injection Hsc as <-. split; [by apply Hag1|]. intros k j.
    eapply relinked_same; [done| |apply Hc]. unfold entry. rewrite (relinked_roster _ _ _ Hr).
    replace (live (topo_at s1) k j) with (live (topo_at s) k j); [done|].
    unfold live, isNodeAlive_. rewrite Hf, Hv, Ha, Hall. case_decide as Hkj; [|done]. cbn.
    assert (view (topo_at s) k j = view (topo_at s) a b) as ->
      by (destruct Hkj as [[-> ->]|[-> ->]]; [done|apply view_sym]).
    by rewrite Hab.
Qed.

(** A node that is set down or up: the links of no other node are concerned. *)
Lemma relinked_node a s s' :
  trawler_ok s -> edges_ (topo_at s') = edges_ (topo_at s) ->
  allToAll_ (topo_at s') = allToAll_ (topo_at s) ->
  (forall k, k <> a -> isNodeAlive_ k (topo_at s') = isNodeAlive_ k (topo_at s)) ->
  emulatedNodes_ s' = emulatedNodes_ s -> wires s' = wires s -> private s' = private s ->
  relinked (fun k j => k = a \/ j = a) s s'.
Proof.
  intros Hs He Ha Hf Hn Hw Hp. constructor; [|done..|].
  - destruct (tk_topo _ Hs) as [Hok Ho]. unfold topo_good, topo_ok in *. by rewrite He.
  - intros k j Hkj. unfold live, view, lookup_edge. rewrite He, Ha, !Hf by tauto. done.
Qed.

Lemma alive_after_fail t t' a x :
  failedNodes_ t' = {[a]} ∪ failedNodes_ t ->
  isNodeAlive_ x t' = negb (bool_decide (x = a)) && isNodeAlive_ x t.
Proof.
  unfold isNodeAlive_. intros ->. rewrite <- negb_orb. f_equal.
  rewrite <- bool_decide_or. apply bool_decide_ext. by rewrite elem_of_union, elem_of_singleton.
Qed.

Lemma alive_after_restart t t' a x :
  failedNodes_ t' = failedNodes_ t ∖ {[a]} ->
  isNodeAlive_ x t' = bool_decide (x = a) || isNodeAlive_ x t.
Proof.
  unfold isNodeAlive_. intros ->. destruct (decide (x = a)) as [->|Hne].
  - rewrite bool_decide_false, (bool_decide_true (a = a)); [done|done|].
    by rewrite elem_of_difference, elem_of_singleton; intros [].
  - rewrite (bool_decide_false (x = a)) by done. cbn. f_equal. apply bool_decide_ext.
    rewrite elem_of_difference, elem_of_singleton. tauto.
Qed.

Lemma view_edges t t' a b : edges_ t' = edges_ t -> view t' a b = view t a b.
Proof. intros He. unfold view, lookup_edge. by rewrite He. Qed.

(** A node whose entries are none or right is introduced to the others. *)
Lemma introduced_pair a s1 s2 k j :
  trawler_ok s1 -> evolves s1 s2 -> (forall k j, k = a \/ j = a -> pair_sound s1 k j) ->
  (is_Some (emulatedNodes_ s1 !! a) -> forall key, is_Some (emulatedNodes_ s1 !! key) ->
     key <> a -> is_Some (live (topo_at s1) key a) -> introduced a s2 key) ->
  k = a \/ j = a -> is_Some (emulatedNodes_ s1 !! k) -> is_Some (emulatedNodes_ s1 !! j) ->
  pair_ok s2 k j.
Proof.
  intros Hok He Hsound Hi Hkj H1 H2.
  assert (Hs2 : pair_sound s2 k j) by by eapply evolves_sound; [| |apply Hsound].
  split; [done|]. intros Hne Hal. destruct (decide (is_Some (live (topo_at s1) k j))) as [Hl|Hl].
  - destruct Hkj as [->| ->].
    + apply (Hi H1 j H2); [done|by rewrite live_sym|done].
    + by apply (Hi H2 k H1).
  - apply sound_none; [done|]. rewrite (moves_entry _ _ _ _ _ Hok He).
    unfold entry. destruct (live (topo_at s1) k j); [by destruct Hl; eexists|].
    by destruct (roster s1 !! j) as [[]|].
Qed.

Section hooks.
Context `{Platform}.

Lemma wp_failNodeHook a s :
  trawler_ok s -> allToAll_ (topo_at s) = false ->
  wp (trawler_failNodeHook a) s
    (fun _ s' => trawler_ok s' /\ kept s s' /\ follows (script_failNode a) s s') trawler_killed.
Proof.
  intros Hs Hall. unfold trawler_failNodeHook. apply wp_bind.
  eapply wp_conseq; [by apply wp_failNode_nodes| |done]. intros _ s1 [M1 G1].
  eapply wp_on_topology; [reflexivity|]. cbn. intros s2 Ht Hn Hw Hp.
  assert (Hr : relinked (fun k j => k = a \/ j = a) s1 s2).
  { apply relinked_node; [apply M1|by rewrite Ht|by rewrite Ht| |done..]. intros k Hk.
    rewrite (alive_after_fail (topo_at s1) _ a) by by rewrite Ht. by rewrite bool_decide_false. }
  split; [eapply relinked_ok; [done|apply M1]|].
  split; [by etrans; [eapply moves_kept|eapply relinked_keeps]|].
  intros sc sc' Hag Hc [= <-]. split.
  - destruct (moves_agrees _ _ _ _ Hall M1 Hag) as [Hf Hv].
    split; [rewrite Ht; cbn; by rewrite Hf|]. intros x y o.
    rewrite (view_edges (topo_at s1)) by by rewrite Ht. apply Hv.
  - intros k j. destruct (decide (k = a \/ j = a)) as [Hkj|Hkj].
    + assert (He : entry s2 k j = None).
      { unfold entry, live. replace (isNodeAlive_ k (topo_at s2) && isNodeAlive_ j (topo_at s2)) with false;
          [by destruct (roster s2 !! j) as [[]|]|].
        assert (Hdown : isNodeAlive_ a (topo_at s2) = false).
        { rewrite (alive_after_fail (topo_at s1) _ a) by by rewrite Ht. by rewrite bool_decide_true. }
        symmetry. destruct Hkj as [->| ->]; rewrite Hdown; [done|apply andb_false_r]. }
      apply settled_ok. intros T HT. rewrite He. rewrite (relinked_told _ _ _ _ Hr) in HT.
      assert (Hnode : is_Some (emulatedNodes_ s !! k)) by (apply told_node; eapply moves_told; [done|by eexists]).
      destruct (decide (k = a)) as [->|Hne]; [by apply (proj1 (G1 Hnode) j)|].
      destruct Hkj as [|Hj]; [done|]. subst j.
      destruct (decide (is_Some (emulatedNodes_ s !! a))) as [Ha|Ha].
      * destruct (decide (is_Some (live (topo_at s) k a))) as [Hl|Hl];
          [by apply (proj2 (G1 Ha) k Hnode Hne Hl)|].
        eapply (moves_gone (without a)); [done|by intros v [_ ->]| |done].
        intros T0 HT0. destruct (proj1 (Hc k a) T0 HT0) as [->| ->]; [done|].
        unfold entry. destruct (live (topo_at s) k a); [by destruct Hl; eexists|].
        by destruct (roster s !! a) as [[]|].
      * eapply (moves_gone (without a)); [done|by intros v [_ ->]| |done].
        intros T0 HT0. destruct (proj1 (Hc k a) T0 HT0) as [->| ->]; [done|].
        by apply entry_absent.
    + eapply relinked_same; [done| |].
      * unfold entry. by rewrite (relinked_roster _ _ _ Hr), (rl_live _ _ _ Hr).
      * eapply moves_pair; [done|done| |apply Hc]. by intros v [].
Qed.

Lemma wp_restartNodeHook a s :
  trawler_ok s -> allToAll_ (topo_at s) = false ->
  wp (trawler_restartNodeHook a) s
    (fun _ s' => trawler_ok s' /\ kept s s' /\ follows (script_restartNode a) s s') trawler_killed.
Proof.
  intros Hs Hall. unfold trawler_restartNodeHook, restartNode_nodes. apply wp_bind.
  eapply wp_on_topology; [reflexivity|]. cbn. intros s1 Ht Hn Hw Hp.
  assert (Hr : relinked (fun k j => k = a \/ j = a) s s1).
  { apply relinked_node; [done|by rewrite Ht|by rewrite Ht| |done..]. intros k Hk.
    rewrite (alive_after_restart (topo_at s) _ a) by by rewrite Ht. by rewrite bool_decide_false. }
  pose proof (relinked_ok _ _ _ Hr Hs) as Hok1.
  eapply wp_conseq; [by apply wp_updateNeighbors| |done]. intros _ s2 [M2 I2].
  split; [apply M2|]. split; [by etrans; [eapply relinked_keeps|eapply moves_kept]|].
  assert (Hall1 : allToAll_ (topo_at s1) = false) by by rewrite (rl_all _ _ _ Hr).
  intros sc sc' Hag Hc [= <-]. split.
  - eapply moves_agrees; [done|exact M2|]. destruct Hag as [Hf Hv].
    split; [rewrite Ht; cbn; by rewrite Hf|]. intros x y o.
    rewrite (view_edges (topo_at s)) by by rewrite Ht. apply Hv.
  - assert (Hup : forall k j o, live (topo_at s) k j = Some o -> live (topo_at s1) k j = Some o).
    { intros k j o. unfold live. rewrite (view_edges (topo_at s) (topo_at s1)) by by rewrite Ht.
      rewrite (rl_all _ _ _ Hr).
      assert (Halive : forall x, isNodeAlive_ x (topo_at s) = true -> isNodeAlive_ x (topo_at s1) = true).
      { intros x Hx. rewrite (alive_after_restart (topo_at s) _ a) by by rewrite Ht.
        by rewrite Hx, orb_true_r. }
      destruct (isNodeAlive_ k (topo_at s)) eqn:Hk, (isNodeAlive_ j (topo_at s)) eqn:Hj; try done.
      by rewrite !Halive. }
    assert (Hsound : forall k j, pair_sound s1 k j).
    { intros k j T. rewrite (relinked_told _ _ _ _ Hr). intros HT.
      destruct (proj1 (Hc k j) T HT) as [->| ->]; [by left|]. unfold entry.
      rewrite (relinked_roster _ _ _ Hr). destruct (roster s !! j) as [[ip prt]|]; [|by left].
      destruct (live (topo_at s) k j) as [o|] eqn:Hl; [|by left].
      right. by rewrite (Hup _ _ _ Hl). }
    eapply (relinked_evolves (fun k j => k = a \/ j = a) s s1); [done|done|done|done|].
    intros k j Hkj H1 H2. eapply introduced_pair; [done|done|auto|done..].
Qed.
End hooks.
