(* ===== verification/TrawlerServe.v ===== *)
(** * A connection of the trawler

    What happens to the nodes when a peer connects: those that are dead leave,
    and the peer becomes a node if its port is legal and there is an address. *)

From Stdlib Require Import Strings.Ascii.
From S2P Require Import Prelude CppStrings Doubles DoubleText Packet Runtime Edge Topology Parser SimNet Arp Posix EmulatedLink EmuNet EmuTable Trawler TrawlerText TrawlerRun TrawlerInv TrawlerOps.

(** ** Addresses *)

Lemma free_loop_cases n i nodes :
  (free_loop n i nodes = -1 /\ forall k, i <= k < i + Z.of_nat n -> is_Some (nodes !! k)) \/
  (i <= free_loop n i nodes < i + Z.of_nat n /\ nodes !! free_loop n i nodes = None /\
   forall k, i <= k < free_loop n i nodes -> is_Some (nodes !! k)).
Proof.
  revert i. induction n as [|n IH]; intros i; cbn [free_loop].
  - left. split; [done|]. lia.
  - case_bool_decide as Hi.
    + right. split; [lia|]. split; [done|]. lia.
    + assert (Hsome : is_Some (nodes !! i)) by by apply not_eq_None_Some.
      destruct (IH (i + 1)) as [[-> Hall]|(Hr & Hn & Hall)].
      * left. split; [done|]. intros k Hk. destruct (decide (k = i)) as [->|]; [done|].
        apply Hall. lia.
      * right. split; [lia|]. split; [done|]. intros k Hk.
        destruct (decide (k = i)) as [->|]; [done|]. apply Hall. lia.
Qed.

(** The smallest address that is free. *)
Lemma freeFishAddr_cases s :
  (freeFishAddr s = -1 /\ forall k, 0 <= k < BROADCAST_ADDRESS -> is_Some (emulatedNodes_ s !! k)) \/
  (0 <= freeFishAddr s < BROADCAST_ADDRESS /\ emulatedNodes_ s !! freeFishAddr s = None /\
   forall k, 0 <= k < freeFishAddr s -> is_Some (emulatedNodes_ s !! k)).
Proof.
  unfold freeFishAddr. pose proof (free_loop_cases (Z.to_nat BROADCAST_ADDRESS) 0 (emulatedNodes_ s)) as H.
  rewrite Z2Nat.id in H by (unfold BROADCAST_ADDRESS; lia). exact H.
Qed.

(** ** What a connection leaves of the rest *)

Record same_links (s s' : Trawler) : Prop := {
  sl_topo : topo_same (topo_at s) (topo_at s');
  sl_private : private s' = private s
}.

Lemma moves_links R s s' : moves R s s' -> same_links s s'.
Proof. intros []. by constructor. Qed.

Lemma looked_links s s' : looked s s' -> same_links s s'.
Proof. intros []. by constructor. Qed.

Lemma same_links_trans s1 s2 s3 :
  trawler_ok s1 -> same_links s1 s2 -> same_links s2 s3 -> same_links s1 s3.
Proof.
  intros Hs [T1 P1] [T2 P2]. constructor; [|congruence].
  eapply topo_same_trans; [apply Hs|done|done].
Qed.

Lemma wp_trawler_emit o s (Q : unit -> Trawler -> Prop) X :
  (forall s', looked s s' -> Q tt s') -> wp (trawler_emit o) s Q X.
Proof. intros HQ. apply wp_modify, HQ. constructor; [apply topo_same_refl|done..]. Qed.

(** ** Nodes that leave *)

(** A node that is dead is taken out of the table. *)
Definition dropped (key : Z) (s : Trawler) : Trawler :=
  set_emulatedNodes (delete key (emulatedNodes_ s)) s.

Lemma dropped_node key s k n :
  emulatedNodes_ (dropped key s) !! k = Some n -> emulatedNodes_ s !! k = Some n.
Proof. cbn. by intros [_ Hk]%lookup_delete_Some. Qed.

Lemma dropped_roster key s : roster (dropped key s) = delete key (roster s).
Proof. apply fmap_delete. Qed.

Lemma dropped_told key s k : k <> key -> told (dropped key s) k = told s k.
Proof. intros Hk. unfold told. cbn. by rewrite lookup_delete_ne. Qed.

Lemma dropped_told_key key s : told (dropped key s) key = None.
Proof. unfold told. cbn. by rewrite lookup_delete_eq. Qed.

Lemma dropped_ok key s : trawler_ok s -> trawler_ok (dropped key s).
Proof.
  intros [Hg Hn Hf]. constructor; [done| |].
  - intros k n Hk%dropped_node. by apply Hn.
  - intros k k' n n' Hk%dropped_node Hk'%dropped_node. by apply Hf.
Qed.

(** The states between two rounds of the loop. *)
Record purged (s s' : Trawler) : Prop := {
  pg_ok : trawler_ok s';
  pg_links : same_links s s';
  pg_roster : roster s' ⊆ roster s;
  pg_dead : forall k, dead_node s k -> dead_node s' k \/ emulatedNodes_ s' !! k = None;
  pg_told : forall k, is_Some (told s' k) -> is_Some (told s k);
  pg_wires : wires_kept s s';
  pg_entries : forall k T', told s' k = Some T' ->
    exists T, told s k = Some T /\
      forall j, T' !! j = T !! j \/ (T' !! j = None /\ roster s' !! j = None);
  pg_stay : sends_fine s ->
    sends_fine s' /\
    (forall k n, emulatedNodes_ s !! k = Some n -> isAlive n = true -> emulatedNodes_ s' !! k = Some n) /\
    (forall k, is_Some (told s k) -> is_Some (told s' k));
  pg_consistent : consistent s -> consistent s'
}.

Lemma purged_refl s : trawler_ok s -> purged s s.
Proof.
  intros Hs. constructor; auto; [constructor; [apply topo_same_refl|done]|done|].
  intros k T HT. exists T. auto.
Qed.

Lemma purged_trans s1 s2 s3 : trawler_ok s1 -> purged s1 s2 -> purged s2 s3 -> purged s1 s3.
Proof.
  intros Hs [O1 L1 R1 D1 T1 W1 E1 S1 C1] [O2 L2 R2 D2 T2 W2 E2 S2 C2]. constructor; auto.
  - by eapply same_links_trans.
  - by etrans.
  - intros k Hk. destruct (D1 k Hk) as [Hd|Hn]; [by apply D2|]. right.
    assert (Hr : roster s2 !! k = None) by by (unfold roster; rewrite lookup_fmap, Hn).
    pose proof (lookup_weaken_None _ _ _ Hr R2) as Hr3. unfold roster in Hr3.
    rewrite lookup_fmap in Hr3. by apply fmap_None in Hr3.
  - by etrans.
  - intros k T3 H3. destruct (E2 k T3 H3) as (T2' & H2 & J2). destruct (E1 k T2' H2) as (T1' & H1 & J1).
    exists T1'. split; [done|]. intros j. destruct (J2 j) as [->|]; [|by right].
    destruct (J1 j) as [|[Hn Hr]]; [by left|right]. split; [done|]. by eapply lookup_weaken_None.
  - intros Hf. destruct (S1 Hf) as (F2 & N2 & U2). destruct (S2 F2) as (F3 & N3 & U3). auto.
Qed.

Lemma dropped_kept key s : wires_kept s (dropped key s).
Proof.
  split; [done|]. intros fd Hu. split; [|done]. intros k n Hk%dropped_node.
  by apply (Hu k).
Qed.

Section leaving.
Context `{Platform}.

(** What is written when the node [key] has gone: that it is no neighbor. *)
Definition about_gone (key k j : Z) (v : option (string * Z * option EdgeOptions)) : Prop :=
  j = key /\ v = None.

Section gone.
Context (key : Z) (s s2 : Trawler) (n : EmulatedNode).
Context (Hs : trawler_ok s) (Hn : emulatedNodes_ s !! key = Some n) (Hal : isAlive n = false).
Context (M2 : moves (about_gone key) (dropped key s) s2).
Context (G2 : forall k, is_Some (emulatedNodes_ (dropped key s) !! k) ->
  is_Some (live (topo_at s) k key) -> gone s2 k key).

Lemma gone_told k : is_Some (told s2 k) -> k <> key /\ is_Some (told s k).
Proof using Hs M2.
  intros Hk. eapply moves_told in Hk; [|exact M2]. destruct (decide (k = key)) as [->|Hne].
  - rewrite dropped_told_key in Hk. by destruct Hk.
  - by rewrite dropped_told in Hk.
Qed.

Lemma gone_roster : roster s2 = delete key (roster s).
Proof using M2. by rewrite (mv_roster _ _ _ M2), dropped_roster. Qed.

Lemma gone_settled k : k <> key -> pair_ok s k key -> pair_ok s2 k key.
Proof using Hs M2 G2.
  intros Hk [Hp _]. pose proof (dropped_ok key s Hs) as Hok1. apply settled_ok. intros T HT.
  rewrite (moves_entry _ _ _ _ _ Hok1 M2). unfold entry at 1. rewrite dropped_roster, lookup_delete_eq.
  destruct (gone_told k ltac:(by eexists)) as [_ Htold].
  assert (Hknode : is_Some (emulatedNodes_ (dropped key s) !! k))
    by (apply told_node; by rewrite dropped_told).
  destruct (decide (is_Some (live (topo_at s) k key))) as [Hl|Hl]; [by apply (G2 k)|].
  eapply (moves_gone (about_gone key)); [done|by intros v [_ ->]| |done].
  intros T0 HT0. rewrite dropped_told in HT0 by done.
  destruct (Hp T0 HT0) as [->| ->]; [done|].
  unfold entry. destruct (live (topo_at s) k key); [by destruct Hl; eexists|].
  by destruct (roster s !! key) as [[]|].
Qed.

Lemma gone_others k j : k <> key -> j <> key -> pair_ok s k j -> pair_ok s2 k j.
Proof using Hs M2.
  intros Hk Hj [Hp Hq].
  assert (Hentry : forall j, j <> key -> entry (dropped key s) k j = entry s k j).
  { intros j' Hj'. unfold entry. by rewrite dropped_roster, lookup_delete_ne. }
  eapply moves_pair; [by apply dropped_ok|exact M2|by intros v []|]. split.
  - intros T. rewrite dropped_told, Hentry by done. apply Hp.
  - intros Hkj Hjt T. rewrite dropped_told, Hentry by done.
    rewrite dropped_told in Hjt by done. by apply Hq.
Qed.

Lemma gone_purged : purged s s2.
Proof using Hs Hn Hal M2 G2.
  constructor.
  - apply M2.
  - by destruct (moves_links _ _ _ M2).
  - rewrite gone_roster. apply delete_subseteq.
  - intros k (n' & Hn' & Hd). destruct (decide (k = key)) as [->|Hk].
    + right. pose proof gone_roster as Hr. apply (f_equal (lookup key)) in Hr.
      rewrite lookup_delete_eq in Hr. unfold roster in Hr. rewrite lookup_fmap in Hr.
      by apply fmap_None in Hr.
    + left. apply (mv_dead _ _ _ M2). exists n'. split; [|done]. cbn. by rewrite lookup_delete_ne.
  - intros k Hk. by apply gone_told.
  - etrans; [apply dropped_kept|apply M2].
  - intros k T' HT'. destruct (mv_told _ _ _ M2 _ _ HT') as (T & HT & Hj).
    destruct (gone_told k ltac:(by eexists)) as [Hk _]. rewrite dropped_told in HT by done.
    exists T. split; [done|]. intros j. destruct (Hj j) as [|[-> Hv]]; [by left|right].
    split; [done|]. rewrite gone_roster. apply lookup_delete_eq.
  - intros Hf. destruct (mv_fine _ _ _ M2 Hf) as (F2 & N2 & T2). split; [done|].
    assert (Hne : forall k n', emulatedNodes_ s !! k = Some n' -> isAlive n' = true -> k <> key)
      by (intros k n' Hk Ha ->; congruence).
    split.
    + intros k n' Hk Ha. rewrite N2. cbn. rewrite lookup_delete_ne; [done|].
      by intros <-; apply (Hne key n').
    + intros k Hk. apply T2. destruct (decide (k = key)) as [->|Hk'].
      * destruct Hk as [T HT]. by rewrite (told_alive s key n Hn (ex_intro _ _ HT)) in Hal.
      * by rewrite dropped_told.
  - intros Hc k j. destruct (decide (k = key)) as [->|Hk].
    { assert (Hnone : told s2 key = None).
      { apply eq_None_not_Some. intros Hx. by destruct (gone_told _ Hx). }
      by split; [intros T|intros _ _ T]; rewrite Hnone. }
    destruct (decide (j = key)) as [->|Hj]; [by apply gone_settled|by apply gone_others].
Qed.
End gone.

(** One dead node: it goes, and the others are told. *)
Lemma wp_quit_one key s :
  trawler_ok s -> dead_node s key ->
  wp (let! others := gets node_keys in removal_loop key others) (dropped key s)
    (fun _ s' => purged s s' /\ roster s' = delete key (roster s)) trawler_killed.
Proof.
  intros Hs (n & Hn & Hal). destruct (tk_node _ Hs _ _ Hn) as [Ha Hr _ _].
  pose proof (dropped_ok key s Hs) as Hok1. apply wp_bind, wp_gets.
  eapply wp_conseq; [apply (wp_removal_loop (about_gone key) key)| |done].
  - unfold BROADCAST_ADDRESS, INT_MAX in *. lia.
  - by intros k v [_ ->].
  - done.
  - intros k. apply node_keys_elem.
  - done.
  - intros _ s2 [M2 G2]. split; [|by apply gone_roster].
    eapply gone_purged; [done|exact Hn|done|exact M2|].
    intros k Hk. apply G2. by apply node_keys_elem.
Qed.

Lemma wp_quit_loop keys s :
  trawler_ok s -> NoDup keys -> (forall key, key ∈ keys -> is_Some (emulatedNodes_ s !! key)) ->
  wp (quit_loop keys) s
    (fun _ s' => purged s s' /\
       forall k, k ∈ keys -> dead_node s k -> emulatedNodes_ s' !! k = None)
    trawler_killed.
Proof.
  intros Hs Hnd. revert s Hs. induction Hnd as [|key keys Hin Hnd IH]; intros s Hs Hk; cbn [quit_loop].
  { apply wp_ret. split; [by apply purged_refl|]. intros k Hk'. by apply elem_of_nil in Hk'. }
  destruct (Hk key ltac:(apply list_elem_of_here)) as [n Hn].
  apply wp_bind. eapply wp_deref_node; [done|]. destruct (tk_node _ Hs _ _ Hn) as [Ha _ _ _].
  apply wp_bind.
  apply wp_conseq with (Q := fun _ s1 => purged s s1 /\
      (forall k, k ∈ keys -> is_Some (emulatedNodes_ s1 !! k)) /\
      (dead_node s key -> emulatedNodes_ s1 !! key = None))
    (X := trawler_killed); [| |done].
  - destruct (isAlive n) eqn:Hal; cbn [negb].
    + apply wp_ret. split; [by apply purged_refl|]. split.
      * intros k Hk'. by apply Hk, list_elem_of_further.
      * intros (n' & Hn' & Hd). congruence.
    + apply wp_bind, wp_modify, wp_bind, wp_modify. rewrite Ha.
      replace (set_emulatedNodes _ (set_emulatedNodes _ s)) with (dropped key s).
      2: { unfold dropped, set_emulatedNodes. cbn. by rewrite delete_alter_eq. }
      eapply wp_conseq; [apply wp_quit_one; [done|by exists n]| |done].
      intros _ s1 [Hp Hr]. split; [done|].
      assert (Hnode : forall k, is_Some (emulatedNodes_ s1 !! k) <-> is_Some (delete key (roster s) !! k))
        by (intros k; by rewrite <- Hr, roster_some).
      split.
      * intros k Hk'. apply Hnode. rewrite lookup_delete_ne by by intros ->.
        apply roster_some, Hk. by apply list_elem_of_further.
      * intros _. destruct (emulatedNodes_ s1 !! key) eqn:Hx; [|done].
        assert (Hy : is_Some (delete key (roster s) !! key)) by (apply Hnode; by eexists).
        rewrite lookup_delete_eq in Hy. by destruct Hy.
  - intros _ s1 (P1 & K1 & D1). eapply wp_conseq; [apply IH; [apply P1|done]| |done].
    intros _ s2 [P2 D2]. split; [by eapply purged_trans|].
    intros k [->|Hk']%elem_of_cons Hd.
    + assert (Hx : roster s1 !! key = None) by (unfold roster; by rewrite lookup_fmap, D1).
      pose proof (lookup_weaken_None _ _ _ Hx (pg_roster _ _ P2)) as Hx2. unfold roster in Hx2.
      rewrite lookup_fmap in Hx2. by apply fmap_None in Hx2.
    + destruct (pg_dead _ _ P1 k Hd) as [Hd1|Hn1]; [by apply D2|].
      destruct (K1 k Hk') as [x Hx]. congruence.
Qed.

Lemma wp_checkNodesQuit s :
  trawler_ok s ->
  wp checkNodesQuit s
    (fun _ s' => purged s s' /\ forall k, dead_node s k -> emulatedNodes_ s' !! k = None)
    trawler_killed.
Proof.
  intros Hs. unfold checkNodesQuit. apply wp_bind, wp_gets.
  eapply wp_conseq; [apply wp_quit_loop; [done|apply node_keys_NoDup|intros k; apply node_keys_elem]| |done].
  intros _ s' [Hp Hd]. split; [done|]. intros k Hk. apply Hd; [|done].
  destruct Hk as (n & Hn & _). apply node_keys_elem. by exists n.
Qed.
End leaving.

(** ** A node that comes *)

(** The connection [fd] of a peer that is no node yet, and what was written
    to it. *)
Record greeting_sent (fd : nat) (p : string) (s s' : Trawler) : Prop := {
  gs_topo : trawler_topo s' = trawler_topo s;
  gs_nodes : emulatedNodes_ s' = emulatedNodes_ s;
  gs_private : private s' = private s;
  gs_wires : wires s' = alter (fun text => text +:+ p) fd (wires s)
}.

Lemma wp_greet fd line s :
  wp (writeLineToFd fd line) s
    (fun _ s' => exists p q, line +:+ newline = p +:+ q /\ greeting_sent fd p s s')
    trawler_killed.
Proof.
  unfold writeLineToFd. eapply wp_conseq; [apply wp_write_all| |done].
  intros b s' (p & q & m & Hd & -> & _). exists p, q. by split.
Qed.

Lemma sent_wire fd p s s' n :
  greeting_sent fd p s s' -> unowned fd s ->
  forall k, emulatedNodes_ s !! k = Some n -> forall fd', tcpFd_ n = Some fd' ->
  wires s' !! fd' = wires s !! fd'.
Proof.
  intros [_ _ _ Hw] Hu k Hk fd' Hfd'. rewrite Hw. apply list_lookup_alter_ne. intros <-.
  by apply (Hu k n).
Qed.

Lemma sent_ok fd p s s' : greeting_sent fd p s s' -> unowned fd s -> trawler_ok s -> trawler_ok s'.
Proof.
  intros Hg Hu [Ht Hn Hf]. pose proof Hg as [Tt Tn Tp Tw]. constructor.
  - unfold topo_at. by rewrite Tt.
  - rewrite Tn. intros k n Hk. eapply node_good_text; [by apply Hn|]. by eapply sent_wire.
  - by rewrite Tn.
Qed.

Lemma sent_told fd p s s' k : greeting_sent fd p s s' -> unowned fd s -> told s' k = told s k.
Proof.
  intros Hg Hu. pose proof Hg as [Tt Tn Tp Tw]. unfold told. rewrite Tn.
  destruct (emulatedNodes_ s !! k) as [n|] eqn:Hn; [|done]. cbn. destruct (isAlive n); [|done].
  destruct (tcpFd_ n) as [fd'|] eqn:Hfd'; [|done]. cbn.
  by rewrite (sent_wire _ _ _ _ _ Hg Hu _ Hn _ Hfd').
Qed.

Lemma sent_links fd p s s' : greeting_sent fd p s s' -> same_links s s'.
Proof. intros [Tt _ Tp _]. constructor; [|done]. unfold topo_at. rewrite Tt. apply topo_same_refl. Qed.

(** No two nodes have one end point. *)
Definition endpoints_unique (s : Trawler) : Prop :=
  forall k k' ep, roster s !! k = Some ep -> roster s !! k' = Some ep -> k = k'.

Lemma unique_subset s s' : roster s' ⊆ roster s -> endpoints_unique s -> endpoints_unique s'.
Proof. intros Hr Hu k k' ep H1 H2. apply (Hu k k' ep); by eapply lookup_weaken. Qed.

(** What a connection does to the nodes and their tables. *)
Record connected (s s' : Trawler) : Prop := {
  cn_ok : trawler_ok s';
  cn_links : same_links s s';
  cn_unique : endpoints_unique s -> endpoints_unique s';
  cn_consistent : consistent s -> consistent s'
}.

Lemma connected_same s s' :
  trawler_ok s' -> same_links s s' -> trawler_ok s -> (forall k, told s' k = told s k) ->
  roster s' = roster s -> connected s s'.
Proof.
  intros Hok Hl Hs Ht Hr. constructor; [done|done|by apply unique_subset; rewrite Hr|].
  intros Hc k j.
  assert (He : entry s' k j = entry s k j).
  { unfold entry. by rewrite Hr, (tp_live _ _ (sl_topo _ _ Hl)) by apply Hs. }
  destruct (Hc k j) as [Hp Hq]. unfold pair_ok, pair_sound, pair_settled in *.
  by rewrite !Ht, He.
Qed.

Lemma looked_connected s s' : trawler_ok s -> looked s s' -> connected s s'.
Proof.
  intros Hs Hl. apply connected_same; [by eapply looked_ok|by apply looked_links|done| |].
  - intros k. by apply looked_told.
  - unfold roster. by rewrite (lo_nodes _ _ Hl).
Qed.

Lemma sent_connected fd p s s' :
  trawler_ok s -> greeting_sent fd p s s' -> unowned fd s -> connected s s'.
Proof.
  intros Hs Hg Hu. apply connected_same; [by eapply sent_ok|by eapply sent_links|done| |].
  - intros k. by eapply sent_told.
  - unfold roster. by rewrite (gs_nodes _ _ _ _ Hg).
Qed.

Lemma purged_connected s s' : purged s s' -> connected s s'.
Proof. intros []. constructor; [done..|by apply unique_subset|done]. Qed.

Lemma connected_trans s1 s2 s3 : trawler_ok s1 -> connected s1 s2 -> connected s2 s3 -> connected s1 s3.
Proof.
  intros Hs [O1 L1 U1 C1] [O2 L2 U2 C2]. constructor; [done| |auto..]. by eapply same_links_trans.
Qed.

(** The new node. *)
Definition joined (addr : Z) (n : EmulatedNode) (s : Trawler) : Trawler :=
  set_emulatedNodes (<[addr := n]> (emulatedNodes_ s)) s.

Section joining.
Context (s : Trawler) (addr : Z) (fd : nat) (ip : string) (port : Z) (p q : string)
  (Hs : trawler_ok s) (Hfree : emulatedNodes_ s !! addr = None)
  (Haddr : 0 <= addr < BROADCAST_ADDRESS) (Hip : word ip) (Hport : INT_MIN <= port <= INT_MAX)
  (Hfd : unowned fd s) (Hwire : wires s !! fd = Some p) (Hgreet : greeting addr = p +:+ q)
  (Hnew : forall k, roster s !! k <> Some (ip, port)).
#[local] Set Default Proof Using "All".

Let s' := joined addr (new_EmulatedNode fd addr ip port) s.

Lemma joined_roster : roster s' = <[addr := (ip, port)]> (roster s).
Proof. unfold roster. cbn. by rewrite fmap_insert. Qed.

Lemma joined_unique : endpoints_unique s -> endpoints_unique s'.
Proof.
  intros Hu k k' ep. rewrite joined_roster.
  intros [[<- E1]|[H1 H1']]%lookup_insert_Some [[<- E2]|[H2 H2']]%lookup_insert_Some; [done|..].
  - destruct (Hnew k'). congruence.
  - destruct (Hnew k). congruence.
  - by apply (Hu k k' ep).
Qed.

Lemma joined_told k : k <> addr -> told s' k = told s k.
Proof. intros Hk. unfold told. cbn. by rewrite lookup_insert_ne. Qed.

Lemma joined_table T : told s' addr = Some T -> T = ∅.
Proof.
  unfold told. cbn. rewrite lookup_insert_eq. cbn. rewrite Hwire. cbn.
  destruct (decide (q = EmptyString)) as [->|Hq].
  - rewrite string_app_nil_r in Hgreet. subst p. rewrite <- (string_app_nil_r (greeting addr)).
    rewrite told_whole by done. by intros [= <-].
  - by rewrite told_garbled by by eapply cut_garbled.
Qed.

Lemma joined_ok : trawler_ok s'.
Proof.
  destruct Hs as [Hg Hn Hf]. constructor; [done| |].
  - intros k n Hk. cbn in Hk. apply lookup_insert_Some in Hk as [[<- <-]|[Hne Hk]]; [|by apply Hn].
    constructor; [done|done| |].
    + split; [|done]. unfold BROADCAST_ADDRESS, INT_MIN, INT_MAX in *. cbn. lia.
    + exists fd, p. split; [done|]. split; [done|]. intros _.
      destruct (decide (q = EmptyString)) as [->|Hq].
      * left. exists EmptyString. split; [|done]. by rewrite string_app_nil_r in *.
      * right. by eapply cut_garbled.
  - intros k k' n n' Hk Hk' Heq. cbn in Hk, Hk'.
    apply lookup_insert_Some in Hk as [[<- <-]|[Hne Hk]];
      apply lookup_insert_Some in Hk' as [[<- <-]|[Hne' Hk']].
    + done.
    + by destruct (Hfd k' n').
    + by destruct (Hfd k n).
    + by apply (Hf k k' n n').
Qed.

Lemma joined_entry k j : j <> addr -> entry s' k j = entry s k j.
Proof. intros Hj. unfold entry. by rewrite joined_roster, lookup_insert_ne. Qed.

Lemma joined_sound k j : consistent s -> pair_sound s' k j.
Proof.
  intros Hc T HT. destruct (decide (k = addr)) as [->|Hk].
  - left. by rewrite (joined_table _ HT).
  - rewrite joined_told in HT by done. destruct (decide (j = addr)) as [->|Hj].
    + left. destruct (proj1 (Hc k addr) T HT) as [->| ->]; [done|]. apply entry_absent.
      rewrite Hfree. by intros [].
    + rewrite joined_entry by done. by apply Hc.
Qed.

Lemma joined_pair k j : consistent s -> k <> addr -> j <> addr -> pair_ok s' k j.
Proof.
  intros Hc Hk Hj. destruct (Hc k j) as [Hp Hq]. unfold pair_ok, pair_sound, pair_settled in *.
  by rewrite !joined_told, joined_entry.
Qed.

Context `{Platform}.

(** It is told of the others, and they of it. *)
Lemma wp_joined :
  wp (updateNeighbors addr) s'
    (fun _ s2 => connected s s2 /\ roster s2 = <[addr := (ip, port)]> (roster s)) trawler_killed.
Proof.
  pose proof joined_ok as Hok. eapply wp_conseq; [by apply wp_updateNeighbors| |done].
  intros _ s2 [M2 I2]. split; [|by rewrite (mv_roster _ _ _ M2), joined_roster].
  constructor.
  - apply M2.
  - by destruct (moves_links _ _ _ M2).
  - intros Hu. apply (unique_subset s'); [by rewrite (mv_roster _ _ _ M2)|by apply joined_unique].
  - intros Hc k j. destruct (decide (k = addr \/ j = addr)) as [Hkj|Hkj].
    2: { eapply evolves_pair; [done|done|]. apply joined_pair; [done|tauto|tauto]. }
    destruct (decide (is_Some (emulatedNodes_ s' !! k) /\ is_Some (emulatedNodes_ s' !! j)))
      as [[H1 H2]|Hno].
    + eapply introduced_pair; [done|done| |done..]. intros k' j' _. by apply joined_sound.
    + assert (Hs2 : pair_sound s2 k j)
        by by eapply evolves_sound; [| |apply joined_sound].
      split; [done|]. intros _ Hj T HT. destruct Hno. split.
      * apply told_node. eapply moves_told; [done|by eexists].
      * apply told_node. by eapply moves_told.
Qed.
End joining.

(** ** Registration *)

Section registration.
Context `{Platform}.

(** The address that a peer gets, with the end point it is known by. *)
Definition assigned (ip portLine : string) (s : Trawler) : option (Z * (string * Z)) :=
  match stoi portLine with
  | inl _ => None
  | inr port =>
      if (port <? 1024) || portConflict ip port s || (freeFishAddr s =? -1) then None
      else Some (freeFishAddr s, (ip, port))
  end.

Definition roster_with (a : option (Z * (string * Z))) (r : gmap Z (string * Z))
    : gmap Z (string * Z) :=
  match a with Some (addr, ep) => <[addr := ep]> r | None => r end.

Lemma portConflict_spec ip port s :
  portConflict ip port s = true <-> exists k, roster s !! k = Some (ip, port).
Proof.
  unfold portConflict. rewrite existsb_exists. unfold roster. split.
  - intros ([k n] & Hin & Hc). exists k. rewrite lookup_fmap.
    apply list_elem_of_In in Hin. rewrite (int_order_perm (emulatedNodes_ s)) in Hin.
    apply elem_of_map_to_list in Hin. rewrite Hin. cbn in *.
    apply andb_true_iff in Hc as [<-%String.eqb_eq <-%Z.eqb_eq]. done.
  - intros [k Hk]. rewrite lookup_fmap in Hk. apply fmap_Some in Hk as (n & Hn & [= -> ->]).
    exists (k, n). split.
    + apply list_elem_of_In. rewrite (int_order_perm (emulatedNodes_ s)).
      by apply elem_of_map_to_list.
    + cbn. by rewrite String.eqb_refl, Z.eqb_refl.
Qed.

Lemma looked_roster s s' : looked s s' -> roster s' = roster s.
Proof. intros Hl. unfold roster. by rewrite (lo_nodes _ _ Hl). Qed.

Lemma looked_unowned s s' fd : looked s s' -> unowned fd s -> unowned fd s'.
Proof. intros Hl Hu. by apply (looked_kept _ _ Hl). Qed.

(** The broadcast address says no. *)
Lemma wp_refuse fd msg s :
  trawler_ok s -> unowned fd s ->
  wp (trawler_emit (Cerr msg) ;; writeLineToFd fd (to_string BROADCAST_ADDRESS) ;; ret tt) s
    (fun _ s' => connected s s' /\ roster s' = roster s) trawler_killed.
Proof.
  intros Hs Hu. apply wp_bind, wp_trawler_emit. intros s1 H1. apply wp_bind.
  eapply wp_conseq; [apply wp_greet| |done]. intros _ s2 (p & q & _ & Hg). apply wp_ret.
  pose proof (looked_connected _ _ Hs H1) as C1. split.
  - eapply connected_trans; [done|exact C1|]. eapply sent_connected; [apply C1|done|].
    by eapply looked_unowned.
  - rewrite <- (looked_roster _ _ H1). unfold roster. by rewrite (gs_nodes _ _ _ _ Hg).
Qed.

Lemma wp_register fd ip portLine s :
  trawler_ok s -> unowned fd s -> wires s !! fd = Some EmptyString -> word ip ->
  wp (register fd ip portLine) s
    (fun _ s' => connected s s' /\
       roster s' = roster_with (assigned ip portLine s) (roster s))
    trawler_killed.
Proof.
  intros Hs Hu Hw Hip. unfold register, assigned.
  destruct (stoi portLine) as [e|port] eqn:Hport.
  { apply wp_trawler_emit. intros s1 H1. split; [by apply looked_connected|].
    by apply looked_roster. }
  apply wp_bind, wp_gets. destruct ((port <? 1024) || portConflict ip port s) eqn:Hlegal; cbn [orb].
  { by apply wp_refuse. }
  apply orb_false_iff in Hlegal as [_ Hconf].
  apply wp_bind, wp_gets. destruct (Z.eqb_spec (freeFishAddr s) (-1)) as [Hfull|Hfull].
  { by apply wp_refuse. }
  destruct (freeFishAddr_cases s) as [[Hx _]|(Hr & Hfree & _)]; [done|].
  set (addr := freeFishAddr s) in *.
  apply wp_bind, wp_trawler_emit. intros s1 H1. pose proof (looked_connected _ _ Hs H1) as C1.
  apply wp_bind. eapply wp_conseq; [apply wp_greet| |done]. intros _ s2 (p & q & Hpq & Hg).
  pose proof (looked_unowned _ _ _ H1 Hu) as Hu1.
  pose proof (sent_connected _ _ _ _ (cn_ok _ _ C1) Hg Hu1) as C2.
  assert (Hn2 : emulatedNodes_ s2 = emulatedNodes_ s)
    by (rewrite (gs_nodes _ _ _ _ Hg); apply H1).
  apply wp_bind, wp_modify. eapply wp_conseq; [apply (wp_joined s2 addr fd ip port p q)| |done].
  - apply C2.
  - by rewrite Hn2.
  - done.
  - done.
  - by apply (stoi_range portLine).
  - intros k n. rewrite (gs_nodes _ _ _ _ Hg). apply Hu1.
  - rewrite (gs_wires _ _ _ _ Hg), list_lookup_alter_eq, (lo_wires _ _ H1), Hw. done.
  - done.
  - intros k Hk. assert (Hx : portConflict ip port s = true).
    { apply portConflict_spec. exists k. rewrite <- Hk. unfold roster. by rewrite Hn2. }
    congruence.
  - intros _ s3 [C3 R3]. split.
    + eapply connected_trans; [done|exact C1|]. eapply connected_trans; [apply C1|exact C2|done].
    + rewrite R3. unfold roster. by rewrite Hn2.
Qed.
End registration.
