(* ===== verification/TrawlerLoop.v ===== *)
(** * The trawler runs

    The topology file as a script, and the loop that accepts connections: what
    the tables say at any time, whatever connects and whatever connections
    break. *)

From Stdlib Require Import Strings.Ascii.
From S2P Require Import Prelude CppStrings Doubles DoubleText Packet Runtime Edge Topology Parser ParserSpec SimNet Arp Posix EmulatedLink EmuNet EmuTable Trawler TrawlerText TrawlerRun TrawlerInv TrawlerOps TrawlerServe.

(** ** Scripts *)

Definition CLOCK_LIMIT : Z := 2 ^ 62.

(** Loss rates that a line of text can carry, times that the clock has. *)
Definition command_fits (c : Command) : Prop :=
  match c with
  | EdgeCmd _ _ o => loss_text_ok (lossRate o) = true
  | TimeAt ms => LONG_MIN <= ms * 1000 <= LONG_MAX
  | TimeAfter ms => LONG_MIN <= ms * 1000 <= LONG_MAX - CLOCK_LIMIT
  | _ => True
  end.

Definition line_fits (line : string) : Prop := command_fits (read_command line).

Definition check_command (c : Command) : Script -> option Script :=
  match c with
  | EdgeCmd a b _ => script_edge a b
  | FailEdge a b => script_failEdge a b
  | FailNode a => script_failNode a
  | RestartEdge a b => script_restartEdge a b
  | RestartNode a => script_restartNode a
  | _ => Some
  end.

(** A script is sound if it brings no link up that has a failed node, and gives
    no options to a link that is down. *)
Fixpoint script_run (lines : list string) (sc : Script) : option Script :=
  match lines with
  | [] => Some sc
  | line :: lines => sc' ← check_command (read_command line) sc; script_run lines sc'
  end.

Lemma script_run_app used rest sc sc2 :
  script_run (used ++ rest) sc = Some sc2 ->
  exists sc1, script_run used sc = Some sc1 /\ is_Some (script_run rest sc1).
Proof.
  revert sc. induction used as [|l used IH]; intros sc Hsc2.
  - exists sc. split; [done|by eexists].
  - cbn in *. destruct (check_command (read_command l) sc) as [sc'|]; [|done]. by apply IH.
Qed.

(** How the trawler may end: killed by a connection that broke, or told to. *)
Definition trawler_ends (f : fault) (_ : Trawler) : Prop := f = Exited 141 \/ f = Exited 0.

Lemma killed_ends f s : trawler_killed f s -> trawler_ends f s.
Proof. by left. Qed.

(** ** A command *)

(** What a call keeps and how it follows a script. *)
Record stepped (step : Script -> option Script) (s s' : Trawler) : Prop := {
  st_ok : trawler_ok s';
  st_kept : kept s s';
  st_follows : follows step s s'
}.

Lemma stepped_trans f g s1 s2 s3 :
  stepped f s1 s2 -> stepped g s2 s3 -> stepped (fun sc => f sc ≫= g) s1 s3.
Proof.
  intros [O1 K1 F1] [O2 K2 F2]. constructor; [done|by etrans|].
  intros sc sc' Hag Hc (sc1 & H1 & H2)%bind_Some.
  destruct (F1 sc sc1 Hag Hc H1) as [Hag1 Hc1]. by apply (F2 sc1).
Qed.

Lemma stepped_ext f g s s' : (forall sc, f sc = g sc) -> stepped f s s' -> stepped g s s'.
Proof.
  intros Hfg [Ho Hk Hf]. constructor; [done..|]. intros sc sc' Hag Hc Hg. apply (Hf sc sc'); [done..|].
  by rewrite Hfg.
Qed.

Lemma looked_stepped s s' :
  trawler_ok s -> allToAll_ (topo_at s) = false -> looked s s' -> stepped Some s s'.
Proof.
  intros Hs Hall Hl. constructor.
  - by eapply looked_ok.
  - eapply moves_kept. by apply (looked_moves (right_in s)).
  - intros sc sc' Hag Hc [= <-]. split.
    + eapply moves_agrees; [done|by apply (looked_moves (right_in s))|done].
    + by apply (looked_connected s s').
Qed.

Lemma stepped_all f s s' : stepped f s s' -> allToAll_ (topo_at s') = allToAll_ (topo_at s).
Proof. intros Hst. apply (st_kept _ _ _ Hst). Qed.

Section commands.
Context `{Platform}.

Lemma wp_printStrArray os arr s (Q : unit -> Trawler -> Prop) X :
  (forall s', looked s s' -> Q tt s') -> wp (printStrArray os arr) s Q X.
Proof. apply wp_trawler_emit. Qed.

Lemma wp_report_malformed name cmd s (Q : unit -> Trawler -> Prop) X :
  trawler_ok s -> (forall s', looked s s' -> Q tt s') -> wp (report_malformed name cmd) s Q X.
Proof.
  intros Hs HQ. apply wp_bind, wp_trawler_emit. intros s1 H1. apply wp_printStrArray.
  intros s2 H2. apply HQ. by eapply looked_trans.
Qed.

(** The hooks do not throw. *)
Lemma wp_guarded name cmd m s (Q : unit -> Trawler -> Prop) :
  wp m s Q trawler_killed -> wp (guarded name cmd m) s Q trawler_ends.
Proof.
  intros Hm. apply wp_try. eapply wp_conseq; [exact Hm|done|]. intros f s' ->. by left.
Qed.

Lemma wp_on_link name hook cmd a b f s :
  trawler_ok s -> allToAll_ (topo_at s) = false ->
  wp (hook a b) s (fun _ s' => trawler_ok s' /\ kept s s' /\ follows f s s') trawler_killed ->
  wp (ParserSpec.on_link name hook cmd a b) s (fun _ s' => stepped f s s') trawler_ends.
Proof.
  intros Hs Hall Hh. apply wp_guarded, wp_bind. eapply wp_conseq; [exact Hh| |done].
  intros found s1 (O1 & K1 & F1). assert (S1 : stepped f s s1) by by constructor.
  destruct found; cbn [negb]; [by apply wp_ret|]. apply wp_trawler_emit. intros s2 H2.
  assert (S2 : stepped Some s1 s2)
    by (apply looked_stepped; [done|by rewrite (stepped_all _ _ _ S1)|done]).
  eapply stepped_ext; [|exact (stepped_trans _ _ _ _ _ S1 S2)]. intros sc. cbn beta. destruct (f sc); reflexivity.
Qed.

Lemma wp_exitCmd cmd s (Q : unit -> Trawler -> Prop) :
  Q tt s -> wp (exitCmd cmd) s Q trawler_ends.
Proof.
  intros HQ. cbn. destruct (is_cmd "exit" cmd); [|by apply wp_ret].
  apply wp_bind, wp_modify, wp_fail. by right.
Qed.

Lemma wp_exec cmd c now s :
  trawler_ok s -> allToAll_ (topo_at s) = false -> command_typed c -> command_fits c ->
  0 <= now <= CLOCK_LIMIT ->
  wp (exec cmd c now) s (fun _ s' => stepped (check_command c) s s') trawler_ends.
Proof.
  intros Hs Hall Hty Hc Hnow.
  assert (Hrefl : stepped Some s s)
    by (apply looked_stepped; [done..|by constructor; [apply topo_same_refl|..]]).
  assert (Hlook : forall s', looked s s' -> stepped Some s s') by (intros; by apply looked_stepped).
  assert (Hlong : forall z (Q : Z -> Trawler -> Prop), LONG_MIN <= z <= LONG_MAX ->
    Q z s -> wp (long z) s Q trawler_ends) by (intros; by apply wp_long).
  destruct c as [|a b o|a b|a|a b|a| |ms|ms| |name|]; cbn [exec check_command command_typed command_fits] in *.
  - by apply wp_ret.
  - apply wp_bind. eapply wp_conseq; [apply wp_guarded, (wp_createNewEdge a b o s); [done..|]| |done].
    { by destruct Hty as (_ & _ & _ & ? & ? & ?). }
    intros _ s1 (? & ? & ?). apply wp_ret. by constructor.
  - apply wp_bind. eapply wp_conseq; [apply (wp_on_link _ _ _ _ _ (script_failEdge a b)); [done..|by apply wp_failEdgeHook]| |done].
    intros u s1 Hst. by apply wp_ret.
  - apply wp_bind. eapply wp_conseq; [apply wp_guarded, (wp_failNodeHook a s); done| |done].
    intros _ s1 (? & ? & ?). apply wp_ret. by constructor.
  - apply wp_bind. eapply wp_conseq; [apply (wp_on_link _ _ _ _ _ (script_restartEdge a b)); [done..|by apply wp_restartEdgeHook]| |done].
    intros u s1 Hst. by apply wp_ret.
  - apply wp_bind. eapply wp_conseq; [apply wp_guarded, (wp_restartNodeHook a s); done| |done].
    intros _ s1 (? & ? & ?). apply wp_ret. by constructor.
  - apply wp_bind, wp_exitCmd, wp_bind, wp_printStrArray. intros s1 H1. by apply wp_ret, Hlook.
  - apply wp_bind, wp_exitCmd. by apply Hlong.
  - apply wp_bind, wp_exitCmd, wp_bind, Hlong.
    { unfold CLOCK_LIMIT, LONG_MIN, LONG_MAX in *. lia. }
    apply Hlong; [|done]. unfold CLOCK_LIMIT, LONG_MIN, LONG_MAX in *. lia.
  - apply wp_bind, wp_exitCmd, wp_bind, wp_report_malformed; [done|]. intros s1 H1.
    by apply wp_ret, Hlook.
  - apply wp_bind, wp_report_malformed; [done|]. intros s1 H1. by apply wp_ret, Hlook.
  - apply wp_bind, wp_exitCmd, wp_bind. apply wp_bind, wp_trawler_emit. intros s1 H1.
    apply wp_trawler_emit. intros s2 H2. apply wp_ret, Hlook. by eapply looked_trans.
Qed.

(** ** The rest of the file *)

Lemma reader_ok r s : trawler_ok s -> trawler_ok (set_trawlerParser r s).
Proof. by intros []. Qed.

Lemma reader_kept r s s' :
  kept (set_trawlerParser r s) s' ->
  roster s' = roster s /\ trawler_clock s' = trawler_clock s /\ wires_kept s s' /\
  allToAll_ (topo_at s') = allToAll_ (topo_at s) /\ trawlerParser_ s' = r.
Proof. intros [Hr Hp Hw Ha]. injection Hp as Hp1 Hp2. auto. Qed.

Lemma wp_remainder_loop lines now s :
  trawler_ok s -> allToAll_ (topo_at s) = false -> Forall line_fits lines ->
  0 <= now <= CLOCK_LIMIT -> trawlerParser_ s = Some lines ->
  wp (remainder_loop set_trawlerParser lines now) s
    (fun _ s' => exists used rest, lines = used ++ rest /\
       stepped (script_run used) (set_trawlerParser (Some rest) s) s')
    trawler_ends.
Proof.
  intros Hs Hall Hf Hnow Hp. revert s Hs Hall Hp. induction Hf as [|line lines Hl Hf IH];
    intros s Hs Hall Hp; cbn [remainder_loop].
  - apply wp_ret. exists [], []. split; [done|]. constructor.
    + done.
    + constructor; try done. unfold private. cbn. by rewrite Hp.
    + by intros sc sc' Hag Hc [= <-].
  - apply wp_bind, wp_modify. set (s1 := set_trawlerParser (Some lines) s).
    apply wp_bind. eapply wp_eq; [apply parseLine_exec|].
    eapply wp_conseq; [apply wp_exec; [by apply reader_ok|done|apply read_command_typed|exact Hl|done]| |done].
    intros deferTill s2 S2. destruct (reader_kept _ _ _ (st_kept _ _ _ S2)) as (_ & _ & _ & Ha & Hr).
    destruct (deferTill =? -1).
    + eapply wp_conseq; [apply IH; [apply S2|by rewrite Ha|done]| |done].
      intros d s3 (used & rest & -> & S3). exists (line :: used), rest. split; [done|].
      assert (S2' : stepped (check_command (read_command line)) (set_trawlerParser (Some rest) s)
        (set_trawlerParser (Some rest) s2)).
      { destruct S2 as [O2 [R2 P2 W2 A2] F2]. constructor; [by apply reader_ok| |exact F2].
        constructor; [done| |done|done]. unfold private in *. cbn in *. congruence. }
      exact (stepped_trans _ _ _ _ _ S2' S3).
    + apply wp_ret. exists [line], lines. split; [done|]. eapply stepped_ext; [|exact S2].
      intros sc. cbn. by destruct (check_command (read_command line) sc).
Qed.
End commands.

(** ** Serving connections *)

(** [d] is the time until which the rest of the file is put off; without it the
    file is done. *)
Record serving (d : Z) (s : Trawler) : Prop := {
  sv_ok : trawler_ok s;
  sv_unique : endpoints_unique s;
  sv_clock : forall n, 0 <= trawler_clock s n <= CLOCK_LIMIT;
  sv_script : d = -1 \/
    (allToAll_ (topo_at s) = false /\
     forall lines, trawlerParser_ s = Some lines -> Forall line_fits lines)
}.

(** The tables are right, and the rest of the file is sound. *)
Definition right (d : Z) (s : Trawler) : Prop :=
  consistent s /\
  (d = -1 \/
   exists sc, agrees sc (topo_at s) /\
     forall lines, trawlerParser_ s = Some lines -> is_Some (script_run lines sc)).

Lemma same_agrees sc t t' :
  allToAll_ t = false -> topo_same t t' -> agrees sc t -> agrees sc t'.
Proof.
  intros Ha Hs [Hf Hv]. split; [by rewrite (tp_failed _ _ Hs)|].
  intros a b o. rewrite (view_edges t); [apply Hv|by apply (tp_edges _ _ Hs)].
Qed.

Lemma connected_serving d s s' : serving d s -> connected s s' -> serving d s'.
Proof.
  intros [Ho Hu Hc Hd] [Ho' [Ht Hp] Hu' _]. injection Hp as Hp1 Hp2.
  constructor; [done|auto|by rewrite Hp2|].
  rewrite Hp1, (tp_all _ _ Ht). exact Hd.
Qed.

Lemma connected_right d s s' : serving d s -> connected s s' -> right d s -> right d s'.
Proof.
  intros [Ho _ _ Hd] [_ [Ht Hp] _ Hcc] [Hc Hr]. injection Hp as Hp1 Hp2. split; [auto|].
  destruct Hd as [Hd|[Ha _]]; [by left|]. destruct Hr as [Hr|(sc & Hag & Hs)]; [by left|].
  right. exists sc. split; [by eapply same_agrees|]. by rewrite Hp1.
Qed.

(** A new connection. *)
Definition opened (s : Trawler) : Trawler := set_wires (wires s ++ [EmptyString]) s.

Lemma opened_text s k n fd :
  trawler_ok s -> emulatedNodes_ s !! k = Some n -> tcpFd_ n = Some fd ->
  wires (opened s) !! fd = wires s !! fd /\ fd <> length (wires s).
Proof.
  intros Hs Hn Hfd. destruct (tk_node _ Hs _ _ Hn) as [_ _ _ (fd' & text & Hfd' & Ht & _)].
  assert (fd' = fd) as -> by congruence. pose proof (lookup_lt_Some _ _ _ Ht) as Hlt. cbn.
  split; [by rewrite lookup_app_l|lia].
Qed.

Lemma opened_connected s :
  trawler_ok s -> connected s (opened s) /\ unowned (length (wires s)) (opened s) /\
    wires (opened s) !! length (wires s) = Some EmptyString.
Proof.
  intros Hs. split; [|split].
  - apply connected_same; [|by constructor; [apply topo_same_refl|]|done| |done].
    + destruct Hs as [Hg Hn Hf] eqn:E. constructor; [done| |done]. intros k n Hk.
      eapply node_good_text; [by apply Hn|]. intros fd Hfd.
      by destruct (opened_text s k n fd Hs Hk Hfd).
    + intros k. unfold told. cbn [opened emulatedNodes_ set_wires eta_Trawler].
      destruct (emulatedNodes_ s !! k) as [n|] eqn:Hn; [|done]. cbn. destruct (isAlive n); [|done].
      destruct (tcpFd_ n) as [fd|] eqn:Hfd; [|done]. cbn.
      destruct (opened_text s k n fd Hs Hn Hfd) as [Hw _]. cbn in Hw. by rewrite Hw.
  - intros k n Hn Hfd. by destruct (opened_text s k n _ Hs Hn Hfd).
  - cbn. by apply list_lookup_middle.
Qed.

Section loop.
Context `{Platform}.

(** The rest of the file, if it is due. *)
Lemma wp_due d now s :
  serving d s -> 0 <= now <= CLOCK_LIMIT ->
  wp (if (d >? -1) && (d <? now) then parseRemainder trawlerParser_ set_trawlerParser now else ret d)
    s (fun d' s' => serving d' s' /\ wires_kept s s' /\ (right d s -> right d' s')) trawler_ends.
Proof.
  intros Hs Hnow. destruct (_ && _) eqn:Hdue.
  2: { apply wp_ret. split; [done|]. by split. }
  apply andb_true_iff in Hdue as [Hd _]. destruct Hs as [Ho Hu Hc [->|[Ha Hf]]]; [done|].
  unfold parseRemainder. apply wp_bind, wp_gets.
  destruct (trawlerParser_ s) as [lines|] eqn:Hp.
  - eapply wp_conseq; [apply wp_remainder_loop; [done|done|by apply Hf|done|done]| |done].
    intros d' s' (used & rest & -> & [Ok Hk Hfol]).
    destruct (reader_kept _ _ _ Hk) as (Hros & Hclock & Hw & Hall & Hr). split; [|split; [done|]].
    + constructor; [done|by apply (unique_subset s); rewrite ?Hros|by rewrite Hclock|right]. rewrite Hall, Hr. split; [done|].
      intros lines [= <-]. by apply (proj1 (Forall_app _ _ _) (Hf _ eq_refl)).
    + intros [Hcons Hsc]. destruct Hsc as [->|(sc & Hag & Hrun)]; [done|].
      destruct (Hrun _ Hp) as [sc2 Hsc2].
      destruct (script_run_app used rest sc sc2 Hsc2) as (sc1 & H1 & H2).
      destruct (Hfol sc sc1 Hag Hcons H1) as [Hag1 Hcons1]. split; [done|]. right. exists sc1.
      split; [done|]. rewrite Hr. by intros lines [= <-].
  - apply wp_ret. split; [|split; [done|]].
    + constructor; [done..|by left].
    + intros [Hcons _]. split; [done|by left].
Qed.

Lemma wp_serve ip input d s :
  serving d s -> word ip ->
  wp (serve ip input d) s (fun d' s' => serving d' s' /\ (right d s -> right d' s')) trawler_ends.
Proof.
  intros Hs Hip. unfold serve. apply wp_bind, wp_gets, wp_bind, wp_modify. fold (opened s).
  destruct (opened_connected s (sv_ok _ _ Hs)) as (C1 & U1 & W1). set (fd := length (wires s)) in *.
  apply wp_bind.
  eapply wp_conseq; [apply wp_checkNodesQuit, C1| |intros f s'; apply killed_ends].
  intros _ s2 [P2 _].
  pose proof (connected_trans _ _ _ (sv_ok _ _ Hs) C1 (purged_connected _ _ P2)) as C2.
  pose proof (connected_serving _ _ _ Hs C2) as S2.
  apply wp_bind. unfold trawler_now. apply wp_bind, wp_gets, wp_bind, wp_modify, wp_ret.
  set (s3 := set_trawler_clock _ s2).
  assert (S3 : serving d s3).
  { destruct S2 as [O Hu Hc Hd]. constructor; [by destruct O|exact Hu|intros n; apply Hc|exact Hd]. }
  destruct (proj2 (pg_wires _ _ P2) fd U1) as [U2 W2].
  apply wp_bind. eapply wp_conseq; [apply wp_due; [done|apply S2]| |done].
  intros d' s4 (S4 & K4 & R4). destruct (proj2 K4 fd U2) as [U4 W4].
  assert (R : right d s -> right d' s4) by (intros HR; apply R4; exact (connected_right _ _ _ Hs C2 HR)).
  destruct (readLineFromFd EmptyString input) as [portLine closed]. apply wp_bind. destruct closed.
  - by apply wp_ret, wp_ret.
  - eapply wp_conseq; [apply wp_register| |intros f s'; apply killed_ends].
    + apply S4.
    + done.
    + rewrite W4. change (wires s3 !! fd) with (wires s2 !! fd). by rewrite W2, W1.
    + done.
    + intros _ s5 [C5 _]. apply wp_ret. split; [by eapply connected_serving|].
      intros HR. by eapply connected_right; [| |apply R].
Qed.

(** Peers have addresses that are words. *)
Definition accept_ok (a : Accept) : Prop :=
  match a with Accepted ip _ => word ip | _ => True end.

Lemma wp_accept_loop accepts d s :
  serving d s -> Forall accept_ok accepts ->
  wp (accept_loop accepts d) s
    (fun _ s' => trawler_ok s' /\ endpoints_unique s' /\ (right d s -> consistent s')) trawler_ends.
Proof.
  intros Hs Ha. revert d s Hs. induction Ha as [|a accepts Ha Hl IH]; intros d s Hs; cbn [accept_loop].
  { apply wp_ret. split; [apply Hs|]. split; [apply Hs|by intros []]. }
  destruct a as [|error|ip input].
  - by apply IH.
  - apply wp_trawler_emit. intros s' Hlk. pose proof (looked_connected _ _ (sv_ok _ _ Hs) Hlk) as C.
    split; [apply C|]. split; [by apply C, Hs|]. intros [Hc _]. by apply C.
  - apply wp_bind. eapply wp_conseq; [by apply wp_serve| |done]. intros d' s1 [S1 R1].
    eapply wp_conseq; [by apply IH| |done]. intros _ s2 (O2 & U2 & R2). auto.
Qed.
End loop.

(** ** The whole run *)

(** The state behind [Topology::instance(allToAll_)]. *)
Lemma new_serving c sends clock allToAll :
  instancePtr c = None -> (forall n, 0 <= clock n <= CLOCK_LIMIT) ->
  let t := mkTopology [] ∅ allToAll in
  let s := new_Trawler (mkTopoCell (Some t) (cell_seeds c) (cell_out c)) sends clock in
  serving (-1) s /\ consistent s /\ agrees (mkScript ∅ ∅) t.
Proof.
  intros Hc Hclock t s. assert (Hno : forall k, emulatedNodes_ s !! k = None) by (intros; apply lookup_empty).
  split; [|split].
  - constructor; [|intros k k' ep Hk; unfold roster in Hk; by rewrite lookup_fmap, Hno in Hk|done|by left].
    constructor; [|intros k n Hk; by rewrite Hno in Hk|intros k k' n n' Hk; by rewrite Hno in Hk].
    split; [intros i j e e' Hi; by destruct i|constructor].
  - intros k j. assert (Ht : told s k = None) by (unfold told; by rewrite Hno).
    by split; [intros T|intros _ _ T]; rewrite Ht.
  - split; [done|]. intros a b o. by destruct allToAll.
Qed.

(** A file whose every line fits, and whose commands make a sound script. *)
Definition file_fits (file : option (list string)) : Prop :=
  forall lines, file = Some lines -> Forall line_fits lines.

Definition file_sound (file : option (list string)) : Prop :=
  forall lines, file = Some lines -> is_Some (script_run lines (mkScript ∅ ∅)).

(** Exceptions come from the file and from the port alone. *)
Definition opening_fails (topoFile : string) (file : option (list string)) (o : Opening) : bool :=
  (negb (String.eqb topoFile EmptyString) && match file with None => true | Some _ => false end) ||
  negb (op_socket o) || negb (op_bind o) || negb (op_listen o).

Definition run_ends (topoFile : string) (file : option (list string)) (o : Opening)
    (f : fault) (s : Trawler) : Prop :=
  trawler_ends f s \/ (exists e, f = Thrown e) /\ opening_fails topoFile file o = true.

Section run.
Context `{Platform}.

Lemma wp_trawler_run listenPort topoFile file allToAll o accepts c sends clock :
  instancePtr c = None -> (forall n, 0 <= clock n <= CLOCK_LIMIT) ->
  topoFile = EmptyString \/ (allToAll = false /\ file_fits file) ->
  Forall accept_ok accepts ->
  wp (run listenPort topoFile file allToAll o accepts) (new_Trawler c sends clock)
    (fun _ s' => trawler_ok s' /\ endpoints_unique s' /\
       (topoFile = EmptyString \/ file_sound file -> consistent s') /\
       opening_fails topoFile file o = false)
    (run_ends topoFile file o).
Proof.
  intros Hnone Hclock Hfile Hacc. unfold run. apply wp_bind.
  destruct (new_serving c sends clock allToAll Hnone Hclock) as (S0 & C0 & A0).
  unfold wp at 1, zoom, with_instance. cbn [new_Trawler trawler_topo]. rewrite Hnone. cbn [ret].
  unfold ret at 1. cbn beta iota. set (s0 := set_trawler_topo _ _).
  change (serving (-1) s0) in S0. change (consistent s0) in C0.
  apply wp_bind.
  set (unread := negb (String.eqb topoFile EmptyString) &&
    match file with None => true | Some _ => false end).
  apply wp_conseq with (Q := fun d s1 => serving d s1 /\
      (topoFile = EmptyString \/ file_sound file -> right d s1) /\ unread = false)
    (X := run_ends topoFile file o); [| |done].
  - unfold unread. destruct (String.eqb_spec topoFile EmptyString) as [->|Hne]; cbn [negb andb].
    { apply wp_ret. split; [done|]. split; [|done]. intros _. by split; [|left]. }
    destruct Hfile as [|[-> Hf]]; [done|].
    unfold trawler_now. apply wp_bind, wp_bind, wp_gets, wp_bind, wp_modify, wp_ret.
    set (s1 := set_trawler_clock _ s0). unfold parseFile. destruct file as [lines|].
    2: { apply wp_bind, wp_modify, wp_fail. right. split; [by eexists|].
      unfold opening_fails. by destruct (String.eqb_spec topoFile EmptyString). }
    apply wp_bind, wp_modify. set (s2 := set_trawlerParser (Some lines) s1).
    assert (S2 : serving 0 s2).
    { destruct S0 as [[Hg Hn Hfd] Hu Hcl _]. constructor; [by constructor|exact Hu|intros n; apply Hcl|].
      right. split; [done|]. intros lines' [= <-]. by apply Hf. }
    assert (Hnow : 0 <= clock O <= CLOCK_LIMIT) by apply Hclock.
    unfold parseRemainder. apply wp_bind, wp_gets. cbn [trawlerParser_ s2 set_trawlerParser eta_Trawler].
    destruct S2 as [O2 U2 Cl2 _].
    eapply wp_conseq; [apply wp_remainder_loop; [exact O2|done|by apply Hf|exact Hnow|done]| |].
    + intros d s3 (used & rest & Hl & [Ok3 Hk Hfol]).
      destruct (reader_kept _ _ _ Hk) as (Hros & Hclk & _ & Hall & Hr). split.
      * constructor; [done|by apply (unique_subset s2); rewrite ?Hros|intros n; rewrite Hclk; apply Cl2|right]. rewrite Hall, Hr. split; [done|].
        intros lines' [= <-]. specialize (Hf _ eq_refl). rewrite Hl in Hf.
        by apply Forall_app in Hf as [_ Hf].
      * split; [|done]. intros [|Hs]; [done|]. destruct (Hs _ eq_refl) as [sc2 Hsc2]. rewrite Hl in Hsc2.
        destruct (script_run_app used rest _ sc2 Hsc2) as (sc1 & H1 & H2).
        destruct (Hfol _ sc1 A0 C0 H1) as [Hag1 Hcons1]. split; [done|]. right. exists sc1.
        split; [done|]. rewrite Hr. by intros lines' [= <-].
    + intros f s' Hx. by left.
  - intros d s1 (S1 & R1 & H0).
    assert (Hopen : opening_fails topoFile file o =
      negb (op_socket o) || negb (op_bind o) || negb (op_listen o))
      by (unfold opening_fails; fold unread; by rewrite H0).
    apply wp_bind. destruct (op_socket o) eqn:H1; [|by apply wp_fail; right; split; [eexists|]].
    apply wp_ret. apply wp_bind.
    destruct (op_bind o) eqn:H2; [|by apply wp_fail; right; split; [eexists|]].
    apply wp_ret. apply wp_bind.
    destruct (op_listen o) eqn:H3; [|by apply wp_fail; right; split; [eexists|]]. apply wp_ret.
    apply wp_bind, wp_trawler_emit. intros s2 Hlk.
    pose proof (looked_connected _ _ (sv_ok _ _ S1) Hlk) as C.
    eapply wp_conseq; [apply (wp_accept_loop accepts d); [by eapply connected_serving|done]| |].
    + intros _ s3 (O3 & U3 & R3). do 2 (split; [done|]). split; [|done]. intros Hs. apply R3.
      by eapply connected_right; [| |apply R1].
    + intros f s' Hx. by left.
Qed.
End run.
