(* ===== verification/TrawlerTheorems.v ===== *)
(** * Theorems about the trawler *)

From Stdlib Require Import Strings.Ascii.
From S2P Require Import Prelude CppStrings Doubles DoubleText Frame Packet EventQueue Runtime Edge Topology Parser ParserSpec SimNet Arp Posix EmulatedLink EmuNet EmuTable Trawler TrawlerText TrawlerRun TrawlerInv TrawlerOps TrawlerServe TrawlerLoop.

(** ** What a node has been told is in its connection *)

Lemma told_text s k T :
  told s k = Some T ->
  exists n fd text, emulatedNodes_ s !! k = Some n /\ tcpFd_ n = Some fd /\
    wires s !! fd = Some (greeting k +:+ text) /\ tail_of text = EmptyString /\
    T = read_table (lines_of text) ∅.
Proof.
  unfold told. intros HT. destruct (emulatedNodes_ s !! k) as [n|] eqn:Hn; [|done]. cbn in HT.
  destruct (isAlive n); [|done]. destruct (tcpFd_ n) as [fd|] eqn:Hfd; [|done]. cbn in HT.
  destruct (wires s !! fd) as [wire|] eqn:Hw; [|done]. cbn in HT. unfold told_by in HT.
  destruct (after (greeting k) wire) as [text|] eqn:Ha; [|done].
  destruct (String.eqb_spec (tail_of text) EmptyString) as [Ht|]; [|done]. injection HT as <-.
  exists n, fd, text. split; [done|]. split; [done|]. rewrite (after_Some _ _ _ Ha) in Hw. done.
Qed.

Section theorems.
Context `{Platform}.

(** C6: The trawler keeps the tables of all emulators right.  Whatever peers connect,
    whatever they send, and whichever connections break (a [send] that fails in
    the middle of a line), after any number of connections, with a topology file
    or with all nodes neighbors of each other: of any two nodes that live, each
    has been told the end point of the other and the options of their link if and
    only if the link is up and both its ends are; no node has a wrong entry; and no two
    nodes have one end point.  The
    topology file must be one that brings no link up while one of its nodes is
    failed and gives no options to a link that is down. *)
Theorem trawler_tables listenPort topoFile file allToAll o accepts c sends clock :
  instancePtr c = None -> (forall n, 0 <= clock n <= CLOCK_LIMIT) ->
  topoFile = EmptyString \/ (allToAll = false /\ file_fits file /\ file_sound file) ->
  Forall accept_ok accepts ->
  wp (run listenPort topoFile file allToAll o accepts) (new_Trawler c sends clock)
    (fun _ s' => endpoints_unique s' /\
       forall k T j, told s' k = Some T ->
         (T !! j = None \/ T !! j = entry s' k j) /\
         (k <> j -> is_Some (told s' j) -> T !! j = entry s' k j))
    (run_ends topoFile file o).
Proof.
  intros Hc Hclock Hfile Hacc. eapply wp_conseq; [apply wp_trawler_run; [done..| |done]|..].
  - destruct Hfile as [|(? & ? & _)]; [by left|by right].
  - intros u s' (_ & Hu & Hcons & _). split; [done|]. intros k T j HT. destruct (Hcons ltac:(tauto) k j) as [Hp Hq].
    split; [by apply Hp|]. intros Hne Hj. by apply Hq.
  - done.
Qed.

(** Why the program ends before it serves. *)
Definition bad_start (open : string -> option (list string)) (args : list string) (o : Opening)
    : bool :=
  match args with
  | [] => true
  | port :: rest =>
      match stoi port with
      | inl _ => true
      | inr _ =>
          let topoFile := default EmptyString (head rest) in opening_fails topoFile (open topoFile) o
      end
  end.

(** C19: How the program ends, with files whose lines have loss rates that a line
    of text can carry and times that the clock has: with 1 and a message of error
    as the last that is written, exactly if there is no port, the port is no
    number, or the file or the socket cannot be opened; otherwise with 0, when
    [accept] fails or nothing more connects, and its tables are as they should
    be; killed by a broken pipe; or by an [exit] in the topology file.  No
    exception leaves it, no loop runs away, no pointer is stale, whatever the peers
    send. *)
Theorem trawler_main_total open args o accepts c sends clock :
  instancePtr c = None -> (forall n, 0 <= clock n <= CLOCK_LIMIT) ->
  (forall name, file_fits (open name)) -> Forall accept_ok accepts ->
  wp (trawler_main open args o accepts) (new_Trawler c sends clock)
    (fun code s' =>
       if bad_start open args o
       then code = 1 /\ exists w, last (cell_out (trawler_topo s')) = Some (Cerr w)
       else code = 0 /\ trawler_ok s')
    (fun f _ => f = Exited 141 \/ f = Exited 0).
Proof.
  intros Hc Hclock Hopen Hacc. unfold trawler_main.
  assert (Hsay : forall w s (X : fault -> Trawler -> Prop), wp (trawler_emit (Cerr w) ;; ret 1) s
    (fun code s' => code = 1 /\ exists w, last (cell_out (trawler_topo s')) = Some (Cerr w)) X).
  { intros w s X. split; [done|]. exists w. cbn. apply last_snoc. }
  destruct args as [|portArg rest]; [by apply wp_bind, wp_modify, Hsay|].
  set (topoFile := default EmptyString (head rest)). apply wp_try. unfold bad_start. fold topoFile.
  destruct (stoi portArg) as [e|port] eqn:Hport; cbn [lift_exn].
  { apply wp_bind, wp_fail. cbv beta iota. apply Hsay. }
  apply wp_bind, wp_ret, wp_bind. eapply wp_conseq; [apply wp_trawler_run; [done|done| |done]|..].
  - destruct (String.eqb_spec topoFile EmptyString); [by left|right]. split; [done|apply Hopen].
  - intros u s' (Hok & _ & _ & ->). by apply wp_ret.
  - intros f s' [[->| ->]|[[e ->] ->]]; cbv beta iota; [by left|by right|apply Hsay].
Qed.

(** C20: Addresses.  A peer whose line is a legal port that no node at its address has
    becomes a node under the smallest free address and nothing else changes in
    the table of nodes; any other peer is none.  The tables stay right. *)
Theorem address_assignment fd ip portLine s :
  trawler_ok s -> endpoints_unique s -> consistent s ->
  unowned fd s -> wires s !! fd = Some EmptyString -> word ip ->
  (forall addr ep, assigned ip portLine s = Some (addr, ep) <->
     exists port, ep = (ip, port) /\ stoi portLine = inr port /\ 1024 <= port /\
       (forall k, roster s !! k <> Some (ip, port)) /\
       0 <= addr < BROADCAST_ADDRESS /\ roster s !! addr = None /\
       forall k, 0 <= k < addr -> is_Some (roster s !! k)) /\
  wp (register fd ip portLine) s
    (fun _ s' => trawler_ok s' /\ endpoints_unique s' /\ consistent s' /\
       roster s' = match assigned ip portLine s with
                   | Some (addr, ep) => <[addr := ep]> (roster s)
                   | None => roster s
                   end)
    (fun f _ => f = Exited 141).
Proof.
  intros Hs Huniq Hc Hu Hw Hip. split.
  - intros addr ep. unfold assigned. destruct (stoi portLine) as [e|port] eqn:Hport.
    { split; [done|]. by intros (p & _ & ? & _). }
    assert (Hnone : forall k, roster s !! k = None <-> emulatedNodes_ s !! k = None)
      by (intros k; rewrite !eq_None_not_Some, roster_some; done).
    assert (Hconf : portConflict ip port s = false <-> forall k, roster s !! k <> Some (ip, port)).
    { rewrite <- not_true_iff_false, portConflict_spec. split.
      - intros Hno k Hk. apply Hno. by exists k.
      - intros Hno [k Hk]. by apply (Hno k). }
    destruct (Z.ltb_spec port 1024) as [Hp|Hp]; cbn [orb].
    { split; [done|]. intros (p & _ & [= <-] & ? & _). lia. }
    destruct (portConflict ip port s) eqn:Hpc; cbn [orb].
    { split; [done|]. intros (p & _ & [= <-] & _ & Hk & _). by apply Hconf in Hk. }
    destruct (freeFishAddr_cases s) as [[-> Hall]|(Hr & Hfree & Hall)].
    + cbn. split; [done|]. intros (p & _ & _ & _ & _ & Hr & Hx & _).
      rewrite Hnone in Hx. destruct (Hall addr Hr) as [n Hn]. congruence.
    + destruct (Z.eqb_spec (freeFishAddr s) (-1)) as [|_]; [lia|]. split.
      * intros [= <- <-]. exists port. do 3 (split; [done|]). split; [by apply Hconf|].
        split; [done|]. split; [by apply Hnone|]. intros k Hk. by apply roster_some, Hall.
      * intros (p & -> & [= <-] & _ & _ & Hr' & Hx & Hall'). f_equal. f_equal.
        apply Hnone in Hx. destruct (Z.lt_trichotomy (freeFishAddr s) addr) as [Hlt|[|Hlt]]; [|done|].
        -- destruct (Hall' (freeFishAddr s) ltac:(lia)) as [x Hx2].
           apply Hnone in Hfree. congruence.
        -- destruct (Hall addr ltac:(lia)) as [x Hx2]. congruence.
  - eapply wp_conseq; [by apply wp_register| |done]. intros u s' [C R].
    split; [apply C|]. split; [by apply C|]. split; [by apply C|]. rewrite R. unfold roster_with.
    by destruct (assigned ip portLine s) as [[]|].
Qed.

(** C21: Nodes whose connection has failed leave when the next peer connects: none of
    them stays in the table and no node enters it.  If no write fails meanwhile,
    exactly they leave: every node that lives stays, its record unchanged, and is
    still told of its neighbors.  (A node to which a write fails dies, and leaves
    with them or when the next peer connects.)  What a node that stays knows changes
    in nothing but that nodes which have left are gone from it.  The tables stay
    right. *)
Theorem dead_nodes_leave s :
  trawler_ok s -> consistent s ->
  wp checkNodesQuit s
    (fun _ s' => trawler_ok s' /\ consistent s' /\ roster s' ⊆ roster s /\
       (forall k n, emulatedNodes_ s !! k = Some n -> alive_ n = false -> roster s' !! k = None) /\
       ((forall i, exists m, trawler_sends s i = Took m /\ 0 < m) ->
        forall k n, emulatedNodes_ s !! k = Some n -> alive_ n = true ->
          emulatedNodes_ s' !! k = Some n /\ (is_Some (told s k) -> is_Some (told s' k))) /\
       (forall k T', told s' k = Some T' ->
          exists T, told s k = Some T /\
            forall j, T' !! j = T !! j \/ (T' !! j = None /\ roster s' !! j = None)))
    (fun f _ => f = Exited 141).
Proof.
  intros Hs Hc. eapply wp_conseq; [by apply wp_checkNodesQuit| |done].
  intros u s' [[O1 L1 R1 D1 T1 W1 E1 S1 C1] Hd].
  split; [done|]. split; [auto|]. split; [done|]. split; [|split; [|done]].
  - intros k n Hn Hal. unfold roster. rewrite lookup_fmap, Hd; [done|]. exists n. split; [done|].
    by rewrite (node_alive s k).
  - intros Hfine k n Hn Hal. destruct (S1 Hfine) as (_ & N2 & U2). split; [|apply U2].
    apply N2; [done|]. by rewrite (node_alive s k).
Qed.

(** What the trawler comes to after any number of connections, with all nodes
    neighbors of each other or with a sound topology file. *)
Definition trawled (s : Trawler) : Prop :=
  exists listenPort topoFile file allToAll o accepts c sends clock,
    instancePtr c = None /\ (forall n, 0 <= clock n <= CLOCK_LIMIT) /\
    (topoFile = EmptyString \/ (allToAll = false /\ file_fits file /\ file_sound file)) /\
    Forall accept_ok accepts /\
    run listenPort topoFile file allToAll o accepts (new_Trawler c sends clock) = (Ret tt, s).

Lemma trawled_right s : trawled s -> trawler_ok s /\ endpoints_unique s /\ consistent s.
Proof.
  intros (listenPort & topoFile & file & allToAll & o & accepts & c & sends & clock & Hc & Hclock &
    Hfile & Hacc & Hrun).
  pose proof (wp_trawler_run listenPort topoFile file allToAll o accepts c sends clock Hc Hclock
    ltac:(tauto) Hacc) as Hw.
  unfold wp in Hw. rewrite Hrun in Hw. destruct Hw as (Hok & Hu & Hcons & _).
  split; [done|]. split; [done|]. apply Hcons. tauto.
Qed.

(** C18: The trawler and the emulators together.  The trawler has served any number
    of connections, with all nodes neighbors of each other or with a topology file
    that brings no link up while one of its nodes is failed and gives no options
    to a link that is down.  An emulator that lives and reads all that the
    trawler has written to it behind its address, in pieces of any size and over
    any number of rounds, ends with the table that it should have: the end
    points and link options of exactly those living nodes to which its link is up,
    and besides them no entry but right ones for nodes whose connection has failed
    and that have not left yet. *)
Theorem tables_reach_emulators s k T e n :
  trawled s -> told s k = Some T ->
  arp_ e = ∅ -> trawlerBuf_ e = EmptyString ->
  (forall i, (i < n)%nat -> closes (feed_ e i) = false) ->
  (forall x fd, emulatedNodes_ s !! k = Some x -> tcpFd_ x = Some fd ->
     wires s !! fd = Some (greeting k +:+ rounds (feed_ e) n)) ->
  exists e', refresh_rounds n e = (Ret tt, e') /\
    forall j, (table e' !! j = None \/ table e' !! j = entry s k j) /\
      (j <> k -> is_Some (told s j) -> table e' !! j = entry s k j).
Proof.
  intros (_ & _ & Hc)%trawled_right HT Harp Hbuf Hcl Hfeed.
  destruct (told_text s k T HT) as (x & fd & text & Hx & Hfd & Hw & Htail & ->).
  specialize (Hfeed x fd Hx Hfd). rewrite Hw in Hfeed. injection Hfeed as Hfeed.
  apply (f_equal (after (greeting k))) in Hfeed. rewrite !after_app in Hfeed. injection Hfeed as ->.
  destruct (refresh_rounds_run n e) as (e' & He' & Ht & _); [by rewrite Hbuf|done|].
  exists e'. split; [done|]. intros j. rewrite Ht. unfold fed. rewrite Hbuf.
  unfold table. rewrite Harp, fmap_empty. destruct (Hc k j) as [Hsound Hset].
  split; [by apply Hsound|]. intros Hj Hl. by apply Hset.
Qed.
End theorems.

(** ** Witnesses *)

Section witnesses.

#[local] Instance table_order : Platform := {|
  int_order A m := map_to_list m;
  int_order_perm A m := Permutation_refl (map_to_list m);
  inet_pton _ := true
|}.

Definition sample_script : list string :=
  ["edge 0 1 lossRate 0.25 delay 5"; "edge 1 2"; "time 2"; "fail 0 1"; "fail 2"; "restart 0 1";
   "restart 2"].

Definition typed (s : string) : list ReadByte := map GotByte (String.list_ascii_of_string s).

Definition peer (ip port : string) : Accept := Accepted ip (typed (port +:+ newline)).

Definition three_peers : list Accept :=
  [peer "10.0.0.1" "5000"; peer "10.0.0.2" "5000"; AcceptInterrupted; peer "10.0.0.2" "5001"].

Definition sample_cell : TopoCell := mkTopoCell None (fun _ _ => dofZ 1) [].

Definition all_opens : Opening := mkOpening true true true.

(** One call of [send] in the sequence fails. *)
Definition failing_send (n : nat) : nat -> SendResult :=
  fun i => if Nat.eqb i n then Took (-1) else Took 1000.

Definition ticks (n : nat) : Z := Z.min (1000 * Z.of_nat n) CLOCK_LIMIT.

Definition sample_run (sends : nat -> SendResult) (accepts : list Accept) :=
  run 9000 "topo" (Some sample_script) false all_opens accepts (new_Trawler sample_cell sends ticks).

Lemma ticks_range n : 0 <= ticks n <= CLOCK_LIMIT.
Proof. unfold ticks, CLOCK_LIMIT. lia. Qed.

Lemma sample_fits : file_fits (Some sample_script).
Proof.
  intros lines [= <-]. unfold line_fits.
  repeat apply List.Forall_cons; try apply List.Forall_nil;
    (match goal with |- command_fits (read_command ?l) =>
      let c := eval vm_compute in (read_command l) in
      replace (read_command l) with c by (vm_compute; reflexivity) end);
    first [done|vm_compute; reflexivity].
Qed.

Lemma sample_sound : file_sound (Some sample_script).
Proof.
  intros lines [= <-]. destruct (script_run sample_script (mkScript ∅ ∅)) as [sc|] eqn:Hs;
    [by eexists|]. vm_compute in Hs. done.
Qed.

Lemma three_accepted : Forall accept_ok three_peers.
Proof. repeat apply List.Forall_cons; try apply List.Forall_nil; try done; split; done. Qed.

Lemma trawler_tables_witness :
  wp (run 9000 "topo" (Some sample_script) false all_opens three_peers)
    (new_Trawler sample_cell (failing_send 5) ticks)
    (fun _ s' => endpoints_unique s' /\
       forall k T j, told s' k = Some T ->
         (T !! j = None \/ T !! j = entry s' k j) /\
         (k <> j -> is_Some (told s' j) -> T !! j = entry s' k j))
    (run_ends "topo" (Some sample_script) all_opens).
Proof.
  apply (trawler_tables 9000 "topo" (Some sample_script) false all_opens three_peers sample_cell
    (failing_send 5) ticks).
  - reflexivity.
  - apply ticks_range.
  - right. split; [reflexivity|]. split; [apply sample_fits|apply sample_sound].
  - apply three_accepted.
Defined.

Lemma trawler_main_total_witness :
  wp (trawler_main (fun _ => Some sample_script) ["9000"; "topo"] all_opens three_peers)
    (new_Trawler sample_cell (failing_send 5) ticks)
    (fun code s' => code = 0 /\ trawler_ok s') (fun f _ => f = Exited 141 \/ f = Exited 0).
Proof.
  apply (trawler_main_total (fun _ => Some sample_script) ["9000"; "topo"] all_opens three_peers
    sample_cell (failing_send 5) ticks).
  - reflexivity.
  - apply ticks_range.
  - intros _. apply sample_fits.
  - apply three_accepted.
Defined.

(** A state in the middle of a run. *)
Lemma sample_trawled sends accepts :
  Forall accept_ok accepts -> (sample_run sends accepts).1 = Ret tt ->
  trawled (sample_run sends accepts).2.
Proof.
  intros Ha Hr. exists 9000, "topo", (Some sample_script), false, all_opens, accepts, sample_cell, sends, ticks.
  split; [done|]. split; [exact ticks_range|]. split; [right|split; [done|]].
  - split; [done|]. split; [apply sample_fits|apply sample_sound].
  - change (sample_run sends accepts = (Ret tt, (sample_run sends accepts).2)).
    rewrite <- Hr. apply surjective_pairing.
Qed.

Lemma sample_state sends accepts :
  Forall accept_ok accepts -> (sample_run sends accepts).1 = Ret tt ->
  trawler_ok (sample_run sends accepts).2 /\ consistent (sample_run sends accepts).2 /\
  endpoints_unique (sample_run sends accepts).2.
Proof.
  intros Ha Hr. destruct (trawled_right _ (sample_trawled sends accepts Ha Hr)) as (Hok & Hu & Hc).
  split; [exact Hok|]. split; [exact Hc|exact Hu].
Qed.

(** What is written: the address, then the links that are up at the time. *)
Example three_texts :
  wires (sample_run (fun _ => Took 1000) three_peers).2 =
  ["0" +:+ newline +:+
   "add 1 10.0.0.2 5000 lossRate 0.25 delay 5 bw 10000 bt 250" +:+ newline +:+
   "remove 1" +:+ newline +:+
   "add 1 10.0.0.2 5000 lossRate 0.25 delay 5 bw 10000 bt 250" +:+ newline;
   "1" +:+ newline +:+
   "add 0 10.0.0.1 5000 lossRate 0.25 delay 5 bw 10000 bt 250" +:+ newline +:+
   "remove 0" +:+ newline +:+
   "add 0 10.0.0.1 5000 lossRate 0.25 delay 5 bw 10000 bt 250" +:+ newline +:+
   "add 2 10.0.0.2 5001 lossRate 0.0 delay 1 bw 10000 bt 250" +:+ newline;
   "2" +:+ newline +:+
   "add 1 10.0.0.2 5000 lossRate 0.0 delay 1 bw 10000 bt 250" +:+ newline].
Proof. vm_compute. reflexivity. Qed.

Definition two_peers : list Accept := take 2 three_peers.

Lemma two_accepted : Forall accept_ok two_peers.
Proof. apply Forall_take, three_accepted. Qed.

(** Two nodes are there, a third peer has connected. *)
Definition sample_two : Trawler := opened (sample_run (fun _ => Took 1000) two_peers).2.

Lemma sample_two_ok :
  trawler_ok sample_two /\ endpoints_unique sample_two /\ consistent sample_two /\
  unowned 2 sample_two.
Proof.
  destruct (sample_state (fun _ => Took 1000) two_peers two_accepted ltac:(vm_compute; reflexivity))
    as (Hok & Hc & Hun).
  destruct (opened_connected _ Hok) as ([Hok' _ Hun' Hc'] & Hu & _). split; [exact Hok'|].
  split; [exact (Hun' Hun)|]. split; [exact (Hc' Hc)|].
  assert (length (wires (sample_run (fun _ => Took 1000) two_peers).2) = 2%nat) as Hl
    by (vm_compute; reflexivity).
  rewrite Hl in Hu. exact Hu.
Qed.

Lemma address_assignment_witness :
  wp (register 2 "10.0.0.2" "5001") sample_two
    (fun _ s' => trawler_ok s' /\ endpoints_unique s' /\ consistent s' /\
       roster s' = <[2 := ("10.0.0.2", 5001)]> (roster sample_two))
    (fun f _ => f = Exited 141).
Proof.
  destruct sample_two_ok as (Hok & Hun & Hc & Hu).
  pose proof (proj2 (address_assignment 2 "10.0.0.2" "5001" sample_two Hok Hun Hc Hu
    ltac:(vm_compute; reflexivity) ltac:(split; done))) as Hw.
  replace (assigned "10.0.0.2" "5001" sample_two) with (Some (2, ("10.0.0.2", 5001))) in Hw
    by (vm_compute; reflexivity).
  exact Hw.
Defined.

(** The last line to the second node breaks off. *)
Definition sample_dead : Trawler := (sample_run (failing_send 3) two_peers).2.

Lemma dead_nodes_leave_witness :
  (exists n, emulatedNodes_ sample_dead !! 1 = Some n /\ alive_ n = false) /\
  wp checkNodesQuit sample_dead
    (fun _ s' => trawler_ok s' /\ consistent s' /\ roster s' ⊆ roster sample_dead /\
       (forall k n, emulatedNodes_ sample_dead !! k = Some n -> alive_ n = false ->
          roster s' !! k = None) /\
       (forall k n, emulatedNodes_ sample_dead !! k = Some n -> alive_ n = true ->
          emulatedNodes_ s' !! k = Some n))
    (fun f _ => f = Exited 141).
Proof.
  destruct (sample_state (failing_send 3) two_peers two_accepted ltac:(vm_compute; reflexivity))
    as (Hok & Hc & Hun).
  split.
  - eexists. split; [vm_compute; reflexivity|reflexivity].
  - eapply wp_conseq; [exact (dead_nodes_leave sample_dead Hok Hc)| |done].
    intros _ s' (H1 & H2 & H3 & H4 & H5 & _). do 4 (split; [done|]). intros k n Hn Ha.
    refine (proj1 (H5 _ k n Hn Ha)). intros i. exists 1000. vm_compute. by split.
Defined.

Definition sample_three : Trawler := (sample_run (fun _ => Took 1000) three_peers).2.

(** The commands for the second node. *)
Definition second_text : string :=
  "add 0 10.0.0.1 5000 lossRate 0.25 delay 5 bw 10000 bt 250" +:+ newline +:+
  "remove 0" +:+ newline +:+
  "add 0 10.0.0.1 5000 lossRate 0.25 delay 5 bw 10000 bt 250" +:+ newline +:+
  "add 2 10.0.0.2 5001 lossRate 0.0 delay 1 bw 10000 bt 250" +:+ newline.

(** The emulator gets them in two pieces. *)
Definition second_emulator : EmuNet :=
  mkEmuNet (new_RuntimeManager 0) ∅ EmptyString (fun _ => 0)
    (fun i => match i with
              | O => [Data (String.substring 0 100 second_text); WouldBlock]
              | 1%nat => [Data (skip 100 second_text); WouldBlock]
              | _ => [WouldBlock]
              end) (fun _ => None) (fun _ _ => dofZ 1) [] [].

Lemma tables_reach_emulators_witness :
  exists e', refresh_rounds 2 second_emulator = (Ret tt, e') /\
    table e' !! 0 = entry sample_three 1 0 /\ table e' !! 2 = entry sample_three 1 2.
Proof.
  pose proof (sample_trawled (fun _ => Took 1000) three_peers three_accepted
    ltac:(vm_compute; reflexivity)) as Hc.
  destruct (told sample_three 1) as [T|] eqn:HT; [|vm_compute in HT; discriminate].
  destruct (tables_reach_emulators sample_three 1 T second_emulator 2 Hc HT eq_refl eq_refl)
    as (e' & He' & Ht).
  - intros [|[|i]] Hi; [reflexivity|reflexivity|lia].
  - intros x fd Hx Hfd.
    assert (Hx' : (n ← emulatedNodes_ sample_three !! 1; tcpFd_ n) = Some 1%nat)
      by (vm_compute; reflexivity).
    rewrite Hx in Hx'. cbn in Hx'. rewrite Hfd in Hx'. injection Hx' as ->.
    vm_compute. reflexivity.
  - exists e'. split; [exact He'|].
    split; apply Ht; try lia.
    + destruct (told sample_three 0) eqn:H0; [eexists; reflexivity|vm_compute in H0; discriminate].
    + destruct (told sample_three 2) eqn:H0; [eexists; reflexivity|vm_compute in H0; discriminate].
Defined.
End witnesses.
