(* ===== verification/EmulatedHop.v ===== *)
(** * A hop between two emulators

    The trawler, the emulator that sends and the emulator that receives: what
    the trawler has told the two decides what becomes of a packet from one to
    the other. *)

From S2P Require Import Prelude CppStrings Doubles DoubleText Frame Packet EmulatorPacket EventQueue Runtime Edge LinkRules Topology Parser SimNet Arp Posix EmulatedLink EmuNet EmuTable TcpData TcpGrow TcpSafe TcpNet TcpTheorems Node Apps NodeFrame StackNode NodeSpec NodeTheorems Emulator EmuFrame EmuSafe EmuEvents EmuTheorems Trawler TrawlerText TrawlerRun TrawlerInv TrawlerOps TrawlerServe TrawlerLoop TrawlerTheorems.

(** ** The two tables *)

Lemma told_roster s k T : told s k = Some T -> is_Some (roster s !! k).
Proof.
  intros HT. destruct (told_text s k T HT) as (n & fd & text & Hn & _).
  apply roster_some. by exists n.
Qed.

Lemma roster_good s k ip prt :
  trawler_ok s -> roster s !! k = Some (ip, prt) ->
  0 <= k < BROADCAST_ADDRESS /\ neighbor_ok k ip prt.
Proof.
  intros Hs. unfold roster. rewrite lookup_fmap. intros [n [Hn [= -> ->]]]%fmap_Some.
  destruct (tk_node _ Hs _ _ Hn) as [_ Hr He _]. by split.
Qed.

Lemma entry_linked s k j ip prt o :
  roster s !! j = Some (ip, prt) -> live (topo_at s) k j = Some o ->
  entry s k j = Some (ip, prt, Some o).
Proof. intros Hr Hl. unfold entry. by rewrite Hr, Hl. Qed.

Lemma table_linked e j ip prt o :
  table e !! j = Some (ip, prt, Some o) ->
  exists l, arp_ e !! j = Some (mkARPData ip prt (Some l)) /\ link_options_ l = o.
Proof.
  intros Ht. assert (Hf : neighbor_of <$> arp_ e !! j = Some (ip, prt, Some o))
    by (rewrite <- lookup_fmap; exact Ht).
  apply fmap_Some in Hf as ([ip' prt' [l|]] & Ha & [= -> -> ->]). by exists l.
Qed.

(** ** What becomes of the frame *)

(** The packet is dropped or lost on the link; nothing else happens. *)
Definition missing (e e' : EmuNet) : Prop :=
  sent_ e' = sent_ e /\ emu_events e' = emu_events e /\
  pktsDropped_ (emu_rm e') + pktsLost_ (emu_rm e') =
  pktsDropped_ (emu_rm e) + pktsLost_ (emu_rm e) + 1.

(** The frame waits, for no less than the delay of the link; nothing is sent
    yet. *)
Definition waiting (bytes : list byte) (ip : string) (prt : Z) (o : EdgeOptions) (e e' : EmuNet)
    : Prop :=
  sent_ e' = sent_ e /\
  exists t, clock_ e O + delayMs o * 1000 <= t /\
    emu_events e' = addEvent (mkEvent t (Some (PhysicalSend bytes ip prt))) (emu_events e).

Lemma send_on_link_outcome bytes dest ip prt l e :
  link_ok l -> 0 <= vsize bytes - HEADER_SIZE <= Packet.MAX_PACKET_SIZE ->
  0 <= clock_ e O ->
  missing e (send_on_link bytes dest ip prt l e) \/
  waiting bytes ip prt (link_options_ l) e (send_on_link bytes dest ip prt l e).
Proof.
  intros Hl Hs Hn. unfold send_on_link, schedule_spec.
  pose proof (busy_time_range _ (as_edge l) Hs (proj1 Hl)) as Hb.
  destruct (overflows _ _ _ _); [left; split; [done|]; split; [done|]; cbn; lia|].
  destruct (loses _); [left; split; [done|]; split; [done|]; cbn; lia|]. right.
  destruct Hl as [(_ & Hd & _) _].
  set (t := finish_time _ _ _ _ + _).
  assert (Ht : clock_ e O + delayMs (link_options_ l) * 1000 <= t)
    by (unfold t, finish_time; cbn; lia).
  destruct (Z.eqb_spec t (-1)) as [Hneg|_]; [cbn in Hd; lia|].
  split; [done|]. exists (ms_ceil t). pose proof (proj1 (ms_ceil_spec t)). split; [lia|done].
Qed.

Section theorems.
Context `{MapOrder} `{Platform}.

(** C16: A hop from one emulated node to another.  The trawler has served any number
    of connections (with a sound topology file or none) and all nodes have ports
    of 16 bits.  Two nodes that it has told that their link is up, and that have
    read it: a packet for the other is framed and put on a link with the trawler's
    options.  It is dropped or lost and counted, or it waits in the queue for at
    least the delay of the link and then goes to the end point of the other node,
    where no third node listens.  There the frame changes no table and is handled
    as the packet that was sent, from the node that sent it.  (The socket takes
    ports modulo 2^16: with a port beyond that range two nodes can have one end
    point.) *)
Theorem emulated_hop s k j Tk Tj ipk pk ipj pj o pkt e r :
  trawled s -> (forall x ip p, roster s !! x = Some (ip, p) -> 0 <= p < 2 ^ 16) -> k <> j ->
  told s k = Some Tk -> told s j = Some Tj ->
  roster s !! k = Some (ipk, pk) -> roster s !! j = Some (ipj, pj) ->
  live (topo_at s) k j = Some o ->
  emu_ok e -> sendable k j pkt -> closes (feed_ e O) = false ->
  let e1 := refreshed (emu_counted e) in
  count_room (S (size (arp_ e1))) (emu_rm e1) ->
  table e1 !! j = Tk !! j ->
  assignedNodeId_ r = j -> table (enet r) !! k = Tj !! k ->
  let frame := frame_of k j pkt in
  (exists e2, EmuNet.sendPkt k j pkt e = (Ret true, e2) /\ emu_ok e2 /\
     (missing e1 e2 \/ waiting frame ipj pj o e1 e2)) /\
  (forall w, inet_pton ipj = true ->
     exists w', run_emu_event (PhysicalSend frame ipj pj) w = (Ret tt, w') /\
       sent_ (enet w') = sent_ (enet w) ++ [(frame, ipj, pj mod 2 ^ 16)]) /\
  (forall x p, roster s !! x = Some (ipj, p) -> p mod 2 ^ 16 = pj mod 2 ^ 16 -> x = j) /\
  processUdpPacket (Some (frame, ipk, pk)) r = on_stack (onReceive k pkt) r.
Proof.
  intros (Hs & Hu & Hc)%trawled_right Hports Hne HTk HTj Hk Hj Hlive He Hsend Hcl e1 Hroom Htk Hr Htr frame.
  pose proof (proj1 (roster_good _ _ _ _ Hs Hj)) as Hrange.
  pose proof Hsend as (Hvk & Hvj & Hsize & _). pose proof (vsize_nonneg pkt).
  split; [|split; [|split]].
  - rewrite (proj2 (Hc k j) Hne (ex_intro _ _ HTj) _ HTk), (entry_linked _ _ _ _ _ _ Hj Hlive) in Htk.
    destruct (table_linked _ _ _ _ _ Htk) as (l & Ha & <-).
    assert (Hok1 : emu_ok e1).
    { apply refreshed_ok; [|done]. apply emu_counted_ok; [done|].
      destruct (eo_counts _ He) as ([? _] & _). unfold e1 in Hroom. rewrite refreshed_rm in Hroom.
      destruct Hroom as ([_ Hlt] & _). cbn in Hlt. lia. }
    pose proof (emu_sendPkt_run k j pkt e He Hsend Hcl Hroom) as Hrun.
    unfold emu_send_spec in Hrun. fold e1 frame in Hrun.
    destruct (Z.eqb_spec j BROADCAST_ADDRESS) as [|_]; [lia|]. rewrite Ha in Hrun. cbn [fst snd] in Hrun.
    exists (send_frame frame j e1). split; [done|]. split.
    + apply send_frame_ok; [done|by eapply count_room_ok|done].
    + unfold send_frame. rewrite Ha. apply send_on_link_outcome.
      * exact (eo_links _ Hok1 _ _ Ha).
      * assert (Hlen : vsize frame = HEADER_SIZE + vsize pkt) by apply emulator_pack_length. lia.
      * apply (eo_clock _ Hok1 O).
  - intros w Hp. rewrite emu_physical_run. eexists. split; [reflexivity|].
    unfold send_at_once. rewrite Hp. cbn. by destruct (sendto_ (enet w) O).
  - intros x p Hx Hp. pose proof (Hports _ _ _ Hx). pose proof (Hports _ _ _ Hj).
    rewrite !Z.mod_small in Hp by done. subst p. by apply (Hu x j (ipj, pj)).
  - assert (Hp : EmulatorPacket.unpack frame = Some (mkEmulatorPacket j k pkt)).
    { apply emulator_unpack_pack. unfold validAddress, MAX_ADDRESS in *.
      unfold emulator_packet_ok, MAX_PACKET_SIZE. cbn. lia. }
    rewrite (processUdpPacket_run _ _ _ _ _ Hp). unfold for_me. cbn [destAddr_ srcAddr_ payload_].
    rewrite Hr, Z.eqb_refl. cbn [orb].
    assert (Hjk : j <> k) by congruence. rewrite live_sym in Hlive.
    rewrite (proj2 (Hc j k) Hjk (ex_intro _ _ HTk) _ HTj), (entry_linked _ _ _ _ _ _ Hk Hlive) in Htr.
    destruct (table_linked _ _ _ _ _ Htr) as (l & Ha & _).
    unfold with_learned, learned. cbn [srcAddr_]. rewrite Ha. cbn [arp_ip arp_port].
    rewrite String.eqb_refl, Z.eqb_refl. cbn [andb]. by destruct r as [[]].
Qed.
End theorems.

(** ** A witness *)

Section witnesses.
#[local] Existing Instance list_order.
#[local] Existing Instance table_order.

Definition hop_net (text : string) : EmuNet :=
  mkEmuNet (new_RuntimeManager 0) ∅ EmptyString (fun _ => 7000)
    (fun i => match i with O => [Data text; WouldBlock] | S _ => [WouldBlock] end)
    (fun _ => None) (fun _ _ => dofZ 1) [] [].

Definition hop_sender : EmuNet := hop_net second_text.

(** The first node has read its lines. *)
Definition hop_receiver : Emulator :=
  set_enet (refreshed (hop_net ("add 1 10.0.0.2 5000 lossRate 0.25 delay 5 bw 10000 bt 250" +:+ newline)))
    (set_assignedNodeId 0 sample_emulator).

Lemma hop_fed text n : fed (hop_net text) n = match n with O => EmptyString | S _ => text end.
Proof.
  destruct n as [|n]; [reflexivity|]. unfold fed. cbn [rounds hop_net feed_ trawlerBuf_ drained].
  assert (Hrest : rounds (fun _ => [WouldBlock]) n = EmptyString).
  { clear. induction n as [|n IH]; [done|]. cbn [rounds drained]. by rewrite IH. }
  rewrite Hrest. change (EmptyString +:+ ?x) with x. by rewrite !string_app_nil_r.
Qed.

Lemma hop_sender_ok : emu_ok hop_sender.
Proof.
  constructor.
  - intros n. cbn. unfold MICROS_LIMIT, TIME_LIMIT. lia.
  - numerals.
  - apply map_Forall_empty.
  - intros n. unfold hop_sender. rewrite hop_fed. destruct n; [constructor|].
    replace (lines_of second_text) with
      ["add 0 10.0.0.1 5000 lossRate 0.25 delay 5 bw 10000 bt 250"; "remove 0";
       "add 0 10.0.0.1 5000 lossRate 0.25 delay 5 bw 10000 bt 250";
       "add 2 10.0.0.2 5001 lossRate 0.0 delay 1 bw 10000 bt 250"] by (vm_compute; reflexivity).
    repeat apply List.Forall_cons; try apply List.Forall_nil; vm_compute; repeat split; discriminate.
Qed.

Lemma hop_ports x ip p : roster sample_three !! x = Some (ip, p) -> 0 <= p < 2 ^ 16.
Proof.
  intros Hx. assert (Hall : map_Forall (fun _ ep => 0 <= ep.2 < 2 ^ 16) (roster sample_three)).
  { apply map_Forall_to_list. apply Forall_forall. intros [x' [ip' p']] Hin.
    assert (Hb : forallb (fun e => (0 <=? e.2.2) && (e.2.2 <? 2 ^ 16)) (map_to_list (roster sample_three)) = true)
      by (vm_compute; reflexivity).
    rewrite forallb_forall in Hb. specialize (Hb _ (proj1 (list_elem_of_In _ _) Hin)). cbn in Hb |- *. lia. }
  exact (Hall _ _ Hx).
Qed.

Lemma emulated_hop_witness :
  (exists e2, EmuNet.sendPkt 1 0 (ping_frame 0) hop_sender = (Ret true, e2) /\ emu_ok e2) /\
  processUdpPacket (Some (frame_of 1 0 (ping_frame 0), "10.0.0.2", 5000)) hop_receiver =
  on_stack (onReceive 1 (ping_frame 0)) hop_receiver.
Proof.
  pose proof (sample_trawled (fun _ => Took 1000) three_peers three_accepted
    ltac:(vm_compute; reflexivity)) as Ht. fold sample_three in Ht.
  destruct (live (topo_at sample_three) 1 0) as [o|] eqn:Hlive; [|vm_compute in Hlive; discriminate].
  destruct (emulated_hop sample_three 1 0 (default ∅ (told sample_three 1))
    (default ∅ (told sample_three 0)) "10.0.0.2" 5000 "10.0.0.1" 5000 o (ping_frame 0)
    hop_sender hop_receiver Ht) as ((e2 & Hsend & He2 & _) & _ & _ & Hrecv).
  - exact hop_ports.
  - lia.
  - vm_compute. reflexivity.
  - vm_compute. reflexivity.
  - vm_compute. reflexivity.
  - vm_compute. reflexivity.
  - exact Hlive.
  - apply hop_sender_ok.
  - split; [reflexivity|]. split; [reflexivity|]. split; [vm_compute; discriminate|].
    eexists. split; [vm_compute; reflexivity|reflexivity].
  - reflexivity.
  - numerals.
  - vm_compute. reflexivity.
  - reflexivity.
  - vm_compute. reflexivity.
  - split; [|exact Hrecv]. exists e2. split; [exact Hsend|exact He2].
Defined.

(** On this hop the frame waits for 10 ms of transmission and 5 ms of delay. *)
Example hop_waits :
  emu_events (EmuNet.sendPkt 1 0 (ping_frame 0) hop_sender).2 =
    [mkEvent 13000 (Some (PhysicalSend (frame_of 1 0 (ping_frame 0)) "10.0.0.1" 5000))].
Proof. vm_compute. reflexivity. Qed.
End witnesses.
