(* ===== verification/ConsoleThread.v ===== *)
(** * The thread that reads standard input (src/sim/console_io_thread.cpp,
      include/nb/console_io_thread.hpp)

    Two threads share a queue of lines under a mutex: one reads standard input,
    the other is the event loop.  Every critical section is one step, and so is
    every [notify_all] behind it; between them the threads interleave in any way.
    A call that waits on the condition variable falls asleep, and sleeps until a
    notification, the end of its time, or for no reason at all wakes it; then it
    looks at its predicate again.  That no wake-up is lost is a theorem: with a
    [notify_all] left out a sleeper could sleep for ever. *)

From S2P Require Import Prelude.

Module ConsoleIo.

(** ** The object *)

Record ConsoleIoThread : Type := mkConsoleIoThread {
  lines_ : list string;
  stopping_ : bool;
  started_ : bool
}.

#[export] Instance eta_ConsoleIoThread : Eta ConsoleIoThread := fun c =>
  mkConsoleIoThread (lines_ c) (stopping_ c) (started_ c).



(** ** The threads *)

(** Where the reading thread is: before [getline] with what standard input has
    still to give, with a line in hand in front of the lock, with a line in the
    queue in front of the notification; behind the loop in front of the lock, in
    front of the last notification; or gone. *)
Inductive Reader : Type :=
| NoThread (input : list string)
| Reading (input : list string)
| Holding (line : string) (input : list string)
| Notifying (input : list string)
| EndOfFile
| NotifyingEnd
| Returned (input : list string).

(** The event loop: not in [waitForLine], asleep in it, or awake again and in
    front of the lock; [timedOut] is whether the end of its time has woken it. *)
Inductive Waiter : Type :=
| Running
| Asleep (timeoutMs : Z)
| Awake (timeoutMs : Z) (timedOut : bool).

(** Whether [stop] was called, and has notified. *)
Inductive Stopper : Type :=
| NeverStopped
| StopNotifying
| Stopped.

Record Threads : Type := mkThreads {
  object : ConsoleIoThread;
  reader : Reader;
  waiter : Waiter;
  stopper : Stopper
}.

#[export] Instance eta_Threads : Eta Threads := fun s =>
  mkThreads (object s) (reader s) (waiter s) (stopper s).



(** ** The calls of the event loop *)










Definition empty (s : Threads) : bool := bool_decide (lines_ (object s) = []).

(** ** The reading thread *)


(** ** Interleavings *)






(** ** The invariant *)






(** ** Every step keeps it *)














(** ** Properties *)









(** ** Witness *)




End ConsoleIo.
