(* ===== verification/Main.v ===== *)
(** * The program from the command line (src/main.cpp)

    The arguments after the modes [simulate] and [emulate], the files, and the
    handler of exceptions around everything. *)

From S2P Require Import Prelude CppStrings Doubles DoubleText Packet EventQueue Runtime Topology Parser Posix EmuNet TcpData Node StackNode Emulator SimNet Simulator.

Definition usage : string :=
  "Usage: netstack simulate <num nodes> <topo file> [command file] " +:+
  "[timescale]" +:+ endl EmptyString +:+
  "   or: netstack emulate <trawler host> <trawler port> <local port> " +:+
  "[command file]" +:+ endl EmptyString +:+
  "Arguments in <> are required and arguments in [] are optional." +:+ endl EmptyString +:+
  "Command file is a file with commands for a node." +:+ endl EmptyString +:+
  "Topo file is the topology file to use. It may also contain commands " +:+
  "for a node." +:+ endl EmptyString.

Definition noFile : string := "-".

Section main.
Context `{MapOrder}.

(** [open] is the file system: the lines of a file that can be opened. *)
Definition open_command_file (open : string -> option (list string)) (name : string)
    : M Simulator Z :=
  on_net (base (setCommandFile (open name))).

(** The optional arguments: the command file, if it is not [-], and the
    timescale; then the simulation. *)
Definition main_options (open : string -> option (list string)) (options : list string)
    (ios : list Console_in) : M Simulator Z :=
  let! opened :=
    match options with
    | name :: _ => if negb (String.eqb name noFile) then open_command_file open name else ret 0
    | [] => ret 0
    end in
  if negb (opened =? 0)
  then
    sim_emit (Cerr (endl ("Could not open command file " +:+ default EmptyString (head options)))) ;;
    ret 1
  else
    match options with
    | _ :: scale :: _ => let! timescale := lift_exn (stod scale) in setTimescale timescale
    | _ => ret tt
    end ;;
    start ios ;;
    ret 0.

Definition main_simulate (open : string -> option (list string)) (args : list string)
    (ios : list Console_in) : M Simulator Z :=
  match args with
  | nodes :: topoFile :: options =>
      try_catch
        (let! numNodes := lift_exn (stoi nodes) in
         construct numNodes topoFile (open topoFile) ;;
         main_options open options ios)
        (fun e =>
         sim_emit (Cerr (endl ("Exception occurred in netstack: " +:+ what e))) ;;
         ret 1)
  | _ =>
      sim_emit (Cerr (endl "Missing arguments")) ;;
      sim_emit (Cerr usage) ;;
      ret 1
  end.

(** ** The mode [emulate] *)

Context `{Platform}.

Definition emulate_options (open : string -> option (list string)) (trawlerHost : string)
    (options : list string) (c : Connecting) (ios : list Answers) : M Emulator Z :=
  let! opened :=
    match options with
    | name :: _ =>
        if negb (String.eqb name noFile)
        then on_enet (emu_base (setCommandFile (open name))) else ret 0
    | [] => ret 0
    end in
  if negb (opened =? 0)
  then
    say (Cerr (endl ("Could not open command file " +:+ default EmptyString (head options)))) ;;
    ret 1
  else
    emu_start trawlerHost c ios ;;
    ret 0.

(** The state before the constructor of [Emulator] has run. *)
Definition main_emulate (open : string -> option (list string)) (args : list string)
    (c : Connecting) (ios : list Answers) : M Emulator Z :=
  match args with
  | trawlerHost :: trawlerPort :: localPort :: options =>
      try_catch
        (let! trawlerPort := lift_exn (stoi trawlerPort) in
         let! localUdp := lift_exn (stoi localPort) in
         modify (fun s => new_Emulator localUdp (enet s)) ;;
         emulate_options open trawlerHost options c ios)
        (fun e =>
         say (Cerr (endl ("Exception occurred in netstack: " +:+ what e))) ;;
         ret 1)
  | [_; _] =>
      say (Cerr (endl "Missing arguments to emulator")) ;;
      say (Cerr usage) ;;
      ret 1
  | _ =>
      say (Cerr (endl "Missing arguments")) ;;
      say (Cerr usage) ;;
      ret 1
  end.

(** ** The choice of the mode *)

Definition in_simulator {A} (m : M Simulator A) : M (Simulator * Emulator) A :=
  zoom fst (fun x s => (x, s.2)) m.
Definition in_emulator {A} (m : M Emulator A) : M (Simulator * Emulator) A :=
  zoom snd (fun x s => (s.1, x)) m.

(** The process becomes one of the two programs; what is written to the console
    before that is kept with the simulator.  [args] are those behind the name of
    the program. *)
Definition main (open : string -> option (list string)) (args : list string)
    (sim_ios : list Console_in) (c : Connecting) (emu_ios : list Answers)
    : M (Simulator * Emulator) Z :=
  match args with
  | mode :: (_ :: _ :: _) as rest =>
      if String.eqb mode "simulate" then in_simulator (main_simulate open rest sim_ios)
      else if String.eqb mode "emulate" then in_emulator (main_emulate open rest c emu_ios)
      else
        in_simulator
          (sim_emit (Cerr (endl ("Unknown mode: " +:+ mode))) ;; sim_emit (Cerr usage) ;; ret 1)
  | _ =>
      in_simulator
        (sim_emit (Cerr (endl "Missing arguments")) ;; sim_emit (Cerr usage) ;; ret 1)
  end.
End main.
