(* ===== verification/SimFrame.v ===== *)
(** * What the nodes and the commands do to the simulated network

    Whatever a node or a line of a script does, the clock stays, the queue
    grows by events later than now, and every delivery in it is of a packet the
    base class accepted, along an edge of the topology.  The one hypothesis is
    that every edge has a bandwidth and a delay. *)

From S2P Require Import Prelude CppStrings Doubles DoubleText Frame Packet EventQueue Runtime Edge LinkRules Topology Parser ParserSpec TcpData TcpGrow Node NodeFrame StackNode SimNet Simulator.

(** ** The topology *)

Definition tame_edges (t : Topology) : Prop := Forall (fun e => tame_options (options_ e)) (edges_ t).

Definition topo_rel (s s' : TopoSt) : Prop := tame_edges (this_ s) -> tame_edges (this_ s').

#[export] Instance topo_rel_preorder : PreOrder topo_rel.
Proof. split; unfold topo_rel; [by intros s|by intros s1 s2 s3; auto]. Qed.

Lemma tame_default : tame_options default_EdgeOptions.
Proof. split; cbn; lia. Qed.

Lemma topo_keeps_get {A} (f : Topology -> A) : keeps topo_rel has_fuel (topo_get f).
Proof. apply keeps_gets. apply _. Qed.

Lemma topo_keeps_put f :
  (forall t, tame_edges t -> tame_edges (f t)) -> keeps topo_rel has_fuel (topo_put f).
Proof. intros Hf. apply keeps_modify; [apply _|]. intros s Hs. by apply Hf. Qed.

Lemma topo_keeps_push a b o : tame_options o -> keeps topo_rel has_fuel (push_edge a b o).
Proof.
  intros Ho s. split; [|done]. intros Hs. cbn.
  apply Forall_app_2; [exact Hs|]. by repeat constructor; apply Ho.
Qed.

Lemma topo_keeps_getEdge a b : keeps topo_rel has_fuel (getEdge a b).
Proof.
  unfold getEdge. pose proof (topo_keeps_push a b _ tame_default).
  pose proof @topo_keeps_get. frame.
Qed.

Lemma topo_keeps_deref i : keeps topo_rel has_fuel (deref_edge i).
Proof. unfold deref_edge. pose proof @topo_keeps_get. frame. Qed.

Lemma topo_keeps_update i f :
  (forall e, tame_options (options_ e) -> tame_options (options_ (f e))) ->
  keeps topo_rel has_fuel (update_edge i f).
Proof.
  intros Hf s. split.
  - intros Hs. unfold update_edge, deref_edge, topo_get, bind, gets.
    destruct (edges_ (this_ s) !! i) as [e|] eqn:He; cbn; [|done].
    apply Forall_insert; [done|]. apply Hf. by eapply (Forall_lookup_1 _ _ _ _ Hs).
  - by destruct (topo_keeps_deref i s) as [_ Hd]; unfold update_edge, bind;
      destruct (deref_edge i s) as [[] ?].
Qed.

Lemma topo_keeps_live a b : keeps topo_rel has_fuel (getLiveEdge a b).
Proof.
  unfold getLiveEdge. pose proof topo_keeps_getEdge. pose proof topo_keeps_deref.
  pose proof @topo_keeps_get. frame.
Qed.

Lemma topo_keeps_new a b o : tame_options o -> keeps topo_rel has_fuel (newEdge a b o).
Proof.
  intros Ho. unfold newEdge. pose proof topo_keeps_getEdge. pose proof (topo_keeps_push a b o Ho).
  pose proof (fun i => topo_keeps_update i (setOptions o) (fun _ _ => Ho)). frame.
Qed.

Lemma topo_keeps_change a b state : keeps topo_rel has_fuel (changeEdge a b state).
Proof.
  unfold changeEdge. pose proof topo_keeps_getEdge.
  pose proof (fun i => topo_keeps_update i (setState state) (fun _ H => H)).
  assert (forall o, keeps topo_rel has_fuel (topo_print o))
    by (intros o; apply keeps_modify; [apply _|]; intros s Hs; exact Hs). frame.
Qed.

(** ** The network *)

Definition events (e : SimNet) : OrderedEventQueue SimEvent := sortedEvents_ (sim_rm e).

(** Bytes that the base class lets a node send. *)
Definition deliverable (from : Z) (pkt : list byte) : Prop :=
  validAddress from = true /\ exists p, unpack pkt = Some p /\ isValidToSend p = true.

(** What a node may put into the queue at the time [now]. *)
Definition node_event (cb : SimEvent) : Prop :=
  match cb with
  | NodeCallback _ => True
  | DeliverPkt from _ pkt => deliverable from pkt
  | ParseRestOfTopoFile => False
  end.

Definition future (now : Z) (ev : ScheduledEvent SimEvent) : Prop :=
  now < timeToOccur ev /\ exists cb, callback ev = Some cb /\ node_event cb.

Definition net_tame (e : SimNet) : Prop :=
  forall t, instancePtr (sim_topo e) = Some t -> tame_edges t.

Record net_rel (e e' : SimNet) : Prop := {
  nr_now : nowMicros_ e' = nowMicros_ e;
  nr_nodes : numNodes_ e' = numNodes_ e;
  nr_file : commandFile_ (sim_rm e') = commandFile_ (sim_rm e);
  nr_tame : net_tame e -> net_tame e';
  nr_events : net_tame e ->
    exists evs, events e' = add_all evs (events e) /\ Forall (future (nowMicros_ e)) evs
}.

#[export] Instance net_rel_preorder : PreOrder net_rel.
Proof.
  split.
  - intros e. constructor; try done. intros _. by exists [].
  - intros e1 e2 e3 [N1 M1 F1 T1 V1] [N2 M2 F2 T2 V2].
    constructor; [congruence..|by auto|]. intros Ht.
    destruct (V1 Ht) as (l1 & Q1 & A1), (V2 (T1 Ht)) as (l2 & Q2 & A2).
    exists (l1 ++ l2). unfold add_all in *. rewrite fold_left_app, <- Q1. split; [done|].
    rewrite N1 in A2. by apply Forall_app_2.
Qed.

(** A change of neither the clock nor the manager. *)
Lemma net_rel_topo e c :
  (net_tame e -> forall t, instancePtr c = Some t -> tame_edges t) ->
  net_rel e (set_sim_topo c e).
Proof. intros Hc. constructor; try done. intros _. by exists []. Qed.

Lemma net_rel_rm e r : rm_same (sim_rm e) r -> net_rel e (set_sim_rm r e).
Proof.
  intros [Hq Hf]. constructor; try done. intros _. exists []. by split.
Qed.

Lemma net_rel_add e e1 ev :
  net_rel e e1 -> (net_tame e -> future (nowMicros_ e) ev) ->
  net_rel e (set_sim_rm (set_sortedEvents (addEvent ev (events e1)) (sim_rm e1)) e1).
Proof.
  intros [N1 M1 F1 T1 V1] Hev. constructor; try done. intros Ht.
  destruct (V1 Ht) as (l & Q & A). exists (l ++ [ev]). unfold add_all in *.
  rewrite fold_left_app, <- Q. split; [done|]. apply Forall_app_2; [done|].
  by repeat constructor; apply Hev.
Qed.

Lemma net_keeps_topology {A} (m : M TopoSt A) :
  keeps topo_rel has_fuel m -> keeps net_rel has_fuel (topology m).
Proof.
  intros Hm e. unfold topology, zoom, with_instance.
  set (t := match instancePtr _ with Some t => t | None => _ end).
  destruct (Hm (mkTopoSt t (cell_seeds (sim_topo e)) (cell_out (sim_topo e)))) as [H1 H2].
  destruct (m _) as [r s]. cbn in *. split; [|done].
  apply net_rel_topo. intros Ht t' [= <-]. apply H1. unfold t.
  destruct (instancePtr _) eqn:Hp; [by apply Ht|]. by constructor.
Qed.

Lemma net_keeps_emit o : keeps net_rel has_fuel (emit o).
Proof. apply keeps_modify; [apply _|]. intros e. by apply net_rel_topo. Qed.

Lemma net_keeps_now : keeps net_rel has_fuel now.
Proof. apply keeps_gets. apply _. Qed.

(** A timer of at least a millisecond lies in the future, though the clock the
    nodes see is rounded down. *)
Lemma net_keeps_timer node delta cb :
  0 < delta -> keeps net_rel has_fuel (mgr_addTimer (E := SimNet) node delta cb).
Proof.
  intros Hd e. cbn. unfold bind, now, gets, base, zoom, addTimer, bind, long.
  destruct (in_long (_ + delta)); cbn; [|split; [by apply net_rel_rm|done]].
  unfold bind, long. destruct (in_long (_ * 1000)); cbn; [|split; [by apply net_rel_rm|done]].
  split; [|done]. apply (net_rel_add e e); [done|]. intros _. split; [|by eexists].
  cbn. Z.to_euclidean_division_equations. lia.
Qed.

(** A method of an edge that it keeps its end points and options. *)
Lemma put_edge_rel e i ed ed' r t :
  instancePtr (sim_topo e) = Some t -> edges_ t !! i = Some ed ->
  schedule_rel (ed, sim_rm e) (ed', r) ->
  net_rel e (set_sim_topo (put_edge i ed' (sim_topo e)) (set_sim_rm r e)).
Proof.
  intros Ht Hi (Ho & _ & _ & _ & Hr). cbn in Ho, Hr. etrans; [by apply (net_rel_rm e r)|].
  apply net_rel_topo. cbn. intros Htame t' Ht'. rewrite Ht in Ht'. injection Ht' as <-.
  specialize (Htame t Ht). apply Forall_insert; [done|]. rewrite Ho.
  by apply (Forall_lookup_1 _ _ _ _ Htame Hi).
Qed.

Lemma net_keeps_transmit i from to pkt :
  deliverable from pkt -> keeps net_rel has_fuel (transmit_on i from to pkt).
Proof.
  intros Hpkt e. unfold transmit_on, bind, gets, edge_call.
  destruct (instancePtr (sim_topo e)) as [t|] eqn:Ht; [|done]. cbn.
  destruct (edges_ t !! i) as [ed|] eqn:Hi; [|done].
  pose proof (schedulePkt_keeps from (vsize pkt) (nowMicros_ e) (ed, sim_rm e)) as [Hk Hf].
  assert (Hl : net_tame e -> wp (schedulePkt from (vsize pkt) (nowMicros_ e)) (ed, sim_rm e)
    (fun at_ _ => at_ = -1 \/ nowMicros_ e < at_) (fun _ _ => True)).
  { intros Htame. apply schedulePkt_later; [|apply vsize_nonneg].
    by apply (Forall_lookup_1 _ _ _ _ (Htame t Ht) Hi). }
  unfold wp in Hl. destruct (schedulePkt _ _ _ _) as [[at_|f] [ed' r]]; cbn in Hk, Hf.
  2: { split; [by eapply put_edge_rel|done]. }
  pose proof (put_edge_rel e i ed ed' r t Ht Hi Hk) as Hrel.
  destruct (Z.eqb_spec at_ (-1)) as [->|Hne]; [by split|]. cbn.
  destruct (at_ <? 0); (split; [|done]).
  - etrans; [exact Hrel|]. by apply net_rel_rm.
  - apply (net_rel_add _ _ _ Hrel). intros Htame. split; [|by eexists]. cbn.
    by destruct (Hl Htame).
Qed.

Lemma net_keeps_broadcast n i from pkt :
  deliverable from pkt -> keeps net_rel has_fuel (broadcast_loop n i from pkt).
Proof.
  intros Hpkt. revert i. induction n as [|n IH]; intros i; cbn [broadcast_loop]; [by apply keeps_ret, _|].
  pose proof (net_keeps_topology _ (topo_keeps_live from i)).
  pose proof (fun j => net_keeps_transmit j from i pkt Hpkt). frame.
Qed.

(** The base class lets a packet through only if it can be delivered. *)
Lemma base_sendPkt_accepts {C} from to pkt (r : RuntimeManager C) b r' :
  Runtime.sendPkt from to pkt r = (Ret b, r') -> deliverable from pkt.
Proof.
  unfold Runtime.sendPkt. destruct (_ || _) eqn:E; [done|].
  apply orb_false_iff in E as [_ E%negb_false_iff].
  destruct (unpack pkt) as [p|] eqn:Hu; [|done].
  destruct (isValidToSend p) eqn:Hv; [|done]. intros _. split; [done|]. by exists p.
Qed.


Lemma net_keeps_sendPkt from to pkt : keeps net_rel has_fuel (SimNet.sendPkt from to pkt).
Proof.
  intros e. unfold SimNet.sendPkt.
  destruct (base_sendPkt_keeps from to pkt (sim_rm e)) as [Hk Hf].
  destruct (Runtime.sendPkt from to pkt (sim_rm e)) as [res r] eqn:Hrun. cbn in Hk, Hf.
  assert (Hb : base (Runtime.sendPkt from to pkt) e = (res, set_sim_rm r e))
    by (unfold base, zoom; by rewrite Hrun).
  destruct res as [b|f].
  2: { rewrite (bind_run_fault _ _ _ _ _ Hb). split; [by apply net_rel_rm|exact Hf]. }
  rewrite (bind_run _ _ _ _ _ Hb).
  apply base_sendPkt_accepts in Hrun as Hpkt.
  assert (Hrest : keeps net_rel has_fuel
    (if to =? BROADCAST_ADDRESS
     then let! n := gets numNodes_ in broadcast_loop (Z.to_nat n) 0 from pkt ;; ret true
     else
       let! edge := topology (getLiveEdge from to) in
       match edge with
       | None =>
           emit (Cerr (endl ("Failed to send pkt from: " +:+ to_string from +:+ " to: " +:+
                             to_string to))) ;; ret false
       | Some i => transmit_on i from to pkt ;; ret true
       end)).
  { pose proof (net_keeps_topology _ (topo_keeps_live from to)). pose proof net_keeps_emit.
    pose proof (fun n => net_keeps_broadcast n 0 from pkt Hpkt).
    pose proof (fun j => net_keeps_transmit j from to pkt Hpkt). frame. }
  destruct (Hrest (set_sim_rm r e)) as [H1 H2]. split; [|exact H2].
  etrans; [by apply (net_rel_rm e r)|exact H1].
Qed.

(** Hence of everything a node does. *)
#[export] Instance SimNet_frame : EnvFrame SimNet := {|
  ef_rel := net_rel;
  ef_fault := has_fuel;
  ef_preorder := net_rel_preorder;
  ef_plain := has_fuel_plain;
  ef_now := net_keeps_now;
  ef_sendPkt := net_keeps_sendPkt;
  ef_addTimer := net_keeps_timer;
  ef_emit := net_keeps_emit
|}.

(** ** Commands *)

(** What a command changes: the network, and the insides of nodes. *)
Record cmd_rel (s s' : Simulator) : Prop := {
  cr_net : net_rel (net s) (net s');
  cr_reader : topoFileParser_ s' = topoFileParser_ s;
  cr_timescale : timescale_ s' = timescale_ s;
  cr_running : running_ s' = running_ s;
  cr_nodes : node_addr_ <$> nodes_ s' = node_addr_ <$> nodes_ s
}.

#[export] Instance cmd_rel_preorder : PreOrder cmd_rel.
Proof.
  split.
  - by intros s.
  - intros s1 s2 s3 [N1 R1 T1 U1 D1] [N2 R2 T2 U2 D2]. constructor; [by etrans|congruence..].
Qed.

Lemma sim_keeps_net {A} (m : M SimNet A) :
  keeps net_rel has_fuel m -> keeps cmd_rel has_fuel (on_net m).
Proof. intros Hm. eapply keeps_zoom; [apply _|exact Hm|]. intros s t Ht. by constructor. Qed.

Lemma sim_keeps_node {A} i (m : M (StackNode * SimNet) A) :
  node_framed m -> keeps cmd_rel has_fuel (on_node i m).
Proof.
  intros Hm s. unfold on_node. destruct (i <? 0); [done|].
  destruct (nodes_ s !! Z.to_nat i) as [n|] eqn:Hn; [|done].
  destruct (Hm (n, net s)) as [(Ha & _ & Hr) Hf]. destruct (m (n, net s)) as [r [n' e']].
  cbn in *. split; [|done]. constructor; try done. cbn.
  by rewrite list_fmap_insert, Ha, <- list_fmap_insert, list_insert_id.
Qed.

Lemma sim_keeps_emit o : keeps cmd_rel has_fuel (sim_emit o).
Proof. apply sim_keeps_net, net_keeps_emit. Qed.

Lemma sim_keeps_print_all l : keeps cmd_rel has_fuel (print_all l).
Proof. pose proof sim_keeps_emit. induction l as [|o l IH]; cbn [print_all]; frame. Qed.

Lemma sim_keeps_stop : keeps cmd_rel has_fuel Simulator.stop.
Proof.
  unfold Simulator.stop. pose proof (sim_keeps_net _ net_keeps_now).
  pose proof sim_keeps_print_all. frame. by apply keeps_fail; [apply _|].
Qed.

Lemma sim_keeps_str os arr `{CommandOps Simulator} :
  (forall o, keeps cmd_rel has_fuel (p_emit o)) -> keeps cmd_rel has_fuel (printStrArray os arr).
Proof. intros He. apply He. Qed.

Section commands.
Context `{MapOrder}.

Lemma sim_keeps_sendNodeMsg addr msg : keeps cmd_rel has_fuel (sendNodeMsg addr msg).
Proof.
  unfold sendNodeMsg. pose proof (sim_keeps_node addr _ (node_framed_onCommand msg)). frame.
Qed.

Lemma sim_keeps_nodeCmd cmd : keeps cmd_rel has_fuel (sim_parseNodeCmd cmd).
Proof.
  unfold sim_parseNodeCmd. pose proof sim_keeps_emit. pose proof sim_keeps_sendNodeMsg. frame.
Qed.

(** A line that gives no edge options without a bandwidth and a delay. *)
Definition line_tame (line : string) : Prop :=
  match read_command line with EdgeCmd _ _ o => tame_options o | _ => True end.

Lemma sim_keeps_exec cmd c t :
  match c with EdgeCmd _ _ o => tame_options o | _ => True end ->
  keeps cmd_rel has_fuel (exec cmd c t).
Proof.
  intros Hc. pose proof sim_keeps_emit as He. pose proof sim_keeps_nodeCmd as Hn.
  pose proof sim_keeps_stop as Hs.
  assert (Hp : forall os arr, keeps cmd_rel has_fuel (printStrArray os arr)) by (intros; apply He).
  assert (Hm : forall name cmd, keeps cmd_rel has_fuel (report_malformed name cmd))
    by (intros; unfold report_malformed; frame; apply He).
  assert (Hx : keeps cmd_rel has_fuel (exitCmd cmd)) by (cbn; frame).
  assert (Ht : forall A (m : M TopoSt A), keeps topo_rel has_fuel m ->
    keeps cmd_rel has_fuel (on_net (topology m)))
    by (intros; by apply sim_keeps_net, net_keeps_topology).
  assert (Hput : forall f, (forall t, edges_ (f t) = edges_ t) -> keeps topo_rel has_fuel (topo_put f)).
  { intros f Hf. apply topo_keeps_put. intros t' Ht'. unfold tame_edges. by rewrite Hf. }
  pose proof (fun a b => Ht _ _ (topo_keeps_change a b false)) as Hfail.
  pose proof (fun a b => Ht _ _ (topo_keeps_change a b true)) as Hrestart.
  destruct c; cbn [exec]; unfold on_link, guarded; frame.
  - by apply Ht, topo_keeps_new.
  - apply Hfail.
  - by apply Ht, Hput.
  - apply Hrestart.
  - by apply Ht, Hput.
Qed.

Lemma sim_keeps_line line t : line_tame line -> keeps cmd_rel has_fuel (parseLine line t).
Proof.
  intros Hl s. rewrite parseLine_exec. by apply sim_keeps_exec.
Qed.
End commands.

(** ** The topology file *)

Definition topo_lines (s : Simulator) : list string := default [] (topoFileParser_ s).

(** Reading on takes lines from the front of the file. *)
Record read_rel (s s' : Simulator) : Prop := {
  rr_net : net_rel (net s) (net s');
  rr_lines : topo_lines s' `suffix_of` topo_lines s;
  rr_timescale : timescale_ s' = timescale_ s;
  rr_running : running_ s' = running_ s;
  rr_nodes : node_addr_ <$> nodes_ s' = node_addr_ <$> nodes_ s
}.

#[export] Instance read_rel_preorder : PreOrder read_rel.
Proof.
  split.
  - by intros s.
  - intros s1 s2 s3 [N1 R1 T1 U1 D1] [N2 R2 T2 U2 D2]. constructor; [by etrans..|congruence].
Qed.

Lemma cmd_read_rel s s' : cmd_rel s s' -> read_rel s s'.
Proof. intros [N R T U D]. constructor; try done. unfold topo_lines. by rewrite R. Qed.

Section remainder.
Context `{MapOrder}.

Lemma remainder_loop_run lines t s :
  topoFileParser_ s = Some lines -> Forall line_tame lines ->
  wp (remainder_loop set_topoFileParser lines t) s
    (fun d s' => read_rel s s' /\ (d <> -1 -> (length (topo_lines s') < length lines)%nat))
    (fun f s' => read_rel s s' /\ has_fuel f).
Proof.
  revert s. induction lines as [|line lines IH]; intros s Hs Hl; cbn [remainder_loop].
  { apply wp_ret. by split. }
  apply Forall_cons in Hl as [Hline Hl]. apply wp_bind, wp_modify, wp_bind.
  set (s1 := set_topoFileParser (Some lines) s).
  assert (H1 : read_rel s s1).
  { constructor; try done. unfold topo_lines. rewrite Hs. cbn. by exists [line]. }
  destruct (sim_keeps_line line t Hline s1) as [Hc Hf]. unfold wp at 1.
  destruct (parseLine line t s1) as [[d|f] s2]; cbn in Hc, Hf.
  2: { split; [|done]. etrans; [done|by apply cmd_read_rel]. }
  assert (H2 : read_rel s s2) by (etrans; [done|by apply cmd_read_rel]).
  assert (Hs2 : topoFileParser_ s2 = Some lines) by (by rewrite (cr_reader _ _ Hc)).
  destruct (Z.eqb_spec d (-1)) as [->|Hd].
  - eapply wp_conseq; [by apply IH| |].
    + intros d s' [H3 H4]. split; [by etrans|]. intros Hd. specialize (H4 Hd). cbn. lia.
    + intros f s' [H3 H4]. split; [by etrans|done].
  - apply wp_ret. split; [done|]. intros _. unfold topo_lines. rewrite Hs2. cbn. lia.
Qed.

Lemma parseRemainder_run t s :
  Forall line_tame (topo_lines s) ->
  wp (parseRemainder topoFileParser_ set_topoFileParser t) s
    (fun d s' => read_rel s s' /\
       (d <> -1 -> (length (topo_lines s') < length (topo_lines s))%nat))
    (fun f s' => read_rel s s' /\ has_fuel f).
Proof.
  intros Hl. unfold parseRemainder. apply wp_bind, wp_gets.
  destruct (topoFileParser_ s) as [lines|] eqn:Hs.
  - assert (topo_lines s = lines) as Hlines by (unfold topo_lines; by rewrite Hs).
    rewrite Hlines in *. by apply remainder_loop_run.
  - apply wp_ret. by split.
Qed.
End remainder.

