(* ===== verification/SimLoop.v ===== *)
(** * The main loop of the simulator

    Its fuel lasts: every event that runs takes an event whose time has come out
    of the queue, or a line out of the topology file.  What holds around an
    iteration of the loop, with and without input from the console. *)

From Stdlib Require Import Sorting.Sorted Sorting.Permutation.
From S2P Require Import Prelude CppStrings Doubles DoubleText Frame Packet EventQueue Runtime Edge LinkRules Topology Parser ParserSpec TcpData TcpGrow Node NodeFrame StackNode SimNet Simulator Main SimFrame.

Abbreviation Event := (ScheduledEvent SimEvent).

(** ** The queue *)

(** An event that a simulation may have in its queue. *)
Definition event_ok (ev : Event) : Prop :=
  exists cb, callback ev = Some cb /\
    match cb with DeliverPkt from _ pkt => deliverable from pkt | _ => True end.

Definition pending_ok (q : list Event) : Prop := queue_ok q /\ Forall event_ok q.

Lemma future_ok now ev : future now ev -> event_ok ev.
Proof. intros (_ & cb & Hc & Hn). exists cb. split; [done|]. by destruct cb. Qed.

Lemma pending_add ev q : event_ok ev -> pending_ok q -> pending_ok (addEvent ev q).
Proof.
  intros He [Hq Hf]. split; [by apply addEvent_ok|].
  eapply Permutation_Forall; [symmetry; apply addEvent_perm|]. by constructor.
Qed.

Lemma future_later now evs :
  Forall (future now) evs -> Forall (fun ev => now < timeToOccur ev) evs.
Proof. apply List.Forall_impl. by intros ev []. Qed.

Lemma add_all_pending now evs q :
  Forall (future now) evs -> pending_ok q ->
  pending_ok (add_all evs q) /\ due now (add_all evs q) = due now q.
Proof.
  intros Hf [Hq Hp]. split; [split|by apply add_all_due, future_later].
  - by apply add_all_ok.
  - apply add_all_Forall; [|done]. eapply List.Forall_impl; [|exact Hf]. by apply future_ok.
Qed.

Lemma add_all_later now evs q :
  Forall (future now) evs -> Forall (fun ev => now < timeToOccur ev) q ->
  Forall (fun ev => now < timeToOccur ev) (add_all evs q).
Proof. intros Hf%future_later. by apply add_all_Forall. Qed.

(** ** The simulator *)

Definition sim_now (s : Simulator) : Z := nowMicros_ (net s).
Definition sim_events (s : Simulator) : list Event := events (net s).

(** Every edge takes time, every line left in the topology file leaves it so,
    and the queue is in order. *)
Record sim_tame (s : Simulator) : Prop := {
  st_net : net_tame (net s);
  st_lines : Forall line_tame (topo_lines s);
  st_queue : pending_ok (sim_events s)
}.

(** What the event loop may still do. *)
Definition cost (s : Simulator) : nat := due (sim_now s) (sim_events s) + length (topo_lines s).

(** The clock stands, the invariant holds, and nothing became due but by a line
    of the topology file. *)
Record event_rel (s s' : Simulator) : Prop := {
  er_now : sim_now s' = sim_now s;
  er_file : commandFile_ (sim_rm (net s')) = commandFile_ (sim_rm (net s));
  er_running : running_ s' = running_ s;
  er_tame : sim_tame s';
  er_cost : (cost s' <= cost s)%nat;
  er_kept : forall ev, ev ∈ sim_events s -> ev ∈ sim_events s'
}.

Lemma event_rel_refl s : sim_tame s -> event_rel s s.
Proof. by constructor. Qed.

Lemma event_rel_trans s1 s2 s3 : event_rel s1 s2 -> event_rel s2 s3 -> event_rel s1 s3.
Proof.
  intros [N1 F1 U1 T1 C1 K1] [N2 F2 U2 T2 C2 K2]. constructor; [congruence..|done|lia|auto].
Qed.

Lemma read_due s s' :
  sim_tame s -> read_rel s s' ->
  due (sim_now s') (sim_events s') = due (sim_now s) (sim_events s).
Proof.
  intros [Ht Hl Hq] [[N1 N2 N3 N4 N5] Hs _ _ _]. destruct (N5 Ht) as (evs & He & Hf).
  destruct (add_all_pending _ _ _ Hf Hq) as [_ Hd]. unfold sim_now, sim_events in *.
  by rewrite N1, He, Hd.
Qed.

Lemma read_event_rel s s' : sim_tame s -> read_rel s s' -> event_rel s s'.
Proof.
  intros [Ht Hl Hq] [[N1 N2 N3 N4 N5] Hs _ Hrun _]. destruct (N5 Ht) as (evs & He & Hf).
  destruct (add_all_pending _ _ _ Hf Hq) as [Hp Hd]. unfold sim_now, sim_events in *.
  constructor; try done.
  - constructor; [by apply N4| |unfold sim_events; by rewrite He].
    destruct Hs as [pre Hs]. rewrite Hs in Hl. by apply Forall_app in Hl as [_ Hl].
  - unfold cost, sim_now, sim_events. rewrite N1, He, Hd. destruct Hs as [pre Hs].
    rewrite Hs, length_app. lia.
  - intros ev Hev. unfold sim_events. rewrite He. by apply add_all_in.
Qed.

Section loop.
Context `{MapOrder}.

(** What an event does, and a fault of it. *)
Definition event_post (s : Simulator) (_ : unit) (s' : Simulator) : Prop := event_rel s s'.
Definition event_fault (s : Simulator) (f : fault) (s' : Simulator) : Prop :=
  event_rel s s' /\ has_fuel f.

Lemma wp_keeps_event {A} (m : M Simulator A) s :
  sim_tame s -> keeps cmd_rel has_fuel m -> wp m s (fun _ s' => event_rel s s') (event_fault s).
Proof.
  intros Hs Hm. unfold wp. destruct (Hm s) as [H1 H2].
  apply cmd_read_rel, read_event_rel in H1; [|done].
  destruct (m s) as [[a|f] s']; cbn in *; [done|by split].
Qed.

(** The rest of the topology file: its next part costs a line. *)
Lemma wp_parseRest s : sim_tame s -> wp parseRestOfTopoFile s (event_post s) (event_fault s).
Proof.
  intros Hs. unfold parseRestOfTopoFile. apply wp_bind, wp_gets, wp_bind.
  eapply wp_conseq; [apply parseRemainder_run, Hs| |].
  2: { intros f s' [H1 H2]. split; [by apply read_event_rel|done]. }
  intros d s1 [H1 H2]. pose proof (read_due _ _ Hs H1) as Hdue.
  apply read_event_rel in H1; [|done].
  destruct (Z.geb_spec d 0) as [Hd|Hd]; [|by apply wp_ret].
  apply wp_zoom, wp_zoom. unfold addEventAtMicros.
  destruct (Z.ltb_spec d 0) as [|_]; [lia|]. apply wp_modify.
  destruct H1 as [N1 F1 U1 [T1 L1 Q1] C1 K1]. constructor; try done.
  - constructor; [done|done|]. apply pending_add; [by eexists|done].
  - specialize (H2 ltac:(lia)). change ((due (sim_now s1)
      (addEvent (mkEvent d (Some ParseRestOfTopoFile)) (sim_events s1)) +
      length (topo_lines s1) <= cost s)%nat).
    rewrite due_add, Hdue. unfold cost. case_decide; lia.
  - intros ev Hev. apply (add_all_in ev [_]). by apply K1.
Qed.

(** The callback with its handler of exceptions. *)
Definition fire (ev : Event) : M Simulator unit :=
  try_catch
    (match callback ev with Some cb => run_event cb | None => ret tt end)
    (fun e => sim_emit (Cerr (endl ("Simulator: callback threw: " +:+ what e)))).

Lemma wp_fire ev s : sim_tame s -> wp (fire ev) s (event_post s) (event_fault s).
Proof.
  intros Hs.
  assert (Hrun : wp (match callback ev with Some cb => run_event cb | None => ret tt end) s
    (event_post s) (event_fault s)).
  { destruct (callback ev) as [[cb|from to pkt|]|].
    - apply wp_keeps_event; [done|]. apply sim_keeps_node, node_framed_timer_cb.
    - apply wp_keeps_event; [done|]. cbn. unfold deliverPkt.
      pose proof (sim_keeps_node to _ (node_framed_onReceive from pkt)). frame.
    - by apply wp_parseRest.
    - by apply wp_ret, event_rel_refl. }
  apply wp_try. eapply wp_conseq; [exact Hrun|done|].
  intros [x|c| |] s' [H1 H2]; try (by split). eapply wp_conseq.
  - apply (wp_keeps_event _ s'); [apply H1|apply sim_keeps_emit].
  - intros [] s2 H3. by eapply event_rel_trans.
  - intros f s2 [H3 H4]. split; [by eapply event_rel_trans|done].
Qed.

(** ** The event loop *)

Definition drop_event (rest : list Event) (s : Simulator) : Simulator :=
  set_rm (set_sortedEvents rest (sim_rm (net s))) s.

(** The events that were called, in their order. *)
Definition ran : Simulator -> list Event -> Simulator -> Prop :=
  drained sim_events drop_event sim_now fire.

(** After the loop: every event whose time had come was called and is gone,
    every other is still there. *)
Record loop_rel (s s' : Simulator) : Prop := {
  lr_now : sim_now s' = sim_now s;
  lr_file : commandFile_ (sim_rm (net s')) = commandFile_ (sim_rm (net s));
  lr_running : running_ s' = running_ s;
  lr_tame : sim_tame s';
  lr_ran : exists l, ran s l s' /\ forall ev, ev ∈ sim_events s -> timeToOccur ev <= sim_now s -> ev ∈ l;
  lr_later : Forall (fun ev => sim_now s < timeToOccur ev) (sim_events s');
  lr_kept : forall ev, ev ∈ sim_events s -> sim_now s < timeToOccur ev -> ev ∈ sim_events s'
}.

Lemma drop_event_tame ev rest s :
  sim_events s = ev :: rest -> sim_tame s -> sim_tame (drop_event rest s).
Proof.
  intros He [Ht Hl [Hq Hf]]. constructor; [done|done|]. rewrite He in Hq, Hf.
  split; [by eapply queue_ok_tail|]. by apply Forall_cons in Hf as [_ Hf].
Qed.

Lemma drop_event_cost ev rest s :
  sim_events s = ev :: rest -> timeToOccur ev <= sim_now s ->
  cost s = S (cost (drop_event rest s)).
Proof.
  intros He Hev. unfold cost. rewrite He.
  change (due (sim_now (drop_event rest s)) (sim_events (drop_event rest s)))
    with (due (sim_now s) rest).
  unfold due. rewrite filter_cons, decide_True by done. done.
Qed.

Lemma wp_event_loop fuel s :
  sim_tame s -> (cost s < fuel)%nat ->
  wp (event_loop fuel) s (fun _ s' => loop_rel s s') (fun f _ => has_fuel f).
Proof.
  revert s. induction fuel as [|fuel IH]; intros s Hs Hfuel; [lia|].
  cbn [event_loop]. apply wp_bind, wp_gets, wp_bind, wp_gets.
  change (sortedEvents_ (sim_rm (net s))) with (sim_events s).
  change (nowMicros_ (net s)) with (sim_now s).
  destruct (sim_events s) as [|ev rest] eqn:He; cbn [getNextEvent].
  { apply wp_ret. constructor; try done; rewrite ?He; try done. exists []. split.
    - constructor. by rewrite He.
    - by intros ev Hev%not_elem_of_nil. }
  destruct (Z.gtb_spec (timeToOccur ev) (sim_now s)) as [Hlt|Hle].
  { assert (Hlater : Forall (fun ev => sim_now s < timeToOccur ev) (sim_events s)).
    { rewrite He. apply later_of_head; [|done]. rewrite <- He. apply Hs. }
    apply wp_ret. constructor; try done. exists []. split.
    - constructor. rewrite He. by intros ev' [= <-].
    - intros x Hx Hxt. apply (proj1 (Forall_forall _ _) Hlater) in Hx. lia. }
  apply wp_bind. eapply run_wp.
  { unfold on_net, base, zoom, removeNextEvent. cbn.
    change (sortedEvents_ (sim_rm (net s))) with (sim_events s). rewrite He. reflexivity. }
  change (set_net _ s) with (drop_event rest s). apply wp_bind.
  pose proof (drop_event_tame _ _ _ He Hs) as Hd. pose proof (drop_event_cost _ _ _ He Hle) as Hc.
  fold (fire ev). eapply wp_conseq; [apply wp_mark, (wp_fire ev _ Hd)| |by intros f s' []].
  intros [] s2 [Hrun [N2 F2 U2 T2 C2 K2]].
  eapply wp_conseq; [apply IH; [done|lia]| |by intros].
  intros _ s3 [N3 F3 U3 T3 (l & R3 & I3) L3 K3]. change (sim_now (drop_event rest s)) with (sim_now s) in N2.
  change (commandFile_ (sim_rm (net (drop_event rest s))))
    with (commandFile_ (sim_rm (net s))) in F2.
  change (running_ (drop_event rest s)) with (running_ s) in U2.
  constructor; [congruence..|done| | |].
  - exists (ev :: l). split; [by eapply drained_event|]. intros x Hx Hxt. rewrite He in Hx.
    apply elem_of_cons in Hx as [->|Hx]; [by left|]. right. apply I3; [by apply K2|lia].
  - by rewrite N2 in L3.
  - intros x Hx Hxt. rewrite He in Hx. apply elem_of_cons in Hx as [->|Hx]; [lia|].
    apply K3; [by apply K2|lia].
Qed.

(** With the fuel the main loop gives it, the event loop always ends. *)
Lemma wp_event_loop_fuel s :
  sim_tame s ->
  wp (event_loop (loop_fuel s)) s (fun _ s' => loop_rel s s') (fun f _ => has_fuel f).
Proof.
  intros Hs. apply wp_event_loop; [done|]. unfold cost, loop_fuel.
  pose proof (due_length (sim_now s) (sim_events s)). unfold sim_events, events, topo_lines in *. lia.
Qed.

(** ** An iteration without input *)

Definition silent (io : Console_in) : Prop := forall ms, io ms = None.

(** As before, and the lines left in the command file are tame too. *)
Record sim_live (s : Simulator) : Prop := {
  sl_tame : sim_tame s;
  sl_file : Forall line_tame (default [] (commandFile_ (sim_rm (net s))));
  sl_running : running_ s = true
}.

Definition all_later (s : Simulator) : Prop :=
  Forall (fun ev => sim_now s < timeToOccur ev) (sim_events s).

(** What a line of the command file does before the clock moves. *)
Record line_rel (s s' : Simulator) : Prop := {
  xr_now : sim_now s' = sim_now s;
  xr_live : sim_live s';
  xr_later : all_later s -> all_later s';
  xr_kept : forall ev, ev ∈ sim_events s -> ev ∈ sim_events s'
}.

Lemma cmd_line_rel s s' : sim_live s -> cmd_rel s s' -> line_rel s s'.
Proof.
  intros [Ht Hf Hr] Hc. pose proof (read_event_rel _ _ Ht (cmd_read_rel _ _ Hc)) as He.
  constructor; try apply He.
  - constructor; [apply He|by rewrite (er_file _ _ He)|by rewrite (er_running _ _ He)].
  - destruct Hc as [[N1 N2 N3 N4 N5] _ _ _ _]. destruct (N5 (st_net _ Ht)) as (evs & Hq & Hev).
    unfold all_later, sim_now, sim_events. rewrite N1, Hq. by apply add_all_later.
Qed.

(** The command file with other lines. *)
Definition with_file (file : option (list string)) (s : Simulator) : Simulator :=
  set_rm (set_commandFile file (sim_rm (net s))) s.

Lemma with_file_live file s :
  sim_live s -> Forall line_tame (default [] file) -> sim_live (with_file file s).
Proof. intros [[] Hf Hr] Hl. constructor; [by constructor|done|done]. Qed.

Lemma with_file_rel file s :
  sim_live s -> Forall line_tame (default [] file) -> line_rel s (with_file file s).
Proof. intros Hs Hl. constructor; try done. by apply with_file_live. Qed.

Lemma line_rel_trans s1 s2 s3 : line_rel s1 s2 -> line_rel s2 s3 -> line_rel s1 s3.
Proof. intros [] []. constructor; [congruence|done|auto..]. Qed.

Lemma wp_on_now s (Q : Z -> Simulator -> Prop) X :
  Q (Z.quot (sim_now s) 1000) s -> wp (on_net now) s Q X.
Proof. intros HQ. apply wp_zoom, wp_gets. by destruct s. Qed.

Lemma wp_readCommandFile d s :
  sim_live s ->
  wp (readCommandFile (fun s => sim_rm (net s)) set_rm (on_net now) parseLine d) s
    (fun d' s' => line_rel s s' /\ (commandFile_ (sim_rm (net s)) = None -> d' = -1 /\ s' = s))
    (fun f _ => has_fuel f).
Proof.
  intros Hs. assert (Hrefl : line_rel s s) by (by apply cmd_line_rel).
  unfold readCommandFile. apply wp_bind, wp_gets.
  destruct (commandFile_ (sim_rm (net s))) as [lines|] eqn:Hf; [|by apply wp_ret].
  apply wp_bind, wp_bind, wp_on_now, wp_bind, wp_long_any; [intros _|done]. apply wp_ret.
  destruct (d <=? _); [|by apply wp_ret].
  pose proof (sl_file _ Hs) as Hl. rewrite Hf in Hl.
  destruct lines as [|line rest].
  { apply wp_bind, wp_modify, wp_ret. split; [by apply with_file_rel|done]. }
  apply Forall_cons in Hl as [Hline Hl]. apply wp_bind, wp_modify.
  pose proof (with_file_rel (Some rest) s Hs Hl) as Hrel.
  change (set_rm _ s) with (with_file (Some rest) s).
  apply wp_bind, wp_on_now, wp_bind, wp_long_any; [intros _|done]. apply wp_bind.
  set (t := _ * 1000). destruct (sim_keeps_line line t Hline (with_file (Some rest) s)) as [H1 H2].
  unfold wp at 1. destruct (parseLine line t _) as [[r|f] s2]; cbn in H1, H2; [|done].
  apply wp_ret. split; [|done]. eapply line_rel_trans; [done|].
  apply cmd_line_rel; [apply Hrel|done].
Qed.

Definition at_now (t : Z) (s : Simulator) : Simulator := set_net (set_nowMicros t (net s)) s.

Lemma at_now_tame t s : sim_tame s -> sim_tame (at_now t s).
Proof. intros []. by constructor. Qed.

(** How far the clock is to move. *)
Definition delta_of (d : Z) (s : Simulator) : Z :=
  match sim_events s with
  | ev :: _ => timeToOccur ev - sim_now s
  | [] => if d >=? 0 then d - sim_now s else 0
  end.

Definition later_clock (d : Z) (s : Simulator) : Simulator :=
  at_now (Z.max (sim_now s) (sim_now s + delta_of d s)) s.

(** An iteration without input from the console: a line of the command file, the
    clock, and everything that is due. *)
Definition turn (d : Z) (s : Simulator) (l : list Event) (d' : Z) (s' : Simulator) : Prop :=
  exists s1,
    readCommandFile (fun s => sim_rm (net s)) set_rm (on_net now) parseLine d s = (Ret d', s1) /\
    ran (later_clock d' s1) l s'.

(** As many iterations as there are lists: the events that each calls. *)
Inductive turns : Z -> Simulator -> list (list Event) -> Z -> Simulator -> Prop :=
| turns_none d s : turns d s [] d s
| turns_more d s l d1 s1 ls d2 s2 :
    turn d s l d1 s1 -> turns d1 s1 ls d2 s2 -> turns d s (l :: ls) d2 s2.

(** What an iteration without input does. *)
Record iter_rel (d : Z) (s : Simulator) (d' : Z) (s' : Simulator) : Prop := {
  ir_turn : exists l, turn d s l d' s' /\
    (forall ev, ev ∈ sim_events s -> timeToOccur ev <= sim_now s' -> ev ∈ l) /\
    (commandFile_ (sim_rm (net s)) = None -> ran (at_now (sim_now s') s) l s');
  ir_live : sim_live s';
  ir_now : sim_now s <= sim_now s';
  ir_later : all_later s';
  ir_kept : forall ev, ev ∈ sim_events s -> sim_now s' < timeToOccur ev -> ev ∈ sim_events s';
  ir_moves : all_later s -> sim_events s <> [] -> sim_now s < sim_now s';
  ir_exact : all_later s -> commandFile_ (sim_rm (net s)) = None ->
    sim_now s' = match sim_events s with [] => sim_now s | ev :: _ => timeToOccur ev end
}.

Lemma iter_rel_after d d1 s s1 s2 :
  readCommandFile (fun s => sim_rm (net s)) set_rm (on_net now) parseLine d s = (Ret d1, s1) ->
  line_rel s s1 -> (commandFile_ (sim_rm (net s)) = None -> d1 = -1 /\ s1 = s) ->
  loop_rel (later_clock d1 s1) s2 -> iter_rel d s d1 s2.
Proof.
  intros Hrun [N1 L1 A1 K1] Hnone [N2 F2 U2 T2 (l & R2 & I2) L2 K2]. unfold later_clock in *.
  set (t := Z.max _ _) in *.
  change (sim_now (at_now t s1)) with t in *.
  change (sim_events (at_now t s1)) with (sim_events s1) in *.
  assert (Ht : all_later s -> match sim_events s1 with
    | ev :: _ => t = timeToOccur ev /\ sim_now s < t | [] => True end).
  { intros Hl%A1. unfold all_later, t, delta_of in *. destruct (sim_events s1) as [|ev q]; [done|].
    inversion Hl; subst. lia. }
  constructor.
  - exists l. split; [by exists s1|]. split.
    + intros ev Hev Hle. apply I2; [by apply K1|]. lia.
    + intros Hfile. destruct (Hnone Hfile) as [_ ->]. by rewrite N2.
  - constructor; [done| |].
    + rewrite F2. apply L1.
    + rewrite U2. apply L1.
  - lia.
  - unfold all_later. by rewrite N2.
  - intros ev Hev Hlt. apply K2; [by apply K1|lia].
  - intros Hl Hne. specialize (Ht Hl). destruct (sim_events s) as [|ev q]; [done|].
    specialize (K1 ev ltac:(left)). destruct (sim_events s1); [by apply not_elem_of_nil in K1|].
    lia.
  - intros Hl Hfile. destruct (Hnone Hfile) as [-> ->]. specialize (Ht Hl). rewrite N2.
    unfold t, delta_of in *. destruct (sim_events s); cbn; lia.
Qed.

(** Whatever is typed, no line of it makes an edge that takes no time. *)
Definition console_tame (io : Console_in) : Prop :=
  forall ms line elapsed, io ms = Some (line, elapsed) -> line_tame line.

Lemma wp_iteration io d s :
  console_tame io -> sim_live s ->
  wp (iteration io d) s (fun d' s' => sim_live s' /\ (silent io -> iter_rel d s d' s'))
    (fun f _ => has_fuel f).
Proof.
  intros Hio Hs. unfold iteration. apply wp_bind.
  eapply wp_conseq; [by apply wp_mark, wp_readCommandFile| |by intros].
  intros d1 s1 [Hfile [H1 Hnone]]. apply wp_bind, wp_gets, wp_bind, wp_gets, wp_bind.
  change (sortedEvents_ (sim_rm (net s1))) with (sim_events s1).
  change (nowMicros_ (net s1)) with (sim_now s1).
  eapply (wp_conseq _ _ (fun p s' => s' = s1 /\ p.1 = delta_of d1 s1) _ (fun f _ => has_fuel f));
    [|intros [delta wait] s' [-> Hdelta]|by intros].
  { unfold delta_of. destruct (sim_events s1) as [|ev q]; cbn [getNextEvent].
    - destruct (d1 >=? 0); [|by apply wp_ret].
      apply wp_bind, wp_long_any; [intros _|done]. by apply wp_ret.
    - apply wp_bind, wp_long_any; [intros _|done]. by apply wp_ret. }
  cbn [fst] in Hdelta. subst delta. apply wp_bind, wp_gets, wp_bind.
  eapply (wp_conseq _ _ (fun _ s' => s' = s1) _ (fun f _ => has_fuel f)); [|intros wt s' ->|by intros].
  { destruct (_ && _); [|by apply wp_ret]. by apply wp_double_long_any. }
  destruct (io _) as [[line elapsed]|] eqn:Hin.
  { apply wp_bind, wp_double_long_any; [intros scaled|done].
    apply wp_bind, wp_long_any; [intros _|done]. apply wp_bind, wp_modify.
    set (t := _ + scaled). change (set_net _ s1) with (at_now t s1). apply wp_bind.
    destruct (sim_keeps_line line t (Hio _ _ _ Hin) (at_now t s1)) as [Hc Hf].
    unfold wp. destruct (parseLine line t _) as [[r|f] s2]; cbn in Hc, Hf |- *; [|done].
    split; [|intros Hs'; by rewrite Hs' in Hin].
    eapply cmd_line_rel; [|exact Hc]. destruct H1 as [_ [Ht ? ?] _ _].
    constructor; [by apply at_now_tame|done|done]. }
  apply wp_bind, wp_long_any; [intros _|done].
  apply wp_bind, wp_modify. set (t := Z.max _ _). change (set_net _ s1) with (at_now t s1).
  apply wp_bind, wp_gets, wp_bind. eapply wp_conseq; [apply wp_event_loop_fuel| |by intros].
  { apply at_now_tame, (sl_tame _ (xr_live _ _ H1)). }
  intros [] s2 H2. apply wp_ret.
  assert (iter_rel d s d1 s2) as Hi by (by eapply iter_rel_after). split; [apply Hi|done].
Qed.

Lemma silent_tame io : silent io -> console_tame io.
Proof. intros Hs ms line elapsed. by rewrite Hs. Qed.

Lemma wp_silent io d s :
  silent io -> sim_live s ->
  wp (iteration io d) s (fun d' s' => iter_rel d s d' s') (fun f _ => has_fuel f).
Proof.
  intros Hio Hs. eapply wp_conseq; [apply wp_iteration; [by apply silent_tame|done]| |by intros].
  intros d' s' [_ Hi]. by apply Hi.
Qed.

(** ** The main loop without input *)

(** An event that is pending is called once enough iterations have passed: each
    moves the clock while it is there. *)
Lemma wp_main_silent ev ios d s :
  Forall silent ios -> sim_live s -> all_later s ->
  wp (main_loop ios d) s
    (fun d' s' => sim_live s' /\ all_later s' /\ sim_now s <= sim_now s' /\
       exists ls, turns d s ls d' s' /\
         (ev ∈ sim_events s -> timeToOccur ev - sim_now s <= Z.of_nat (length ios) ->
          ev ∈ concat ls /\ timeToOccur ev <= sim_now s'))
    (fun f _ => has_fuel f).
Proof.
  intros Hio. revert d s. induction Hio as [|io ios Hsil Hio IH]; intros d s Hs Hl;
    cbn [main_loop]; apply wp_bind, wp_gets; rewrite (sl_running _ Hs); cbn [negb].
  { apply wp_ret. do 3 (split; [done|]). exists []. split; [constructor|]. intros Hev Hn.
    apply (proj1 (Forall_forall _ _) Hl) in Hev. cbn in Hn. lia. }
  apply wp_bind. eapply wp_conseq; [by apply wp_silent| |by intros].
  intros d1 s1 [(l & T1 & I1 & _) L1 N1 A1 K1 M1 _].
  eapply wp_conseq; [by apply IH| |by intros].
  intros d2 s2 (L2 & A2 & N2 & ls & T2 & I2). do 2 (split; [done|]). split; [lia|].
  exists (l :: ls). split; [by eapply turns_more|]. intros Hev Hn. cbn [length concat] in *.
  destruct (decide (timeToOccur ev <= sim_now s1)) as [Hle|Hgt].
  { split; [|lia]. apply elem_of_app. left. by apply I1. }
  assert (Hne : sim_events s <> []) by (intros E; rewrite E in Hev; by apply not_elem_of_nil in Hev).
  specialize (M1 Hl Hne). destruct I2 as [I2 H2]; [by apply K1; [|lia]|lia|].
  split; [|done]. apply elem_of_app. by right.
Qed.

(** The same without knowing that nothing is overdue: the first iteration sees
    to it. *)
Lemma wp_main_progress ev ios d s :
  Forall silent ios -> sim_live s -> ev ∈ sim_events s ->
  Z.max 0 (timeToOccur ev - sim_now s) < Z.of_nat (length ios) ->
  wp (main_loop ios d) s
    (fun d' s' => sim_live s' /\ all_later s' /\ timeToOccur ev <= sim_now s' /\
       exists ls, turns d s ls d' s' /\ ev ∈ concat ls)
    (fun f _ => has_fuel f).
Proof.
  intros Hio Hs Hev Hn. destruct Hio as [|io ios Hsil Hio]; [cbn in Hn; lia|].
  cbn [main_loop length] in *. apply wp_bind, wp_gets. rewrite (sl_running _ Hs). cbn [negb].
  apply wp_bind. eapply wp_conseq; [by apply wp_silent| |by intros].
  intros d1 s1 [(l & T1 & I1 & _) L1 N1 A1 K1 M1 X1].
  eapply wp_conseq; [by apply (wp_main_silent ev)| |by intros].
  intros d2 s2 (L2 & A2 & N2 & ls & T2 & I2). do 2 (split; [done|]).
  destruct (decide (timeToOccur ev <= sim_now s1)) as [Hle|Hgt].
  - split; [lia|]. exists (l :: ls). split; [by eapply turns_more|].
    apply elem_of_app. left. by apply I1.
  - destruct I2 as [I2 H2]; [by apply K1; [|lia]|lia|]. split; [done|].
    exists (l :: ls). split; [by eapply turns_more|]. apply elem_of_app. by right.
Qed.

(** ** No exception leaves the main loop *)

Lemma unthrown_net {A} (m : M SimNet A) : unthrown m -> unthrown (on_net m).
Proof. apply unthrown_zoom. Qed.

Lemma unthrown_emit o : unthrown (sim_emit o).
Proof. by apply unthrown_net. Qed.

Lemma unthrown_node {A} i (m : M (StackNode * SimNet) A) : unthrown m -> unthrown (on_node i m).
Proof.
  intros Hm s x. unfold on_node. destruct (i <? 0); [done|].
  destruct (nodes_ s !! Z.to_nat i) as [n|]; [|done]. specialize (Hm (n, net s) x).
  by destruct (m (n, net s)) as [r [n' e']].
Qed.

Lemma unthrown_print_all l : unthrown (print_all l).
Proof. pose proof unthrown_emit. induction l; cbn [print_all]; unthrown. Qed.

Lemma unthrown_exit_cmd cmd : unthrown (exitCmd (S := Simulator) cmd).
Proof.
  cbn. unfold Simulator.stop. pose proof unthrown_print_all.
  pose proof (unthrown_net _ (unthrown_gets (fun e => Z.quot (nowMicros_ e) 1000))). unthrown.
Qed.

Lemma unthrown_malformed name cmd : unthrown (report_malformed (S := Simulator) name cmd).
Proof. pose proof unthrown_emit. unfold report_malformed, printStrArray. cbn. unthrown. Qed.

Lemma unthrown_node_cmd cmd : unthrown (sim_parseNodeCmd cmd).
Proof. pose proof unthrown_emit. unfold sim_parseNodeCmd. unthrown. Qed.

(** A line with an error in it, or whose command throws, is reported. *)
Lemma unthrown_line line t : unthrown (S := Simulator) (parseLine line t).
Proof.
  pose proof unthrown_emit. pose proof unthrown_exit_cmd. pose proof unthrown_malformed.
  pose proof unthrown_node_cmd.
  assert (Hg : forall name cmd (m : M Simulator unit), unthrown (guarded name cmd m))
    by (intros; unfold guarded; unthrown).
  intros s x. rewrite parseLine_exec. revert s x.
  enough (unthrown (S := Simulator) (exec (splitSpaces line) (read_command line) t)) as Hu by exact Hu.
  destruct (read_command line); cbn [exec]; unfold on_link, printStrArray; cbn [p_emit parseNodeCmd Simulator_commands];
    unthrown.
Qed.

Lemma unthrown_remainder lines t : unthrown (remainder_loop set_topoFileParser lines t).
Proof.
  pose proof unthrown_line. induction lines as [|line lines IH]; cbn [remainder_loop]; unthrown.
Qed.

Lemma unthrown_parseRemainder t : unthrown (parseRemainder topoFileParser_ set_topoFileParser t).
Proof. unfold parseRemainder. pose proof unthrown_remainder. unthrown. Qed.

Lemma unthrown_command_file d :
  unthrown (readCommandFile (fun s => sim_rm (net s)) set_rm (on_net now) parseLine d).
Proof.
  unfold readCommandFile. pose proof unthrown_line.
  pose proof (unthrown_net _ (unthrown_gets (fun e => Z.quot (nowMicros_ e) 1000)) : unthrown (on_net now)).
  unthrown.
Qed.

(** Whatever an event throws is reported, and the loop goes on. *)
Lemma unthrown_fire ev : unthrown (fire ev).
Proof. unfold fire. pose proof unthrown_emit. unthrown. Qed.

Lemma unthrown_event_loop fuel : unthrown (event_loop fuel).
Proof.
  induction fuel as [|fuel IH]; cbn [event_loop]; [apply unthrown_nofuel|].
  apply unthrown_bind; [apply unthrown_gets|intros q]. apply unthrown_bind; [apply unthrown_gets|intros t].
  destruct (getNextEvent q) as [ev|]; [|apply unthrown_ret]. destruct (_ >? _); [apply unthrown_ret|].
  apply unthrown_bind; [|intros ev'].
  { intros s x. unfold on_net, base, zoom, removeNextEvent. by destruct (sortedEvents_ _). }
  apply unthrown_bind; [apply (unthrown_fire ev')|intros _; apply IH].
Qed.

Lemma unthrown_iteration io d : unthrown (iteration io d).
Proof.
  unfold iteration. pose proof unthrown_command_file. pose proof unthrown_line. pose proof unthrown_event_loop.
  assert (forall t, unthrown (set_now t)) by (intros; by apply unthrown_modify). unfold nowMicros.
  unthrown.
Qed.

Lemma unthrown_main_loop ios d : unthrown (main_loop ios d).
Proof.
  revert d. pose proof unthrown_iteration. induction ios as [|io ios IH]; intros d; cbn [main_loop]; unthrown.
Qed.

#[export] Instance SimNet_quiet : QuietManager SimNet.
Proof.
  constructor; [done| |done]. intros node delta cb. cbn.
  unfold base, Runtime.addTimer, addTimerAt, addEvent_, now. unthrown.
Qed.

Lemma unthrown_start ios : unthrown (Simulator.start ios).
Proof.
  unfold Simulator.start, boot. pose proof (fun d => unthrown_main_loop ios d).
  assert (forall n i, unthrown (start_nodes n i)).
  { pose proof (fun i => unthrown_node i _ (unthrown_node_start (E := SimNet))).
    induction n as [|n IH]; intros i; cbn [start_nodes]; unthrown. }
  assert (forall t, unthrown (set_now t)) by (intros; by apply unthrown_modify). unthrown.
Qed.

(** ** From the constructor on *)

(** The main loop with input. *)
Lemma wp_main ios d s :
  Forall console_tame ios -> sim_live s ->
  wp (main_loop ios d) s (fun _ s' => sim_live s') (fun f _ => has_fuel f).
Proof.
  intros Hio. revert d s. induction Hio as [|io ios Htame Hio IH]; intros d s Hs;
    cbn [main_loop]; apply wp_bind, wp_gets; rewrite (sl_running _ Hs); cbn [negb].
  { by apply wp_ret. }
  apply wp_bind. eapply wp_conseq; [by apply wp_iteration| |by intros].
  intros d1 s1 [H1 _]. by apply IH.
Qed.

Lemma sim_keeps_start n i : keeps cmd_rel has_fuel (start_nodes n i).
Proof.
  revert i. induction n as [|n IH]; intros i; cbn [start_nodes]; [by apply keeps_ret, _|].
  pose proof (sim_keeps_node i _ node_framed_node_start). frame.
Qed.

(** The state before the nodes start: not running, and no command file yet. *)
Definition sim_ready (s : Simulator) : Prop :=
  sim_tame s /\ commandFile_ (sim_rm (net s)) = None.

(** The simulator when it opens the topology file. *)
Definition prepared (numNodes : Z) (c : TopoCell) : Simulator :=
  mkSimulator
    (mkSimNet (new_RuntimeManager 0) 0
       (mkTopoCell (Some (mkTopology [] ∅ false)) (cell_seeds c) (cell_out c)) numNodes)
    (map (fun i => new_StackNode (Z.of_nat i)) (seq 0 (Z.to_nat numNodes))) None (dofZ 1) false.

Lemma prepared_ready numNodes c : sim_ready (prepared numNodes c).
Proof.
  split; [|done]. constructor; [|done|split; [constructor|done]].
  intros t [= <-]. constructor.
Qed.

Lemma ready_read s s' : sim_ready s -> read_rel s s' -> sim_ready s'.
Proof.
  intros [Ht Hf] Hr. apply read_event_rel in Hr; [|done].
  split; [apply Hr|]. by rewrite (er_file _ _ Hr).
Qed.

(** An event for the rest of the file. *)
Lemma ready_add ev s :
  sim_ready s -> event_ok ev ->
  sim_ready (set_rm (set_sortedEvents (addEvent ev (sim_events s)) (sim_rm (net s))) s).
Proof.
  intros [[Ht Hl Hq] Hf] He. split; [|done]. constructor; [done|done|]. by apply pending_add.
Qed.

Lemma wp_construct numNodes name file c :
  Forall line_tame (default [] file) ->
  wp (construct numNodes name file) (blank_Simulator c) (fun _ s => sim_ready s)
    (fun f _ => has_fuel f).
Proof.
  intros Hl. unfold construct. destruct (_ || _); [done|].
  set (k := bind (if negb (String.eqb name _) then _ else _) _).
  change (wp k (prepared numNodes c) (fun _ s => sim_ready s) (fun f _ => has_fuel f)).
  pose proof (prepared_ready numNodes c) as Hp. apply wp_bind.
  eapply (wp_conseq _ _ (fun _ s => sim_ready s) _ (fun f _ => has_fuel f)); [| |by intros].
  - destruct (negb _); [|by apply wp_ret]. apply wp_bind, wp_gets.
    destruct file as [lines|]; cbn [parseFile]; [|done]. apply wp_bind, wp_modify.
    set (s := set_topoFileParser (Some lines) _).
    assert (Hs : sim_ready s) by (destruct Hp as [[? ? ?] ?]; by repeat constructor).
    eapply wp_conseq; [by apply parseRemainder_run| |by intros f s' []].
    intros d s' [Hr _]. by eapply ready_read.
  - intros d s Hs. destruct (d >=? 0); [|by apply wp_ret]. apply wp_zoom, wp_zoom.
    unfold addEventAtMicros. destruct (d <? 0); [by destruct s as [[]]|].
    apply wp_modify. apply (ready_add (mkEvent d (Some ParseRestOfTopoFile))); [done|by eexists].
Qed.

Lemma wp_boot s :
  sim_tame s -> Forall line_tame (default [] (commandFile_ (sim_rm (net s)))) ->
  wp boot s (fun _ s' => sim_live s') (fun f _ => has_fuel f).
Proof.
  intros Ht Hf. unfold boot. apply wp_bind, wp_modify, wp_bind, wp_gets.
  set (s1 := set_running true s). apply wp_bind.
  assert (Hs : sim_live s1) by (constructor; [destruct Ht; by constructor|done|done]).
  destruct (sim_keeps_start (length (nodes_ s1)) 0 s1) as [Hc Hx]. unfold wp at 1.
  destruct (start_nodes _ _ s1) as [[[]|f] s2]; cbn in Hc, Hx; [|done].
  apply cmd_line_rel in Hc; [|done]. apply wp_modify. destruct Hc as [_ [Ht2 Hf2 Hr2] _ _].
  constructor; [by apply (at_now_tame 1)|done|done].
Qed.

(** ** From the command line *)

Lemma wp_start ios s :
  Forall console_tame ios -> sim_tame s ->
  Forall line_tame (default [] (commandFile_ (sim_rm (net s)))) ->
  wp (start ios) s (fun _ s' => sim_live s') (fun f _ => has_fuel f).
Proof.
  intros Hio Ht Hf. unfold start. apply wp_bind.
  eapply wp_conseq; [by apply wp_boot| |by intros]. intros [] s1 H1. by apply wp_main.
Qed.

(** Arguments with which the program does not start: too few, numbers that are
    none, a number of nodes out of range, files that cannot be opened. *)
Definition not_a_number {A} (r : exn + A) : bool := match r with inl _ => true | inr _ => false end.

Definition unopened (open : string -> option (list string)) (name : string) : bool :=
  match open name with None => true | Some _ => false end.

Definition refused_options (open : string -> option (list string)) (options : list string) : bool :=
  match options with
  | [] => false
  | name :: rest =>
      (negb (String.eqb name noFile) && unopened open name) ||
      match rest with scale :: _ => not_a_number (stod scale) | [] => false end
  end.

Definition refused (open : string -> option (list string)) (args : list string) : bool :=
  match args with
  | nodes :: topoFile :: options =>
      match stoi nodes with
      | inl _ => true
      | inr n =>
          (n <=? 0) || (n >? MAX_NODES_TO_SIMULATE) ||
          (negb (String.eqb topoFile EmptyString) && unopened open topoFile) ||
          refused_options open options
      end
  | _ => true
  end.

(** The last that was written is a message of error. *)
Definition reported (s : Simulator) : Prop :=
  exists w, last (cell_out (sim_topo (net s))) = Some (Cerr w).

Lemma emit_reported w s : reported (sim_emit (Cerr w) s).2.
Proof. exists w. cbn. apply last_snoc. Qed.

(** Returns 1 with a report, or goes on. *)
Definition started_or_not (no : bool) (code : Z) (s : Simulator) : Prop :=
  if no then code = 1 /\ reported s else code = 0 /\ sim_live s.

(** Throws if [no] says so, and otherwise no exception. *)
Definition throws_if (no : bool) (f : fault) : Prop :=
  if no then exists x, f = Thrown x else ended f.

(** The simulation after the optional arguments. *)
Lemma wp_main_options open options ios s :
  (forall name lines, open name = Some lines -> Forall line_tame lines) ->
  Forall console_tame ios -> sim_ready s ->
  wp (main_options open options ios) s
    (started_or_not (refused_options open options)) (fun f _ => throws_if (refused_options open options) f).
Proof.
  intros Hopen Hio [Ht Hf]. unfold main_options.
  assert (Hgo : forall s1 : Simulator, sim_tame s1 ->
    Forall line_tame (default [] (commandFile_ (sim_rm (net s1)))) ->
    wp (start ios ;; ret 0) s1 (started_or_not false) (fun f _ => ended f)).
  { intros s1 Ht1 Hf1. apply wp_bind.
    eapply wp_conseq; [apply wp_ended; [apply unthrown_start|by apply wp_start]| |done].
    intros d s2 Hl. by apply wp_ret. }
  assert (H0 : Forall line_tame (default [] (commandFile_ (sim_rm (net s))))) by (by rewrite Hf).
  destruct options as [|name rest]; [by apply Hgo|].
  assert (Hscale : forall s1 : Simulator, sim_tame s1 ->
    Forall line_tame (default [] (commandFile_ (sim_rm (net s1)))) ->
    let no := match rest with scale :: _ => not_a_number (stod scale) | [] => false end in
    wp (match rest with
        | scale :: _ => let! timescale := lift_exn (stod scale) in setTimescale timescale
        | [] => ret tt
        end ;; start ios ;; ret 0) s1 (started_or_not no) (fun f _ => throws_if no f)).
  { intros s1 Ht1 Hf1. destruct rest as [|scale rest]; [by apply Hgo|]. cbv zeta.
    destruct (stod scale) as [x|v]; cbn [not_a_number].
    - apply wp_bind, wp_bind, wp_fail. by exists x.
    - apply (Hgo (set_timescale v s1)); [by destruct Ht1|done]. }
  cbn [refused_options]. unfold unopened. apply wp_bind.
  destruct (String.eqb name noFile); cbn [negb andb orb].
  { apply wp_ret. by destruct rest; apply Hscale. }
  unfold open_command_file. destruct (open name) as [lines|] eqn:Ho; cbn [setCommandFile orb].
  - apply wp_zoom, wp_zoom, wp_bind, wp_modify, wp_ret. pose proof (Hopen name lines Ho).
    by destruct rest; apply Hscale; first [by destruct Ht|done].
  - apply wp_zoom, wp_zoom, wp_ret. cbn [negb Z.eqb]. apply wp_bind. unfold wp. cbn.
    split; [done|]. eexists. apply last_snoc.
Qed.

Lemma construct_refused numNodes name file s :
  (numNodes <=? 0) || (numNodes >? MAX_NODES_TO_SIMULATE) ||
    (negb (String.eqb name EmptyString) && match file with None => true | Some _ => false end) = true ->
  exists x s', construct numNodes name file s = (Fault (Thrown x), s').
Proof.
  unfold construct. destruct (_ || (_ >? _)); [intros _; eexists _, s; reflexivity|]. cbn [orb].
  intros [Hn Hf]%andb_true_iff. destruct file as [lines|]; [done|].
  unfold bind, on_net, zoom, topology, with_instance, reset, modify, nowMicros, gets. cbn.
  rewrite Hn. by do 2 eexists.
Qed.

Lemma unthrown_construct numNodes name file s x :
  (numNodes <=? 0) || (numNodes >? MAX_NODES_TO_SIMULATE) ||
    (negb (String.eqb name EmptyString) && match file with None => true | Some _ => false end) = false ->
  (construct numNodes name file s).1 <> Fault (Thrown x).
Proof.
  intros [Hn Hf]%orb_false_iff. unfold construct. rewrite Hn. revert s x.
  match goal with |- forall s x, (?m s).1 <> _ => enough (unthrown m) as Hm by exact Hm end.
  assert (unthrown (on_net (zoom sim_topo set_sim_topo reset))) by done.
  assert (unthrown (on_net (topology (ret tt)))) by done.
  assert (forall d, unthrown (on_net (base (addEventAtMicros d (Some ParseRestOfTopoFile))))).
  { intros d. apply unthrown_net, unthrown_zoom. unfold addEventAtMicros, addEvent_. unthrown. }
  pose proof unthrown_parseRemainder. unfold nowMicros.
  destruct (negb (String.eqb name EmptyString)); [|unthrown].
  destruct file as [lines|]; [|done]. cbn [parseFile]. unthrown.
Qed.

(** The program from the command line. *)
Lemma wp_main_simulate open args ios c :
  (forall name lines, open name = Some lines -> Forall line_tame lines) ->
  Forall console_tame ios ->
  wp (main_simulate open args ios) (blank_Simulator c)
    (started_or_not (refused open args)) (fun f _ => ended f).
Proof.
  intros Hopen Hio. unfold main_simulate. destruct args as [|nodes [|name options]].
  1, 2: unfold wp; cbn; split; [done|]; eexists; apply last_snoc.
  apply wp_try. cbn [refused]. destruct (stoi nodes) as [x|n]; cbn [lift_exn].
  { unfold wp. cbn. split; [done|]. eexists. apply last_snoc. }
  set (no := _ || _ || (_ && unopened open name)).
  apply wp_bind, wp_ret, wp_bind. destruct no eqn:Hno; cbn [orb].
  { destruct (construct_refused n name (open name) (blank_Simulator c) Hno) as (x & s' & Hr).
    unfold wp at 1. rewrite Hr. apply wp_bind. unfold wp. cbn. split; [done|]. eexists. apply last_snoc. }
  eapply (wp_conseq _ _ (fun _ s => sim_ready s) _ (fun f _ => ended f)).
  - assert (Hl : Forall line_tame (default [] (open name)))
      by (destruct (open name) eqn:Ho; [by apply (Hopen name)|done]).
    pose proof (wp_construct n name (open name) c Hl) as Hw. unfold wp in *.
    pose proof (fun x => unthrown_construct n name (open name) (blank_Simulator c) x Hno) as Hu.
    destruct (construct n name (open name) _) as [[[]|[x|code| |]] s]; [done| |by right; eexists|by left|done].
    by destruct (Hu x).
  - intros [] s Hs. eapply wp_conseq; [by apply wp_main_options|done|].
    intros f s' Hf. unfold throws_if in Hf. destruct (refused_options open options).
    + destruct Hf as [x ->]. apply wp_bind. unfold wp. cbn. split; [done|]. eexists. apply last_snoc.
    + destruct Hf as [->|[code ->]]; [by left|right; by eexists].
  - intros f s [->|[code ->]]; [by left|right; by eexists].
Qed.
End loop.
