(* ===== verification/MainTheorems.v ===== *)
(** * The mode [emulate] of the program

    From the command line through the connection to the trawler into the main
    loop: the program goes on or ends as it means to. *)

From Stdlib Require Import Strings.Ascii.
From S2P Require Import Prelude CppStrings Doubles DoubleText Frame Packet EventQueue Runtime Edge LinkRules EmulatedLink Arp Posix EmuNet EmuTable TcpData TcpNet TcpTheorems Node NodeFrame StackNode Emulator EmuFrame EmuLoop EmuEvents EmuTheorems Topology SimNet Simulator Main SimFrame SimLoop.

Section main.
Context `{MapOrder} `{Platform}.

(** A call that has nothing to do with the events. *)
Lemma wp_live {A} (m : M Emulator A) s :
  keeps emulator_rel has_fuel m -> emu_live s ->
  wp m s (fun _ s' => emu_live s') (fun f s' => emu_live s' /\ has_fuel f).
Proof.
  intros Hm Hs. eapply wp_conseq; [by apply wp_keeps| |].
  - intros a s' Hr. exact (live_kept _ _ Hr Hs).
  - intros f s' [Hr Hf]. split; [exact (live_kept _ _ Hr Hs)|done].
Qed.

Lemma emu_keeps_connect host c : keeps emulator_rel has_fuel (connectToTrawler host c).
Proof. unfold connectToTrawler. frame. Qed.

Lemma emu_keeps_udp_socket c : keeps emulator_rel has_fuel (openUdpSocket c).
Proof. unfold openUdpSocket. frame. Qed.

Lemma emu_keeps_id id : keeps emulator_rel has_fuel (modify (set_assignedNodeId id)).
Proof. apply keeps_modify; [apply _|]. intros s. by constructor. Qed.

Lemma emu_keeps_reply line : keeps emulator_rel has_fuel (lift_exn line : M Emulator string).
Proof. by destruct line; frame. Qed.

Lemma emu_keeps_int z : keeps emulator_rel has_fuel (lift_exn z : M Emulator Z).
Proof. by destruct z; frame. Qed.

Lemma emu_keeps_handshake c : keeps emulator_rel has_fuel (handshake c).
Proof.
  unfold handshake. pose proof emu_keeps_reply. pose proof emu_keeps_int. pose proof emu_keeps_id.
  pose proof (keeps_exit (A := unit) emulator_rel 1) as Hx.
  repeat first [exact Hx|frame_step].
Qed.

Lemma emu_keeps_command_file file :
  keeps emulator_rel has_fuel (on_enet (emu_base (setCommandFile file))).
Proof.
  apply emu_keeps_net. unfold emu_base, setCommandFile. destruct file as [lines|].
  - intros e. split; [|done]. constructor; [by exists O|done|]. intros t _ _. by exists [].
  - intros e. split; [|done]. by destruct e; cbn; reflexivity.
Qed.

(** ** The start *)

(** No connection, no socket, or no address from the trawler. *)
Definition unconnected (c : Connecting) : bool :=
  negb (con_resolved c) || negb (con_socket c) || bool_decide (is_Some (con_connect c)) ||
  negb (con_udp_socket c) || negb (con_bind c) || negb (con_sent c) ||
  match read_reply EmptyString (con_reply c) with
  | inl _ => true
  | inr line => match stoi line with inl _ => false | inr id => id =? BROADCAST_ADDRESS end
  end.

(** Arguments and answers with which the emulator does not start. *)
Definition emu_refused (open : string -> option (list string)) (args : list string)
    (c : Connecting) : bool :=
  match args with
  | host :: port :: udp :: options =>
      not_a_number (stoi port) || not_a_number (stoi udp) ||
      match options with
      | name :: _ => negb (String.eqb name noFile) && unopened open name
      | [] => false
      end || unconnected c
  | _ => true
  end.

(** The last that was written is a message of error. *)
Definition emu_reported (s : Emulator) : Prop :=
  exists w, last (emu_out (enet s)) = Some (Cerr w).

(** Returns 1 with a report, or goes on. *)
Definition emulated_or_not (no : bool) (code : Z) (s : Emulator) : Prop :=
  if no then code = 1 /\ emu_reported s else code = 0 /\ emu_live s.

Lemma wp_say_last w s X :
  wp (say (Cerr w) ;; ret 1) s (fun code s' => code = 1 /\ emu_reported s') X.
Proof. split; [done|]. exists w. cbn. apply last_snoc. Qed.

(** The loop from the start of the node on. *)
Lemma wp_emu_run ios s :
  emu_live s ->
  wp (let! id := gets assignedNodeId_ in
      modify (set_node (Some (new_StackNode id))) ;;
      on_stack StackNode.start ;;
      modify (set_emu_running true) ;;
      emu_loop ios 0) s
    (fun _ s' => emu_live s') (fun f _ => ended f).
Proof.
  intros Hs. apply wp_ended.
  { pose proof (unthrown_stack _ (unthrown_node_start (E := EmuNet))).
    pose proof (fun ios d => unthrown_emu_loop ios d). unthrown. }
  apply wp_bind, wp_gets, wp_bind, wp_modify, wp_bind.
  eapply wp_conseq.
  { apply wp_live; [apply emu_keeps_stack, node_framed_node_start|by destruct Hs]. }
  2: { by intros f s' []. }
  intros a s4 H4. apply wp_bind, wp_modify.
  eapply wp_conseq; [apply wp_emu_loop; [by destruct H4|done]| |done]. by intros d s5 [].
Qed.

Lemma wp_emu_start host c ios s :
  emu_live s ->
  wp (emu_start host c ios) s (fun _ s' => unconnected c = false /\ emu_live s')
    (fun f _ => throws_if (unconnected c) f).
Proof.
  intros Hs. unfold emu_start, unconnected, connectToTrawler, openUdpSocket, handshake.
  destruct c as [resolved sock con udp bound sent reply].
  cbn [con_resolved con_socket con_connect con_udp_socket con_bind con_sent con_reply].
  destruct resolved; [|by apply wp_bind, wp_fail; eexists].
  destruct sock; [|by apply wp_bind, wp_fail; eexists].
  destruct con as [error|]; [by apply wp_bind, wp_fail; eexists|]. apply wp_bind, wp_ret.
  destruct udp; [|by apply wp_bind, wp_fail; eexists].
  destruct bound; [|by apply wp_bind, wp_bind, wp_gets, wp_fail; eexists]. apply wp_bind, wp_ret.
  destruct sent; [|by apply wp_bind, wp_bind, wp_fail; eexists].
  apply wp_bind, wp_bind, wp_ret, wp_bind.
  destruct (read_reply _ reply) as [x|line]; [by apply wp_fail; eexists|]. apply wp_ret.
  cbn [negb orb]. rewrite bool_decide_false by (by intros [? [=]]). cbn [orb].
  apply wp_bind, wp_try. destruct (stoi line) as [x|id].
  { apply wp_bind, wp_fail, wp_bind, wp_modify, wp_fail. right. by eexists. }
  apply wp_bind, wp_ret, wp_modify. apply wp_bind, wp_gets, wp_bind, wp_gets.
  cbn [assignedNodeId_ set_assignedNodeId eta_Emulator].
  destruct (id =? BROADCAST_ADDRESS).
  { apply wp_bind, wp_modify, wp_fail. by eexists. }
  apply wp_ret. eapply wp_conseq; [apply wp_emu_run; by destruct Hs| |done]. by intros d s'.
Qed.

(** A new emulator has no events. *)
Lemma new_live p e : emu_tame e -> clock_forward e -> emu_live (new_Emulator p e).
Proof.
  intros [Hl Hf] Hc. constructor; [by split|constructor|]. intros n. apply Hc.
Qed.

Lemma wp_main_emulate open args c ios s :
  emu_tame (enet s) -> clock_forward (enet s) ->
  wp (main_emulate open args c ios) s (emulated_or_not (emu_refused open args c))
    (fun f _ => ended f).
Proof.
  intros Ht Hc. unfold main_emulate.
  assert (Hone : forall m w (s0 : Emulator),
    wp (say m ;; say (Cerr w) ;; ret 1) s0 (emulated_or_not true) (fun f _ => ended f)).
  { intros m w s0. apply wp_bind, wp_modify. apply wp_say_last. }
  destruct args as [|host [|port [|udp options]]]; try apply Hone. cbn [emu_refused].
  apply wp_try.
  assert (Hcatch : forall x s0, wp (say (Cerr (endl ("Exception occurred in netstack: " +:+ what x))) ;; ret 1)
    s0 (emulated_or_not true) (fun f _ => ended f)).
  { intros x s0. apply wp_say_last. }
  destruct (stoi port) as [x|tp]; [by apply wp_bind, wp_fail|]. apply wp_bind, wp_ret.
  destruct (stoi udp) as [x|lp]; [by apply wp_bind, wp_fail|]. apply wp_bind, wp_ret.
  apply wp_bind, wp_modify. pose proof (new_live lp _ Ht Hc) as H1. cbn [not_a_number orb].
  assert (Hgo : forall s1, emu_live s1 ->
    wp (emu_start host c ios ;; ret 0) s1 (emulated_or_not (unconnected c))
      (fun f s' => match f with
                   | Thrown x => wp (say (Cerr (endl ("Exception occurred in netstack: " +:+ what x))) ;; ret 1)
                       s' (emulated_or_not (unconnected c)) (fun f _ => ended f)
                   | _ => ended f
                   end)).
  { intros s1 Hs1. apply wp_bind. eapply wp_conseq; [by apply wp_emu_start| |].
    - intros d s2 [Hn Hl]. apply wp_ret. by rewrite Hn.
    - intros f s2. unfold throws_if. destruct (unconnected c).
      + intros [x ->]. apply Hcatch.
      + intros [->|[code ->]]; [by left|right; by eexists]. }
  unfold emulate_options. destruct options as [|name options].
  { apply wp_bind, wp_ret. by apply Hgo. }
  unfold unopened. apply wp_bind. destruct (String.eqb name noFile); cbn [negb andb orb].
  { apply wp_ret. by apply Hgo. }
  destruct (open name) as [lines|]; cbn [setCommandFile orb].
  - apply wp_zoom, wp_zoom, wp_bind, wp_modify, wp_ret. apply Hgo. by destruct H1.
  - apply wp_zoom, wp_zoom, wp_ret. apply wp_say_last.
Qed.

(** C14: The program from the command line, in the mode [emulate] or in none,
    with any files and answers of the operating system, if the clock does not run
    backwards and every link that the trawler describes takes time.  In an unknown
    mode or without arguments it says so and returns 1.  In the mode [emulate], if
    an argument is missing or no number, the command file cannot be opened, there
    is no connection, no socket, or no free address, it says so and returns 1;
    otherwise it comes through all the given iterations of the main loop, whatever
    its events and lines throw, and is in the state in which the loop goes on.  The
    one other end is the end of the process: by an [exit] (typed, or when the
    trawler closes the connection or answers with no number), or after undefined
    behaviour.  No loop runs out of fuel. *)
Theorem emulation_ends open mode args sim_ios c ios sim s :
  emu_tame (enet s) -> clock_forward (enet s) -> mode <> "simulate"%string ->
  wp (main open (mode :: args) sim_ios c ios) (sim, s)
    (fun code st =>
       if (2 <=? vsize args) && String.eqb mode "emulate"
       then
         if emu_refused open args c
         then code = 1 /\ exists w, last (emu_out (enet st.2)) = Some (Cerr w)
         else code = 0 /\ emu_live st.2
       else code = 1 /\ reported st.1)
    (fun f _ => f = UB \/ exists code, f = Exited code).
Proof.
  intros Ht Hc Hmode. unfold main.
  assert (Hone : forall m w st, wp (in_simulator (sim_emit m ;; sim_emit (Cerr w) ;; ret 1)) st
    (fun code (st' : Simulator * Emulator) => code = 1 /\ reported st'.1) (fun f _ => ended f)).
  { intros m w st. split; [done|]. exists w. cbn. apply last_snoc. }
  destruct args as [|a1 [|a2 args]]; [apply Hone..|].
  destruct (Z.leb_spec 2 (vsize (a1 :: a2 :: args))) as [_|Hlt].
  2: { rewrite !vsize_cons in Hlt. pose proof (vsize_nonneg args). lia. }
  destruct (String.eqb_spec mode "simulate") as [|_]; [done|].
  destruct (String.eqb mode "emulate"); cbn [andb]; [|apply Hone].
  unfold in_emulator. apply wp_zoom. eapply wp_conseq; [by apply wp_main_emulate|done|done].
Qed.
End main.

(** ** Witness *)

Section witness.
#[local] Existing Instance list_order.
#[local] Existing Instance sample_platform.

(** A command file, and a connection that gives the address 2. *)
Lemma emulation_ends_witness :
  wp (main (fun _ => Some ["echo hello"]) ["emulate"; "127.0.0.1"; "9000"; "5002"; "commands"] []
        (sample_connecting (bytes_of (to_string 2) ++ [Some "010"%char]))
        [sample_answers; sample_answers])
    (blank_Simulator (mkTopoCell None (fun _ _ => dofZ 1) []), sample_emulator)
    (fun code st => code = 0 /\ emu_live st.2) (fun f _ => f = UB \/ exists code, f = Exited code).
Proof.
  apply (emulation_ends (fun _ => Some ["echo hello"]) "emulate"
    ["127.0.0.1"; "9000"; "5002"; "commands"] []
    (sample_connecting (bytes_of (to_string 2) ++ [Some "010"%char]))
    [sample_answers; sample_answers]).
  - exact (el_tame _ sample_emulator_live).
  - exact (el_clock _ sample_emulator_live).
  - discriminate.
Defined.
End witness.
