(* ===== verification/PatternSim.v ===== *)
(** * The stream in a simulation

    The invariant of the simulator: the nodes see the stream, what the network
    carries is genuine, and the lines that are still to be read ask for buffers
    of compatible sizes.  Every iteration of the main loop keeps it, and so does
    everything that [main] does, however it ends.  First
    its network: every packet that waits in the simulator's queue for its
    delivery is genuine; the network delivers what the nodes sent, late, or not
    at all. *)

From Stdlib Require Import Strings.Ascii.
From S2P Require Import Prelude CppStrings Doubles DoubleText Packet EventQueue Runtime Edge LinkRules Posix EmuNet Topology Parser ParserSpec TcpData Pattern TcpNet Node StackNode PatternNode PatternTasks SimNet Simulator Main.

(** ** Operations that keep an invariant *)

(** [I] is kept, also by an exception; [J] is what is left of it when the process
    ends, or the model's fuel.  Nothing is said of a run whose behaviour is
    undefined. *)
Definition ends {S} (I J : S -> Prop) (f : fault) (s : S) : Prop :=
  match f with UB => True | Thrown _ => I s | NoFuel | Exited _ => J s end.

Definition steady {S A} (I J : S -> Prop) (m : M S A) : Prop :=
  forall s, I s -> wp m s (fun _ => I) (ends I J).

Section steady.
Context {S : Type} (I J : S -> Prop).

Lemma steady_ret {A} (a : A) : steady I J (ret a).
Proof. by intros s Hs. Qed.

Lemma steady_gets {A} (f : S -> A) : steady I J (gets f).
Proof. by intros s Hs. Qed.

Lemma steady_modify f : (forall s, I s -> I (f s)) -> steady I J (modify f).
Proof. intros Hf s Hs. by apply wp_modify, Hf. Qed.

Lemma steady_throw {A} x : steady I J (fail (A := A) (Thrown x)).
Proof. by intros s Hs. Qed.

Lemma steady_ub {A} : steady I J (fail (A := A) UB).
Proof. by intros s Hs. Qed.

Lemma steady_fuel {A} : (forall s, I s -> J s) -> steady I J (fail (A := A) NoFuel).
Proof. intros HJ s Hs. by apply wp_fail, HJ. Qed.

Lemma steady_lift {A} (r : exn + A) : steady I J (lift_exn r).
Proof. destruct r; [apply steady_throw|apply steady_ret]. Qed.

Lemma steady_bind {A B} (m : M S A) (k : A -> M S B) :
  steady I J m -> (forall a, steady I J (k a)) -> steady I J (bind m k).
Proof.
  intros Hm Hk s Hs. apply wp_bind. eapply wp_conseq; [by apply Hm| |done].
  intros a s' Hs'. by apply Hk.
Qed.

Lemma steady_try {A} (m : M S A) h :
  steady I J m -> (forall x, steady I J (h x)) -> steady I J (try_catch m h).
Proof.
  intros Hm Hh s Hs. apply wp_try. eapply wp_conseq; [by apply Hm|done|].
  intros [x| | |] s'; cbn; try done. by apply Hh.
Qed.

Lemma steady_int z : steady I J (int z).
Proof. intros s Hs. unfold int. by case_match. Qed.

Lemma steady_long z : steady I J (long z).
Proof. intros s Hs. unfold long. by case_match. Qed.

Lemma steady_double_long d : steady I J (double_to_long d).
Proof. unfold double_to_long. case_match; [apply steady_long|apply steady_ub]. Qed.

Lemma steady_zoom {T A} (K : T -> Prop) (g : S -> T) (u : T -> S -> S) (m : M T A) :
  steady K K m -> (forall s, I s -> K (g s)) -> (forall s t, I s -> K t -> I (u t s) /\ J (u t s)) ->
  steady I J (zoom g u m).
Proof.
  intros Hm Hg Hu s Hs. apply wp_zoom. eapply wp_conseq; [by apply Hm, Hg| |].
  - intros a t Ht. by apply Hu.
  - intros [] t; cbn; try done; intros Ht; by apply Hu.
Qed.
End steady.

Create HintDb steady.
#[export] Hint Resolve steady_ret steady_gets steady_throw steady_ub steady_fuel steady_lift steady_int
  steady_long steady_double_long : steady.

Ltac steady_step :=
  lazymatch goal with
  | |- steady _ _ (bind _ _) => apply steady_bind; [|intros ?]
  | |- steady _ _ (try_catch _ _) => apply steady_try; [|intros ?]
  | |- steady _ _ (throw _) => apply steady_throw
  | |- steady _ _ (match _ with _ => _ end) => case_match
  | |- steady _ _ (let '(_, _) := _ in _) => case_match
  | |- steady _ _ _ => solve [eauto with steady]
  end.
Ltac steady := repeat first [progress cbv zeta | steady_step].

(** ** The topology shows no alarm *)

Definition muted (s : TopoSt) : Prop := Forall harmless (tout_ s).

Lemma muted_get {A} (f : Topology -> A) : steady muted muted (topo_get f).
Proof. apply steady_gets. Qed.

Lemma muted_put f : steady muted muted (topo_put f).
Proof. by apply steady_modify. Qed.

Lemma muted_print o : harmless o -> steady muted muted (topo_print o).
Proof. intros Ho. apply steady_modify. intros s Hs. apply Forall_app_2; [done|by constructor]. Qed.
#[export] Hint Resolve muted_get muted_put : steady.

Lemma muted_push a b o : steady muted muted (push_edge a b o).
Proof. unfold push_edge. steady. by apply steady_modify. Qed.
#[export] Hint Resolve muted_push : steady.

Lemma muted_getEdge a b : steady muted muted (getEdge a b).
Proof. unfold getEdge. steady. Qed.

Lemma muted_deref i : steady muted muted (deref_edge i).
Proof. unfold deref_edge. steady. Qed.
#[export] Hint Resolve muted_getEdge muted_deref : steady.

Lemma muted_update i f : steady muted muted (update_edge i f).
Proof. unfold update_edge. steady. Qed.
#[export] Hint Resolve muted_update : steady.

Lemma muted_live a b : steady muted muted (getLiveEdge a b).
Proof. unfold getLiveEdge. steady. Qed.

Lemma muted_new a b o : steady muted muted (newEdge a b o).
Proof. unfold newEdge. steady. Qed.

Lemma muted_change a b state : steady muted muted (changeEdge a b state).
Proof. unfold changeEdge. steady. apply muted_print. intros ?. discriminate. Qed.
#[export] Hint Resolve muted_live muted_new muted_change : steady.

(** ** The network *)

(** What a line of a file or of the console says to a node. *)
Definition node_message (line : string) : string := pop_back (append_words (drop 1 (splitSpaces line))).

Definition fits_line (size : Z) (line : string) : Prop := line_fits size (node_message line).

Section net.
Context (size : Z).

Definition genuine_event (ev : ScheduledEvent SimEvent) : Prop :=
  match callback ev with
  | Some (DeliverPkt _ _ pkt) => genuine (byte_at size) pkt
  | _ => True
  end.

Record net_carries (e : SimNet) : Prop := {
  nc_events : Forall genuine_event (sortedEvents_ (sim_rm e));
  nc_file : Forall (fits_line size) (default [] (commandFile_ (sim_rm e)));
  nc_muted : Forall harmless (cell_out (sim_topo e))
}.

Lemma net_topology {A} (m : M TopoSt A) :
  steady muted muted m -> steady net_carries net_carries (topology m).
Proof.
  intros Hm e [H1 H2 H3]. unfold topology. apply wp_zoom. unfold wp, with_instance.
  set (t := match instancePtr _ with Some t => t | None => _ end).
  specialize (Hm (mkTopoSt t (cell_seeds (sim_topo e)) (cell_out (sim_topo e))) H3).
  unfold wp in Hm. destruct (m _) as [[a|[x| | |]] s]; cbn; done.
Qed.

Lemma net_emit o : harmless o -> steady net_carries net_carries (emit o).
Proof.
  intros Ho. apply steady_modify. intros e [H1 H2 H3]. constructor; [done..|]. cbn.
  apply Forall_app_2; [done|by constructor].
Qed.

Lemma net_now : steady net_carries net_carries now.
Proof. apply steady_gets. Qed.

Lemma net_base {A} (m : M (RuntimeManager SimEvent) A) :
  (forall r, rm_same r (m r).2) -> steady net_carries net_carries (base m).
Proof.
  intros Hm e [H1 H2 H3]. apply wp_zoom. destruct (Hm (sim_rm e)) as [Hq Hf]. unfold wp.
  assert (H : net_carries (set_sim_rm (m (sim_rm e)).2 e)).
  { constructor; cbn; [by rewrite Hq|by rewrite Hf|done]. }
  destruct (m (sim_rm e)) as [[a|[x| | |]] r]; done.
Qed.

Lemma genuine_add ev q :
  Forall genuine_event q -> genuine_event ev -> Forall genuine_event (addEvent ev q).
Proof. intros Hq Hev. rewrite addEvent_perm. by constructor. Qed.

Lemma net_add t cb :
  genuine_event (mkEvent t (Some cb)) ->
  steady net_carries net_carries (base (addEventAtMicros t (Some cb))).
Proof.
  intros Hev e [H1 H2 H3]. apply wp_zoom. cbn. case_match; [by constructor|].
  apply wp_modify. constructor; [|done..]. by apply genuine_add.
Qed.

Lemma net_timer node delta cb :
  steady net_carries net_carries (mgr_addTimer (E := SimNet) node delta cb).
Proof.
  cbn. apply steady_bind; [apply net_now|]. intros t e [H1 H2 H3].
  apply wp_zoom. unfold addTimer, addTimerAt. apply wp_bind. unfold long at 1. case_match; [|done].
  apply wp_ret, wp_bind. unfold long. case_match; [|done]. apply wp_ret, wp_modify.
  constructor; [|done..]. by apply genuine_add.
Qed.

Lemma net_edge {A} i (m : M (Edge * RuntimeManager SimEvent) A) :
  (forall s, schedule_rel s (m s).2) -> steady net_carries net_carries (edge_call i m).
Proof.
  intros Hm e [H1 H2 H3]. unfold wp, edge_call. destruct (_ ≫= _) as [ed|]; [|done].
  destruct (Hm (ed, sim_rm e)) as (_ & _ & _ & _ & Hq & Hf).
  destruct (m (ed, sim_rm e)) as [r [ed' rm']]. cbn in Hq, Hf.
  assert (H : net_carries (set_sim_topo (put_edge i ed' (sim_topo e)) (set_sim_rm rm' e))).
  { constructor; cbn; [by rewrite Hq|by rewrite Hf|done]. }
  destruct r as [a|[x| | |]]; done.
Qed.

Lemma net_transmit i from to pkt :
  genuine (byte_at size) pkt -> steady net_carries net_carries (transmit_on i from to pkt).
Proof.
  intros Hp. unfold transmit_on.
  assert (He : forall now, steady net_carries net_carries (edge_call i (schedulePkt from (vsize pkt) now))).
  { intros t. apply net_edge. intros s. apply schedulePkt_keeps. }
  assert (Ha : forall t, steady net_carries net_carries (base (addEventAtMicros t (Some (DeliverPkt from to pkt)))))
    by (intros t; by apply net_add).
  steady.
Qed.

Lemma net_broadcast n i from pkt :
  genuine (byte_at size) pkt -> steady net_carries net_carries (broadcast_loop n i from pkt).
Proof.
  intros Hp. revert i. induction n as [|n IH]; intros i; cbn [broadcast_loop]; [steady|].
  pose proof (net_topology _ (muted_live from i)). pose proof (fun j => net_transmit j from i pkt Hp).
  steady.
Qed.

Lemma net_sendPkt from to pkt :
  genuine (byte_at size) pkt -> steady net_carries net_carries (SimNet.sendPkt from to pkt).
Proof.
  intros Hp. unfold SimNet.sendPkt. pose proof (net_topology _ (muted_live from to)).
  pose proof (fun n => net_broadcast n 0 from pkt Hp). pose proof (fun j => net_transmit j from to pkt Hp).
  assert (Hb : steady net_carries net_carries (base (Runtime.sendPkt from to pkt)))
    by (apply net_base; intros r; apply base_sendPkt_keeps).
  steady. apply net_emit. by apply harmless_head.
Qed.

(** The network is an environment in which the tasks see the stream. *)
#[export] Instance SimNet_carrier : Carrier (byte_at size) SimNet.
Proof.
  refine {| carries := net_carries |}.
  - intros e He. by apply wp_gets.
  - intros from to pkt e He Hp. eapply wp_conseq; [by apply net_sendPkt|done|]. by intros [].
  - intros node delta cb e He. pose proof (net_timer node delta cb e He) as Hw. unfold wp in *.
    destruct (mgr_addTimer node delta cb e) as [[[]|f] e'] eqn:Hrun; [done|].
    destruct f as [x| | |]; try done. exfalso. revert Hrun. clear.
    cbn. unfold bind, now, gets, base, zoom, addTimer, addTimerAt, bind, long.
    unfold addEvent_, modify, ret, fail. destruct (in_long _); [|by intros [=]].
    by destruct (in_long _); intros [=].
  - intros o e He Ho. exact (net_emit o Ho e He).
Defined.
End net.

Section sim.
Context (size : Z).

Record sim_inv (s : Simulator) : Prop := {
  sv_nodes : Forall (node_inv size) (nodes_ s);
  sv_net : net_carries size (net s);
  sv_topo : Forall (fits_line size) (default [] (topoFileParser_ s))
}.

(** What is left when the process ends. *)
Definition sim_end (s : Simulator) : Prop := net_carries size (net s).

Lemma sim_net {A} (m : M SimNet A) :
  steady (net_carries size) (net_carries size) m -> steady sim_inv sim_end (on_net m).
Proof.
  intros Hm. eapply steady_zoom; [exact Hm|apply sv_net|]. intros s t [H1 H2 H3] Ht.
  by split; [constructor|].
Qed.

Lemma sim_topology {A} (m : M TopoSt A) :
  steady muted muted m -> steady sim_inv sim_end (on_net (topology m)).
Proof. intros Hm. by apply sim_net, net_topology. Qed.

Lemma sim_emit_harmless o : harmless o -> steady sim_inv sim_end (sim_emit o).
Proof. intros Ho. by apply sim_net, net_emit. Qed.

Lemma sim_modify f :
  (forall s, nodes_ (f s) = nodes_ s /\ net_carries size (net s) = net_carries size (net (f s)) /\
     topoFileParser_ (f s) = topoFileParser_ s) -> steady sim_inv sim_end (modify f).
Proof.
  intros Hf. apply steady_modify. intros s [H1 H2 H3]. destruct (Hf s) as (E1 & E2 & E3).
  constructor; [by rewrite E1|by rewrite <- E2|by rewrite E3].
Qed.

Lemma sim_node {A} i (m : M (StackNode * SimNet) A) :
  meek size m -> steady sim_inv sim_end (on_node i m).
Proof.
  intros Hm s [H1 H2 H3]. unfold wp, on_node. destruct (i <? 0); [done|].
  destruct (nodes_ s !! Z.to_nat i) as [n|] eqn:Hn; [|done].
  pose proof (Hm n (net s) (Forall_lookup_1 _ _ _ _ H1 Hn) H2) as Hw. unfold wp in Hw.
  destruct (m (n, net s)) as [[a|[x| | |]] [n' e']]; try done;
    destruct Hw as [Hn' He']; constructor; try done; by apply Forall_insert.
Qed.

(** ** Lines *)

Lemma harmless_array arr : harmless (Cerr (str_array arr)).
Proof.
  assert (Hend : arr = [] \/ exists x, str_array arr = x +:+ " " +:+ newline).
  { induction arr as [|s arr [-> |[x Hx]]]; [by left|right; by exists s|right].
    exists (s +:+ " " +:+ x). cbn. by rewrite Hx, !string_app_assoc. }
  destruct Hend as [-> |[x ->]]; [by apply harmless_head|apply harmless_trailing].
Qed.

Lemma sim_array arr : steady sim_inv sim_end (printStrArray Cerr arr).
Proof. apply sim_emit_harmless, harmless_array. Qed.

Lemma sim_malformed name cmd : steady sim_inv sim_end (report_malformed name cmd).
Proof.
  unfold report_malformed. apply steady_bind; [|intros _; apply sim_array].
  apply sim_emit_harmless. by apply harmless_head.
Qed.

Lemma sim_print_all l : Forall harmless l -> steady sim_inv sim_end (print_all l).
Proof.
  induction 1 as [|o l Ho _ IH]; cbn [print_all]; [apply steady_ret|].
  apply steady_bind; [by apply sim_emit_harmless|done].
Qed.

Lemma sim_exit : steady sim_inv sim_end (fail (A := unit) (Exited 0)).
Proof. intros s Hs. apply Hs. Qed.

Lemma sim_stop : steady sim_inv sim_end Simulator.stop.
Proof.
  unfold Simulator.stop. pose proof sim_exit. pose proof (sim_net _ (net_now size)). steady.
  apply sim_print_all. repeat constructor; intros ?; discriminate.
Qed.

Section commands.
Context `{MapOrder}.

Lemma sim_parseNode cmd :
  line_fits size (pop_back (append_words (drop 1 cmd))) -> steady sim_inv sim_end (sim_parseNodeCmd cmd).
Proof.
  intros Hf. pose proof (fun a => sim_node a _ (meek_onCommand size _ Hf)) as Hn.
  unfold sim_parseNodeCmd, sendNodeMsg.
  destruct cmd as [|w [|w' rest]]; try apply steady_ret. pose proof (sim_array (w :: w' :: rest)).
  steady; apply sim_emit_harmless; [|by apply harmless_head]. unfold endl.
  rewrite string_app_assoc. apply harmless_address.
Qed.

Lemma sim_exec line c t : fits_line size line -> steady sim_inv sim_end (exec (splitSpaces line) c t).
Proof.
  intros Hf. pose proof (sim_parseNode _ Hf) as Hn. pose proof sim_stop as Hs.
  assert (Hx : steady sim_inv sim_end (exitCmd (splitSpaces line))) by (cbn; steady).
  assert (Hg : forall name m, steady sim_inv sim_end m ->
    steady sim_inv sim_end (guarded name (splitSpaces line) m)).
  { intros name m Hm. unfold guarded. pose proof (sim_malformed name (splitSpaces line)). steady. }
  assert (Hno : forall a b, steady sim_inv sim_end
    (p_emit (Cerr (endl ("No edge exists between node " +:+ to_string a +:+ " and node " +:+ to_string b))))).
  { intros a b. apply sim_emit_harmless. intros ?. discriminate. }
  assert (Hl : forall name hook a b, (forall a b, steady sim_inv sim_end (hook a b)) ->
    steady sim_inv sim_end (on_link name hook (splitSpaces line) a b)).
  { intros name hook a b Hh. unfold on_link. apply Hg. steady. }
  pose proof (fun a b o => sim_topology _ (muted_new a b o)) as H1.
  pose proof (fun a b st => sim_topology _ (muted_change a b st)) as H2.
  pose proof (fun f => sim_topology _ (muted_put f)) as H3.
  pose proof (sim_malformed) as H4.
  assert (H5 : steady sim_inv sim_end (printStrArray Cout (drop 1 (splitSpaces line))))
    by apply sim_emit_harmless, harmless_cout.
  destruct c; cbn [exec]; try steady.
  all: first [by apply Hg, H1|by apply Hl; intros; apply H2|by apply Hg, H3].
Qed.

Lemma sim_line line t : fits_line size line -> steady sim_inv sim_end (parseLine line t).
Proof. intros Hf s Hs. eapply wp_eq; [apply parseLine_exec|]. by apply sim_exec. Qed.

Lemma sim_remainder lines t :
  Forall (fits_line size) lines -> steady sim_inv sim_end (remainder_loop set_topoFileParser lines t).
Proof.
  induction 1 as [|line lines Hl Hls IH]; cbn [remainder_loop]; [apply steady_ret|].
  apply steady_bind; [|intros _].
  - apply steady_modify. intros s [H1 H2 H3]. by constructor.
  - pose proof (sim_line line t Hl). steady.
Qed.

Lemma sim_parseRemainder t :
  steady sim_inv sim_end (parseRemainder topoFileParser_ set_topoFileParser t).
Proof.
  intros s Hs. unfold parseRemainder. apply wp_bind, wp_gets.
  destruct (topoFileParser_ s) as [lines|] eqn:Hl; [|by apply wp_ret].
  apply sim_remainder; [|done]. pose proof (sv_topo _ Hs) as Hf. by rewrite Hl in Hf.
Qed.

Lemma sim_parseFile name file t :
  (forall lines, file = Some lines -> Forall (fits_line size) lines) ->
  steady sim_inv sim_end (parseFile topoFileParser_ set_topoFileParser name file t).
Proof.
  intros Hf. unfold parseFile. destruct file as [lines|].
  - specialize (Hf lines eq_refl). apply steady_bind; [|intros _; apply sim_parseRemainder].
    apply steady_modify. intros s [H1 H2 H3]. by constructor.
  - apply steady_bind; [|intros _; apply steady_throw].
    apply steady_modify. intros s [H1 H2 H3]. by constructor.
Qed.

(** ** Events *)

Lemma sim_add_rest t : steady sim_inv sim_end (on_net (base (addEventAtMicros t (Some ParseRestOfTopoFile)))).
Proof. by apply sim_net, net_add. Qed.

Lemma sim_rest : steady sim_inv sim_end parseRestOfTopoFile.
Proof.
  unfold parseRestOfTopoFile, nowMicros. pose proof sim_parseRemainder. pose proof sim_add_rest. steady.
Qed.

Lemma sim_event ev :
  match ev with DeliverPkt _ _ pkt => genuine (byte_at size) pkt | _ => True end ->
  steady sim_inv sim_end (run_event ev).
Proof.
  destruct ev as [cb|from to pkt|]; cbn [run_event]; intros Hev.
  - apply sim_node, meek_timer_callback.
  - pose proof (sim_node to _ (meek_onReceive size from pkt Hev)). unfold deliverPkt. steady.
  - apply sim_rest.
Qed.

Lemma wp_remove_genuine s :
  sim_inv s ->
  wp (on_net (base (zoom sortedEvents_ set_sortedEvents removeNextEvent))) s
    (fun ev s' => sim_inv s' /\ genuine_event size ev) (ends sim_inv sim_end).
Proof.
  intros [H1 [G1 G2 G3] H3]. do 3 apply wp_zoom. unfold removeNextEvent, wp.
  destruct (sortedEvents_ (sim_rm (net s))) as [|ev q]; [done|]. cbn.
  apply Forall_cons in G1 as [Gev G1]. split; [|done]. by constructor.
Qed.

Lemma sim_event_loop fuel : steady sim_inv sim_end (event_loop fuel).
Proof.
  induction fuel as [|fuel IH]; cbn [event_loop]; [apply steady_fuel, sv_net|].
  apply steady_bind; [apply steady_gets|]. intros q. unfold nowMicros.
  apply steady_bind; [apply steady_gets|]. intros t. destruct (getNextEvent q) as [peek|]; [|apply steady_ret].
  destruct (_ >? t); [apply steady_ret|]. intros s Hs. apply wp_bind.
  eapply wp_conseq; [by apply wp_remove_genuine| |done]. intros ev s1 [Hs1 Hev].
  apply (steady_bind sim_inv sim_end); [|intros _; apply IH|done].
  apply steady_try; [|intros x; apply sim_emit_harmless; by apply harmless_head].
  unfold genuine_event in Hev. destruct (callback ev) as [cb|]; [by apply sim_event|apply steady_ret].
Qed.

(** ** The main loop *)

Lemma sim_set_now t : steady sim_inv sim_end (set_now t).
Proof. apply steady_modify. intros s [H1 [G1 G2 G3] H3]. by constructor. Qed.

Lemma sim_readCommandFile d :
  steady sim_inv sim_end (readCommandFile (fun s => sim_rm (net s)) set_rm (on_net now) parseLine d).
Proof.
  intros s Hs. unfold readCommandFile. apply wp_bind, wp_gets. pose proof (nc_file _ _ (sv_net _ Hs)) as Hf.
  pose proof (sim_net _ (net_now size)) as Hn. destruct (commandFile_ _) as [lines|]; [|by apply wp_ret].
  assert (Hput : forall f, Forall (fits_line size) (default [] f) ->
    steady sim_inv sim_end (modify (fun s => set_rm (set_commandFile f (sim_rm (net s))) s))).
  { intros f Hl. apply steady_modify. intros x [H1 [G1 G2 G3] H3]. by constructor. }
  revert s Hs. refine (_ : steady _ _ _). cbn in Hf. destruct Hf as [|line rest Hl Hr]; [|].
  - specialize (Hput None ltac:(constructor)). steady.
  - pose proof (Hput (Some rest) Hr). pose proof (fun t => sim_line line t Hl). steady.
Qed.

(** What is typed asks for buffers that fit. *)
Definition console_fits (io : Console_in) : Prop :=
  forall wait line elapsed, io wait = Some (line, elapsed) -> fits_line size line.

Lemma sim_iteration io d : console_fits io -> steady sim_inv sim_end (iteration io d).
Proof.
  intros Hio. unfold iteration, nowMicros. pose proof sim_readCommandFile. pose proof sim_set_now.
  pose proof sim_event_loop. apply steady_bind; [done|]. intros d'.
  apply steady_bind; [steady|]. intros q. apply steady_bind; [steady|]. intros t.
  apply steady_bind; [steady|]. intros [delta wait]. apply steady_bind; [steady|]. intros scale.
  apply steady_bind; [steady|]. intros wait'. cbv zeta. set (w := if wait' <? 0 then _ else _).
  destruct (io w) as [[line elapsed]|] eqn:Hline; [|steady].
  pose proof (fun t => sim_line line t (Hio _ _ _ Hline)). steady.
Qed.

Lemma sim_main_loop ios d : Forall console_fits ios -> steady sim_inv sim_end (main_loop ios d).
Proof.
  intros Hios. revert d. induction Hios as [|io ios Hio _ IH]; intros d; cbn [main_loop]; [steady|].
  pose proof (sim_iteration io d Hio). steady.
Qed.

Lemma sim_start_nodes n i : steady sim_inv sim_end (start_nodes n i).
Proof.
  revert i. induction n as [|n IH]; intros i; cbn [start_nodes]; [apply steady_ret|].
  pose proof (sim_node i _ (meek_start size)). steady.
Qed.

Lemma sim_start ios : Forall console_fits ios -> steady sim_inv sim_end (start ios).
Proof.
  intros Hios. unfold start, boot. pose proof sim_start_nodes. pose proof sim_set_now.
  pose proof (sim_main_loop ios 0 Hios). steady. apply steady_modify. by intros s [].
Qed.

(** ** From the command line *)

Definition files_fit (open : string -> option (list string)) : Prop :=
  forall name lines, open name = Some lines -> Forall (fits_line size) lines.

Lemma sim_construct numNodes name file :
  (forall lines, file = Some lines -> Forall (fits_line size) lines) ->
  steady sim_inv sim_end (construct numNodes name file).
Proof.
  intros Hf. unfold construct, nowMicros. pose proof (sim_parseFile name file).
  pose proof sim_add_rest. pose proof (sim_topology (ret tt) ltac:(apply steady_ret)).
  assert (Hreset : steady sim_inv sim_end (on_net (zoom sim_topo set_sim_topo reset))).
  { apply sim_net. intros e [G1 G2 G3]. by constructor. }
  steady.
  - apply steady_modify. intros s [N1 N2 N3]. constructor; [|done..]. cbn.
    apply Forall_fmap, Forall_forall. intros i _. apply new_node_inv.
  - apply steady_modify. by intros s [N1 [G1 G2 G3] N3].
Qed.

Lemma sim_main_options open options ios :
  files_fit open -> Forall console_fits ios ->
  steady sim_inv sim_end (main_options open options ios).
Proof.
  intros Hopen Hios. unfold main_options. pose proof (sim_start ios Hios).
  assert (Hfile : forall name, steady sim_inv sim_end (open_command_file open name)).
  { intros name. apply sim_net. intros e [G1 G2 G3]. apply wp_zoom. unfold setCommandFile.
    destruct (open name) as [lines|] eqn:Hl; [|by constructor]. apply wp_bind, wp_modify.
    constructor; [done|by apply (Hopen name)|done]. }
  steady; [apply sim_emit_harmless; by apply harmless_head|].
  apply steady_modify. by intros x [].
Qed.

Lemma sim_main open args ios :
  files_fit open -> Forall console_fits ios -> steady sim_inv sim_end (main_simulate open args ios).
Proof.
  intros Hopen Hios. unfold main_simulate.
  assert (He : forall ch str, Ascii.eqb ch "N" = false ->
    steady sim_inv sim_end (sim_emit (Cerr (String ch str)))).
  { intros ch str Hc. apply sim_emit_harmless. by apply harmless_head. }
  destruct args as [|nodes [|topoFile options]].
  1-2: apply steady_bind; [by apply He|intros _]; apply steady_bind; [by apply He|intros _; steady].
  pose proof (fun n => sim_construct n topoFile (open topoFile) (Hopen topoFile)).
  pose proof (sim_main_options open options ios Hopen Hios). steady. by apply He.
Qed.

Lemma blank_inv c : Forall harmless (cell_out c) -> sim_inv (blank_Simulator c).
Proof. intros Hc. by repeat constructor. Qed.
End commands.
End sim.

(** ** No corruption *)

(** The alarm of a node was not shown. *)
Definition uncorrupted (c : Console) : Prop := forall addr, alarm addr ∉ c.

Lemma uncorrupted_harmless c : uncorrupted c <-> Forall harmless c.
Proof.
  unfold uncorrupted. rewrite Forall_forall. split.
  - intros Hc o Ho addr ->. by apply (Hc addr).
  - intros Hc addr Ha. by apply (Hc _ Ha addr).
Qed.

Section simulation.
Context `{MapOrder}.

(** C1: No simulation corrupts a transfer: whatever the links drop, lose, delay
    and reorder, and whichever fail, whatever commands the files and the user
    give, no worker of any node ever reports that a byte it received is not the
    one it expected, at any time before the program ends, by returning, by an
    exception or by [exit], or because the model's loops are cut; of a run that is
    undefined nothing is said.
    All buffer sizes that the commands ask for have to be compatible with one. *)
Theorem simulation_uncorrupted size open args ios c :
  files_fit size open -> Forall (console_fits size) ios -> uncorrupted (cell_out c) ->
  wp (main_simulate open args ios) (blank_Simulator c)
    (fun _ s => uncorrupted (cell_out (sim_topo (net s))))
    (fun f s => f = UB \/ uncorrupted (cell_out (sim_topo (net s)))).
Proof.
  intros Hopen Hios Hc%uncorrupted_harmless.
  eapply wp_conseq; [apply (sim_main size open args ios Hopen Hios); by apply blank_inv|..].
  - intros r s Hs. apply uncorrupted_harmless, Hs.
  - intros f s Hs. destruct f; [right|right|by left|right]; apply uncorrupted_harmless, Hs.
Qed.
End simulation.

(** ** A transfer *)

Section witnesses.
#[local] Existing Instance list_order.

(** The process before [main], with draws that lose no packet. *)
Definition transfer_process : TopoCell := mkTopoCell None (fun _ _ => dofZ 1) [].

(** Two nodes, a server with workers of a buffer, and a transfer of 700 bytes. *)
Definition transfer_files (server client : string) (name : string) : option (list string) :=
  if String.eqb name "topo"
  then Some ["edge 0 1 lossRate 0.1 delay 5"; "1 server 7 5 50 50 " +:+ server;
             "0 transfer 1 7 9 700 50 " +:+ client]
  else None.

Definition idle : Console_in := fun _ => None.

Definition transfer_run (server client : string) : result Z * Simulator :=
  main_simulate (transfer_files server client) ["2"; "topo"] (replicate 150 idle)
    (blank_Simulator transfer_process).

#[local] Instance output_eq_dec : EqDecision output.
Proof. solve_decision. Defined.

Definition shown (r : result Z * Simulator) (o : output) : bool :=
  bool_decide (o ∈ cell_out (sim_topo (net r.2))).

Lemma transfer_files_fit : files_fit 256 (transfer_files "256" "512").
Proof.
  intros name lines. unfold transfer_files. destruct (String.eqb name "topo"); [|done]. intros [= <-].
  repeat (apply List.Forall_cons; [split|]); [..|by apply List.Forall_nil];
    intros Hw; vm_compute in Hw; try discriminate Hw;
    intros z Hz; vm_compute in Hz; injection Hz as <-; right; vm_compute; by split.
Qed.

(** The 700 bytes arrive, and the theorem says that they are the right ones. *)
Lemma simulation_uncorrupted_witness :
  (transfer_run "256" "512").1 = Ret 0 /\
  shown (transfer_run "256" "512") (Cout (endl "Node 1: total bytes received = 700")) = true /\
  wp (main_simulate (transfer_files "256" "512") ["2"; "topo"] (replicate 150 idle))
    (blank_Simulator transfer_process)
    (fun _ s => uncorrupted (cell_out (sim_topo (net s))))
    (fun f s => f = UB \/ uncorrupted (cell_out (sim_topo (net s)))).
Proof.
  split; [vm_compute; reflexivity|]. split; [vm_compute; reflexivity|].
  apply (simulation_uncorrupted 256).
  - exact transfer_files_fit.
  - apply Forall_replicate. intros wait line elapsed [=].
  - intros addr Ha. by apply not_elem_of_nil in Ha.
Defined.

(** With sizes that are not compatible the worker takes the right bytes for wrong
    ones. *)
Example incompatible_alarm : shown (transfer_run "100" "256") (alarm 1) = true.
Proof. vm_compute. reflexivity. Qed.
End witnesses.
