(* ===== verification/PatternEmu.v ===== *)
(** * The stream in an emulation

    A process of the emulator that is given genuine frames sends genuine frames
    and shows no alarm; so no process of a distributed emulation ever does, in
    which every frame that arrives was sent by one of them. *)

From Stdlib Require Import Strings.Ascii.
From S2P Require Import Prelude CppStrings Doubles DoubleText Frame Packet EmulatorPacket EventQueue Runtime Edge LinkRules EmulatedLink Arp Posix EmuNet EmuTable Topology Parser TcpData Node StackNode Pattern PatternNode PatternTasks SimNet PatternSim Simulator Emulator.

(** ** Frames *)

(** The packet that a frame carries, if it is one, is genuine. *)
Definition genuine_frame (size : Z) (frame : list byte) : Prop :=
  forall p, EmulatorPacket.unpack frame = Some p -> genuine (byte_at size) (EmulatorPacket.payload_ p).

Lemma pack_genuine size dest src pkt p :
  genuine (byte_at size) pkt -> new_EmulatorPacket dest src pkt = inr p ->
  genuine_frame size (EmulatorPacket.pack p).
Proof.
  intros Hg [-> Hs]%new_EmulatorPacket_spec q Hq.
  apply emulator_unpack_sound in Hq as (rest & Heq & _ & _ & Hs').
  unfold EmulatorPacket.pack in Heq. cbn in Heq.
  injection Heq as _ _ Hl Hp. pose proof (vsize_nonneg pkt). pose proof (vsize_nonneg (EmulatorPacket.payload_ q)).
  unfold EmulatorPacket.MAX_PACKET_SIZE, Packet.MAX_PACKET_SIZE, EmulatorPacket.HEADER_SIZE in *.
  apply (f_equal bZ) in Hl. rewrite !bZ_u8_small in Hl by lia.
  assert (Hlen : length pkt = length (EmulatorPacket.payload_ q)) by (unfold vsize in *; lia).
  assert (rest = []) as ->.
  { apply length_zero_iff_nil. apply (f_equal length) in Hp. rewrite length_app in Hp. lia. }
  rewrite app_nil_r in Hp. by rewrite <- Hp.
Qed.

Lemma steady_known {S A B} (I J : S -> Prop) (a : A) (k : A -> M S B) :
  steady I J (k a) -> steady I J (bind (ret a) k).
Proof. intros Hk s Hs. by apply wp_bind, wp_ret, Hk. Qed.

(** ** The network of one process *)

(** What a line of a file or of the console says to the process's node. *)
Definition own_message (line : string) : string := pop_back (append_words (splitSpaces line)).

Definition fits_own (size : Z) (line : string) : Prop := line_fits size (own_message line).

Section net.
Context (size : Z).

Definition genuine_send (ev : ScheduledEvent EmuEvent) : Prop :=
  match callback ev with
  | Some (PhysicalSend frame _ _) => genuine_frame size frame
  | _ => True
  end.

Record emu_carries (e : EmuNet) : Prop := {
  ec_events : Forall genuine_send (sortedEvents_ (emu_rm e));
  ec_file : Forall (fits_own size) (default [] (commandFile_ (emu_rm e)));
  ec_sent : Forall (fun d => genuine_frame size d.1.1) (sent_ e);
  ec_muted : Forall harmless (emu_out e)
}.

Lemma emu_same e e' :
  rm_same (emu_rm e) (emu_rm e') -> sent_ e' = sent_ e -> emu_out e' = emu_out e ->
  emu_carries e -> emu_carries e'.
Proof.
  intros [Hq Hf] Hs Ho [E1 E2 E3 E4]. constructor.
  - by rewrite Hq.
  - by rewrite Hf.
  - by rewrite Hs.
  - by rewrite Ho.
Qed.

Lemma emu_modify f :
  (forall e, emu_rm (f e) = emu_rm e /\ sent_ (f e) = sent_ e /\ emu_out (f e) = emu_out e) ->
  steady emu_carries emu_carries (modify f).
Proof.
  intros Hf. apply steady_modify. intros e He. destruct (Hf e) as (E1 & E2 & E3).
  apply (emu_same e); [by rewrite E1|done..].
Qed.

Lemma emu_emit_harmless o : harmless o -> steady emu_carries emu_carries (emu_emit o).
Proof.
  intros Ho. apply steady_modify. intros e [E1 E2 E3 E4]. constructor; [done..|]. cbn.
  apply Forall_app_2; [done|by constructor].
Qed.

Lemma emu_next {A} (get : EmuNet -> nat -> A) set :
  (forall v e, emu_rm (set v e) = emu_rm e /\ sent_ (set v e) = sent_ e /\ emu_out (set v e) = emu_out e) ->
  steady emu_carries emu_carries (next get set).
Proof. intros Hs. unfold next. steady. apply emu_modify. intros e. apply Hs. Qed.

Lemma emu_clock : steady emu_carries emu_carries clockMicros.
Proof. by apply emu_next. Qed.

Lemma emu_now : steady emu_carries emu_carries EmuNet.now.
Proof. unfold EmuNet.now. pose proof emu_clock. steady. Qed.

Lemma emu_base_same {A} (m : M (RuntimeManager EmuEvent) A) :
  (forall r, rm_same r (m r).2) -> steady emu_carries emu_carries (emu_base m).
Proof.
  intros Hm e He. apply wp_zoom. specialize (Hm (emu_rm e)). unfold wp.
  assert (H : emu_carries (set_emu_rm (m (emu_rm e)).2 e)) by by apply (emu_same e).
  destruct (m (emu_rm e)) as [[a|[x| | |]] r]; done.
Qed.

Lemma emu_add t cb :
  genuine_send (mkEvent t (Some cb)) ->
  steady emu_carries emu_carries (emu_base (addEventAtMicros t (Some cb))).
Proof.
  intros Hev e [E1 E2 E3 E4]. apply wp_zoom. cbn. case_match; [by constructor|].
  apply wp_modify. constructor; [|done..]. cbn. rewrite addEvent_perm. by constructor.
Qed.

(** ** The trawler's lines *)

Lemma emu_drain reads : steady emu_carries emu_carries (drain_loop reads).
Proof.
  induction reads as [|[bytes| | |] reads IH]; cbn [drain_loop]; try apply steady_ret.
  - apply steady_bind; [by apply emu_modify|done].
  - apply steady_bind; [apply emu_emit_harmless; by apply harmless_head|].
    intros _ e He. exact He.
Qed.

Lemma emu_arp_line line : steady emu_carries emu_carries (arp_line line).
Proof.
  assert (He : steady emu_carries emu_carries
    (emu_emit (Cerr (endl ("Unrecognized command from trawler: " +:+ line)))))
    by (apply emu_emit_harmless; by apply harmless_head).
  assert (Hm : forall f, steady emu_carries emu_carries (modify (fun e => set_arp (f e) e)))
    by (intros f; by apply emu_modify).
  assert (Hn : forall ip p o, steady emu_carries emu_carries (new_entry ip p o)).
  { intros ip p o. unfold new_entry. pose proof (emu_next emu_seeds set_emu_seeds ltac:(done)). steady. }
  unfold arp_line. steady; apply Hm.
Qed.

Lemma emu_lines_loop fuel : steady emu_carries emu_carries (lines_loop fuel).
Proof.
  pose proof emu_arp_line. assert (Hm : forall v, steady emu_carries emu_carries (modify (set_trawlerBuf v)))
    by (intros v; by apply emu_modify).
  induction fuel as [|fuel IH]; cbn [lines_loop]; [by apply steady_fuel|steady].
Qed.

Lemma emu_refresh : steady emu_carries emu_carries refreshARP.
Proof.
  unfold refreshARP. pose proof emu_drain. pose proof emu_lines_loop.
  pose proof (emu_next feed_ set_feed ltac:(done)). steady.
Qed.

(** ** Sending *)

Context `{Platform}.

Lemma emu_physicalSend frame ip p :
  genuine_frame size frame -> steady emu_carries emu_carries (physicalSend frame ip p).
Proof.
  intros Hf. unfold physicalSend. pose proof (emu_next sendto_ set_sendto ltac:(done)).
  assert (Hm : steady emu_carries emu_carries
    (modify (fun e => set_sent (sent_ e ++ [(frame, ip, p mod 2 ^ 16)]) e))).
  { apply steady_modify. intros e [E1 E2 E3 E4]. constructor; [done..| |done]. cbn.
    apply Forall_app_2; [done|by constructor]. }
  steady; apply emu_emit_harmless; by apply harmless_head.
Qed.

Lemma link_same {C} sz now (s : EmulatedLink * RuntimeManager C) :
  rm_same s.2 (link_schedulePkt sz now s).2.2.
Proof.
  set (R := fun s s' : EmulatedLink * RuntimeManager C => rm_same s.2 s'.2).
  assert (PreOrder R) by (split; [by intros x|intros x y z; unfold R; by etrans]).
  assert (Hm : forall A (m : M (RuntimeManager C) A), keeps rm_same has_fuel m -> keeps R has_fuel (of_manager m)).
  { intros A m Hm. eapply keeps_zoom; [apply _|exact Hm|]. by intros x t Ht. }
  assert (Hl : forall A (m : M EmulatedLink A), keeps (fun _ _ => True) has_fuel m -> keeps R has_fuel (on_link m)).
  { intros A m Hl. eapply keeps_zoom; [apply _|exact Hl|]. by intros x t _. }
  enough (keeps R has_fuel (link_schedulePkt (C := C) sz now)) as Hk by apply Hk.
  assert (PreOrder (fun _ _ : EmulatedLink => True)) by by split.
  pose proof (Hm _ _ packetDropped_keeps). pose proof (Hm _ _ packetLost_keeps).
  unfold link_schedulePkt, transmission. frame.
  - apply Hl. by apply keeps_modify; [apply _|].
  - apply Hl. unfold link_draw. frame. by apply keeps_modify; [apply _|].
Qed.

Lemma emu_link dest sz now :
  steady emu_carries emu_carries (link_call dest (link_schedulePkt sz now)).
Proof.
  intros e He. unfold wp, link_call. destruct (arp_ e !! dest) as [[ip p [l|]]|]; try done.
  pose proof (link_same sz now (l, emu_rm e)) as Hr.
  destruct (link_schedulePkt sz now (l, emu_rm e)) as [r [l' rm']]. cbn in Hr.
  assert (Hc : emu_carries (set_arp (<[dest := mkARPData ip p (Some l')]> (arp_ e)) (set_emu_rm rm' e)))
    by by apply (emu_same e).
  destruct r as [a|[x| | |]]; done.
Qed.

Lemma emu_schedule frame dest :
  genuine_frame size frame -> steady emu_carries emu_carries (emu_schedulePkt frame dest).
Proof.
  intros Hf. unfold emu_schedulePkt. pose proof (fun ip p => emu_physicalSend frame ip p Hf).
  pose proof (fun sz t => emu_link dest sz t). pose proof emu_clock.
  assert (Ha : forall t ip p, steady emu_carries emu_carries
    (emu_base (addEventAtMicros t (Some (PhysicalSend frame ip p))))) by (intros; by apply emu_add).
  assert (Hr : forall t, steady emu_carries emu_carries (round_up_ms t)) by (intros; unfold round_up_ms; steady).
  steady.
Qed.

Lemma emu_broadcast frame l :
  genuine_frame size frame -> steady emu_carries emu_carries (broadcast_arp frame l).
Proof.
  intros Hf. pose proof (fun d => emu_schedule frame d Hf).
  induction l as [|[d a] l IH]; cbn [broadcast_arp]; steady.
Qed.

Lemma emu_sendPkt from to pkt :
  genuine (byte_at size) pkt -> steady emu_carries emu_carries (EmuNet.sendPkt from to pkt).
Proof.
  intros Hp. unfold EmuNet.sendPkt. apply steady_bind.
  { apply emu_base_same. intros r. apply base_sendPkt_keeps. }
  intros _. apply steady_bind; [apply emu_refresh|]. intros _.
  destruct (new_EmulatorPacket to from pkt) as [x|epkt] eqn:Hpk.
  { by intros e He. }
  apply (steady_known _ _ epkt). cbv zeta.
  pose proof (pack_genuine size to from pkt epkt Hp Hpk) as Hf.
  pose proof (fun l => emu_broadcast _ l Hf). pose proof (emu_schedule _ to Hf).
  steady; apply emu_emit_harmless; [apply harmless_neighbor|by apply harmless_head].
Qed.

(** A process's network is an environment in which the tasks see the stream. *)
#[export] Instance EmuNet_carrier : Carrier (byte_at size) EmuNet.
Proof.
  refine {| carries := emu_carries |}.
  - intros e He. pose proof (emu_now e He) as Hw. exact Hw.
  - intros from to pkt e He Hp. eapply wp_conseq; [by apply emu_sendPkt|done|]. by intros [].
  - intros node delta cb e He.
    assert (Hs : steady emu_carries emu_carries (mgr_addTimer node delta cb)).
    { cbn. apply steady_bind; [apply emu_now|]. intros t x Hx. pose proof Hx as [E1 E2 E3 E4].
      apply wp_zoom. unfold addTimer, addTimerAt. apply wp_bind. unfold long at 1. case_match; [|done].
      apply wp_ret, wp_bind. unfold long. case_match; [|done]. apply wp_ret, wp_modify.
      constructor; [|done..]. cbn. rewrite addEvent_perm. by constructor. }
    specialize (Hs e He). unfold wp in *.
    destruct (mgr_addTimer node delta cb e) as [[[]|f] e'] eqn:Hrun; [done|].
    destruct f as [x| | |]; try done. exfalso. revert Hrun. clear.
    cbn. unfold EmuNet.now, clockMicros, next, bind, gets, modify, emu_base, zoom, addTimer, addTimerAt,
      bind, long, addEvent_, modify, ret, fail. destruct (in_long _); [|by intros [=]].
    by destruct (in_long _); intros [=].
  - intros o e He Ho. exact (emu_emit_harmless o Ho e He).
Defined.
End net.

(** ** The process *)

Section process.
Context (size : Z) `{MapOrder} `{Platform}.

(** What a read of the console returns: whole lines, as a terminal gives them. *)
Definition typed_fits (text : string) : Prop :=
  tail_of text = EmptyString /\ Forall (fun line => fits_own size (chomp line)) (lines_of text).

Record emu_inv (s : Emulator) : Prop := {
  ev_node : forall n, node_ s = Some n -> node_inv size n;
  ev_net : emu_carries size (enet s);
  ev_stdin : typed_fits (stdinBuf s)
}.

Definition emu_end (s : Emulator) : Prop := emu_carries size (enet s).

Lemma emu_on_net {A} (m : M EmuNet A) :
  steady (emu_carries size) (emu_carries size) m -> steady emu_inv emu_end (on_enet m).
Proof.
  intros Hm. eapply steady_zoom; [exact Hm|apply ev_net|]. intros s t [E1 E2 E3] Ht.
  by split; [constructor|].
Qed.

Lemma emu_say o : harmless o -> steady emu_inv emu_end (say o).
Proof. intros Ho. by apply emu_on_net, emu_emit_harmless. Qed.

Lemma emu_set f :
  (forall s, node_ (f s) = node_ s /\ enet (f s) = enet s /\ stdinBuf (f s) = stdinBuf s) ->
  steady emu_inv emu_end (modify f).
Proof.
  intros Hf. apply steady_modify. intros s [E1 E2 E3]. destruct (Hf s) as (F1 & F2 & F3).
  constructor; [by rewrite F1|by rewrite F2|by rewrite F3].
Qed.

Lemma emu_on_stack {A} (m : M (StackNode * EmuNet) A) :
  meek size m -> steady emu_inv emu_end (on_stack m).
Proof.
  intros Hm s [E1 E2 E3]. unfold wp, on_stack. destruct (node_ s) as [n|]; [|done].
  pose proof (Hm n (enet s) (E1 n eq_refl) E2) as Hw. unfold wp in Hw.
  destruct (m (n, enet s)) as [[a|[x| | |]] [n' e']]; try done;
    destruct Hw as [Hn' He']; constructor; try done; by intros x' [= <-].
Qed.

(** ** Commands *)

Lemma emu_array arr : steady emu_inv emu_end (printStrArray Cerr arr).
Proof. apply emu_say, harmless_array. Qed.

Lemma emu_say_all l : Forall harmless l -> steady emu_inv emu_end (say_all l).
Proof.
  induction 1 as [|o l Ho _ IH]; cbn [say_all]; [apply steady_ret|].
  apply steady_bind; [by apply emu_say|done].
Qed.

Lemma emu_stop_steady : steady emu_inv emu_end emu_stop.
Proof.
  assert (Hx : steady emu_inv emu_end (fail (A := unit) (Exited 0))) by (intros s Hs; apply Hs).
  unfold emu_stop. pose proof (emu_on_net _ (emu_now size)). steady.
  apply emu_say_all. repeat constructor; intros ?; discriminate.
Qed.

Lemma emu_line line t : fits_own size line -> steady emu_inv emu_end (emu_parseLine line t).
Proof.
  intros Hf. unfold emu_parseLine, parseCommonCmds, echo, parseTime.
  pose proof (emu_on_stack _ (meek_onCommand size _ Hf)).
  pose proof emu_stop_steady. pose proof (emu_array (splitSpaces line)).
  assert (Hx : steady emu_inv emu_end (exitCmd (splitSpaces line))) by (cbn; steady).
  assert (Hn : steady emu_inv emu_end (parseNodeCmd (splitSpaces line)))
    by (cbn; unfold emu_sendNodeMsg; fold (own_message line); steady).
  assert (He : steady emu_inv emu_end (printStrArray Cout (drop 1 (splitSpaces line))))
    by apply emu_say, harmless_cout.
  assert (Hp : steady emu_inv emu_end (p_emit (Cerr "Error parsing time command: ")))
    by (apply emu_say; by apply harmless_head).
  steady.
Qed.

Lemma emu_stdin_line line : fits_own size line -> steady emu_inv emu_end (handleStdinLine line).
Proof.
  intros Hf. unfold handleStdinLine. pose proof (emu_on_net _ (emu_clock size)).
  pose proof (fun t => emu_line line t Hf). steady.
Qed.

(** ** Events and datagrams *)

Lemma emu_event ev :
  match ev with PhysicalSend frame _ _ => genuine_frame size frame | _ => True end ->
  steady emu_inv emu_end (run_emu_event ev).
Proof.
  destruct ev as [cb|frame ip p]; cbn [run_emu_event]; intros Hev.
  - apply emu_on_stack, meek_timer_callback.
  - by apply emu_on_net, emu_physicalSend.
Qed.

Lemma wp_emu_remove s :
  emu_inv s ->
  wp (on_enet (emu_base (zoom sortedEvents_ set_sortedEvents removeNextEvent))) s
    (fun ev s' => emu_inv s' /\ genuine_send size ev) (ends emu_inv emu_end).
Proof.
  intros [E1 [G1 G2 G3 G4] E3]. do 3 apply wp_zoom. unfold removeNextEvent, wp.
  destruct (sortedEvents_ (emu_rm (enet s))) as [|ev q]; [done|]. cbn.
  apply Forall_cons in G1 as [Gev G1]. split; [|done]. by constructor.
Qed.

Lemma emu_due_loop fuel t : steady emu_inv emu_end (due_loop fuel t).
Proof.
  induction fuel as [|fuel IH]; cbn [due_loop]; [apply steady_fuel, ev_net|].
  apply steady_bind; [apply steady_gets|]. intros q.
  destruct (getNextEvent q) as [next|]; [|apply steady_ret].
  destruct (_ <=? t); [|apply steady_ret]. intros s Hs. apply wp_bind.
  eapply wp_conseq; [by apply wp_emu_remove| |done]. intros ev s1 [Hs1 Hev].
  apply (steady_bind emu_inv emu_end); [|intros _; apply IH|done].
  apply steady_try; [|intros x; apply emu_say; by apply harmless_head].
  unfold genuine_send in Hev. destruct (callback ev) as [cb|]; [by apply emu_event|apply steady_throw].
Qed.

Lemma emu_udp received :
  (forall bytes ip p, received = Some (bytes, ip, p) -> genuine_frame size bytes) ->
  steady emu_inv emu_end (processUdpPacket received).
Proof.
  intros Hf. unfold processUdpPacket. destruct received as [[[bytes ip] p]|]; [|apply steady_ret].
  specialize (Hf _ _ _ eq_refl). destruct (vsize bytes <=? 0); [apply steady_ret|].
  destruct (EmulatorPacket.unpack bytes) as [q|] eqn:Hq.
  - assert (Hm : forall f, steady emu_inv emu_end (on_enet (modify (fun e => set_arp (f e) e))))
      by (intros f; apply emu_on_net; by apply emu_modify).
    pose proof (fun src => emu_on_stack _ (meek_onReceive size src _ (Hf q Hq))). steady.
  - apply emu_say. by apply harmless_head.
Qed.

(** ** The console *)

Lemma typed_app text text' : typed_fits text -> typed_fits text' -> typed_fits (text +:+ text').
Proof.
  intros [T1 F1] [T2 F2]. split.
  - by rewrite tail_of_app, T1.
  - rewrite lines_of_app, T1. by apply Forall_app_2.
Qed.

Definition read_fits (r : StdinRead) : Prop :=
  match r with StdinData bytes => typed_fits bytes | _ => True end.

Lemma emu_stdin_reads reads : Forall read_fits reads -> steady emu_inv emu_end (stdin_reads reads).
Proof.
  induction 1 as [|[bytes| |] reads Hr Hrs IH]; cbn [stdin_reads]; try apply steady_ret.
  - apply steady_bind; [|done]. apply steady_modify. intros s [E1 E2 E3].
    constructor; [done..|]. by apply typed_app.
  - by apply emu_set.
Qed.

Lemma emu_stdin_lines fuel : steady emu_inv emu_end (stdin_lines fuel).
Proof.
  induction fuel as [|fuel IH]; cbn [stdin_lines]; [apply steady_fuel, ev_net|].
  intros s Hs. apply wp_bind, wp_gets. pose proof (split_line_lines (stdinBuf s)) as Hl.
  destruct (split_line (stdinBuf s)) as [[line rest]|]; [|by apply wp_ret].
  destruct Hl as (Hl & Ht & _). pose proof (ev_stdin _ Hs) as [T F].
  rewrite Hl in F. rewrite Ht in T. apply Forall_cons in F as [Fl F].
  apply wp_bind, wp_modify.
  apply (steady_bind emu_inv emu_end); [by apply emu_stdin_line|intros _; apply IH|].
  destruct Hs as [E1 E2 E3]. by constructor.
Qed.

(** ** The main loop *)

Record answers_fit (io : Answers) : Prop := {
  af_udp : forall bytes ip p, ans_udp io = Some (bytes, ip, p) -> genuine_frame size bytes;
  af_stdin : Forall read_fits (ans_stdin io)
}.

Lemma emu_readCommandFile d :
  steady emu_inv emu_end
    (readCommandFile (fun s => emu_rm (enet s)) set_erm (on_enet EmuNet.now) emu_parseLine d).
Proof.
  intros s Hs. unfold readCommandFile. apply wp_bind, wp_gets. pose proof (ec_file _ _ (ev_net _ Hs)) as Hf.
  pose proof (emu_on_net _ (emu_now size)). destruct (commandFile_ _) as [lines|]; [|by apply wp_ret].
  assert (Hput : forall f, Forall (fits_own size) (default [] f) ->
    steady emu_inv emu_end (modify (fun s => set_erm (set_commandFile f (emu_rm (enet s))) s))).
  { intros f Hl. apply steady_modify. intros x [E1 [G1 G2 G3 G4] E3]. by constructor. }
  revert s Hs. refine (_ : steady _ _ _). cbn in Hf. destruct Hf as [|line rest Hl Hr]; [|].
  - specialize (Hput None ltac:(constructor)). steady.
  - pose proof (Hput (Some rest) Hr). pose proof (fun t => emu_line line t Hl). steady.
Qed.

Lemma emu_pollIO poll t : steady emu_inv emu_end (pollIO poll t).
Proof.
  unfold pollIO. pose proof (emu_on_net _ (emu_clock size)).
  assert (Hs : forall f, (forall s, node_ (f s) = node_ s /\ enet (f s) = enet s /\ stdinBuf (f s) = stdinBuf s) ->
    steady emu_inv emu_end (modify f)) by apply emu_set.
  apply steady_bind; [steady|]. intros ms. destruct (poll ms) as [[error|]| |udp stdin hangup]; try steady.
  all: first [by apply Hs|apply emu_say; by apply harmless_head].
Qed.

Lemma emu_iteration_steady io d : answers_fit io -> steady emu_inv emu_end (emu_iteration io d).
Proof.
  intros [Hu Hi]. unfold emu_iteration, wait_till. pose proof (emu_on_net _ (emu_clock size)).
  pose proof emu_readCommandFile. pose proof emu_due_loop. pose proof emu_pollIO.
  pose proof (emu_on_net _ (emu_refresh size)). pose proof (emu_udp _ Hu).
  pose proof (emu_stdin_reads _ Hi). pose proof emu_stdin_lines. steady.
  all: by apply emu_set.
Qed.

Lemma emu_loop_steady ios d : Forall answers_fit ios -> steady emu_inv emu_end (emu_loop ios d).
Proof.
  intros Hios. revert d. induction Hios as [|io ios Hio _ IH]; intros d; cbn [emu_loop]; [steady|].
  pose proof (emu_iteration_steady io d Hio). steady.
Qed.

(** ** Starting *)

Lemma emu_handshake c : steady emu_inv emu_end (handshake c).
Proof.
  unfold handshake.
  assert (Hs : forall id, steady emu_inv emu_end (modify (set_assignedNodeId id)))
    by (intros id; by apply emu_set).
  assert (Hx : steady emu_inv emu_end (fail (A := unit) (Exited 1))) by (intros s Hs0; apply Hs0).
  steady; apply emu_say; by apply harmless_head.
Qed.

Lemma emu_start_steady host c ios :
  Forall answers_fit ios -> steady emu_inv emu_end (emu_start host c ios).
Proof.
  intros Hios. unfold emu_start, connectToTrawler, openUdpSocket. pose proof (emu_handshake c).
  pose proof (emu_loop_steady ios 0 Hios). pose proof (emu_on_stack _ (meek_start size)).
  assert (Hn : forall id, steady emu_inv emu_end (modify (set_node (Some (new_StackNode id))))).
  { intros id. apply steady_modify. intros s [E1 E2 E3]. constructor; [|done..].
    intros n [= <-]. apply new_node_inv. }
  steady. by apply emu_set.
Qed.
End process.
