(* ===== verification/PatternWorld.v ===== *)
(** * A distributed emulation

    Processes of the emulator on a network of datagrams that loses, duplicates,
    delays and reorders what they send, as a step relation.  No frame that any of
    them sends holds a byte of a transfer at the wrong place, and none of them
    ever reports corrupted data. *)

From Stdlib Require Import Strings.Ascii.
From S2P Require Import Prelude CppStrings Doubles DoubleText Packet EmulatorPacket EventQueue Runtime Edge EmulatedLink Arp Posix Parser TcpData Node StackNode Simulator PatternNode Pattern PatternSim EmuNet Emulator PatternEmu TcpNet.

(** ** Processes *)

(** A process that has not connected yet, one between two iterations of its main
    loop, and one that has come to its end. *)
Inductive process : Type :=
| Starting (s : Emulator)
| Running (s : Emulator) (deferTill : Z)
| Ended (s : Emulator).

Definition proc_state (p : process) : Emulator :=
  match p with Starting s | Running s _ | Ended s => s end.

Definition sent_frames (p : process) : list (list byte) := (fun d => d.1.1) <$> sent_ (enet (proc_state p)).

Definition proc_console (p : process) : Console := emu_out (enet (proc_state p)).

(** Every frame that was given to the network. *)
Definition wire (ws : list process) : list (list byte) := concat (sent_frames <$> ws).

Section world.
Context (size : Z) `{MapOrder} `{Platform}.

(** The handler of exceptions around everything in [main]. *)
Definition in_main (m : M Emulator Z) : M Emulator (option Z) :=
  try_catch (let! d := m in ret (Some d))
    (fun e => say (Cerr (endl ("Exception occurred in netstack: " +:+ what e))) ;; ret None).

(** How the process goes on; undefined behaviour has no successor. *)
Definition goes_on (r : result (option Z) * Emulator) : option process :=
  match r with
  | (Ret (Some d), s) => Some (Running s d)
  | (Fault UB, _) => None
  | (_, s) => Some (Ended s)
  end.

(** What reaches a process: a datagram that some process sent, and lines of the
    console whose buffer sizes are compatible. *)
Definition delivered (ws : list process) (io : Answers) : Prop :=
  Forall (read_fits size) (ans_stdin io) /\
  forall bytes ip p, ans_udp io = Some (bytes, ip, p) -> bytes ∈ wire ws.

Inductive emulation_step : list process -> list process -> Prop :=
| process_starts ws i s host c p :
    ws !! i = Some (Starting s) -> goes_on (in_main (emu_start host c []) s) = Some p ->
    emulation_step ws (<[i := p]> ws)
| process_iterates ws i s d io p :
    ws !! i = Some (Running s d) -> delivered ws io ->
    goes_on (in_main (emu_iteration io d) s) = Some p ->
    emulation_step ws (<[i := p]> ws).

(** ** The invariant *)

Definition process_inv (p : process) : Prop :=
  match p with
  | Starting s | Running s _ => emu_inv size s
  | Ended s => emu_end size s
  end.

Lemma process_carries p : process_inv p -> emu_carries size (enet (proc_state p)).
Proof. destruct p; [apply ev_net..|done]. Qed.

Lemma wire_genuine ws frame :
  Forall process_inv ws -> frame ∈ wire ws -> genuine_frame size frame.
Proof.
  intros Hws (l & Hf & Hl)%elem_of_concat. apply list_elem_of_fmap in Hl as (p & -> & Hp).
  apply list_elem_of_fmap in Hf as (d & -> & Hd).
  pose proof (proj1 (Forall_forall _ _) Hws p Hp) as Hi. apply process_carries, ec_sent in Hi.
  by apply (proj1 (Forall_forall _ _) Hi).
Qed.

Lemma in_main_steady m :
  steady (emu_inv size) (emu_end size) m -> steady (emu_inv size) (emu_end size) (in_main m).
Proof.
  intros Hm. unfold in_main. steady. apply emu_say. by apply harmless_head.
Qed.

Lemma goes_on_inv m s p :
  steady (emu_inv size) (emu_end size) m -> emu_inv size s -> goes_on (in_main m s) = Some p ->
  process_inv p.
Proof.
  intros Hm%in_main_steady Hs. specialize (Hm s Hs). unfold wp in Hm.
  destruct (in_main m s) as [[[d|]|[x| | |]] s']; cbn; intros [= <-]; try done; by apply ev_net.
Qed.

Lemma emulation_step_inv ws ws' :
  emulation_step ws ws' -> Forall process_inv ws -> Forall process_inv ws'.
Proof.
  intros Hstep Hws. destruct Hstep as [ws i s host c p Hi Hp|ws i s d io p Hi [Hin Hudp] Hp].
  - apply Forall_insert; [done|]. eapply goes_on_inv; [| |exact Hp].
    + apply emu_start_steady. constructor.
    + exact (Forall_lookup_1 _ _ _ _ Hws Hi).
  - apply Forall_insert; [done|]. eapply goes_on_inv; [| |exact Hp].
    + apply emu_iteration_steady. constructor; [|done]. intros bytes ip q Hb.
      by eapply wire_genuine, Hudp.
    + exact (Forall_lookup_1 _ _ _ _ Hws Hi).
Qed.

(** A process as [main] makes it: nothing sent, nothing to do, and lines in the
    command file whose buffer sizes are compatible. *)
Record fresh_process (p : process) : Prop := {
  fp_starting : p = Starting (proc_state p);
  fp_node : node_ (proc_state p) = None;
  fp_stdin : stdinBuf (proc_state p) = EmptyString;
  fp_events : sortedEvents_ (emu_rm (enet (proc_state p))) = [];
  fp_file : Forall (fits_own size) (default [] (commandFile_ (emu_rm (enet (proc_state p)))));
  fp_sent : sent_frames p = [];
  fp_console : uncorrupted (proc_console p)
}.

Lemma fresh_process_inv p : fresh_process p -> process_inv p.
Proof.
  intros [F1 F2 F3 F4 F5 F6 F7]. rewrite F1. cbn. constructor.
  - by rewrite F2.
  - constructor; [by rewrite F4|done| |by apply uncorrupted_harmless].
    apply fmap_nil_inv in F6. by rewrite F6.
  - rewrite F3. split; [done|constructor].
Qed.

(** C2: In a distributed emulation no transfer is corrupted: processes run on
    any machines, in any interleaving, with any traffic commands and any
    neighbors, over a network that loses, duplicates, delays and reorders
    datagrams, and over links that drop and lose packets; as long as every
    datagram that arrives was sent by one of the processes, no worker reports
    a byte that is not the one it expected.  All buffer sizes that the commands in
    the files and on the consoles ask for have to be compatible with one size
    ([file_fits], [read_fits]): equal, or both multiples of 256; with others the alarm
    is raised on a correct transfer.  A process whose run is undefined makes no
    further step. *)
Theorem emulation_uncorrupted ws ws' :
  Forall fresh_process ws -> rtc emulation_step ws ws' ->
  Forall (fun p => uncorrupted (proc_console p)) ws'.
Proof.
  intros Hfresh Hsteps.
  assert (Hinv : Forall process_inv ws') .
  { assert (H1 : Forall process_inv ws)
      by (eapply Forall_impl; [exact Hfresh|apply fresh_process_inv]).
    clear Hfresh. induction Hsteps as [|ws1 ws2 ws3 Hstep _ IH]; [done|].
    by apply IH, (emulation_step_inv ws1). }
  eapply Forall_impl; [exact Hinv|]. intros p Hp.
  apply uncorrupted_harmless. exact (ec_muted _ _ (process_carries p Hp)).
Qed.
End world.

(** ** A transfer between two machines *)

Section witnesses.
#[local] Existing Instance list_order.

#[local] Instance any_platform : Platform := {|
  int_order A m := map_to_list m;
  int_order_perm A m := Permutation_refl (map_to_list m);
  inet_pton _ := true
|}.

(** A process with a line from the trawler and a command of the user. *)
Definition machine (neighbor command : string) : process :=
  Starting (mkEmulator
    (mkEmuNet (set_commandFile (Some [command]) (new_RuntimeManager 0)) ∅ EmptyString
       (fun n => 100 * Z.of_nat n)
       (fun n => match n with O => [Data (neighbor +:+ newline)] | _ => [] end)
       (fun _ => None) (fun _ _ => dofZ 1) [] [])
    None (-1) 5000 false false false false EmptyString).

Definition connection (id : ascii) : Connecting :=
  mkConnecting true true None true true true [Some id; Some "010"%char].

Definition replace (ws : list process) (i : nat) (p : option process) : list process :=
  match p with Some p => <[i := p]> ws | None => ws end.

Definition connected (ws : list process) (i : nat) (id : ascii) : list process :=
  match ws !! i with
  | Some (Starting s) => replace ws i (goes_on (in_main (emu_start "host" (connection id) []) s))
  | _ => ws
  end.

(** An iteration in which the frame arrives, if there is one. *)
Definition arrival (frame : option (list byte)) : Answers :=
  mkAnswers (fun _ => match frame with Some _ => PollReady true false false | None => PollTimeout end)
    ((fun bytes => (bytes, "127.0.0.1"%string, 5000)) <$> frame) [].

Definition iterated (ws : list process) (i : nat) (frame : option (list byte)) : list process :=
  match ws !! i with
  | Some (Running s d) =>
      if match frame with Some bytes => bool_decide (bytes ∈ wire ws) | None => true end
      then replace ws i (goes_on (in_main (emu_iteration (arrival frame) d) s))
      else ws
  | _ => ws
  end.

(** The two processes in turn; each is given the frames of the other in order. *)
Fixpoint exchange (n k0 k1 : nat) (ws : list process) : list process :=
  match n with
  | O => ws
  | S n =>
      let f0 : option (list byte) := (p ← ws !! 1%nat; sent_frames p !! k0) in
      let ws := iterated ws 0 f0 in
      let f1 : option (list byte) := (p ← ws !! 0%nat; sent_frames p !! k1) in
      let ws := iterated ws 1 f1 in
      exchange n (match f0 with Some _ => S k0 | None => k0 end)
        (match f1 with Some _ => S k1 | None => k1 end) ws
  end.

(** Rounds in which no datagram arrives. *)
Fixpoint alone (n : nat) (ws : list process) : list process :=
  match n with O => ws | S n => alone n (iterated (iterated ws 0 None) 1 None) end.

Definition two_machines : list process :=
  [machine "add 1 127.0.0.1 5001" "transfer 1 7 9 20 1 512";
   machine "add 0 127.0.0.1 5000" "server 7 5 1 1 256"].

Definition after_transfer : list process :=
  exchange 60 0 0 (alone 3 (connected (connected two_machines 0 "0") 1 "1")).

Lemma connected_steps ws i id : rtc (emulation_step 256) ws (connected ws i id).
Proof.
  unfold connected. destruct (ws !! i) as [[s| |]|] eqn:Hi; try reflexivity.
  destruct (goes_on _) as [p|] eqn:Hp; [|reflexivity]. eapply rtc_once, process_starts; [done|exact Hp].
Qed.

Lemma iterated_steps ws i frame : rtc (emulation_step 256) ws (iterated ws i frame).
Proof.
  unfold iterated. destruct (ws !! i) as [[|s d|]|] eqn:Hi; try reflexivity.
  destruct (match frame with Some _ => _ | None => _ end) eqn:Hw; [|reflexivity].
  destruct (goes_on _) as [p|] eqn:Hp; [|reflexivity].
  eapply rtc_once, process_iterates; [done| |exact Hp]. split; [constructor|].
  intros bytes ip prt. cbn. destruct frame as [f|]; [|done]. intros [= <- _ _].
  by apply bool_decide_eq_true in Hw.
Qed.

Lemma exchange_steps n k0 k1 ws : rtc (emulation_step 256) ws (exchange n k0 k1 ws).
Proof.
  revert k0 k1 ws. induction n as [|n IH]; intros k0 k1 ws; [reflexivity|]. cbn [exchange]. cbv zeta.
  etrans; [apply iterated_steps|]. etrans; [apply iterated_steps|]. apply IH.
Qed.

Lemma alone_steps n ws : rtc (emulation_step 256) ws (alone n ws).
Proof.
  revert ws. induction n as [|n IH]; intros ws; [reflexivity|]. cbn [alone].
  etrans; [apply iterated_steps|]. etrans; [apply iterated_steps|]. apply IH.
Qed.

Lemma after_transfer_steps : rtc (emulation_step 256) two_machines after_transfer.
Proof.
  etrans; [apply (connected_steps _ 0 "0")|]. etrans; [apply (connected_steps _ 1 "1")|].
  etrans; [apply (alone_steps 3)|]. apply exchange_steps.
Qed.

Lemma machine_fresh neighbor command : fits_own 256 command -> fresh_process 256 (machine neighbor command).
Proof.
  intros Hc. constructor; try reflexivity.
  - by apply List.Forall_cons; [|apply List.Forall_nil].
  - intros addr Ha. by apply not_elem_of_nil in Ha.
Qed.

Lemma two_machines_fresh : Forall (fresh_process 256) two_machines.
Proof.
  repeat (apply List.Forall_cons; [apply machine_fresh; split|]); [..|by apply List.Forall_nil];
    intros Hw; vm_compute in Hw; try discriminate Hw;
    intros z Hz; vm_compute in Hz; injection Hz as <-; right; vm_compute; by split.
Qed.

(** The 20 bytes arrive, and the theorem says that they are the right ones. *)
Lemma emulation_uncorrupted_witness :
  last (proc_console <$> after_transfer) ≫= last =
    Some (Cout (endl "Node 1: total bytes received = 20")) /\
  Forall (fun p => uncorrupted (proc_console p)) after_transfer.
Proof.
  split; [vm_compute; reflexivity|].
  exact (emulation_uncorrupted 256 two_machines after_transfer two_machines_fresh after_transfer_steps).
Defined.
End witnesses.
