(* ===== verification/SimEvents.v ===== *)
(** * The simulated network keeps its promises to the nodes

    In its invariant (times and counters in range, edges with sane options) the
    network is an environment in the sense of the nodes' interface: every call
    works, the one fault being the overflow of a packet counter, and the
    deliveries it queues are of packets that were sent.

    Then the events of a simulation: an event of a node runs without a fault
    and changes its node and the network, nothing else.  What a packet sent to
    one node becomes on the network. *)

From S2P Require Import Prelude CppStrings Doubles DoubleText Frame Packet EventQueue Runtime Edge LinkRules Topology Parser ParserSpec TcpData TcpRun TcpGrow TcpInv TcpSpec TcpSafe TcpHandlers Node Apps StackNode NodeFrame NodeRun NodeSpec AppSpec SimNet Simulator SimFrame SimLoop.

Definition topo_sane (t : Topology) : Prop := allToAll_ t = false /\ Forall edge_ok (edges_ t).

Record net_ok (e : SimNet) : Prop := {
  nk_now : 0 <= nowMicros_ e <= MICROS_LIMIT;
  nk_counts : counts_ok (sim_rm e);
  nk_topo : forall t, instancePtr (sim_topo e) = Some t -> topo_sane t
}.

Definition net_fault (f : fault) (e : SimNet) : Prop := f = UB /\ count_full (sim_rm e).

(** A delivery stems from a packet that was sent to its node or to all. *)
Definition stems (l : list datagram) (ev : Event) : Prop :=
  match callback ev with
  | Some (DeliverPkt from to pkt) =>
      exists dest, (from, dest, pkt) ∈ l /\ (to = dest \/ dest = BROADCAST_ADDRESS)
  | Some (NodeCallback _) => True
  | _ => False
  end.

(** The singleton after [Topology::instance()]. *)
Definition topo_of (e : SimNet) : Topology :=
  default (mkTopology [] ∅ false) (instancePtr (sim_topo e)).

Definition pinned (e : SimNet) : SimNet :=
  set_sim_topo (mkTopoCell (Some (topo_of e)) (cell_seeds (sim_topo e)) (cell_out (sim_topo e))) e.

(** The options of the edge between two nodes, if it and both of them are up. *)
Definition link_between (a b : Z) (t : Topology) : option EdgeOptions :=
  match view t a b with
  | Some (true, o) => if isNodeAlive_ a t && isNodeAlive_ b t then Some o else None
  | _ => None
  end.

(** An event that the network puts into its queue: the delivery of a packet that
    may be sent, over an edge that is up between nodes that are, after no less
    than the edge's delay; or a timer, later than now. *)
Definition timely (e : SimNet) (ev : Event) : Prop :=
  match callback ev with
  | Some (DeliverPkt from to pkt) =>
      (exists p, unpack pkt = Some p /\ isValidToSend p = true) /\
      exists o, link_between from to (topo_of e) = Some o /\
        nowMicros_ e + delayMs o * 1000 <= timeToOccur ev
  | Some (NodeCallback _) => nowMicros_ e < timeToOccur ev
  | _ => False
  end.

(** The clock stands, the links stay, and the events that came into the queue are
    deliveries of [l] and timers. *)
Definition net_sends (e : SimNet) (l : list datagram) (e' : SimNet) : Prop :=
  nowMicros_ e' = nowMicros_ e /\
  (forall a b, link_between a b (topo_of e') = link_between a b (topo_of e)) /\
  exists evs, events e' = add_all evs (events e) /\ Forall (stems l) evs /\ Forall (timely e) evs.

Lemma stems_app_l l l' ev : stems l ev -> stems (l ++ l') ev.
Proof.
  unfold stems. destruct (callback ev) as [[]|]; try done.
  intros (d & Hd & Ht). exists d. split; [|done]. apply elem_of_app. by left.
Qed.

Lemma stems_app_r l l' ev : stems l' ev -> stems (l ++ l') ev.
Proof.
  unfold stems. destruct (callback ev) as [[]|]; try done.
  intros (d & Hd & Ht). exists d. split; [|done]. apply elem_of_app. by right.
Qed.

Lemma net_sends_refl e : net_sends e [] e.
Proof. do 2 (split; [done|]). by exists []. Qed.

Lemma net_sends_same e e' l :
  nowMicros_ e' = nowMicros_ e -> events e' = events e ->
  (forall a b, link_between a b (topo_of e') = link_between a b (topo_of e)) -> net_sends e l e'.
Proof. intros Hn Hq Hl. do 2 (split; [done|]). exists []. by split. Qed.

Lemma timely_same e e' ev :
  nowMicros_ e' = nowMicros_ e ->
  (forall a b, link_between a b (topo_of e') = link_between a b (topo_of e)) ->
  timely e' ev -> timely e ev.
Proof.
  intros Hn Hl. unfold timely. destruct (callback ev) as [[]|]; try done; rewrite Hn; [done|].
  by rewrite Hl.
Qed.

(** Two lists of events, one after the other. *)
Lemma net_sends_join e1 e2 e3 l1 l2 l :
  (forall ev, stems l1 ev -> stems l ev) -> (forall ev, stems l2 ev -> stems l ev) ->
  net_sends e1 l1 e2 -> net_sends e2 l2 e3 -> net_sends e1 l e3.
Proof.
  intros H1 H2 [N1 [L1 (v1 & Q1 & F1 & T1)]] [N2 [L2 (v2 & Q2 & F2 & T2)]].
  split; [congruence|]. split; [intros; by rewrite L2, L1|].
  exists (v1 ++ v2). unfold add_all in *. rewrite fold_left_app, <- Q1. split; [done|]. split.
  - apply Forall_app_2; [by eapply List.Forall_impl; [exact H1|]|by eapply List.Forall_impl; [exact H2|]].
  - apply Forall_app_2; [done|]. eapply List.Forall_impl; [|exact T2]. intros ev. by apply timely_same.
Qed.

Lemma net_sends_trans e1 e2 e3 l l' :
  net_sends e1 l e2 -> net_sends e2 l' e3 -> net_sends e1 (l ++ l') e3.
Proof. apply net_sends_join; intros ev; [apply stems_app_l|apply stems_app_r]. Qed.

Lemma net_sends_nil e e' l : net_sends e [] e' -> net_sends e l e'.
Proof.
  intros Hs. apply (net_sends_trans _ _ _ [] l Hs). by apply net_sends_same.
Qed.

(** ** The network *)

Lemma net_ok_rm e r : net_ok e -> counts_ok r -> net_ok (set_sim_rm r e).
Proof. intros [] Hr. by constructor. Qed.

Lemma net_ok_topo e c :
  net_ok e -> (forall t, instancePtr c = Some t -> topo_sane t) -> net_ok (set_sim_topo c e).
Proof. intros [] Hc. by constructor. Qed.

Lemma topo_of_sane e : net_ok e -> topo_sane (topo_of e).
Proof.
  intros He. unfold topo_of. destruct (instancePtr (sim_topo e)) eqn:Hp; [by apply (nk_topo _ He)|].
  split; [done|constructor].
Qed.

Lemma pinned_ok e : net_ok e -> net_ok (pinned e).
Proof.
  intros He. apply net_ok_topo; [done|]. intros t [= <-]. by apply topo_of_sane.
Qed.

(** The live edge of a pair. *)
Definition live_index (a b : Z) (t : Topology) : option nat :=
  match view t a b with
  | Some (true, _) =>
      if isNodeAlive_ a t && isNodeAlive_ b t then find_edge a b (edges_ t) else None
  | _ => None
  end.

Lemma live_run a b e :
  allToAll_ (topo_of e) = false ->
  topology (getLiveEdge a b) e = (Ret (live_index a b (topo_of e)), pinned e).
Proof.
  intros Ha. unfold topology, zoom, with_instance.
  assert (match instancePtr (sim_topo e) with Some t => t | None => mkTopology [] ∅ false end =
    topo_of e) as -> by (unfold topo_of; by destruct (instancePtr _)).
  by rewrite getLiveEdge_run.
Qed.

Lemma live_index_edge a b t i :
  live_index a b t = Some i -> exists ed, edges_ t !! i = Some ed /\ (a = a_ ed \/ a = b_ ed).
Proof.
  unfold live_index. destruct (view t a b) as [[[] o]|]; try done.
  destruct (_ && _); [|done]. intros Hf. destruct (find_edge_Some _ _ _ _ Hf) as (ed & Hed & He).
  exists ed. split; [done|]. apply isEdge_spec in He as [[? ?]|[? ?]]; auto.
Qed.

Lemma live_index_link a b t i ed :
  live_index a b t = Some i -> edges_ t !! i = Some ed -> link_between a b t = Some (options_ ed).
Proof.
  unfold live_index, link_between, view, lookup_edge. intros Hi Hed.
  destruct (find_edge a b (edges_ t)) as [j|]; [|done].
  destruct (edges_ t !! j) as [ed'|] eqn:Hj; [|done]. cbn in *.
  destruct (live_ ed'); [|done]. destruct (_ && _); [|done]. injection Hi as ->.
  by rewrite Hj in Hed; injection Hed as ->.
Qed.

(** A method of an edge that keeps it in its place and up. *)
Lemma link_between_put i ed ed' t a b :
  edges_ t !! i = Some ed -> edge_same ed ed' ->
  link_between a b (set_edges (<[i := ed']> (edges_ t)) t) = link_between a b t.
Proof.
  intros Hi (Ho & Ha & Hb & Hl). unfold link_between, view, lookup_edge. cbn.
  rewrite (find_edge_insert a b _ i ed ed') by done. change (isNodeAlive_ ?x (set_edges _ t)) with (isNodeAlive_ x t).
  destruct (find_edge a b (edges_ t)) as [j|]; [|done]. destruct (decide (j = i)) as [->|Hne].
  - rewrite list_lookup_insert_eq by (by eapply lookup_lt_Some). rewrite Hi. cbn. by rewrite Ho, Hl.
  - by rewrite list_lookup_insert_ne.
Qed.

Section laws.
Implicit Types (e : SimNet).

Lemma topo_sane_put i ed t : edge_ok ed -> topo_sane t -> topo_sane (set_edges (<[i:=ed]> (edges_ t)) t).
Proof. intros He [Ha Hf]. split; [done|]. by apply Forall_insert. Qed.

(** An event for the queue of the base class. *)
Lemma wp_add_event at_ cb e l (Q : unit -> SimNet -> Prop) X :
  net_ok e -> stems l (mkEvent at_ (Some cb)) -> timely e (mkEvent at_ (Some cb)) ->
  (forall e', net_ok e' -> net_sends e l e' -> sim_topo e' = sim_topo e -> Q tt e') ->
  wp (base (addEventAtMicros at_ (Some cb))) e Q X.
Proof.
  intros He Hs Ht HQ. apply wp_zoom. unfold addEventAtMicros. destruct (at_ <? 0).
  - apply wp_ret. apply HQ; [apply net_ok_rm; [done|apply He]| |done].
    by apply net_sends_same.
  - apply wp_modify. apply HQ; [apply net_ok_rm; [done|apply He]| |done].
    do 2 (split; [done|]). exists [mkEvent at_ (Some cb)]. split; [done|]. by repeat constructor.
Qed.

(** On a live edge the packet goes into the queue, or is counted. *)
Lemma wp_transmit_on i from to pkt ed e l (Q : unit -> SimNet -> Prop) :
  net_ok e -> edges_ (topo_of e) !! i = Some ed -> from = a_ ed \/ from = b_ ed ->
  link_between from to (topo_of e) = Some (options_ ed) ->
  (exists p, unpack pkt = Some p /\ isValidToSend p = true) ->
  vsize pkt <= MAX_PACKET_SIZE ->
  (forall at_, stems l (mkEvent at_ (Some (DeliverPkt from to pkt)))) ->
  (forall e', net_ok e' -> net_sends e l e' -> Q tt e') ->
  wp (transmit_on i from to pkt) (pinned e) Q net_fault.
Proof.
  intros He Hi Hfrom Hlink Hvalid Hsize Hstem HQ. unfold transmit_on. apply wp_bind, wp_gets, wp_bind.
  pose proof (topo_of_sane e He) as Hsane.
  assert (Hed : edge_ok ed) by (apply (Forall_lookup_1 _ _ _ _ (proj2 Hsane) Hi)).
  pose proof (wp_schedulePkt from (vsize pkt) (nowMicros_ e) ed (sim_rm e) Hed (nk_counts _ He)
    ltac:(split; [apply vsize_nonneg|done]) Hfrom (nk_now _ He)) as Hw.
  pose proof (schedulePkt_delay from (vsize pkt) (nowMicros_ e) ed (sim_rm e) (proj1 (proj1 (proj1 Hed)))
    (vsize_nonneg pkt)) as Hd.
  destruct (schedulePkt_keeps from (vsize pkt) (nowMicros_ e) (ed, sim_rm e)) as [Hk _].
  unfold wp in Hw, Hd. unfold wp at 1, edge_call.
  change (instancePtr (sim_topo (pinned e))) with (Some (topo_of e)). cbn [mbind option_bind].
  rewrite Hi. change (sim_rm (pinned e)) with (sim_rm e).
  change (nowMicros_ (pinned e)) with (nowMicros_ e).
  destruct (schedulePkt _ _ _ _) as [[at_|f] [ed' r]]; cbn [fst snd] in Hw, Hk.
  2: { destruct Hw as (-> & _ & _ & Hfull). by split. }
  destruct Hk as (Ko & Ka & Kb & Kl & _). cbn [fst snd] in Ko, Ka, Kb, Kl.
  destruct Hw as (Hed' & Hr & _ & Hq & Hf). set (e1 := set_sim_topo _ _).
  assert (He1 : net_ok e1).
  { apply net_ok_topo; [apply net_ok_rm; [by apply pinned_ok|done]|].
    intros t [= <-]. by apply topo_sane_put. }
  assert (Hlinks : forall a b, link_between a b (topo_of e1) = link_between a b (topo_of e))
    by (intros a b; by apply (link_between_put i ed ed')).
  assert (Hs1 : forall l', net_sends e l' e1) by (intros; by apply net_sends_same).
  destruct (Z.eqb_spec at_ (-1)) as [Hneg|Hneg]; [by apply wp_ret, HQ|].
  apply (wp_add_event _ _ _ l); [done|apply Hstem| |].
  { split; [done|]. exists (options_ ed). rewrite Hlinks. split; [done|]. cbn.
    destruct Hd as [->|Hd]; [done|exact Hd]. }
  intros e2 He2 Hs2 _. apply HQ; [done|].
  exact (net_sends_trans _ _ _ [] l (Hs1 []) Hs2).
Qed.

(** The network after a search for a live edge, whatever it finds. *)
Lemma wp_if_live {A} a b e (k : option nat -> M SimNet A) (Q : A -> SimNet -> Prop) :
  net_ok e ->
  wp (k None) (pinned e) Q net_fault ->
  (forall i ed, edges_ (topo_of e) !! i = Some ed -> a = a_ ed \/ a = b_ ed ->
     link_between a b (topo_of e) = Some (options_ ed) ->
     wp (k (Some i)) (pinned e) Q net_fault) ->
  wp (bind (topology (getLiveEdge a b)) k) e Q net_fault.
Proof.
  intros He Hnone Hsome. apply wp_bind. eapply run_wp; [by apply live_run, topo_of_sane|].
  destruct (live_index a b (topo_of e)) as [i|] eqn:Hi; [|done].
  destruct (live_index_edge _ _ _ _ Hi) as (ed & Hed & Hfrom).
  by eapply Hsome; [..|eapply live_index_link].
Qed.

Lemma pinned_sends e l : net_sends e l (pinned e).
Proof. by apply net_sends_same. Qed.

Lemma wp_broadcast n i from pkt e l (Q : unit -> SimNet -> Prop) :
  net_ok e -> (exists p, unpack pkt = Some p /\ isValidToSend p = true) ->
  vsize pkt <= MAX_PACKET_SIZE -> (from, BROADCAST_ADDRESS, pkt) ∈ l ->
  (forall e', net_ok e' -> net_sends e l e' -> Q tt e') ->
  wp (broadcast_loop n i from pkt) e Q net_fault.
Proof.
  intros He Hvalid Hsize Hl. revert i e He Q. induction n as [|n IH]; intros i e He Q HQ; cbn [broadcast_loop].
  { apply wp_ret, HQ; [done|]. by apply net_sends_same. }
  assert (Hrest : forall e1, net_ok e1 -> net_sends e l e1 ->
    wp (broadcast_loop n (i + 1) from pkt) e1 Q net_fault).
  { intros e1 He1 Hs1. apply IH; [done|]. intros e2 He2 Hs2. apply HQ; [done|].
    exact (net_sends_join _ _ _ l l l (fun _ H => H) (fun _ H => H) Hs1 Hs2). }
  apply wp_if_live; [done| |].
  - apply wp_bind, wp_ret. apply Hrest; [by apply pinned_ok|apply pinned_sends].
  - intros j ed Hj Hfrom Hlink. apply wp_bind. eapply wp_transmit_on; try done.
    intros at_. exists BROADCAST_ADDRESS. by split; [|right].
Qed.

Lemma wp_emit_net o e (Q : unit -> SimNet -> Prop) X :
  net_ok e -> (forall e', net_ok e' -> net_sends e [] e' -> Q tt e') -> wp (emit o) e Q X.
Proof.
  intros He HQ. apply wp_modify, HQ; [|by apply net_sends_same].
  apply net_ok_topo; [done|]. apply He.
Qed.

(** The base class lets a sendable packet through. *)
Lemma wp_base_sendPkt from to pkt e (Q : bool -> SimNet -> Prop) :
  net_ok e -> sendable from to pkt ->
  (forall e', net_ok e' -> net_sends e [] e' -> Q true e') ->
  wp (base (Runtime.sendPkt from to pkt)) e Q net_fault.
Proof.
  intros He Hs HQ. apply wp_zoom. destruct (nk_counts _ He) as (Hc & Hd & Hl).
  destruct (decide (pktsSent_ (sim_rm e) = INT_MAX)) as [Hm|Hm].
  - unfold wp, Runtime.sendPkt. destruct Hs as (Hf & Ht & Hsz & p & Hu & Hv).
    rewrite Hf, Ht, Hu, Hv. replace (vsize pkt >? MAX_PACKET_SIZE) with false by lia.
    cbn [negb orb]. unfold gets, bind. rewrite Hm. unfold int.
    replace (in_int (INT_MAX + 1)) with false by done. split; [done|]. by left.
  - unfold wp, in_count in *. rewrite sendPkt_sendable by (try done; lia). apply HQ.
    + apply net_ok_rm; [done|]. split; [|done]. cbn. unfold in_count. lia.
    + by apply net_sends_same.
Qed.

Lemma wp_sim_sendPkt from to pkt e :
  net_ok e -> sendable from to pkt ->
  wp (SimNet.sendPkt from to pkt) e
    (fun _ e' => net_ok e' /\ net_sends e [(from, to, pkt)] e') net_fault.
Proof.
  intros He Hs. pose proof Hs as (_ & _ & Hsize & Hvalid). unfold SimNet.sendPkt.
  apply wp_bind, wp_base_sendPkt; [done|done|]. intros e1 He1 Hs1.
  assert (Hin : (from, to, pkt) ∈ [(from, to, pkt)]) by (by apply list_elem_of_singleton).
  assert (Hend : forall (b : bool) e2, net_ok e2 -> net_sends e1 [(from, to, pkt)] e2 ->
    wp (ret b) e2 (fun _ e' => net_ok e' /\ net_sends e [(from, to, pkt)] e') net_fault).
  { intros b e2 He2 Hs2. apply wp_ret. split; [done|]. exact (net_sends_trans _ _ _ [] _ Hs1 Hs2). }
  destruct (Z.eqb_spec to BROADCAST_ADDRESS) as [->|Hto].
  - apply wp_bind, wp_gets, wp_bind. eapply wp_broadcast; [done..|exact Hin|]. by apply Hend.
  - apply wp_if_live; [done| |].
    + apply wp_bind, wp_emit_net; [by apply pinned_ok|]. intros e2 He2 Hs2. apply Hend; [done|].
      apply net_sends_nil. exact (net_sends_trans _ _ _ [] [] (pinned_sends _ _) Hs2).
    + intros j ed Hj Hfrom Hlink. apply wp_bind. eapply wp_transmit_on; try done; [|by apply Hend].
      intros at_. exists to. by split; [|left].
Qed.

(** The simulated network obeys the laws of the nodes' interface. *)
#[export] Instance SimNet_laws : ManagerLaws SimNet.
Proof.
  refine {| mgr_ok := net_ok; mgr_sends := net_sends; mgr_fault := net_fault |}.
  - apply net_sends_refl.
  - apply net_sends_trans.
  - by intros x e [].
  - intros e He. pose proof (nk_now _ He) as Hn. apply wp_gets.
    split; [|split; [done|apply net_sends_refl]]. unfold MICROS_LIMIT in Hn.
    rewrite Z.quot_div_nonneg by lia. split; [apply Z.div_pos; lia|].
    apply Z.div_le_upper_bound; lia.
  - intros from to pkt e He Hs. by apply wp_sim_sendPkt.
  - intros node delta cb e He Hd. pose proof (nk_now _ He) as Hn. apply wp_bind, wp_gets, wp_zoom.
    unfold MICROS_LIMIT, TIME_LIMIT in *.
    assert (0 <= Z.quot (nowMicros_ e) 1000 <= 2 ^ 50).
    { rewrite Z.quot_div_nonneg by lia. split; [apply Z.div_pos; lia|].
      apply Z.div_le_upper_bound; lia. }
    unfold Runtime.addTimer, addTimerAt, addEvent_.
    apply wp_bind, wp_long; [unfold LONG_MIN, LONG_MAX; lia|].
    apply wp_bind, wp_long; [unfold LONG_MIN, LONG_MAX; lia|]. apply wp_modify.
    split; [apply net_ok_rm; [done|apply He]|]. do 2 (split; [done|]).
    eexists [_]. split; [done|]. split; [by repeat constructor|]. constructor; [|done].
    cbn. Z.to_euclidean_division_equations. lia.
  - intros o e He. by apply wp_emit_net.
Defined.
End laws.

(** ** The invariant *)

(** The network is in its invariant, and every node in its own; the [i]-th of
    them has the address [i]. *)
Record sim_ok (s : Simulator) : Prop := {
  so_net : net_ok (net s);
  so_nodes : forall i n, nodes_ s !! i = Some n -> node_ok n /\ node_addr_ n = Z.of_nat i
}.

(** The node that an event is for. *)
Definition event_node (cb : SimEvent) : Z :=
  match cb with
  | NodeCallback cb => timer_node cb
  | DeliverPkt _ to _ => to
  | ParseRestOfTopoFile => -1
  end.

(** Room in the node for what the event does. *)
Definition event_ready (s : Simulator) (cb : SimEvent) : Prop :=
  match cb with
  | NodeCallback cb =>
      0 <= timer_node cb /\
      exists n, nodes_ s !! Z.to_nat (timer_node cb) = Some n /\ timer_ready n cb
  | DeliverPkt _ to pkt =>
      wire_ok pkt /\ forall n, nodes_ s !! Z.to_nat to = Some n -> all_rcv_room (tcpMan_ n)
  | ParseRestOfTopoFile => False
  end.

(** What an event of the node [i] changes. *)
Record node_stepped (i : Z) (s s' : Simulator) : Prop := {
  nt_ok : sim_ok s';
  nt_others : forall j, Z.of_nat j <> i -> nodes_ s' !! j = nodes_ s !! j;
  nt_reader : topoFileParser_ s' = topoFileParser_ s;
  nt_sends : exists l, net_sends (net s) l (net s')
}.

Lemma node_stepped_refl i s : sim_ok s -> node_stepped i s s.
Proof. intros Hs. constructor; try done. exists []. apply net_sends_refl. Qed.

Definition sim_fault (f : fault) (s : Simulator) : Prop := net_fault f (net s).

(** A method of a node that is safe in every environment and keeps its address. *)
Lemma wp_on_node i n (m : M (StackNode * SimNet) unit) s :
  sim_ok s -> 0 <= i -> nodes_ s !! Z.to_nat i = Some n -> node_framed m ->
  wp m (n, net s)
    (fun _ st => node_ok st.1 /\ exists l, sends (net s) l st.2) node_fault ->
  wp (on_node i m) s (fun _ s' => node_stepped i s s') sim_fault.
Proof.
  intros [Hnet Hnodes] Hi Hn Hf Hw. eapply keeps_wp in Hw; [|apply node_rel_preorder|exact Hf].
  unfold wp, on_node in *. destruct (Z.ltb_spec i 0) as [|_]; [lia|]. rewrite Hn.
  destruct (m (n, net s)) as [[[]|f] [n' e']]; cbn [fst snd] in Hw; [|by destruct Hw].
  destruct Hw as [[Hok (l & Hl & Hs)] (Ha & _)]. cbn [fst snd] in *.
  constructor; [constructor| |done|by exists l]; cbn; [done| |].
  - intros j nj Hj. destruct (decide (Z.to_nat i = j)) as [<-|Hne].
    + rewrite list_lookup_insert_eq in Hj by (by eapply lookup_lt_Some).
      injection Hj as <-. split; [done|]. rewrite Ha. by apply Hnodes.
    + rewrite list_lookup_insert_ne in Hj by done. by apply Hnodes.
  - intros j Hj. apply list_lookup_insert_ne. lia.
Qed.

Section events.
Context `{MapOrder}.

Lemma wp_run_event cb s :
  sim_ok s -> event_ready s cb ->
  wp (run_event cb) s (fun _ s' => node_stepped (event_node cb) s s') sim_fault.
Proof.
  intros Hs Hr. destruct cb as [cb|from to pkt|]; [| |done]; cbn [run_event event_node].
  - destruct Hr as (Hi & n & Hn & Hready). eapply wp_on_node; [done..|apply node_framed_timer_cb|].
    apply wp_timer; [apply Hs|by apply (so_nodes _ Hs _ _ Hn)|done|].
    intros n' e' l Hn' He'. split; [done|]. by exists l.
  - destruct Hr as [Hw Hroom]. apply wp_bind, wp_gets. unfold isNodeAddrValid.
    destruct (_ && _) eqn:Hv; [|by apply wp_ret, node_stepped_refl].
    apply andb_true_iff in Hv as [Hv1 Hv2]. unfold vsize in Hv2.
    destruct (lookup_lt_is_Some_2 (nodes_ s) (Z.to_nat to) ltac:(lia)) as [n Hn].
    eapply wp_on_node; [done|lia|done|apply node_framed_onReceive|].
    apply wp_onReceive; [apply Hs|by apply (so_nodes _ Hs _ _ Hn)|by apply Hroom|done|].
    intros n' e' l Hn' He'. split; [done|]. by exists l.
Qed.
End events.

(** ** A packet for one node *)

(** The network with one packet more counted. *)
Definition counted (e : SimNet) : SimNet :=
  pinned (set_sim_rm (set_pktsSent (pktsSent_ (sim_rm e) + 1) (sim_rm e)) e).

Lemma arrival_range from (pkt : list byte) now ed :
  edge_ok ed -> vsize pkt <= MAX_PACKET_SIZE ->
  0 <= finish_time from (vsize pkt) now ed + delayMs (options_ ed) * 1000.
Proof.
  intros Hed Hs. pose proof (sendTime_range from ed Hed).
  pose proof (busy_time_range (vsize pkt) ed ltac:(split; [apply vsize_nonneg|done]) (proj1 Hed)).
  destruct Hed as [(_ & Hd & _) _]. unfold finish_time. lia.
Qed.

Lemma net_transmit_run i from to pkt ed e :
  net_ok e -> counters_ok (sim_rm e) -> edges_ (topo_of e) !! i = Some ed ->
  from = a_ ed \/ from = b_ ed -> vsize pkt <= MAX_PACKET_SIZE ->
  let '(at_, (ed', r)) := schedule_spec from (vsize pkt) (nowMicros_ e) ed (sim_rm e) in
  transmit_on i from to pkt (pinned e) =
  (Ret tt,
   set_sim_topo (put_edge i ed' (sim_topo (pinned e)))
     (set_sim_rm (if at_ =? -1 then r
                  else set_sortedEvents (addEvent (mkEvent at_ (Some (DeliverPkt from to pkt)))
                                           (sortedEvents_ r)) r) e)).
Proof.
  intros He Hc Hi Hfrom Hsize. pose proof (nk_now _ He) as Hn.
  assert (Hed : edge_ok ed)
    by (apply (Forall_lookup_1 _ _ _ _ (proj2 (topo_of_sane e He)) Hi)).
  assert (Hn' : 0 <= nowMicros_ e <= EDGE_TIME_LIMIT)
    by (unfold MICROS_LIMIT, EDGE_TIME_LIMIT, TIME_LIMIT in *; lia).
  pose proof (schedulePkt_run from (vsize pkt) (nowMicros_ e) ed (sim_rm e) Hed Hc
    ltac:(split; [apply vsize_nonneg|done]) Hfrom Hn') as Hrun.
  assert (Hat : (schedule_spec from (vsize pkt) (nowMicros_ e) ed (sim_rm e)).1 = -1 \/
    0 <= (schedule_spec from (vsize pkt) (nowMicros_ e) ed (sim_rm e)).1).
  { unfold schedule_spec. destruct (overflows _ _ _ _); [by left|].
    destruct (loses _); [by left|right]. by apply arrival_range. }
  destruct (schedule_spec _ _ _ _ _) as [at_ [ed' r]]. cbn [fst snd] in *.
  unfold transmit_on, bind, gets, edge_call.
  change (instancePtr (sim_topo (pinned e))) with (Some (topo_of e)). cbn [mbind option_bind].
  rewrite Hi. change (sim_rm (pinned e)) with (sim_rm e).
  change (nowMicros_ (pinned e)) with (nowMicros_ e). rewrite Hrun.
  destruct (Z.eqb_spec at_ (-1)) as [->|Hne]; [done|].
  unfold base, zoom, addEventAtMicros. destruct (Z.ltb_spec at_ 0) as [|_]; [lia|]. done.
Qed.

Lemma live_index_live a b t i :
  live_index a b t = Some i -> exists ed, edges_ t !! i = Some ed /\ live_ ed = true.
Proof.
  unfold live_index, view, lookup_edge. intros Hi.
  destruct (find_edge a b (edges_ t)) as [j|] eqn:Hf; [|done].
  destruct (find_edge_Some _ _ _ _ Hf) as (ed & Hed & _). cbn in Hi. rewrite Hed in Hi.
  cbn in Hi. destruct (live_ ed) eqn:Hl; [|done]. destruct (_ && _); [|done].
  injection Hi as <-. by exists ed.
Qed.

(** The whole call: what is counted, what is queued, and how the edge is left. *)
Definition unicast_spec (from to : Z) (pkt : list byte) (e : SimNet) : bool * SimNet :=
  match live_index from to (topo_of e) with
  | None =>
      (false, set_sim_topo (write_console
         (Cerr (endl ("Failed to send pkt from: " +:+ to_string from +:+ " to: " +:+
                      to_string to))) (sim_topo e)) e)
  | Some i =>
      match edges_ (topo_of e) !! i with
      | None => (true, e)
      | Some ed =>
          let '(at_, (ed', r)) := schedule_spec from (vsize pkt) (nowMicros_ e) ed (sim_rm e) in
          (true,
           set_sim_topo (put_edge i ed' (sim_topo e))
             (set_sim_rm (if at_ =? -1 then r
                          else set_sortedEvents
                                 (addEvent (mkEvent at_ (Some (DeliverPkt from to pkt)))
                                    (sortedEvents_ r)) r) e))
      end
  end.

Lemma unicast_run from to pkt e :
  net_ok e -> counters_ok (sim_rm (counted e)) -> sendable from to pkt ->
  to <> BROADCAST_ADDRESS ->
  SimNet.sendPkt from to pkt e =
  (Ret (unicast_spec from to pkt (counted e)).1, (unicast_spec from to pkt (counted e)).2).
Proof.
  intros He Hc Hs Hto. pose proof Hs as (_ & _ & Hsize & _).
  set (e1 := set_sim_rm (set_pktsSent (pktsSent_ (sim_rm e) + 1) (sim_rm e)) e).
  change (counted e) with (pinned e1) in *. change (sim_rm (pinned e1)) with (sim_rm e1) in Hc.
  destruct (nk_counts _ He) as (Hc1 & Hc2). unfold in_count in Hc1. pose proof (proj1 Hc) as Hlt.
  cbn in Hlt.
  assert (Hbase : base (Runtime.sendPkt from to pkt) e = (Ret true, e1)).
  { unfold base, zoom. rewrite sendPkt_sendable by (try done; lia). done. }
  assert (He1 : net_ok e1).
  { apply net_ok_rm; [done|]. split; [|done]. unfold in_count. cbn. lia. }
  pose proof (live_run from to e1 (proj1 (topo_of_sane e1 He1))) as Hlive.
  unfold SimNet.sendPkt, unicast_spec. rewrite (bind_run _ _ _ _ _ Hbase).
  destruct (Z.eqb_spec to BROADCAST_ADDRESS) as [|_]; [done|].
  rewrite (bind_run _ _ _ _ _ Hlive). change (topo_of (pinned e1)) with (topo_of e1).
  destruct (live_index _ _ _) as [i|] eqn:Hi; [|done].
  destruct (live_index_edge _ _ _ _ Hi) as (ed & Hed & Hfrom). rewrite Hed.
  pose proof (net_transmit_run i from to pkt ed e1 He1 Hc Hed Hfrom Hsize) as Ht.
  change (nowMicros_ (pinned e1)) with (nowMicros_ e1).
  change (sim_rm (pinned e1)) with (sim_rm e1).
  destruct (schedule_spec _ _ _ _ _) as [at_ [ed' r]]. by rewrite (bind_run _ _ _ _ _ Ht).
Qed.

Lemma topo_of_put i ed e e' :
  topo_of (set_sim_topo (put_edge i ed (sim_topo (counted e))) e') =
  set_edges (<[i := ed]> (edges_ (topo_of e))) (topo_of e).
Proof. done. Qed.

Lemma set_edges_id t : set_edges (edges_ t) t = t.
Proof. by destruct t. Qed.
