(* ===== verification/SimTheorems.v ===== *)
(** * Theorems about the simulation: its command language, its main loop, its
      events and its network *)

From Stdlib Require Import Strings.Ascii.
From S2P Require Import Prelude CppStrings Doubles DoubleText Frame Packet Transport EventQueue Runtime Edge LinkRules Topology Parser ParserSpec TcpData TcpSend TcpManager TcpInv TcpRun TcpSpec TcpGrow TcpSafe TcpHandlers TcpNet TcpTheorems Node Apps StackNode NodeFrame NodeRun NodeSpec AppSpec SimNet Simulator Main SimFrame SimLoop SimEvents.

(** ** The command language *)

(** The forms of commands that only the README gives, as [fail edge 0 1],
    [restart node 0] and [edge 0 1 bw=1000]: the parser reads others. *)
Fixpoint has_equals (s : string) : bool :=
  match s with
  | EmptyString => false
  | String c s => Ascii.eqb c "="%char || has_equals s
  end.

Definition readme_form (words : list string) : bool :=
  match words with
  | name :: w :: rest =>
      if String.eqb name "fail" || String.eqb name "restart"
      then String.eqb w "edge" || String.eqb w "node"
      else String.eqb name "edge" && existsb has_equals rest
  | _ => false
  end.

(** C12: The parser, which tries one command after the other and reads the
    arguments by their positions, with an exception for whatever it cannot
    read, does on every line exactly what the command means that the grammar of
    ParserSpec.v reads from it: same calls in the same order, same messages, same
    result.  Left out are the lines in the forms that the README gives and the
    program does not read ([fail edge 0 1], [fail node 0], [edge 0 1 bw=1000]). *)
Theorem parser_equivalence `{ParserOps St} line now (s : St) :
  readme_form (splitSpaces line) = false ->
  parseLine line now s = exec (splitSpaces line) (read_command line) now s.
Proof. intros _. apply parseLine_exec. Qed.

(** A command that is printed with its arguments separated by spaces, with
    any number of options of an edge, is read back as it was. *)
Theorem command_roundtrip n loss c :
  printable n loss c -> read_command (unwords (print_command n loss c)) = c.
Proof. apply read_print. Qed.

Lemma command_roundtrip_witness :
  read_command (unwords (print_command 2 "0.25"
    (EdgeCmd 3 7 (mkEdgeOptions (dlit 1 (-2)) 40 10000 250)))) =
  EdgeCmd 3 7 (mkEdgeOptions (dlit 1 (-2)) 40 10000 250).
Proof.
  apply command_roundtrip. repeat split; try (vm_compute; congruence); intros; lia.
Defined.

(** ** The main loop *)

Section theorems.
Context `{MapOrder}.

(** C8: The program from the command line never hangs inside an iteration and
    never dies of an exception.  With files and console input that give every edge
    a bandwidth and a delay of at least a millisecond: if the arguments are
    refused (too few, a number that is none, a number of nodes out of range, a
    file that cannot be opened) it says so and returns 1; otherwise it comes
    through all the given iterations of the main loop, whatever the events of the
    nodes and the lines throw, and is in the state in which the loop goes on.  The
    one other end is the end of the process: by an [exit], or after undefined
    behaviour.  The fuel of the loops is always enough. *)
Theorem simulation_terminates open args ios c :
  (forall name lines, open name = Some lines -> Forall line_tame lines) ->
  Forall console_tame ios ->
  wp (main_simulate open args ios) (blank_Simulator c)
    (fun code s => if refused open args then code = 1 /\ reported s else code = 0 /\ sim_live s)
    (fun f _ => f = UB \/ exists code, f = Exited code).
Proof. intros Hopen Hios. by apply wp_main_simulate. Qed.



(** C7: An event of a node: a timer of one of its tasks that finds room in it, or the
    delivery of a packet (that is no SYN or FIN with the largest number) to a
    node with room in its sequence numbers.  It runs without an exception and
    without undefined behaviour, up to the overflow of a packet counter; it
    changes its node and the network and no other node; the invariants survive,
    and so do the clock and the links; and what it puts into the queue are
    timers for later and deliveries of packets that may be sent, each over an edge
    that is up between nodes that are, after no less than the delay of the edge. *)
Theorem sim_event_safe cb s :
  sim_ok s -> event_ready s cb ->
  wp (run_event cb) s
    (fun _ s' => sim_ok s' /\ (forall j, Z.of_nat j <> event_node cb -> nodes_ s' !! j = nodes_ s !! j) /\
       sim_now s' = sim_now s /\
       (forall a b, link_between a b (topo_of (net s')) = link_between a b (topo_of (net s))) /\
       exists evs, events (net s') = add_all evs (events (net s)) /\ Forall (timely (net s)) evs)
    (fun f s' => f = UB /\ count_full (sim_rm (net s'))).
Proof.
  intros Hs Hr. eapply wp_conseq; [by apply wp_run_event| |done].
  intros _ s' [Hok Hother _ (l & Hn & Hl & evs & Hq & _ & Ht)]. do 4 (split; [done|]). by exists evs.
Qed.
End theorems.

(** C11: A packet for one node: it is counted, and if the edge to that node and
    both ends are up it is put on the edge: dropped and counted when it would
    wait too long, lost and counted on an unlucky draw, and otherwise exactly
    one delivery of exactly these bytes is queued, after transmission and
    delay.  Without a live edge the call says so and queues nothing. *)
Theorem unicast_contract from to pkt e :
  net_ok e -> counters_ok (sim_rm (counted e)) -> sendable from to pkt ->
  to <> BROADCAST_ADDRESS ->
  exists b e', SimNet.sendPkt from to pkt e = (Ret b, e') /\
    pktsSent_ (sim_rm e') = pktsSent_ (sim_rm e) + 1 /\ nowMicros_ e' = nowMicros_ e /\
    match live_index from to (topo_of e) with
    | None => b = false /\ events e' = events e /\ topo_of e' = topo_of e
    | Some i => b = true /\ exists ed, edges_ (topo_of e) !! i = Some ed /\
        let finish := finish_time from (vsize pkt) (nowMicros_ e) ed in
        if finish - nowMicros_ e >? bufferingMs (options_ ed) * 1000
        then events e' = events e /\ topo_of e' = topo_of e /\
          pktsDropped_ (sim_rm e') = pktsDropped_ (sim_rm e) + 1 /\
          pktsLost_ (sim_rm e') = pktsLost_ (sim_rm e)
        else
          edges_ (topo_of e') = <[i := occupied from (vsize pkt) (nowMicros_ e) ed]>
                                  (edges_ (topo_of e)) /\
          pktsDropped_ (sim_rm e') = pktsDropped_ (sim_rm e) /\
          if dltb (rng_ ed O) (lossRate (options_ ed))
          then events e' = events e /\ pktsLost_ (sim_rm e') = pktsLost_ (sim_rm e) + 1
          else events e' =
            addEvent (mkEvent (finish + delayMs (options_ ed) * 1000)
                        (Some (DeliverPkt from to pkt))) (events e) /\
            pktsLost_ (sim_rm e') = pktsLost_ (sim_rm e)
    end.
Proof.
  intros He Hc Hs Hto. eexists _, _. split; [by apply unicast_run|].
  unfold unicast_spec. change (topo_of (counted e)) with (topo_of e).
  change (nowMicros_ (counted e)) with (nowMicros_ e).
  destruct (live_index from to (topo_of e)) as [i|] eqn:Hi; [|done].
  destruct (live_index_live _ _ _ _ Hi) as (ed & Hed & Hlive). rewrite Hed.
  unfold schedule_spec, overflows, loses. rewrite Hlive. cbn [negb orb].
  destruct (_ >? _) eqn:Eo.
  { cbn [fst snd]. split; [done|]. split; [done|]. split; [done|]. exists ed. rewrite Eo.
    split; [done|]. split; [done|]. split; [|done].
    by rewrite topo_of_put, list_insert_id, set_edges_id. }
  assert (Hok : edge_ok ed)
    by (apply (Forall_lookup_1 _ _ _ _ (proj2 (topo_of_sane e He)) Hed)).
  destruct Hs as (_ & _ & Hsize & _).
  pose proof (arrival_range from pkt (nowMicros_ e) ed Hok Hsize) as Har.
  destruct (dltb _ _) eqn:Ed; cbn [fst snd];
    [|destruct (Z.eqb_spec (finish_time from (vsize pkt) (nowMicros_ e) ed +
                            delayMs (options_ ed) * 1000) (-1)); [lia|]];
    do 3 (split; [done|]); exists ed; rewrite Eo; (split; [done|]);
    (split; [by rewrite topo_of_put|]); (split; [done|by rewrite Ed]).
Qed.

(** ** Witnesses *)

Section witnesses.
#[local] Existing Instance list_order.

(** The process before [main]: a console, and draws that lose no packet. *)
Definition sample_process : TopoCell := mkTopoCell None (fun _ _ => dofZ 1) [].

Lemma parser_equivalence_witness :
  let s := blank_Simulator sample_process in
  readme_form (splitSpaces "fail 0 1") = false /\
  parseLine "fail 0 1" 0 s = exec (splitSpaces "fail 0 1") (FailEdge 0 1) 0 s.
Proof.
  split; [reflexivity|]. exact (parser_equivalence "fail 0 1" 0 (blank_Simulator sample_process) eq_refl).
Defined.

(** Two nodes, an edge, and a ping from one to the other. *)
Definition sample_files (name : string) : option (list string) :=
  if String.eqb name "topo" then Some ["edge 0 1 lossRate 0.1 delay 5"; "0 1 hello"] else None.

Lemma sample_files_tame name lines : sample_files name = Some lines -> Forall line_tame lines.
Proof.
  unfold sample_files. destruct (String.eqb name "topo"); [|done]. intros [= <-].
  apply List.Forall_cons; [vm_compute; split; congruence|].
  apply List.Forall_cons; [vm_compute; exact I|apply List.Forall_nil].
Qed.

Definition quiet : Console_in := fun _ => None.
Definition typing : Console_in := fun _ => Some ("1 0 hi", 10).

Lemma simulation_terminates_witness :
  refused sample_files ["2"; "topo"] = false /\
  wp (main_simulate sample_files ["2"; "topo"] [typing; quiet]) (blank_Simulator sample_process)
    (fun code s => if refused sample_files ["2"; "topo"]
                   then code = 1 /\ reported s else code = 0 /\ sim_live s)
    (fun f _ => f = UB \/ exists code, f = Exited code).
Proof.
  split; [vm_compute; reflexivity|]. apply simulation_terminates; [exact sample_files_tame|].
  constructor; [|constructor; [|constructor]].
  - intros ms line elapsed [= <- <-]. vm_compute. exact I.
  - intros ms line elapsed [=].
Defined.

(** A topology file that is not there. *)
Example simulation_refused :
  (main_simulate sample_files ["2"; "none"] [] (blank_Simulator sample_process)).1 = Ret 1.
Proof. vm_compute. reflexivity. Qed.

(** The simulation when its main loop starts. *)
Definition sample_sim : Simulator :=
  (main_simulate sample_files ["2"; "topo"] [] (blank_Simulator sample_process)).2.






Example sample_first : timeToOccur <$> head (sim_events sample_sim) = Some 6400.
Proof. vm_compute. reflexivity. Qed.

(** Two fresh nodes and an edge. *)
Definition sample_network : SimNet :=
  mkSimNet (new_RuntimeManager 0) 0
    (mkTopoCell (Some (mkTopology [new_Edge 0 1 default_EdgeOptions (fun _ => dofZ 1)] ∅ false))
       (fun _ _ => dofZ 1) []) 2.

Definition sample_pair : Simulator :=
  mkSimulator sample_network [new_StackNode 0; new_StackNode 1] None (dofZ 1) true.

Lemma sample_network_ok : net_ok sample_network.
Proof.
  constructor; [numerals|numerals|]. intros t [= <-]. split; [done|].
  apply List.Forall_cons; [numerals|apply List.Forall_nil].
Qed.

Lemma sample_pair_ok : sim_ok sample_pair.
Proof.
  constructor; [exact sample_network_ok|].
  intros [|[|i]] n [= <-]; (split; [apply new_node_ok; lia|done]).
Qed.

Lemma sim_event_safe_witness :
  wp (run_event (DeliverPkt 1 0 (node_datagram 1 0 PING_PKT (stringToBytes "hello")).2)) sample_pair
    (fun _ s' => sim_ok s' /\
       (forall j, Z.of_nat j <> 0 -> nodes_ s' !! j = nodes_ sample_pair !! j) /\
       sim_now s' = 0 /\
       (forall a b, link_between a b (topo_of (net s')) = link_between a b (topo_of sample_network)) /\
       exists evs, events (net s') = add_all evs [] /\ Forall (timely sample_network) evs)
    (fun f s' => f = UB /\ count_full (sim_rm (net s'))).
Proof.
  apply sim_event_safe; [exact sample_pair_ok|]. split.
  - intros p seg Hp Hs. vm_compute in Hp. injection Hp as <-. vm_compute in Hs. discriminate Hs.
  - intros n [= <-] sk so Hso. discriminate Hso.
Defined.

Lemma unicast_contract_witness :
  let pkt := (node_datagram 0 1 PING_PKT (stringToBytes "hello")).2 in
  exists b e', SimNet.sendPkt 0 1 pkt sample_network = (Ret b, e') /\
    pktsSent_ (sim_rm e') = 1 /\ nowMicros_ e' = 0 /\
    b = true /\ exists ed, edges_ (topo_of sample_network) !! 0%nat = Some ed /\
      edges_ (topo_of e') = [occupied 0 14 0 ed] /\ pktsDropped_ (sim_rm e') = 0 /\
      events e' = [mkEvent 2400 (Some (DeliverPkt 0 1 pkt))] /\ pktsLost_ (sim_rm e') = 0.
Proof.
  intros pkt.
  assert (Hs : sendable 0 1 pkt).
  { do 2 (split; [done|]). split; [vm_compute; congruence|].
    exists (node_packet 0 1 PING_PKT (stringToBytes "hello")). split; vm_compute; reflexivity. }
  destruct (unicast_contract 0 1 pkt sample_network sample_network_ok ltac:(numerals) Hs ltac:(done))
    as (b & e' & H1 & H2 & H3 & H4).
  change (live_index 0 1 (topo_of sample_network)) with (Some 0%nat) in H4.
  destruct H4 as (H4 & ed & H5 & H6). injection H5 as <-. exists b, e'.
  do 4 (split; [done|]). eexists. split; [reflexivity|]. exact H6.
Defined.
End witnesses.
