(* ===== verification/Findings.v ===== *)
(** * Surprises

    Runs of the model on concrete inputs where the code does not do what its
    documentation or its purpose says: the nodes and the simulator, and then the
    trawler, where the tables of the nodes are not what the topology says, or the
    trawler ends. *)

From Stdlib Require Import Strings.Ascii.
From S2P Require Import Prelude CppStrings Doubles DoubleText Packet Transport EmulatorPacket EventQueue Runtime Edge EmulatedLink Arp Posix EmuNet EmuTable Topology Parser ParserSpec TcpData TcpSend TcpSocket TcpManager TcpRun TcpInv TcpNet TcpTheorems Node Apps StackNode NodeTheorems Emulator EmuFrame EmuEvents EmuTheorems SimNet Simulator Trawler TrawlerText TrawlerRun TrawlerInv TrawlerOps TrawlerServe TrawlerLoop TrawlerTheorems EmulatedHop SimTheorems.

Section findings.
#[local] Existing Instance list_order.

Definition outcome {A S} (r : result A * S) : result A := r.1.

(** ** The command language *)

(** The README's [fail edge A B], [restart node A] and [edge A B bw=...]. *)
Example readme_fail_edge : read_command "fail edge 0 1" = Malformed "fail".
Proof. vm_compute. reflexivity. Qed.

Example readme_restart_node : read_command "restart node 0" = Malformed "restart".
Proof. vm_compute. reflexivity. Qed.

Example readme_edge_options : read_command "edge 0 1 bw=1000 delay=5" =
  EdgeCmd 0 1 default_EdgeOptions.
Proof. vm_compute. reflexivity. Qed.

(** An option out of its place is skipped without a message. *)
Example edge_option_ignored : read_command "edge 0 1 bw 1000" = EdgeCmd 0 1 default_EdgeOptions.
Proof. vm_compute. reflexivity. Qed.

(** A negative time ends the reading of a topology file, with a line left. *)
Example negative_time :
  topoFileParser_ (construct 1 "topo" (Some ["time -5"; "edge 0 1"])
                     (blank_Simulator sample_process)).2 = Some ["edge 0 1"].
Proof. vm_compute. reflexivity. Qed.

(** A time of more than 2^63 microseconds overflows. *)
Example time_overflow :
  outcome (parseLine "time 9300000000000000" 0 sample_pair) = Fault UB.
Proof. vm_compute. reflexivity. Qed.

(** ** Links *)

(** An edge of no bandwidth is accepted; the first packet divides by zero. *)
Definition no_bandwidth : Simulator :=
  (parseLine "edge 0 1 lossRate 0 delay 1 bw 0" 0
     (set_net (set_sim_topo sample_process sample_network) sample_pair)).2.

Example bandwidth_zero : outcome (sendNodeMsg 0 "1 hello" no_bandwidth) = Fault UB.
Proof. vm_compute. reflexivity. Qed.

(** ** TCP *)

(** A backlog of zero: the connection is registered and acknowledged, but no
    [accept] will ever find it. *)
Definition full_server : TcpManager :=
  mkTcpManager 2 [set_backlog 0 sample_listener] {[ 21 := 0%nat ]} ∅ ∅.

Example backlog_full :
  let '(r, (t, e)) := deliver syn_datagram (full_server, net_at 10) in
  r = Ret tt /\ net_sent e = [syn_ack_datagram] /\
  (pendingConnQueue_ <$> allSockets_ t !! 0%nat) = Some [] /\
  establishedByKey_ t !! mkKey 1 30 21 = Some 1%nat.
Proof. vm_compute. auto. Qed.

(** A second SYN of the same connection takes the place of the first socket. *)
Example duplicate_syn :
  let '(_, (t, e)) := deliver syn_datagram (sample_server, net_at 10) in
  let '(_, (t', _)) := deliver syn_datagram (t, e) in
  establishedByKey_ t !! mkKey 1 30 21 = Some 1%nat /\
  establishedByKey_ t' !! mkKey 1 30 21 = Some 2%nat.
Proof. vm_compute. auto. Qed.

(** A closed listener still takes connections. *)
Example closed_listener :
  let '(_, (t, e)) := close 0 (sample_server, net_at 10) in
  let '(_, (t', _)) := deliver syn_datagram (t, e) in
  (state_ <$> allSockets_ t' !! 0%nat) = Some CLOSED /\
  establishedByKey_ t' !! mkKey 1 30 21 = Some 1%nat.
Proof. vm_compute. auto. Qed.

(** The successor of the largest sequence number. *)
Example syn_seq_overflow :
  outcome (deliver (tcp_datagram 1 2 (mkTransport 30 21 SYN 0 INT_MAX []))
             (sample_server, net_at 10)) = Fault UB.
Proof. vm_compute. reflexivity. Qed.

(** An acknowledgment that was measured leaves the timeout as it is. *)
Example rto_not_estimated :
  let '(_, (t, _)) := onSampleRTT 0 5 (sample_client, net_at 10) in
  (rtoMs_ <$> allSockets_ t !! 0%nat) = Some 1000 /\
  (hasEstRTT_ <$> allSockets_ t !! 0%nat) = Some true.
Proof. vm_compute. auto. Qed.

(** ** The file transfer *)

(** A buffer of no bytes: the tick takes a remainder by zero. *)
Example buffer_zero :
  outcome (timer (TaskTick 1 0)
    (mkStackNode 1 [] sample_client [mkTimerTask 1000 (ClientTask
       (mkTransferClient 0 [] 10 0 0 0))], net_at 10)) = Fault UB.
Proof. vm_compute. reflexivity. Qed.
End findings.

Section findings.
#[local] Existing Instance table_order.

(** The commands of [lines], one after the other. *)
Fixpoint commands (lines : list string) (s : Trawler) : Trawler :=
  match lines with
  | [] => s
  | line :: lines => commands lines (parseLine line 0 s).2
  end.

(** What the node [k] was told of the node [j], and the link between them. *)
Definition view_of (k j : Z) (s : Trawler) : option (option EdgeOptions) * option EdgeOptions :=
  (T ← told s k; snd <$> T !! j, live (topo_at s) k j).

(** A link of a failed node that is brought up makes the two neighbors, without
    the options of the link. *)
Example restart_of_failed :
  view_of 0 1 (commands ["fail 1"] sample_three) = (None, None) /\
  view_of 0 1 (commands ["fail 1"; "restart 0 1"] sample_three) = (Some None, None).
Proof. split; vm_compute; reflexivity. Qed.

(** So does a link with a failed node that is new. *)
Example edge_of_failed :
  view_of 0 2 (commands ["fail 2"; "edge 0 2"] sample_three) = (Some None, None).
Proof. vm_compute. reflexivity. Qed.

(** So do new options for a link that is down. *)
Example edge_that_is_down :
  view_of 0 1 (commands ["fail 0 1"; "edge 0 1 lossRate 0.5"] sample_three) = (Some None, None).
Proof. vm_compute. reflexivity. Qed.

(** A link of a node with itself makes it its own neighbor. *)
Example edge_to_itself :
  view_of 0 0 (commands ["edge 0 0"] sample_three) =
  (Some (Some default_EdgeOptions), Some default_EdgeOptions).
Proof. vm_compute. reflexivity. Qed.

(** A connection that broke ends the trawler, and with it every other
    connection: the signal of a broken pipe is not ignored. *)
Example broken_pipe :
  (sample_run (fun i => if Nat.eqb i 3 then BrokenPipe else Took 1000) three_peers).1 =
  Fault (Exited 141).
Proof. vm_compute. reflexivity. Qed.

(** An address that could not be written still makes a node, which is told of
    its neighbors where it expects its address. *)
Example address_not_written :
  wires (sample_run (failing_send 1) two_peers).2 !! 1%nat =
    Some ("add 0 10.0.0.1 5000 lossRate 0.25 delay 5 bw 10000 bt 250" +:+ newline) /\
  roster (sample_run (failing_send 1) two_peers).2 !! 1 = Some ("10.0.0.2", 5000).
Proof. split; vm_compute; reflexivity. Qed.

(** A node that died is still in the table of another when nothing connects any
    more. *)
Example dead_neighbor :
  told sample_dead 1 = None /\ (view_of 0 1 sample_dead).1 <> None.
Proof. split; vm_compute; [reflexivity|discriminate]. Qed.

(** A port beyond 16 bits is taken, though it is another node's end point for
    [htons]. *)
Example port_beyond_range :
  assigned "10.0.0.1" "70536" sample_three = Some (3, ("10.0.0.1", 70536)) /\
  70536 mod 2 ^ 16 = 5000 /\ roster sample_three !! 0 = Some ("10.0.0.1", 5000).
Proof. repeat split; vm_compute; reflexivity. Qed.

(** A command that is due waits for the next connection: the link that was to
    fail at 2 milliseconds is up at any time after. *)
Example command_waits :
  trawlerParser_ (sample_run (fun _ => Took 1000) (take 1 three_peers)).2 =
    Some ["fail 0 1"; "fail 2"; "restart 0 1"; "restart 2"].
Proof. vm_compute. reflexivity. Qed.
End findings.

(** The emulator and frames that do not come from its table. *)
Section frames.
#[local] Existing Instance list_order.
#[local] Existing Instance table_order.

(** The first node has read [text]; then a frame of the second arrives from
    [prt]. *)
Definition seen_after (text : string) (prt : Z) : option (string * Z * option EdgeOptions) :=
  let r := set_enet (refreshed (hop_net text)) (set_assignedNodeId 0 sample_emulator) in
  table (enet (processUdpPacket (Some (frame_of 1 0 (ping_frame 0), "10.0.0.2", prt)) r).2) !! 1.

Definition linked_line : string :=
  "add 1 10.0.0.2 5000 lossRate 0.25 delay 5 bw 10000 bt 250" +:+ newline.

(** A frame that was on its way when the trawler removed the neighbor makes it a
    neighbor again, and one without a link. *)
Example late_frame :
  seen_after (linked_line +:+ "remove 1" +:+ newline) 5000 = Some ("10.0.0.2", 5000, None).
Proof. vm_compute. reflexivity. Qed.

(** A frame from another port takes the neighbor's link away. *)
Example moved_neighbor :
  option_map snd (seen_after linked_line 5000) <> Some None /\
  seen_after linked_line 40000 = Some ("10.0.0.2", 40000, None).
Proof. split; vm_compute; [discriminate|reflexivity]. Qed.
End frames.
