(* ===== verification/UnitTests.v ===== *)
(** * The repository's own tests (src/test)

    Every test of src/test as an executable definition over the model, a
    conjunction of its expectations; all of them hold, so that the model agrees
    with the code wherever the tests of the code look. *)

From S2P Require Import Prelude CppStrings Doubles DoubleText Packet Transport EmulatorPacket EventQueue Runtime Edge Topology Parser Arp.

Definition expect (checks : list bool) : bool := forallb (fun b => b) checks.

(** [v[i]] of a vector of bytes, as an integer. *)
Definition byte_at (v : list byte) (i : nat) : Z := default (-1) (bZ <$> v !! i).

Definition bytes_are (v : list byte) (zs : list Z) : bool :=
  bool_decide (map bZ (take (length zs) v) = zs).

(** The literal [0.05]. *)
Definition one_twentieth : double :=
  match stod "0.05" with inr d => d | inl _ => dofZ 1 end.

(** ** test_packet.cpp, test_transport.cpp, test_emulator_packet.cpp *)

Module PacketTest.
Import Packet.

Definition Packet_RoundTrip : bool :=
  let payload := stringToBytes "hello, world!" in
  match new_Packet 3 7 12 PING_PKT 0x12345678 payload with
  | inl _ => false
  | inr p =>
      let packed := pack p in
      expect [vsize packed =? HEADER_SIZE + vsize payload;
              bytes_are packed [3; 7; 12; PING_PKT; vsize payload + HEADER_SIZE;
                                0x12; 0x34; 0x56; 0x78]] &&
      match unpack packed with
      | None => false
      | Some unpacked =>
          expect [dest_ unpacked =? 3; src_ unpacked =? 7; ttl_ unpacked =? 12;
                  protocol_ unpacked =? PING_PKT; seq_ unpacked =? 0x12345678;
                  bool_decide (payload_ unpacked = payload)]
      end
  end.

Definition SeqZeroRoundTrips : bool :=
  match new_Packet 0 1 15 TRANSPORT_PKT 0 [] with
  | inl _ => false
  | inr p =>
      let packed := pack p in
      expect [vsize packed =? HEADER_SIZE; bytes_are (drop 5 packed) [0; 0; 0; 0]] &&
      match unpack packed with
      | None => false
      | Some unpacked => seq_ unpacked =? 0
      end
  end.

Definition FrozenConstants : bool :=
  expect [HEADER_SIZE =? 9; MAX_PACKET_SIZE =? 128; MAX_PAYLOAD_SIZE =? 119;
          MAX_ADDRESS =? 255; BROADCAST_ADDRESS =? 255; MAX_TTL =? 15].

Definition RejectsTooLargePayload : bool :=
  let payload := replicate (Z.to_nat (MAX_PAYLOAD_SIZE + 1)) (u8 0) in
  match new_Packet 1 2 3 PING_PKT 0 payload with
  | inl (invalid_argument _) => true
  | _ => false
  end.

Definition ValidToSendRequiresNonZeroTtl : bool :=
  match new_Packet 1 2 0 PING_PKT 0 [] with
  | inl _ => false
  | inr p => expect [isValid p; negb (isValidToSend p)]
  end.
End PacketTest.

Module TransportTest.
Import Transport.

Definition Transport_RoundTrip : bool :=
  let payload := stringToBytes "abcd" in
  match new_Transport 10 21 DATA 0x20304050 0x01020304 payload with
  | inl _ => false
  | inr t =>
      let packed := pack t in
      expect [vsize packed =? HEADER_SIZE + vsize payload;
              bytes_are packed [10; 21; DATA; 0x20; 0x30; 0x40; 0x50; 1; 2; 3; 4;
                                HEADER_SIZE + vsize payload]] &&
      match unpack packed with
      | None => false
      | Some unpacked =>
          expect [srcPort_ unpacked =? 10; destPort_ unpacked =? 21; type_ unpacked =? DATA;
                  window_ unpacked =? 0x20304050; seqNum_ unpacked =? 0x01020304;
                  bool_decide (payload_ unpacked = payload)]
      end
  end.

Definition Transport_HeaderSize : bool := HEADER_SIZE =? 12.

Definition EmptyPayload : bool :=
  match new_Transport 1 2 ACK 0 0 [] with
  | inl _ => false
  | inr t =>
      let packed := pack t in
      (vsize packed =? HEADER_SIZE) &&
      match unpack packed with
      | None => false
      | Some unpacked => type_ unpacked =? ACK
      end
  end.
End TransportTest.

Module EmulatorPacketTest.
Import EmulatorPacket.

Definition EmulatorPacket_RoundTrip : bool :=
  let payload := stringToBytes "hi" in
  match new_EmulatorPacket 5 9 payload with
  | inl _ => false
  | inr p =>
      let packed := pack p in
      expect [vsize packed =? HEADER_SIZE + vsize payload;
              bytes_are packed [5; 9; HEADER_SIZE + vsize payload]] &&
      match unpack packed with
      | None => false
      | Some unpacked =>
          expect [destAddr_ unpacked =? 5; srcAddr_ unpacked =? 9;
                  bool_decide (payload_ unpacked = payload)]
      end
  end.

Definition EmulatorPacket_HeaderSize : bool := expect [HEADER_SIZE =? 3; MAX_PACKET_SIZE =? 131].
End EmulatorPacketTest.

(** ** test_ordered_event_queue.cpp *)

(** The callbacks are functions on the variable that the closures share. *)
Module OrderedEventQueueTest.

(** [n] times: take the next event and call it. *)
Fixpoint call_next {X} (n : nat) (x : X) : M (@OrderedEventQueue (X -> X)) X :=
  match n with
  | O => ret x
  | S n =>
      let! ev := removeNextEvent in
      match callback ev with
      | Some f => call_next n (f x)
      | None => throw bad_function_call
      end
  end.

Definition InsertSorted : bool :=
  let q := add_all [mkEvent 300 (Some (fun order => order + 3));
                    mkEvent 100 (Some (fun order => order * 10 + 1));
                    mkEvent 200 (Some (fun order => order * 10 + 2))] [] in
  Nat.eqb (length q) 3 &&
  match call_next 3 0 q with
  | (Ret order, q) => expect [order =? 15; queue_empty q]
  | _ => false
  end.

(** The test's loop runs until the queue is empty, which is after as many steps as
    there are events. *)
Definition EqualTimesAppendedInOrder : bool :=
  let q := add_all [mkEvent 100 (Some (fun s => s +:+ "a"));
                    mkEvent 100 (Some (fun s => s +:+ "b"));
                    mkEvent 100 (Some (fun s => s +:+ "c"))] [] in
  match call_next (length q) EmptyString q with
  | (Ret s, q) => expect [String.eqb s "abc"; queue_empty q]
  | _ => false
  end.
End OrderedEventQueueTest.

(** ** test_commands_parser.cpp *)

Module CommandsParserTest.

(** The parser's subclass, with the singleton of the topology. *)
Record TestParser : Type := mkTestParser {
  nodeCmds : list (list string);
  exitSeen : bool;
  test_topo : TopoCell
}.

#[export] Instance eta_TestParser : Eta TestParser := fun s =>
  mkTestParser (nodeCmds s) (exitSeen s) (test_topo s).

Definition set_nodeCmds (v : list (list string)) (s : TestParser) : TestParser :=
  ltac:(set_field nodeCmds v s).
Definition set_exitSeen (v : bool) (s : TestParser) : TestParser := ltac:(set_field exitSeen v s).
Definition set_test_topo (v : TopoCell) (s : TestParser) : TestParser :=
  ltac:(set_field test_topo v s).

Definition test_topology {A} (m : M TopoSt A) : M TestParser A :=
  zoom test_topo set_test_topo (with_instance false m).

Definition test_exitCmd (cmd : list string) : M TestParser unit :=
  if is_cmd "exit" cmd then modify (set_exitSeen true) else ret tt.

Definition test_parseNodeCmd (cmd : list string) : M TestParser unit :=
  modify (fun s => set_nodeCmds (nodeCmds s ++ [cmd]) s).

#[export] Instance TestParser_commands : CommandOps TestParser := {|
  p_emit o := zoom test_topo set_test_topo
    (modify (fun c => mkTopoCell (instancePtr c) (cell_seeds c) (cell_out c ++ [o])));
  exitCmd := test_exitCmd;
  parseNodeCmd := test_parseNodeCmd
|}.

(** The hooks that are not overridden. *)
#[export] Instance TestParser_ops : ParserOps TestParser := {|
  createNewEdge a b opts := test_topology (newEdge a b opts);
  failEdgeHook a b := test_topology (failEdge a b);
  failNodeHook a := test_topology (failNode a);
  restartEdgeHook a b := test_topology (restartEdge a b);
  restartNodeHook a := test_topology (restartNode a)
|}.

(** [SetUp] of the fixture, and a new parser. *)
Definition SetUp : TestParser :=
  mkTestParser [] false (reset (mkTopoCell None (fun _ _ => dofZ 1) [])).2.

(** [Topology::instance().getLiveEdge(a, b)] and what it points to. *)
Definition live_edge (a b : Z) : M TestParser (option Edge) :=
  test_topology (
    let! i := getLiveEdge a b in
    match i with
    | None => ret None
    | Some i => let! e := deref_edge i in ret (Some e)
    end).

(** A test passes if its body ends and all its expectations hold. *)
Definition passes (body : M TestParser bool) : bool :=
  match body SetUp with (Ret ok, _) => ok | _ => false end.

Definition EchoAndComments : bool := passes (
  let! a := parseLine "# a comment" 0 in
  let! b := parseLine "// another" 0 in
  let! c := parseLine EmptyString 0 in
  let! d := parseLine "echo hello world" 0 in
  let! cmds := gets nodeCmds in
  ret (expect [a =? -1; b =? -1; c =? -1; d =? -1; Nat.eqb (length cmds) 0])).

Definition TimeCommand : bool := passes (
  let! a := parseLine "time 5" 0 in
  let! b := parseLine "time + 10" 1000 in
  ret (expect [a =? 5000; b =? 11000])).

Definition EdgeCreation : bool := passes (
  let! a := parseLine "edge 0 1" 0 in
  let! e := live_edge 0 1 in
  match e with
  | None => ret false
  | Some e =>
      ret (expect [a =? -1; deqb (lossRate (options_ e)) (dofZ 0); delayMs (options_ e) =? 1])
  end).

Definition EdgeWithOptions : bool := passes (
  let! a := parseLine "edge 0 1 lossRate 0.05 delay 200 bw 10000 bt 1000" 0 in
  let! e := live_edge 0 1 in
  match e with
  | None => ret false
  | Some e =>
      ret (expect [a =? -1; deqb (lossRate (options_ e)) one_twentieth;
                   delayMs (options_ e) =? 200; bwBytesPerSec (options_ e) =? 10000;
                   bufferingMs (options_ e) =? 1000])
  end).

(** The test looks at the first four words of the one command. *)
Definition NodeCommand : bool := passes (
  parseLine "0 1 Hi there!" 100 ;;
  let! cmds := gets nodeCmds in
  ret (match cmds with
       | [cmd] => bool_decide (take 4 cmd = ["0"; "1"; "Hi"; "there!"])
       | _ => false
       end)).

Definition ExitRecognized : bool := passes (parseLine "exit" 0 ;; gets exitSeen).

Definition FailRestartEdge : bool := passes (
  parseLine "edge 0 1" 0 ;;
  parseLine "fail 0 1" 0 ;;
  let! failed := live_edge 0 1 in
  parseLine "restart 0 1" 0 ;;
  let! restarted := live_edge 0 1 in
  ret (match failed, restarted with None, Some _ => true | _, _ => false end)).
End CommandsParserTest.

(** ** test_trawler_node_arp_commands.cpp *)

Module TrawlerArpCommandsTest.

Definition options_are (o : EdgeOptions) (loss : double) (delay bw bt : Z) : bool :=
  expect [deqb (lossRate o) loss; delayMs o =? delay; bwBytesPerSec o =? bw; bufferingMs o =? bt].

Definition AddNeighborBasic : bool :=
  let s := addNeighbor 3 "127.0.0.1" 9000 in
  String.eqb s "add 3 127.0.0.1 9000" &&
  match receiveAddNeighbor s with
  | None => false
  | Some r =>
      expect [nodeId r =? 3; String.eqb (ipAddress r) "127.0.0.1"; Arp.port r =? 9000;
              match options r with None => true | Some _ => false end]
  end.

Definition AddNeighborWithOptions : bool :=
  let opts :=
    setBT 1000 (setBW 10000 (setDelay 200 (setLossRate one_twentieth default_EdgeOptions))) in
  let s := addNeighborOptions 5 "host.local" 12345 opts in
  String.eqb s "add 5 host.local 12345 lossRate 0.05 delay 200 bw 10000 bt 1000" &&
  match receiveAddNeighbor s with
  | None => false
  | Some r =>
      expect [nodeId r =? 5; Arp.port r =? 12345] &&
      match options r with
      | None => false
      | Some o => options_are o one_twentieth 200 10000 1000
      end
  end.

Definition Remove : bool :=
  expect [String.eqb (removeNeighbor 7) "remove 7"; receiveRemoveNeighbor "remove 7" =? 7;
          receiveRemoveNeighbor "not a command" =? -1].

Definition Reset : bool :=
  expect [String.eqb reset_command "reset"; receiveReset "reset";
          negb (receiveReset "reset extra")].

Definition JavaDoubleFormatZero : bool :=
  let s := addNeighborOptions 0 "x" 1 (setLossRate (dofZ 0) default_EdgeOptions) in
  match String.index 0 "lossRate 0.0 " s with Some _ => true | None => false end.
End TrawlerArpCommandsTest.

(** ** All of them pass *)

Definition unit_tests : list bool :=
  [PacketTest.Packet_RoundTrip; PacketTest.SeqZeroRoundTrips; PacketTest.FrozenConstants;
   PacketTest.RejectsTooLargePayload; PacketTest.ValidToSendRequiresNonZeroTtl;
   TransportTest.Transport_RoundTrip; TransportTest.Transport_HeaderSize; TransportTest.EmptyPayload;
   EmulatorPacketTest.EmulatorPacket_RoundTrip; EmulatorPacketTest.EmulatorPacket_HeaderSize;
   OrderedEventQueueTest.InsertSorted; OrderedEventQueueTest.EqualTimesAppendedInOrder;
   CommandsParserTest.EchoAndComments; CommandsParserTest.TimeCommand;
   CommandsParserTest.EdgeCreation; CommandsParserTest.EdgeWithOptions;
   CommandsParserTest.NodeCommand; CommandsParserTest.ExitRecognized;
   CommandsParserTest.FailRestartEdge; TrawlerArpCommandsTest.AddNeighborBasic;
   TrawlerArpCommandsTest.AddNeighborWithOptions; TrawlerArpCommandsTest.Remove;
   TrawlerArpCommandsTest.Reset; TrawlerArpCommandsTest.JavaDoubleFormatZero].

Example unit_tests_pass : Forall (fun passed => passed = true) unit_tests.
Proof. repeat constructor; vm_compute; reflexivity. Qed.
